(* ===== verification/_CoqProject ===== *)
-Q . S2P
Prelude.v
GoStrings.v
Utf8.v
GoTime.v
GoJson.v
Marshal.v
Order.v
StrictJson.v
Sha256.v
Sql.v
Schema.v
Keyed.v
Events.v
Heartbeats.v
Base64.v
FlatJson.v
GoTimeFacts.v
Canonical.v
Query.v
Platform.v
Config.v
Coverage.v
MediaStore.v
OpsStore.v
Timeline.v
TimelineSync.v
TimelinePages.v
CoverageStore.v
CoverageRebuild.v
Sidecar.v
Heap.v
MediaScan.v
MediaFiles.v
MediaIngest.v
PathFacts.v
MediaFrame.v
MediaAccept.v
ActivityWatch.v
ActivityWatchFetch.v
ActivityWatchPoll.v
Operations.v
PlatformCalls.v
Retention.v
HttpApi.v
Server.v
ApiBatch.v
Migration.v
DatabaseFiles.v
Certification.v
Commands.v
Logging.v
Probe.v
Dashboard.v
History.v
HistoryRun.v
HistoryPoll.v
Protection.v
ProtectionPoll.v
Custody.v
Lifecycle.v
Durability.v
