(* ===== verification/Prelude.v ===== *)
(** * Study Monitor: a verification library for the recorder core

    The program records study evidence on one machine: an HTTP server that accepts
    batches of events and heartbeats, a module that takes media files from an
    inbox, collectors that poll ActivityWatch, a SQLite store with append-only logs
    and projections, storage protection and retention, and a command line.  The
    library models the Go code under src/internal and src/cmd function by function,
    with the names of the code, and proves what the parts promise.

    ** How the parts interact

    [Commands] reads the flags and the configuration ([Config]) and opens the store
    ([DatabaseFiles], [Migration]).  [Lifecycle] is [app.Run]: the handler of the
    API ([HttpApi], [Server]) beside the loops of the operations manager
    ([Operations]), of media ingest ([MediaIngest]) and of one worker per
    ActivityWatch collector ([ActivityWatch]).  All of them write to one database
    ([Schema]) through the operations of the store ([Events], [Heartbeats],
    [MediaStore], [OpsStore], [Timeline], [CoverageStore]); the gates of the
    operations manager stop them where the disk is short.

    ** Conventions

    - A Go function with an error is a function into [result]: [Ok] for a nil
      error.  A [time.Time] is the number of nanoseconds since the zero time
      ([GoTime]), a [time.Duration] a number; int64 arithmetic that can overflow is
      written with its wrap-around ([wrap64], [u64], [saturatedAdd]).
    - A Go string is a string of bytes; runes, UTF-8, spaces and decimal numbers
      are in [GoStrings], the JSON of [encoding/json] (tokens, documents, output)
      in [GoJson], SHA-256 in [Sha256], base64 in [Base64].
    - Computations are state monads that keep the state where they fail:
      [M S] ([Sql]) over a database or a volume of files, with an oracle that says
      at which statements the driver fails; [F] ([MediaFiles]) over files and
      database, with an environment indexed by the number of the step; [P]
      ([ActivityWatch]) over the database and the status of the collectors.  A
      transaction that does not commit restores the database; a failing call of the
      file system leaves nothing behind but a short write, and a failing VACUUM
      INTO what the interface says.
    - Code outside the repository is an interface, a type class, each with an
      instance for the witnesses: [Paths], [FilePaths] and their laws [PathLaws]
      (path/filepath), [Zones], [Network], [Floats], [Urls] (time zones, addresses,
      scaling of fractions), [Float64], [FloatText], [ProbeFloats] (floating point),
      [WindowsCalls], [UnixCalls] (system calls), [SqliteJson], [SqliteReal]
      (functions of SQLite), [Environment],
      [Surroundings], [Disk], [Requests] (clock, gates, other processes, HTTP and
      ffprobe answers, free space), [Commands] of [Probe] (processes), [Volumes],
      [Engine] (files of SQLite), [Scripts], [Ranges] (migration scripts, the order
      of Go maps) and [Program] (the server behind the command line).

    ** The files

    - Prelude, GoStrings, GoTime, GoTimeFacts, GoJson, FlatJson, Order, Sha256,
      Base64: the library the components share; Utf8 and Marshal: what
      [json.Marshal] writes is read back.
    - StrictJson (strictjson/keys.go): the token loop accepts exactly the documents
      whose objects have unique keys, with the allowed or required keys at the root.
    - Sql, Schema, Keyed (eventstore/errors.go, migrations): statements,
      transactions, the classification of driver errors, the rows and CHECK
      constraints of every table, and the batch procedure over an abstract table
      with a unique key.
    - Events, Heartbeats, Query (event.go, heartbeat.go, query.go): validation,
      canonical payloads and hashes; a batch appends, keeps keys unique, and reports
      what the table holds; a retry changes nothing; cursors are read back, and the
      pages of a snapshot are complete.
    - Canonical (event.go): the canonical text of a payload is a normal form up to
      the order of members, and the content hash stands for what an event says.
    - Config, Platform (config/config.go): decoding, environment, validation; a
      configuration that loads meets the bounds the other parts rely on, among them
      positive periods for every ticker.
    - Coverage, CoverageStore, CoverageRebuild (coverage/coverage.go,
      eventstore/coverage.go): the built intervals are, instant by instant, the
      status of a reference definition; the stored ones represent it, and the
      overlap trigger never refuses them.
    - MediaStore, OpsStore (media.go, operations.go, activitywatch.go,
      readiness.go): claims and acceptance, projections equal to a fold of their
      logs, retention log, mode transitions, checkpoints, readiness.
    - Timeline, TimelineSync, TimelinePages (timeline.go): a sync writes exactly
      projections of source rows and misses none of its range; pages are complete.
    - Sidecar, Heap, MediaScan, MediaFiles, MediaIngest, PathFacts, MediaFrame,
      MediaAccept, Probe (mediaingest): a scan takes the first candidates of a
      rotation and repeated scans are fair; processing a file changes no file but
      its own; what is reported accepted is stored, installed and confirmed.
    - ActivityWatch, ActivityWatchFetch, ActivityWatchPoll
      (collectors/activitywatch.go): a fetch reads every event of its range; a poll
      that fails anywhere never leaves its checkpoint past an unrecorded event.
    - Operations, Retention (operations): what is deleted is old, announced, and
      covered by a full backup whose copy was read.
    - PlatformCalls (operations/disk_*.go, mediaingest/stamp_*.go and
      path_windows.go, version): the free space, identity and attributes of files
      over the system calls; the identity tells files apart.
    - HttpApi, Server, ApiBatch (httpapi/handler.go, app/server.go): a confirmed
      batch is in the table; slots are bounded over every interleaving.
    - Migration, DatabaseFiles, Certification (eventstore): a migration applies the
      missing scripts in order, and the ledgers account for the tables; a backup is
      a verified copy; verification is exact; snapshots partition the tables.
    - Commands, Logging, Dashboard (cmd/exam-monitor, logging, dashboard): exit
      codes and the files each action may write; the bounds of the log files; the
      asset table.
    - History, HistoryRun, HistoryPoll, Protection, ProtectionPoll, Custody,
      Lifecycle, Durability (app/server.go): what every operation keeps, against the
      interfaces [Remembers] and [RemembersMedia] (the rows of the append-only
      tables, the segments); none adds evidence behind a closed gate, and none loses
      the file of a segment without an announcement; [Run] as one transition system,
      which keeps all that over every interleaving and with it what the answers to
      clients said, takes nothing at the reserve of the disk, refines the server of
      [Server], waits for its loops and can always come to its end.

    ** Fuel and bounds

    Parsers recurse on fuel that is the length of their input, and so do the loops
    over runes and digits; heaps on their length.  The copies of media ingest have
    fuel for every byte below the configured limit and one more; [copies_end] shows
    that it never runs out.  The loop over dates has fuel for an hour per date,
    enough where the offsets of a zone stay within half a day
    ([plannedIntervals_total]); where the code does not end the model says so
    ([Endless], [NoReturn], [Hang]).  Pages of a fetch are bounded by the
    configuration, links by [link_limit], migrations by the ledger.

    ** Not modelled

    - Goroutines run as interleaved steps: a tick, a scan, a poll and a request are
      each one step, after the turn at a lock or a slot where the code has one.
      Between the calls of one step other processes may change files, but not the
      other loops the database; their statements are serialized by SQLite.
    - The gates that media ingest and the collectors ask are answers of the
      environment; where it matters ([reserve_protects]) the class [Wired] ties
      them to the free space the operations manager reads.  The states of the
      modules in status responses are answers of the environment throughout.
    - A directory is listed in one call.  Test hooks are nil.  The drive letters of
      Windows do not occur in data source names.
    - Responses are values: their JSON text, HTTP framing, path cleaning of the mux
      and the runtime counters of the status are left out.  A request that outlives
      [Run] is not followed.
    - The contents of the migration scripts beyond the tables of [Schema], the front
      end and the scripts around the program. *)

From Stdlib Require Import ZArith Lia String Ascii.
From stdpp Require Export base tactics list strings gmap sorting.

(** ** Results

    Go functions return a value and an error.  A function of the model returns
    [Ok v] where the code returns [v, nil] and [Err e] where it returns a
    non-nil error. *)
Inductive result (E A : Type) : Type :=
  | Ok (a : A)
  | Err (e : E).
Arguments Ok {E A} a.
Arguments Err {E A} e.

Definition rbind {E A B : Type} (m : result E A) (k : A -> result E B) : result E B :=
  match m with Ok a => k a | Err e => Err e end.

Definition rmap {E A B : Type} (f : A -> B) (m : result E A) : result E B :=
  match m with Ok a => Ok (f a) | Err e => Err e end.

Definition is_ok {E A : Type} (m : result E A) : bool :=
  match m with Ok _ => true | Err _ => false end.

Declare Scope result_scope.
Delimit Scope result_scope with result.
Notation "'let?' x ':=' m 'in' k" := (rbind m (fun x => k))
  (at level 10, x pattern, m at level 100, k at level 200) : result_scope.
Notation "'guard?' b 'else' e 'in' k" := (if b then k else Err e)
  (at level 10, b at level 100, e at level 100, k at level 200) : result_scope.

Lemma rbind_Ok {E A B : Type} (m : result E A) (k : A -> result E B) b :
  rbind m k = Ok b -> exists a, m = Ok a /\ k a = Ok b.
Proof. destruct m; simpl; [eauto | discriminate]. Qed.

Lemma guard_Ok {E A : Type} (b : bool) (e : E) (k : result E A) a :
  (if b then k else Err e) = Ok a -> b = true /\ k = Ok a.
Proof. destruct b; [auto | discriminate]. Qed.

Lemma guard_neg_Ok {E A : Type} (b : bool) (e : E) (k : result E A) a :
  (if b then Err e else k) = Ok a -> b = false /\ k = Ok a.
Proof. destruct b; [discriminate | auto]. Qed.

(** ** Tactics *)

(** Takes apart one hypothesis [m = Ok v] built from binds and guards. *)
Ltac inv_ok H :=
  let a := fresh "a" in let Ha := fresh "Ha" in
  lazymatch type of H with
  | rbind _ _ = Ok _ => apply rbind_Ok in H; destruct H as (a & Ha & H)
  | (if _ then Err _ else _) = Ok _ => apply guard_neg_Ok in H; destruct H as [Ha H]
  | (if _ then _ else Err _) = Ok _ => apply guard_Ok in H; destruct H as [Ha H]
  end.
Ltac inv_oks H := cbv beta in H; repeat (inv_ok H; cbv beta in H).

(** Case analysis on the scrutinee of a match or conditional of the goal. *)
Ltac case_goal :=
  match goal with
  | |- context [match ?x with _ => _ end] =>
      lazymatch x with context [match _ with _ => _ end] => fail | _ => destruct x eqn:? end
  end.
Ltac case_hyp H :=
  match type of H with
  | context [match ?x with _ => _ end] =>
      lazymatch x with context [match _ with _ => _ end] => fail | _ => destruct x eqn:? end
  end.

(** Turns boolean facts into propositions. *)
Ltac to_prop :=
  repeat match goal with
  | H : (_ && _)%bool = true |- _ => apply andb_true_iff in H; destruct H
  | H : (_ || _)%bool = false |- _ => apply orb_false_iff in H; destruct H
  | H : negb _ = true |- _ => apply negb_true_iff in H
  | H : negb _ = false |- _ => apply negb_false_iff in H
  | H : (_ <? _)%Z = true |- _ => apply Z.ltb_lt in H
  | H : (_ <? _)%Z = false |- _ => apply Z.ltb_ge in H
  | H : (_ <=? _)%Z = true |- _ => apply Z.leb_le in H
  | H : (_ <=? _)%Z = false |- _ => apply Z.leb_gt in H
  | H : (_ =? _)%Z = true |- _ => apply Z.eqb_eq in H
  | H : (_ =? _)%Z = false |- _ => apply Z.eqb_neq in H
  | H : (_ =? _)%string = true |- _ => apply String.eqb_eq in H
  | H : (_ =? _)%string = false |- _ => apply String.eqb_neq in H
  | H : bool_decide _ = true |- _ => apply bool_decide_eq_true in H
  | H : bool_decide _ = false |- _ => apply bool_decide_eq_false in H
  end.

(** Unfolds the function a computation is an application of. *)
Ltac recall_head m := lazymatch m with ?f _ => recall_head f | ?f => unfold f end.

(** ** Machine integers *)

Definition int64_max : Z := 9223372036854775807.
Definition int64_min : Z := -9223372036854775808.
Definition uint64_max : Z := 18446744073709551615.

(** Two's complement wrap-around of Go's [int64] arithmetic. *)
Definition wrap64 (z : Z) : Z := ((z + 2 ^ 63) mod 2 ^ 64 - 2 ^ 63)%Z.

Lemma wrap64_id (z : Z) : (int64_min <= z <= int64_max)%Z -> wrap64 z = z.
Proof.
  unfold wrap64, int64_min, int64_max. intros H.
  change (2 ^ 63)%Z with 9223372036854775808%Z.
  change (2 ^ 64)%Z with 18446744073709551616%Z.
  rewrite Z.mod_small; lia.
Qed.

(** ** Stable insertion sort by a strict order

    [sort.Slice] with a comparison that orders distinct elements has one
    possible result; insertion sort computes it. *)
Section Sort.
Context {A : Type} (lt : A -> A -> bool).

Fixpoint insert_by (x : A) (l : list A) : list A :=
  match l with
  | [] => [x]
  | y :: l' => if lt y x then y :: insert_by x l' else x :: l
  end.

Fixpoint sort_by (l : list A) : list A :=
  match l with
  | [] => []
  | x :: l' => insert_by x (sort_by l')
  end.

(** [le_by x y]: [x] may stand before [y]. *)
Definition le_by (x y : A) : Prop := lt y x = false.

Lemma insert_by_perm x l : insert_by x l ≡ₚ x :: l.
Proof.
  induction l as [|y l IH]; simpl; [done|].
  destruct (lt y x); [|done]. rewrite IH. apply perm_swap.
Qed.

Lemma sort_by_perm l : sort_by l ≡ₚ l.
Proof. induction l as [|x l IH]; simpl; [done|]. by rewrite insert_by_perm, IH. Qed.

Lemma elem_of_sort_by x l : x ∈ sort_by l <-> x ∈ l.
Proof. by rewrite (sort_by_perm l). Qed.

Lemma length_sort_by l : length (sort_by l) = length l.
Proof. by rewrite (sort_by_perm l). Qed.

Context (lt_asym : forall x y, lt x y = true -> lt y x = false).
Context (le_trans : forall x y z, le_by x y -> le_by y z -> le_by x z).

Lemma insert_by_sorted x l :
  StronglySorted le_by l -> StronglySorted le_by (insert_by x l).
Proof.
  induction 1 as [|y l Hl IH Hy]; simpl; [repeat constructor|].
  destruct (lt y x) eqn:E.
  - constructor; [done|]. rewrite insert_by_perm. constructor; [|done].
    apply lt_asym, E.
  - constructor; [by constructor|]. constructor; [done|].
    eapply Forall_impl; [exact Hy|]. intros z Hz. eapply le_trans; [exact E|exact Hz].
Qed.

Lemma sort_by_sorted l : StronglySorted le_by (sort_by l).
Proof. induction l; simpl; [constructor | by apply insert_by_sorted]. Qed.
End Sort.

(** ** Lists *)

(** Splits a list into chunks of [n] elements; the code's loops
    [for offset := 0; offset < len(l); offset += n]. *)
Fixpoint chunks_fuel {A : Type} (fuel : nat) (n : nat) (l : list A) : list (list A) :=
  match fuel, l with
  | O, _ | _, [] => []
  | S fuel', _ => take n l :: chunks_fuel fuel' n (drop n l)
  end.
Definition chunks {A : Type} (n : nat) (l : list A) : list (list A) :=
  chunks_fuel (length l) n l.

Lemma chunks_fuel_concat {A : Type} (n : nat) (Hn : (0 < n)%nat) :
  forall fuel (l : list A), (length l <= fuel)%nat -> concat (chunks_fuel fuel n l) = l.
Proof.
  induction fuel as [|fuel IH]; intros [|x l] Hl; simpl in *; try done; [lia|].
  destruct n as [|n]; [lia|]. simpl. f_equal.
  rewrite IH; [apply take_drop|]. rewrite length_drop. lia.
Qed.

Lemma chunks_concat {A : Type} (n : nat) (l : list A) :
  (0 < n)%nat -> concat (chunks n l) = l.
Proof. intros Hn. by apply chunks_fuel_concat. Qed.

Lemma chunks_fuel_length {A : Type} (n : nat) :
  forall fuel (l c : list A), c ∈ chunks_fuel fuel n l -> (length c <= n)%nat.
Proof.
  induction fuel as [|fuel IH]; intros l c; simpl.
  - destruct l; intros H; by apply elem_of_nil in H.
  - destruct l as [|x l]; intros H; [by apply elem_of_nil in H|].
    apply elem_of_cons in H as [->|H]; [|by eapply IH].
    rewrite length_take. lia.
Qed.

Lemma chunks_length {A : Type} (n : nat) (l c : list A) :
  c ∈ chunks n l -> (length c <= n)%nat.
Proof. apply chunks_fuel_length. Qed.

(** First element satisfying a test. *)
Fixpoint find_first {A : Type} (f : A -> bool) (l : list A) : option A :=
  match l with
  | [] => None
  | x :: l' => if f x then Some x else find_first f l'
  end.

Lemma find_first_Some {A : Type} (f : A -> bool) l x :
  find_first f l = Some x -> x ∈ l /\ f x = true.
Proof.
  induction l as [|y l IH]; simpl; [discriminate|].
  destruct (f y) eqn:E.
  - intros [= <-]. split; [left | done].
  - intros H. apply IH in H as [? ?]. split; [by right | done].
Qed.

Lemma find_first_None {A : Type} (f : A -> bool) l :
  find_first f l = None <-> forall x, x ∈ l -> f x = false.
Proof.
  induction l as [|y l IH]; simpl.
  - split; [|done]. intros _ x Hx. by apply elem_of_nil in Hx.
  - destruct (f y) eqn:E; split.
    + discriminate.
    + intros H. rewrite (H y) in E; [done|left].
    + intros H x Hx. apply elem_of_cons in Hx as [->|Hx]; [done|]. by apply IH.
    + intros H. apply IH. intros x Hx. apply H. by right.
Qed.

Lemma find_first_app {A : Type} (f : A -> bool) l1 l2 :
  find_first f (l1 ++ l2) =
    match find_first f l1 with Some x => Some x | None => find_first f l2 end.
Proof. induction l1 as [|x l1 IH]; simpl; [done|]. by destruct (f x). Qed.

(** Filters ([List.filter], on boolean tests). *)
Lemma filter_filter_and {A} (f g : A -> bool) (l : list A) :
  List.filter f (List.filter g l) = List.filter (fun x => g x && f x) l.
Proof.
  induction l as [|x l IH]; [done|]. simpl. destruct (g x); simpl; [|done].
  destruct (f x); by rewrite IH.
Qed.

Lemma filter_ext_in {A} (f g : A -> bool) (l : list A) :
  (forall x, x ∈ l -> f x = g x) -> List.filter f l = List.filter g l.
Proof.
  induction l as [|x l IH]; intros H; [done|]. simpl. rewrite (H x) by left.
  rewrite IH; [done|]. intros y Hy. apply H. by right.
Qed.

(** Last element satisfying a test: the row an [ORDER BY id DESC LIMIT 1]
    query selects from a table kept in id order. *)
Definition find_last {A : Type} (f : A -> bool) (l : list A) : option A :=
  find_first f (rev l).

Lemma find_last_app {A : Type} (f : A -> bool) l1 l2 :
  find_last f (l1 ++ l2) =
    match find_last f l2 with Some x => Some x | None => find_last f l1 end.
Proof. unfold find_last. by rewrite rev_app_distr, find_first_app. Qed.

Lemma find_last_snoc {A : Type} (f : A -> bool) l x :
  find_last f (l ++ [x]) = if f x then Some x else find_last f l.
Proof. rewrite find_last_app. unfold find_last. simpl. by destruct (f x). Qed.

Lemma find_last_Some {A : Type} (f : A -> bool) l x :
  find_last f l = Some x -> x ∈ l /\ f x = true.
Proof.
  unfold find_last. intros H. apply find_first_Some in H as [H ?]. split; [|done].
  by rewrite list_elem_of_In, <- in_rev, <- list_elem_of_In in H.
Qed.

(** ** The hint database of the development *)
Create HintDb monitor discriminated.
#[export] Hint Resolve wrap64_id sort_by_perm chunks_concat chunks_length : monitor.
