(* ===== verification/GoStrings.v ===== *)
(** * Go strings: bytes, UTF-8, white space and decimal numbers

    A Go string is a [string] of bytes.  The file has what the recorder uses of
    the packages [unicode/utf8], [unicode], [strings] and [strconv]. *)

From Stdlib Require Import ZArith Lia String Ascii.
From S2P Require Import Prelude.
Open Scope Z_scope.

(** ** Bytes *)
Definition code (a : ascii) : Z := Z.of_N (N_of_ascii a).
Definition chr (z : Z) : ascii := ascii_of_N (Z.to_N z).

Fixpoint bytes (s : string) : list Z :=
  match s with
  | EmptyString => []
  | String a s' => code a :: bytes s'
  end.

Fixpoint of_bytes (l : list Z) : string :=
  match l with
  | [] => EmptyString
  | z :: l' => String (chr z) (of_bytes l')
  end.

(** [len(s)]. *)
Fixpoint slen (s : string) : Z :=
  match s with
  | EmptyString => 0
  | String _ s' => 1 + slen s'
  end.

(** [s[:n]] and [s[n:]] for [0 <= n <= len(s)]. *)
Definition stake (n : nat) (s : string) : string := substring 0 n s.
Fixpoint sdrop (n : nat) (s : string) : string :=
  match n, s with
  | S n', String _ s' => sdrop n' s'
  | _, _ => s
  end.

Definition has_prefix (s p : string) : bool := String.prefix p s.
Definition has_suffix (s p : string) : bool :=
  (String.length p <=? String.length s)%nat &&
  String.eqb (sdrop (String.length s - String.length p) s) p.
Fixpoint contains_sub (s p : string) : bool :=
  String.prefix p s || match s with EmptyString => false | String _ s' => contains_sub s' p end.

Lemma code_range (a : ascii) : 0 <= code a <= 255.
Proof. unfold code. pose proof (N_ascii_bounded a). lia. Qed.

Lemma chr_code (a : ascii) : chr (code a) = a.
Proof. unfold chr, code. rewrite N2Z.id. apply ascii_N_embedding. Qed.

Lemma code_chr (z : Z) : 0 <= z <= 255 -> code (chr z) = z.
Proof. intros H. unfold chr, code. rewrite N_ascii_embedding; lia. Qed.

Lemma code_inj (a b : ascii) : code a = code b -> a = b.
Proof. intros H. by rewrite <- (chr_code a), <- (chr_code b), H. Qed.

Lemma of_bytes_bytes (s : string) : of_bytes (bytes s) = s.
Proof. induction s as [|a s IH]; simpl; [done|]. by rewrite chr_code, IH. Qed.

Lemma slen_length (s : string) : slen s = Z.of_nat (String.length s).
Proof. induction s as [|a s IH]; simpl; lia. Qed.

Lemma slen_nonneg (s : string) : 0 <= slen s.
Proof. rewrite slen_length. lia. Qed.

Lemma slen_app (s t : string) : slen (s ++ t) = slen s + slen t.
Proof.
  induction s as [|a s IH]; [done|].
  change (String a s ++ t)%string with (String a (s ++ t)). cbn [slen]. rewrite IH. lia.
Qed.

Lemma slen_nil_inv (s : string) : slen s <= 0 -> s = EmptyString.
Proof. destruct s as [|a s]; simpl; [done|]. pose proof (slen_nonneg s). lia. Qed.

Lemma length_bytes (s : string) : Z.of_nat (length (bytes s)) = slen s.
Proof. induction s as [|a s IH]; simpl; lia. Qed.

Lemma sapp_nil (t : string) : ("" ++ t = t)%string.
Proof. done. Qed.

Lemma sapp_cons (x : ascii) (s t : string) :
  (String x s ++ t = String x (s ++ t))%string.
Proof. done. Qed.

Lemma sappend_assoc (a b c : string) : ((a ++ b) ++ c = a ++ (b ++ c))%string.
Proof. induction a as [|x a IH]; [done|]. by rewrite ?sapp_cons, IH. Qed.

Lemma sappend_nil_r (a : string) : (a ++ "" = a)%string.
Proof. induction a as [|x a IH]; [done|]. by rewrite ?sapp_cons, IH. Qed.

(** Concatenations to the right, constructors outside. *)
Create Rewrite HintDb sapp.
#[export] Hint Rewrite sappend_assoc sapp_cons sapp_nil : sapp.

(** ** UTF-8 *)
Definition rune_error : Z := 65533.
Definition is_cont (b : Z) : bool := (128 <=? b) && (b <=? 191).
(** [utf8.RuneStart]. *)
Definition rune_start (b : Z) : bool := negb (is_cont b).

(** [utf8.DecodeRune]: the first rune and its width; a malformed sequence is
    [RuneError] of width 1. *)
Definition decode_rune (l : list Z) : Z * nat :=
  match l with
  | [] => (rune_error, 0%nat)
  | b0 :: t =>
    if b0 <? 128 then (b0, 1%nat)
    else if (194 <=? b0) && (b0 <=? 223) then
      match t with
      | b1 :: _ => if is_cont b1 then ((b0 - 192) * 64 + (b1 - 128), 2%nat)
                   else (rune_error, 1%nat)
      | _ => (rune_error, 1%nat)
      end
    else if (224 <=? b0) && (b0 <=? 239) then
      match t with
      | b1 :: b2 :: _ =>
        let lo := if b0 =? 224 then 160 else 128 in
        let hi := if b0 =? 237 then 159 else 191 in
        if (lo <=? b1) && (b1 <=? hi) && is_cont b2
        then ((b0 - 224) * 4096 + (b1 - 128) * 64 + (b2 - 128), 3%nat)
        else (rune_error, 1%nat)
      | _ => (rune_error, 1%nat)
      end
    else if (240 <=? b0) && (b0 <=? 244) then
      match t with
      | b1 :: b2 :: b3 :: _ =>
        let lo := if b0 =? 240 then 144 else 128 in
        let hi := if b0 =? 244 then 143 else 191 in
        if (lo <=? b1) && (b1 <=? hi) && is_cont b2 && is_cont b3
        then ((b0 - 240) * 262144 + (b1 - 128) * 4096 + (b2 - 128) * 64 + (b3 - 128), 4%nat)
        else (rune_error, 1%nat)
      | _ => (rune_error, 1%nat)
      end
    else (rune_error, 1%nat)
  end.

(** The runes a [range] loop over the string visits, with their widths. *)
Fixpoint runes_fuel (fuel : nat) (l : list Z) : list (Z * nat) :=
  match fuel, l with
  | O, _ | _, [] => []
  | S fuel', _ => let '(r, n) := decode_rune l in (r, n) :: runes_fuel fuel' (drop n l)
  end.
Definition runes_w (l : list Z) : list (Z * nat) := runes_fuel (length l) l.
Definition runes (s : string) : list Z := map fst (runes_w (bytes s)).

(** [utf8.ValidString]: a rune [RuneError] of width 1 is a malformed byte. *)
Definition valid_utf8 (s : string) : bool :=
  forallb (fun '(r, n) => negb ((r =? rune_error) && (n =? 1)%nat)) (runes_w (bytes s)).

(** [utf8.AppendRune]: a surrogate or out-of-range rune becomes [RuneError]. *)
Definition encode_rune (r : Z) : list Z :=
  if (0 <=? r) && (r <? 128) then [r]
  else if (0 <=? r) && (r <? 2048) then [192 + r / 64; 128 + r mod 64]
  else if (r <? 0) || (1114111 <? r) || ((55296 <=? r) && (r <=? 57343)) then [239; 191; 189]
  else if r <? 65536 then [224 + r / 4096; 128 + (r / 64) mod 64; 128 + r mod 64]
  else [240 + r / 262144; 128 + (r / 4096) mod 64; 128 + (r / 64) mod 64; 128 + r mod 64].

(** [string([]rune(s)[:n])]. *)
Definition runes_prefix (n : nat) (s : string) : string :=
  of_bytes (flat_map encode_rune (take n (runes s))).

(** [unicode.IsControl] (category Cc) and [unicode.IsSpace]. *)
Definition is_control (r : Z) : bool :=
  ((0 <=? r) && (r <=? 31)) || ((127 <=? r) && (r <=? 159)).
Definition is_space (r : Z) : bool :=
  ((9 <=? r) && (r <=? 13)) || (r =? 32) || (r =? 133) || (r =? 160) || (r =? 5760)
  || ((8192 <=? r) && (r <=? 8202)) || (r =? 8232) || (r =? 8233) || (r =? 8239)
  || (r =? 8287) || (r =? 12288).

(** [utf8.DecodeLastRune] on the bytes in reverse order. *)
Definition decode_last_rune (l : list Z) : Z * nat :=
  match l with
  | [] => (rune_error, 0%nat)
  | b :: _ =>
    if b <? 128 then (b, 1%nat)
    else
      match find_first (fun k => match nth_error l (k - 1) with
                                 | Some c => rune_start c | None => false end)
              [2; 3; 4]%nat with
      | Some k => let '(r, n) := decode_rune (rev (take k l)) in
                  if (n =? k)%nat then (r, k) else (rune_error, 1%nat)
      | None => (rune_error, 1%nat)
      end
  end.

Fixpoint trim_front (dec : list Z -> Z * nat) (fuel : nat) (l : list Z) : list Z :=
  match fuel, l with
  | O, _ | _, [] => l
  | S fuel', _ => let '(r, n) := dec l in
                  if is_space r then trim_front dec fuel' (drop n l) else l
  end.

(** [strings.TrimSpace]. *)
Definition trim_space (s : string) : string :=
  let l := trim_front decode_rune (String.length s) (bytes s) in
  let r := trim_front decode_last_rune (length l) (rev l) in
  of_bytes (rev r).

(** ** Decimal numbers *)
Definition is_digit (a : ascii) : bool := (48 <=? code a) && (code a <=? 57).
Definition digit_val (a : ascii) : Z := code a - 48.

Fixpoint digits_val (acc : Z) (s : string) : option Z :=
  match s with
  | EmptyString => Some acc
  | String a s' => if is_digit a then digits_val (10 * acc + digit_val a) s' else None
  end.

(** [strconv.Atoi] and [ParseInt(s, 10, 64)]: an optional sign and at least one
    digit, within the range of [int64]. *)
Definition parse_int (s : string) : option Z :=
  let '(neg, d) := match s with
                   | String "-" t => (true, t)
                   | String "+" t => (false, t)
                   | _ => (false, s)
                   end in
  match d with
  | EmptyString => None
  | _ => match digits_val 0 d with
         | Some v => let v := if neg : bool then - v else v in
                     if (int64_min <=? v) && (v <=? int64_max) then Some v else None
         | None => None
         end
  end.

(** The decimal digits of a number, at least [n] of them. *)
Fixpoint digits_pad (n : nat) (z : Z) : string :=
  match n with
  | O => EmptyString
  | S n' => (digits_pad n' (z / 10) ++ String (chr (48 + z mod 10)) EmptyString)%string
  end.

Fixpoint num_digits (fuel : nat) (z : Z) : nat :=
  match fuel with
  | O => 1
  | S f => if z <? 10 then 1%nat else S (num_digits f (z / 10))
  end.

(** [strconv.FormatInt(z, 10)]. *)
Definition format_int (z : Z) : string :=
  let a := Z.abs z in
  let d := digits_pad (num_digits (Z.to_nat (Z.log2 a)) a) a in
  if z <? 0 then String "-" d else d.

Fixpoint join (sep : string) (l : list string) : string :=
  match l with
  | [] => EmptyString
  | [x] => x
  | x :: l' => (x ++ sep ++ join sep l')%string
  end.

(** [strings.ToLower] where its result is compared with an ASCII text: the ASCII
    letters, and the two other runes whose lower case is ASCII, U+0130 to [i] and
    the Kelvin sign U+212A to [k]. Every other rune stays outside ASCII. *)
Definition lower_ascii (a : ascii) : ascii :=
  if (65 <=? code a) && (code a <=? 90) then chr (code a + 32) else a.
Fixpoint to_lower (s : string) : string :=
  match s with
  | EmptyString => EmptyString
  | String "196" (String "176" s') => String "i" (to_lower s')
  | String "226" (String "132" (String "170" s')) => String "k" (to_lower s')
  | String a s' => String (lower_ascii a) (to_lower s')
  end.
