(* ===== verification/Utf8.v ===== *)
(** * UTF-8 there and back

    [decode_rune] reads what [encode_rune] writes, so a text of well-formed runes is
    read rune by rune. *)

From Stdlib Require Import ZArith Lia String Ascii.
From S2P Require Import Prelude GoStrings.
Open Scope string_scope.
Open Scope list_scope.
Open Scope Z_scope.

#[local] Ltac Zify.zify_post_hook ::= Z.div_mod_to_equations.

(** ** Runes *)

(** A Unicode scalar value. *)
Definition scalar (r : Z) : bool := ((0 <=? r) && (r <=? 55295)) || ((57344 <=? r) && (r <=? 1114111)).
(** Bytes above ASCII. *)
Definition high (b : Z) : Prop := 128 <= b <= 255.

(** Decides the comparisons of a goal that [lia] can. *)
Ltac decide_bounds :=
  repeat match goal with
  | |- context [Z.leb ?x ?y] => first
      [rewrite (proj2 (Z.leb_le x y)) by lia|rewrite (proj2 (Z.leb_gt x y)) by lia]; cbn [andb orb negb]
  | |- context [Z.ltb ?x ?y] => first
      [rewrite (proj2 (Z.ltb_lt x y)) by lia|rewrite (proj2 (Z.ltb_ge x y)) by lia]; cbn [andb orb negb]
  | |- context [Z.eqb ?x ?y] => first
      [rewrite (proj2 (Z.eqb_eq x y)) by lia|rewrite (proj2 (Z.eqb_neq x y)) by lia]; cbn [andb orb negb]
  end.

Lemma encode_cases (r : Z) : scalar r = true ->
  (0 <= r < 128 /\ encode_rune r = [r]) \/
  (128 <= r < 2048 /\ encode_rune r = [192 + r / 64; 128 + r mod 64]) \/
  (2048 <= r < 65536 /\ ~ 55296 <= r <= 57343 /\
     encode_rune r = [224 + r / 4096; 128 + (r / 64) mod 64; 128 + r mod 64]) \/
  (65536 <= r <= 1114111 /\
     encode_rune r = [240 + r / 262144; 128 + (r / 4096) mod 64; 128 + (r / 64) mod 64; 128 + r mod 64]).
Proof.
  unfold scalar, encode_rune. intros H. apply orb_true_iff in H.
  assert (0 <= r <= 55295 \/ 57344 <= r <= 1114111) as Hr by (destruct H as [H|H]; to_prop; lia). clear H.
  destruct (Z.lt_ge_cases r 128); [left; split; [lia|by decide_bounds]|].
  destruct (Z.lt_ge_cases r 2048); [right; left; split; [lia|by decide_bounds]|].
  assert (((r <? 0) || (1114111 <? r) || ((55296 <=? r) && (r <=? 57343))) = false) as ->.
  { decide_bounds. destruct (Z.leb_spec 55296 r), (Z.leb_spec r 57343); try done; lia. }
  destruct (Z.lt_ge_cases r 65536); [right; right; left|right; right; right];
    repeat split; try lia; by decide_bounds.
Qed.

Lemma length_encode_rune (r : Z) : (1 <= length (encode_rune r) <= 4)%nat.
Proof. unfold encode_rune. repeat case_match; cbn; lia. Qed.
(** Every rune is written as a scalar value. *)
Lemma encode_scalar (r : Z) : exists r', scalar r' = true /\ encode_rune r = encode_rune r'.
Proof.
  destruct (scalar r) eqn:E; [by exists r|]. exists rune_error. split; [done|].
  unfold scalar in E. apply orb_false_iff in E as [E1 E2].
  unfold encode_rune at 1. destruct (Z.leb_spec 0 r), (Z.leb_spec r 55295); try done;
    destruct (Z.leb_spec 57344 r), (Z.leb_spec r 1114111); try done; decide_bounds; try done; lia.
Qed.

Lemma decode_rune_encode (r : Z) (l : list Z) : scalar r = true ->
  decode_rune (encode_rune r ++ l) = (r, length (encode_rune r)).
Proof.
  intros Hr. destruct (encode_cases r Hr) as [(Hb & ->)|[(Hb & ->)|[(Hb & Hs & ->)|(Hb & ->)]]];
    cbn [app length decode_rune]; unfold is_cont.
  - by decide_bounds.
  - decide_bounds. f_equal. lia.
  - assert (Hlo : (if 224 + r / 4096 =? 224 then 160 else 128) <= 128 + (r / 64) mod 64)
      by (destruct (Z.eqb_spec (224 + r / 4096) 224); lia).
    assert (Hhi : 128 + (r / 64) mod 64 <= (if 224 + r / 4096 =? 237 then 159 else 191))
      by (destruct (Z.eqb_spec (224 + r / 4096) 237); lia).
    revert Hlo Hhi. generalize (if 224 + r / 4096 =? 224 then 160 else 128), (if 224 + r / 4096 =? 237 then 159 else 191).
    intros lo hi Hlo Hhi. decide_bounds. f_equal. lia.
  - assert (Hlo : (if 240 + r / 262144 =? 240 then 144 else 128) <= 128 + (r / 4096) mod 64)
      by (destruct (Z.eqb_spec (240 + r / 262144) 240); lia).
    assert (Hhi : 128 + (r / 4096) mod 64 <= (if 240 + r / 262144 =? 244 then 143 else 191))
      by (destruct (Z.eqb_spec (240 + r / 262144) 244); lia).
    revert Hlo Hhi. generalize (if 240 + r / 262144 =? 240 then 144 else 128), (if 240 + r / 262144 =? 244 then 143 else 191).
    intros lo hi Hlo Hhi. decide_bounds. f_equal. lia.
Qed.

(** The bytes of a rune above ASCII are above ASCII. *)
Lemma encode_high (r : Z) : scalar r = true -> 128 <= r -> Forall high (encode_rune r).
Proof.
  intros Hr Hb. unfold high. destruct (encode_cases r Hr) as [(?&->)|[(?&->)|[(?&?&->)|(?&->)]]];
    [lia|repeat constructor; lia..].
Qed.
Lemma encode_bytes (r : Z) : scalar r = true -> Forall (fun b => 0 <= b <= 255) (encode_rune r).
Proof.
  intros Hr. destruct (Z.lt_ge_cases r 128) as [Hb|Hb].
  - destruct (encode_cases r Hr) as [(?&->)|[(?&->)|[(?&?&->)|(?&->)]]]; repeat constructor; lia.
  - eapply Forall_impl; [by apply encode_high|]. unfold high. intros b Hx. lia.
Qed.

(** ** Texts *)
Definition text (rs : list Z) : string := of_bytes (flat_map encode_rune rs).
(** Well-formed UTF-8. *)
Definition utf8 (s : string) : Prop := exists rs, forallb scalar rs = true /\ s = text rs.

Lemma of_bytes_app (l k : list Z) : of_bytes (l ++ k) = of_bytes l +:+ of_bytes k.
Proof. induction l as [|b l IH]; [done|]. cbn [app of_bytes]. by rewrite sapp_cons, IH. Qed.
Lemma bytes_app (s t : string) : bytes (s +:+ t) = bytes s ++ bytes t.
Proof. induction s as [|a s IH]; [done|]. rewrite sapp_cons. cbn [bytes app]. by rewrite IH. Qed.
Lemma bytes_of_bytes (l : list Z) : Forall (fun b => 0 <= b <= 255) l -> bytes (of_bytes l) = l.
Proof. induction 1 as [|b l Hb _ IH]; [done|]. cbn [of_bytes bytes]. by rewrite code_chr, IH. Qed.
Lemma text_cons (r : Z) (rs : list Z) : text (r :: rs) = of_bytes (encode_rune r) +:+ text rs.
Proof. apply of_bytes_app. Qed.
Lemma text_app (rs ss : list Z) : text (rs ++ ss) = text rs +:+ text ss.
Proof. unfold text. by rewrite flat_map_app, of_bytes_app. Qed.
Lemma bytes_text (rs : list Z) : forallb scalar rs = true -> bytes (text rs) = flat_map encode_rune rs.
Proof.
  intros Hr. apply bytes_of_bytes. induction rs as [|r rs IH]; [constructor|].
  apply andb_true_iff in Hr as [Hr Hrs]. apply Forall_app. split; [by apply encode_bytes|by apply IH].
Qed.

Lemma utf8_nil : utf8 "".
Proof. by exists []. Qed.
Lemma utf8_app (s t : string) : utf8 s -> utf8 t -> utf8 (s +:+ t).
Proof.
  intros (rs & Hr & ->) (ss & Hs & ->). exists (rs ++ ss). by rewrite forallb_app, Hr, Hs, text_app.
Qed.
Lemma utf8_rune (r : Z) : utf8 (of_bytes (encode_rune r)).
Proof.
  destruct (encode_scalar r) as (r' & Hr & ->). exists [r']. cbn [forallb]. rewrite Hr. split; [done|].
  unfold text. cbn [flat_map]. by rewrite app_nil_r.
Qed.
Lemma utf8_ascii (a : ascii) : code a < 128 -> utf8 (String a "").
Proof.
  intros Ha. pose proof (utf8_rune (code a)) as H. unfold encode_rune in H. pose proof (code_range a).
  revert H. decide_bounds. cbn [of_bytes]. by rewrite chr_code.
Qed.
Lemma utf8_cons (a : ascii) (s : string) : code a < 128 -> utf8 s -> utf8 (String a s).
Proof. intros Ha Hs. apply (utf8_app (String a "") s); [by apply utf8_ascii|done]. Qed.

(** The loop of [range] over a text visits its runes. *)
Lemma runes_text (rs : list Z) : forallb scalar rs = true ->
  runes_w (bytes (text rs)) = map (fun r => (r, length (encode_rune r))) rs.
Proof.
  intros Hr. rewrite bytes_text by done. unfold runes_w.
  enough (H : forall f, (length (flat_map encode_rune rs) <= f)%nat ->
    runes_fuel f (flat_map encode_rune rs) = map (fun r => (r, length (encode_rune r))) rs) by by apply H.
  induction rs as [|r rs IH]; intros f Hf; [by destruct f|].
  apply andb_true_iff in Hr as [Hr Hrs]. cbn [flat_map map] in *. rewrite length_app in Hf.
  pose proof (length_encode_rune r) as Hl. destruct f as [|f]; [lia|].
  assert (E : runes_fuel (S f) (encode_rune r ++ flat_map encode_rune rs) =
    let '(x, n) := decode_rune (encode_rune r ++ flat_map encode_rune rs) in
    (x, n) :: runes_fuel f (drop n (encode_rune r ++ flat_map encode_rune rs))).
  { destruct (encode_rune r); [cbn in Hl; lia|done]. }
  rewrite E, decode_rune_encode by done. rewrite drop_app_length, IH by (done || lia). done.
Qed.
