(* ===== verification/GoTime.v ===== *)
(** * Instants, the calendar and the time formats of the recorder

    A [time.Time] is the number of nanoseconds since 0001-01-01T00:00:00Z, the
    zero value of the Go type, in UTC.  The file models the calendar, the
    formats [time.RFC3339Nano] and [fixedUTCLayout], and [time.Parse] on both. *)

From Stdlib Require Import ZArith Lia String Ascii.
From S2P Require Import Prelude GoStrings.
Open Scope Z_scope.

#[local] Ltac Zify.zify_post_hook ::= Z.div_mod_to_equations.

Definition time := Z.
Definition duration := Z.
Definition millisecond : duration := 1000000.
Definition second : duration := 1000000000.
Definition minute : duration := 60 * second.
Definition hour : duration := 60 * minute.
Definition day_ns : duration := 24 * hour.
Definition is_zero (t : time) : bool := t =? 0.

(** [Duration.Milliseconds]: division that truncates towards zero. *)
Definition milliseconds (d : duration) : Z := Z.quot d millisecond.

(** ** The calendar *)
Definition leap (y : Z) : bool :=
  (y mod 4 =? 0) && (negb (y mod 100 =? 0) || (y mod 400 =? 0)).

Definition month_days (y : Z) : list Z :=
  [31; 28 + Z.b2z (leap y); 31; 30; 31; 30; 31; 31; 30; 31; 30; 31].
Definition days_in (y m : Z) : Z := nth (Z.to_nat (m - 1)) (month_days y) 0.

Definition days_before_year (y : Z) : Z :=
  365 * (y - 1) + (y - 1) / 4 - (y - 1) / 100 + (y - 1) / 400.
Definition days_before_month (y m : Z) : Z :=
  foldr Z.add 0 (take (Z.to_nat (m - 1)) (month_days y)).

(** Days from 0001-01-01 to the date. *)
Definition days_of (y m d : Z) : Z := days_before_year y + days_before_month y m + (d - 1).

Fixpoint split_month (dims : list Z) (m yd : Z) : Z * Z :=
  match dims with
  | [] => (m, yd + 1)
  | n :: dims' => if yd <? n then (m, yd + 1) else split_month dims' (m + 1) (yd - n)
  end.

Definition year_of (days : Z) : Z :=
  let e := days / 146097 in let r := days mod 146097 in
  let c := Z.min 3 (r / 36524) in let r := r - 36524 * c in
  let q := r / 1461 in let r := r mod 1461 in
  let a := Z.min 3 (r / 365) in
  400 * e + 100 * c + 4 * q + a + 1.

Definition date_of (days : Z) : Z * Z * Z :=
  let y := year_of days in
  let '(m, d) := split_month (month_days y) 1 (days - days_before_year y) in (y, m, d).

Definition valid_date (y m d : Z) : Prop := 1 <= m <= 12 /\ 1 <= d <= days_in y m.

Lemma month_cases (m : Z) : 1 <= m <= 12 ->
  m = 1 \/ m = 2 \/ m = 3 \/ m = 4 \/ m = 5 \/ m = 6 \/ m = 7 \/ m = 8 \/ m = 9
  \/ m = 10 \/ m = 11 \/ m = 12.
Proof. lia. Qed.

Ltac month_cases m :=
  let H := fresh in
  assert (H : 1 <= m <= 12) by lia; apply month_cases in H;
  repeat (destruct H as [H|H]); subst m.

Lemma year_of_spec (days : Z) :
  days_before_year (year_of days) <= days
    < days_before_year (year_of days) + 365 + Z.b2z (leap (year_of days)).
Proof.
  unfold year_of. cbv zeta.
  set (e := days / 146097). set (r := days mod 146097).
  assert (Hr : days = 146097 * e + r /\ 0 <= r < 146097)
    by (subst e r; pose proof (Z.div_mod days 146097); pose proof (Z.mod_pos_bound days 146097); lia).
  clearbody e r.
  set (c := Z.min 3 (r / 36524)). set (r2 := r - 36524 * c).
  assert (Hc : 0 <= c <= 3 /\ 0 <= r2 /\ (r2 < 36524 \/ (c = 3 /\ r2 = 36524)))
    by (subst c r2; lia).
  assert (Hr2 : r = 36524 * c + r2) by (subst r2; lia).
  clearbody c r2.
  set (q := r2 / 1461). set (r3 := r2 mod 1461).
  assert (Hq : r2 = 1461 * q + r3 /\ 0 <= q <= 24 /\ 0 <= r3 < 1461) by (subst q r3; lia).
  clearbody q r3.
  set (a := Z.min 3 (r3 / 365)).
  assert (Ha : 0 <= a <= 3 /\ 0 <= r3 - 365 * a /\ (r3 - 365 * a < 365 \/ (a = 3 /\ r3 = 1460)))
    by (subst a; lia).
  clearbody a.
  set (y1 := 400 * e + 100 * c + 4 * q + a).
  unfold days_before_year. replace (y1 + 1 - 1) with y1 by lia.
  assert (H4 : y1 / 4 = 100 * e + 25 * c + q) by (subst y1; lia).
  assert (H100 : y1 / 100 = 4 * e + c) by (subst y1; lia).
  assert (H400 : y1 / 400 = e) by (subst y1; lia).
  rewrite H4, H100, H400. split; [subst y1; lia|].
  destruct Ha as (Ha & Ha' & [Hlt | [-> ->]]).
  - subst y1. destruct (leap _); simpl; lia.
  - enough (leap (y1 + 1) = true) as -> by (subst y1; simpl; lia).
    unfold leap. apply andb_true_iff. split; [apply Z.eqb_eq; subst y1; lia|].
    destruct (decide (q = 24)) as [->|].
    + apply orb_true_iff. right. apply Z.eqb_eq. subst y1. lia.
    + apply orb_true_iff. left. apply negb_true_iff, Z.eqb_neq. subst y1. lia.
Qed.

Lemma days_before_year_step (y : Z) :
  days_before_year (y + 1) = days_before_year y + 365 + Z.b2z (leap y).
Proof.
  unfold days_before_year, leap. replace (y + 1 - 1) with y by lia.
  assert (y / 4 = (y - 1) / 4 + Z.b2z (y mod 4 =? 0)) by (destruct (Z.eqb_spec (y mod 4) 0); simpl; lia).
  assert (y / 100 = (y - 1) / 100 + Z.b2z (y mod 100 =? 0)) by (destruct (Z.eqb_spec (y mod 100) 0); simpl; lia).
  assert (y / 400 = (y - 1) / 400 + Z.b2z (y mod 400 =? 0)) by (destruct (Z.eqb_spec (y mod 400) 0); simpl; lia).
  assert (y mod 400 = 0 -> y mod 100 = 0) by lia.
  assert (y mod 100 = 0 -> y mod 4 = 0) by lia.
  destruct (Z.eqb_spec (y mod 4) 0), (Z.eqb_spec (y mod 100) 0), (Z.eqb_spec (y mod 400) 0);
    simpl in *; lia.
Qed.

Lemma days_before_year_lt (y1 y2 : Z) : y1 < y2 ->
  days_before_year y1 + 365 + Z.b2z (leap y1) <= days_before_year y2.
Proof.
  intros H. rewrite <- days_before_year_step.
  replace y2 with ((y1 + 1) + (y2 - y1 - 1)) by lia.
  set (k := y2 - y1 - 1). assert (Hk : 0 <= k) by lia. clearbody k.
  pattern k. revert k Hk. apply natlike_ind; [rewrite Z.add_0_r; lia|].
  intros k Hk IH. replace (y1 + 1 + Z.succ k) with (y1 + 1 + k + 1) by lia.
  rewrite (days_before_year_step (y1 + 1 + k)). destruct (leap (y1 + 1 + k)); cbn [Z.b2z]; lia.
Qed.

(** Evaluates the table look-ups at constant months. *)
Ltac eval_idx :=
  repeat match goal with
  | |- context [Z.to_nat ?e] =>
      let v := eval vm_compute in (Z.to_nat e) in change (Z.to_nat e) with v
  | H : context [Z.to_nat ?e] |- _ =>
      let v := eval vm_compute in (Z.to_nat e) in change (Z.to_nat e) with v in H
  end; cbn [nth take foldr Z.b2z] in *.

Lemma split_month_spec (y yd : Z) :
  0 <= yd < 365 + Z.b2z (leap y) ->
  let '(m, d) := split_month (month_days y) 1 yd in
  valid_date y m d /\ days_before_month y m + (d - 1) = yd.
Proof.
  intros H. unfold valid_date, days_in, days_before_month, month_days.
  destruct (leap y); cbn [Z.b2z split_month] in *;
    repeat (match goal with |- context [?a <? ?b] => destruct (Z.ltb_spec a b) end;
            [eval_idx; lia|]);
    lia.
Qed.

(** The date of a day is a valid date of that day. *)
Lemma date_of_spec (days : Z) :
  let '(y, m, d) := date_of days in valid_date y m d /\ days_of y m d = days.
Proof.
  unfold date_of, days_of. pose proof (year_of_spec days) as H. cbv zeta.
  pose proof (split_month_spec (year_of days) (days - days_before_year (year_of days))
    ltac:(lia)) as Hs.
  destruct (split_month _ _ _) as [m d]. destruct Hs as [Hv Hs]. split; [done|]. lia.
Qed.

Definition lex (a b : comparison) : comparison := match a with Eq => b | _ => a end.

Lemma days_of_lt (y1 m1 d1 y2 m2 d2 : Z) :
  valid_date y1 m1 d1 -> valid_date y2 m2 d2 ->
  lex (y1 ?= y2) (lex (m1 ?= m2) (d1 ?= d2)) = Lt -> days_of y1 m1 d1 < days_of y2 m2 d2.
Proof.
  unfold valid_date, days_of. intros [Hm1 Hd1] [Hm2 Hd2] H.
  assert (B : forall y m d, 1 <= m <= 12 -> 1 <= d <= days_in y m ->
    0 <= days_before_month y m + (d - 1) < 365 + Z.b2z (leap y)).
  { intros y m d Hm. unfold days_in, days_before_month, month_days.
    destruct (leap y); month_cases m; eval_idx; lia. }
  destruct (Z.compare_spec y1 y2) as [->|Hy|Hy]; cbn [lex] in H; [|..].
  - destruct (Z.compare_spec m1 m2) as [->|Hm|Hm]; cbn [lex] in H; [|..].
    + assert (d1 < d2) by exact H. lia.
    + clear B H. unfold days_in, days_before_month, month_days in *.
      destruct (leap y2); month_cases m1; month_cases m2; eval_idx; lia.
    + discriminate.
  - pose proof (days_before_year_lt y1 y2 Hy).
    pose proof (B _ _ _ Hm1 Hd1). pose proof (B _ _ _ Hm2 Hd2). lia.
  - discriminate.
Qed.

Lemma lex_lt_gt (a b c d e f : Z) :
  lex (a ?= b) (lex (c ?= d) (e ?= f)) = Gt -> lex (b ?= a) (lex (d ?= c) (f ?= e)) = Lt.
Proof.
  rewrite (Z.compare_antisym a b), (Z.compare_antisym c d), (Z.compare_antisym e f).
  destruct (a ?= b), (c ?= d), (e ?= f); simpl; congruence.
Qed.

Lemma days_of_compare (y1 m1 d1 y2 m2 d2 : Z) :
  valid_date y1 m1 d1 -> valid_date y2 m2 d2 ->
  lex (y1 ?= y2) (lex (m1 ?= m2) (d1 ?= d2)) = (days_of y1 m1 d1 ?= days_of y2 m2 d2).
Proof.
  intros H1 H2. symmetry.
  destruct (lex (y1 ?= y2) (lex (m1 ?= m2) (d1 ?= d2))) eqn:E.
  - rewrite Z.compare_eq_iff.
    destruct (Z.compare_spec y1 y2), (Z.compare_spec m1 m2), (Z.compare_spec d1 d2);
      simpl in E; congruence.
  - rewrite Z.compare_lt_iff. by apply days_of_lt.
  - rewrite Z.compare_gt_iff. apply days_of_lt; [done..|]. by apply lex_lt_gt.
Qed.

(** ** Formats *)
Record civil := Civil { yr : Z; mo : Z; dy : Z; hr : Z; mi : Z; se : Z; ns : Z }.

Definition civil_of (t : time) : civil :=
  let '(y, m, d) := date_of (t / day_ns) in
  let r := t mod day_ns in
  Civil y m d (r / hour) (r mod hour / minute) (r mod minute / second) (r mod second).

Definition instant_of (c : civil) : time :=
  days_of (yr c) (mo c) (dy c) * day_ns + hr c * hour + mi c * minute + se c * second + ns c.

Definition valid_clock (c : civil) : Prop :=
  0 <= hr c < 24 /\ 0 <= mi c < 60 /\ 0 <= se c < 60 /\ 0 <= ns c < second.

Lemma civil_of_spec (t : time) :
  let c := civil_of t in
  valid_date (yr c) (mo c) (dy c) /\ valid_clock c /\ instant_of c = t.
Proof.
  unfold civil_of. pose proof (date_of_spec (t / day_ns)) as H.
  destruct (date_of (t / day_ns)) as [[y m] d]. destruct H as [Hv Hd].
  unfold valid_clock, instant_of. cbn. split; [done|]. rewrite Hd.
  unfold day_ns, hour, minute, second. clear Hv Hd. lia.
Qed.

(** [appendInt(b, year, 4)]. *)
Definition format_year (y : Z) : string :=
  let a := Z.abs y in
  let d := digits_pad (Nat.max 4 (num_digits 20 a)) a in
  if y <? 0 then String "-" d else d.

Definition date_time_string (c : civil) : string :=
  (format_year (yr c) ++ "-" ++ digits_pad 2 (mo c) ++ "-" ++ digits_pad 2 (dy c) ++ "T"
   ++ digits_pad 2 (hr c) ++ ":" ++ digits_pad 2 (mi c) ++ ":" ++ digits_pad 2 (se c))%string.

(** The fraction of [time.RFC3339Nano]: no trailing zeros, and nothing at all
    for a whole second. *)
Fixpoint trim_zeros (fuel : nat) (n : nat) (z : Z) : string :=
  match fuel with
  | O => EmptyString
  | S fuel' => if z mod 10 =? 0 then trim_zeros fuel' (n - 1) (z / 10)
               else String "." (digits_pad n z)
  end.

(** [t.UTC().Format(time.RFC3339Nano)]. *)
Definition format_rfc3339nano (t : time) : string :=
  let c := civil_of t in
  (date_time_string c ++ (if (ns c =? 0)%Z then "" else trim_zeros 10 9 (ns c)) ++ "Z")%string.

(** [t.UTC().Format("2006-01-02T15:04:05.000000000Z")]. *)
Definition format_fixed (t : time) : string :=
  let c := civil_of t in
  (date_time_string c ++ "." ++ digits_pad 9 (ns c) ++ "Z")%string.

(** ** Parsing *)
Definition expect (p s : string) : option string :=
  if String.prefix p s then Some (sdrop (String.length p) s) else None.

(** [getnum(s, fixed)]: one or two digits. *)
Definition getnum (fixed : bool) (s : string) : option (Z * string) :=
  match s with
  | String a t =>
    if is_digit a then
      match t with
      | String b u => if is_digit b then Some (10 * digit_val a + digit_val b, u)
                      else if fixed then None else Some (digit_val a, t)
      | EmptyString => if fixed then None else Some (digit_val a, t)
      end
    else None
  | EmptyString => None
  end.

Fixpoint span_digits (s : string) : string * string :=
  match s with
  | String a s' => if is_digit a then let '(d, r) := span_digits s' in (String a d, r) else (EmptyString, s)
  | EmptyString => (EmptyString, EmptyString)
  end.

Definition comma_or_period (s : string) : bool :=
  match s with String "." _ | String "," _ => true | _ => false end.

(** [parseNanoseconds(value, nbytes)]: the separator and [nbytes - 1] characters. *)
Definition parse_nanoseconds (value : string) (nbytes : nat) : option Z :=
  if negb (comma_or_period value) then None
  else
    let nbytes := Nat.min nbytes 10 in
    match parse_int (stake (nbytes - 1) (sdrop 1 value)) with
    | Some n => if n <? 0 then None else Some (n * 10 ^ Z.of_nat (10 - nbytes))
    | None => None
    end.

Definition obind {A B : Type} (m : option A) (k : A -> option B) : option B :=
  match m with Some a => k a | None => None end.
Notation "'let!' x ':=' m 'in' k" := (obind m (fun x => k))
  (at level 10, x pattern, m at level 100, k at level 200).
Definition oguard {A : Type} (b : bool) (k : option A) : option A := if b then k else None.

Definition in_range (lo hi z : Z) : bool := (lo <=? z) && (z <=? hi).

(** The part of both layouts up to the seconds.  [std == stdHour] is not padded,
    so that the hour may have one digit. *)
Definition parse_date_time (s : string) : option (civil * string) :=
  oguard (match s with String a _ => is_digit a | _ => false end && (4 <=? String.length s)%nat)
  (let! y := parse_int (stake 4 s) in
   let! s := expect "-" (sdrop 4 s) in
   let! (m, s) := getnum true s in
   oguard (in_range 1 12 m)
   (let! s := expect "-" s in
    let! (d, s) := getnum true s in
    let! s := expect "T" s in
    let! (h, s) := getnum false s in
    oguard (h <? 24)
    (let! s := expect ":" s in
     let! (m', s) := getnum true s in
     oguard (m' <? 60)
     (let! s := expect ":" s in
      let! (sec, s) := getnum true s in
      oguard (sec <? 60) (Some (Civil y m d h m' sec 0, s)))))).

Definition with_ns (c : civil) (n : Z) : civil :=
  Civil (yr c) (mo c) (dy c) (hr c) (mi c) (se c) n.

(** The check of the day at the end of [time.Parse]. *)
Definition finish_date (c : civil) : option time :=
  oguard (in_range 1 (days_in (yr c) (mo c)) (dy c)) (Some (instant_of c)).

(** A zone [Z] or [+hh:mm]: the offset in seconds and the rest of the input. *)
Definition parse_zone (s : string) : option (Z * string) :=
  match s with
  | String "Z" r => Some (0, r)
  | _ =>
    oguard (6 <=? String.length s)%nat
    (let sign := stake 1 s in
     let! (h, _) := getnum true (stake 2 (sdrop 1 s)) in
     let! _ := expect ":" (sdrop 3 s) in
     let! (m, _) := getnum true (stake 2 (sdrop 4 s)) in
     oguard ((h <=? 24) && (m <=? 60) && (String.eqb sign "+" || String.eqb sign "-"))
     (let off := (h * 60 + m) * 60 in
      Some (if String.eqb sign "-" then - off else off, sdrop 6 s)))
  end.

(** [time.Parse(time.RFC3339Nano, s)]. *)
Definition parse_rfc3339nano (s : string) : option time :=
  let! (c, s) := parse_date_time s in
  let! (n, s) :=
    (if comma_or_period s && match sdrop 1 s with String a _ => is_digit a | _ => false end then
       let '(d, r) := span_digits (sdrop 1 s) in
       let! n := parse_nanoseconds s (1 + String.length d) in Some (n, r)
     else Some (0, s)) in
  let! (off, s) := parse_zone s in
  oguard (String.eqb s "")
  (let! t := finish_date (with_ns c n) in Some (t - off * second)).

(** [time.Parse(fixedUTCLayout, s)]: exactly nine fraction characters and [Z]. *)
Definition parse_fixed (s : string) : option time :=
  let! (c, s) := parse_date_time s in
  oguard (10 <=? String.length s)%nat
  (let! n := parse_nanoseconds s 10 in
   let! s := expect "Z" (sdrop 10 s) in
   oguard (String.eqb s "") (finish_date (with_ns c n))).

(** ** Lemmas on digits *)
Lemma digits_pad_succ (n : nat) (z : Z) (s : string) :
  (digits_pad (S n) z ++ s = digits_pad n (z / 10) ++ String (chr (48 + z mod 10)) s)%string.
Proof. cbn [digits_pad]. by rewrite sappend_assoc, sapp_cons, sapp_nil. Qed.

Lemma string_length_app (s t : string) :
  String.length (s ++ t) = (String.length s + String.length t)%nat.
Proof. induction s as [|a s IH]; [done|]. rewrite sapp_cons. simpl. by rewrite IH. Qed.

Lemma length_digits_pad (n : nat) (z : Z) : String.length (digits_pad n z) = n.
Proof.
  revert z. induction n as [|n IH]; intros z; cbn [digits_pad]; [done|].
  rewrite string_length_app, IH. simpl. lia.
Qed.

Lemma digit_chr (z : Z) : 0 <= z < 10 ->
  is_digit (chr (48 + z)) = true /\ digit_val (chr (48 + z)) = z.
Proof.
  intros H. unfold is_digit, digit_val. rewrite code_chr by lia. split; [|lia].
  apply andb_true_iff. lia.
Qed.

Lemma digits_val_pad (n : nat) (z acc : Z) (s : string) :
  0 <= z < 10 ^ Z.of_nat n ->
  digits_val acc (digits_pad n z ++ s) = digits_val (acc * 10 ^ Z.of_nat n + z) s.
Proof.
  revert z acc s. induction n as [|n IH]; intros z acc s Hz.
  - cbn. f_equal. cbn in Hz. lia.
  - rewrite Nat2Z.inj_succ, Z.pow_succ_r in * by lia.
    rewrite digits_pad_succ, IH by lia. cbn [digits_val].
    destruct (digit_chr (z mod 10)) as [-> ->]; [lia|]. f_equal. lia.
Qed.

Lemma digits_pad_head (n : nat) (z : Z) (s : string) :
  exists d t, (digits_pad (S n) z ++ s)%string = String d t /\ is_digit d = true.
Proof.
  revert z s. induction n as [|n IH]; intros z s.
  - cbn [digits_pad]. eexists _, _. split; [reflexivity|]. apply digit_chr. lia.
  - rewrite digits_pad_succ. apply IH.
Qed.

Lemma expect_app (p s : string) : expect p (p ++ s) = Some s.
Proof.
  unfold expect.
  assert (String.prefix p (p ++ s) = true /\ sdrop (String.length p) (p ++ s) = s) as [-> ->]; [|done].
  induction p as [|a p [IH1 IH2]]; [by destruct s|]. rewrite sapp_cons. simpl.
  destruct (ascii_dec a a); [done|congruence].
Qed.

Lemma stake_app (p s : string) : stake (String.length p) (p ++ s) = p.
Proof.
  unfold stake. induction p as [|a p IH]; [by destruct s|]. rewrite sapp_cons. simpl. by rewrite IH.
Qed.

Lemma sdrop_app (p s : string) : sdrop (String.length p) (p ++ s) = s.
Proof. induction p as [|a p IH]; [by destruct s|]. rewrite sapp_cons. exact IH. Qed.

Lemma stake_pad (n : nat) z s : stake n (digits_pad n z ++ s) = digits_pad n z.
Proof. rewrite <- (length_digits_pad n z) at 1. apply stake_app. Qed.

Lemma sdrop_pad (n : nat) z s : sdrop n (digits_pad n z ++ s) = s.
Proof. rewrite <- (length_digits_pad n z) at 1. apply sdrop_app. Qed.

Lemma getnum_pad (fixed : bool) (z : Z) (s : string) :
  0 <= z < 100 -> getnum fixed (digits_pad 2 z ++ s) = Some (z, s).
Proof.
  intros Hz. rewrite !digits_pad_succ. cbn [digits_pad]. rewrite sapp_nil.
  unfold getnum.
  destruct (digit_chr (z / 10 mod 10)) as [-> ->]; [lia|].
  destruct (digit_chr (z mod 10)) as [-> ->]; [lia|].
  do 2 f_equal. lia.
Qed.

Lemma digit_not_sign (d : ascii) (t : string) : is_digit d = true ->
  match String d t with
  | String "-" t => (true, t) | String "+" t => (false, t) | _ => (false, String d t)
  end = (false, String d t).
Proof.
  intros H. destruct d as [[] [] [] [] [] [] [] []]; try done; discriminate H.
Qed.

Lemma parse_int_pad (n : nat) (z : Z) :
  (n < 18)%nat -> 0 <= z < 10 ^ Z.of_nat (S n) -> parse_int (digits_pad (S n) z) = Some z.
Proof.
  intros Hn Hz. pose proof (digits_val_pad (S n) z 0 "" Hz) as Hd.
  rewrite sappend_nil_r in Hd.
  destruct (digits_pad_head n z "") as (d & t & E & Hdig). rewrite sappend_nil_r in E.
  rewrite E in *. unfold parse_int. rewrite (digit_not_sign d t Hdig).
  rewrite Hd. cbn [digits_val]. rewrite Z.mul_0_l, Z.add_0_l.
  assert (10 ^ Z.of_nat (S n) <= 10 ^ 18) by (apply Z.pow_le_mono_r; lia).
  unfold int64_min, int64_max. change (10 ^ 18) with 1000000000000000000 in *.
  destruct (Z.leb_spec (-9223372036854775808) z); [|lia].
  destruct (Z.leb_spec z 9223372036854775807); [done|lia].
Qed.

(** *** Comparison of padded digits is numeric comparison *)
Lemma scompare_cons (a b : ascii) (s t : string) :
  String.compare (String a s) (String b t) = lex (code a ?= code b) (String.compare s t).
Proof. unfold code. simpl. unfold Ascii.compare. rewrite N2Z.inj_compare. by destruct (N.compare _ _). Qed.

Lemma lex_assoc (a b c : comparison) : lex (lex a b) c = lex a (lex b c).
Proof. by destruct a. Qed.

Lemma scompare_digits (n : nat) (a b : Z) (s t : string) :
  0 <= a < 10 ^ Z.of_nat n -> 0 <= b < 10 ^ Z.of_nat n ->
  String.compare (digits_pad n a ++ s) (digits_pad n b ++ t)
  = lex (a ?= b) (String.compare s t).
Proof.
  revert a b s t. induction n as [|n IH]; intros a b s t Ha Hb.
  - cbn in Ha, Hb. replace a with 0 by lia. replace b with 0 by lia. done.
  - rewrite Nat2Z.inj_succ, Z.pow_succ_r in * by lia.
    rewrite !digits_pad_succ, IH by lia.
    rewrite scompare_cons, !code_chr by lia. rewrite <- lex_assoc. f_equal.
    destruct (Z.compare_spec (a / 10) (b / 10)); cbn [lex];
      destruct (Z.compare_spec (48 + a mod 10) (48 + b mod 10)), (Z.compare_spec a b); try done; lia.
Qed.

Lemma scompare_same (p s t : string) :
  String.compare (p ++ s) (p ++ t) = String.compare s t.
Proof.
  induction p as [|a p IH]; [done|].
  rewrite !sapp_cons, scompare_cons, Z.compare_refl. exact IH.
Qed.

(** ** The fixed-width format *)

(** The instants whose year has four digits: 0000-01-01 to 9999-12-31. *)
Definition four_digit_year (t : time) : Prop := 0 <= year_of (t / day_ns) <= 9999.

Lemma yr_civil_of (t : time) : yr (civil_of t) = year_of (t / day_ns).
Proof. unfold civil_of, date_of. by destruct (split_month _ _ _). Qed.

Lemma num_digits_le (f k : nat) (z : Z) :
  0 <= z < 10 ^ Z.of_nat (S k) -> (num_digits f z <= S k)%nat.
Proof.
  revert k z. induction f as [|f IH]; intros k z Hz; cbn [num_digits]; [lia|].
  destruct (Z.ltb_spec z 10); [lia|]. destruct k as [|k]; [cbn in Hz; lia|].
  rewrite Nat2Z.inj_succ, Z.pow_succ_r in Hz by lia.
  apply le_n_S, IH. lia.
Qed.

Lemma format_year_pad (y : Z) : 0 <= y <= 9999 -> format_year y = digits_pad 4 y.
Proof.
  intros H. unfold format_year. rewrite Z.abs_eq by lia.
  destruct (Z.ltb_spec y 0); [lia|]. f_equal. apply Nat.max_l, (num_digits_le 20 3). cbn. lia.
Qed.

Lemma instant_compare (a b : civil) :
  valid_date (yr a) (mo a) (dy a) -> valid_clock a ->
  valid_date (yr b) (mo b) (dy b) -> valid_clock b ->
  lex (yr a ?= yr b) (lex (mo a ?= mo b) (lex (dy a ?= dy b) (lex (hr a ?= hr b)
    (lex (mi a ?= mi b) (lex (se a ?= se b) (ns a ?= ns b)))))) = (instant_of a ?= instant_of b).
Proof.
  intros Hda Ha Hdb Hb.
  rewrite <- (lex_assoc (mo a ?= mo b)), <- (lex_assoc (yr a ?= yr b)).
  rewrite days_of_compare by done. unfold instant_of, valid_clock in *.
  generalize dependent (days_of (yr a) (mo a) (dy a)).
  generalize dependent (days_of (yr b) (mo b) (dy b)). intros x y.
  unfold day_ns, hour, minute, second in *.
  destruct (Z.compare_spec y x); cbn [lex]; [|symmetry; rewrite Z.compare_lt_iff; lia|symmetry; rewrite Z.compare_gt_iff; lia].
  destruct (Z.compare_spec (hr a) (hr b)); cbn [lex]; [|symmetry; rewrite Z.compare_lt_iff; lia|symmetry; rewrite Z.compare_gt_iff; lia].
  destruct (Z.compare_spec (mi a) (mi b)); cbn [lex]; [|symmetry; rewrite Z.compare_lt_iff; lia|symmetry; rewrite Z.compare_gt_iff; lia].
  destruct (Z.compare_spec (se a) (se b)); cbn [lex]; [|symmetry; rewrite Z.compare_lt_iff; lia|symmetry; rewrite Z.compare_gt_iff; lia].
  destruct (Z.compare_spec (ns a) (ns b)); symmetry;
    [rewrite Z.compare_eq_iff|rewrite Z.compare_lt_iff|rewrite Z.compare_gt_iff]; lia.
Qed.

Lemma month_lt_100 y m d : valid_date y m d -> 0 <= m < 100 /\ 0 <= d < 100.
Proof.
  intros [Hm Hd]. split; [lia|]. unfold days_in, month_days in Hd.
  destruct (leap y); month_cases m; eval_idx; lia.
Qed.

(** SQLite compares TEXT byte by byte; on this format that is the order of the
    instants. *)
Lemma format_fixed_compare (s t : time) :
  four_digit_year s -> four_digit_year t ->
  String.compare (format_fixed s) (format_fixed t) = (s ?= t).
Proof.
  unfold four_digit_year, format_fixed, date_time_string. intros Hs Ht.
  rewrite <- yr_civil_of in Hs, Ht.
  pose proof (civil_of_spec s) as (Ds & Cs & Es). pose proof (civil_of_spec t) as (Dt & Ct & Et).
  cbv zeta. set (a := civil_of s) in *. set (b := civil_of t) in *. clearbody a b.
  rewrite !format_year_pad by lia. rewrite <- Es, <- Et.
  rewrite <- (instant_compare a b) by done.
  destruct (month_lt_100 _ _ _ Ds), (month_lt_100 _ _ _ Dt).
  destruct Cs as (? & ? & ? & ?), Ct as (? & ? & ? & ?). unfold second in *.
  rewrite !sappend_assoc.
  repeat (rewrite scompare_digits by (cbn; lia); f_equal; rewrite ?scompare_same).
  change (lex (ns a ?= ns b) Eq = (ns a ?= ns b)). by destruct (ns a ?= ns b).
Qed.

Lemma parse_date_time_format (c : civil) (s : string) :
  0 <= yr c <= 9999 -> valid_date (yr c) (mo c) (dy c) -> valid_clock c ->
  parse_date_time (date_time_string c ++ s) = Some (with_ns c 0, s).
Proof.
  intros Hy Hd (? & ? & ? & ?). destruct (month_lt_100 _ _ _ Hd). destruct Hd as [Hm _].
  unfold date_time_string, parse_date_time. rewrite format_year_pad, !sappend_assoc by lia.
  destruct (digits_pad_head 3 (yr c) ("-" ++ digits_pad 2 (mo c) ++ "-" ++ digits_pad 2 (dy c) ++ "T"
   ++ digits_pad 2 (hr c) ++ ":" ++ digits_pad 2 (mi c) ++ ":" ++ digits_pad 2 (se c) ++ s))
   as (d & u & E & Hdig).
  rewrite E at 1. rewrite Hdig.
  rewrite string_length_app, length_digits_pad at 1.
  rewrite (stake_pad 4), (sdrop_pad 4), parse_int_pad by (cbn; lia).
  cbn [obind andb oguard Nat.add Nat.leb].
  rewrite expect_app. cbn [obind]. rewrite getnum_pad by lia. cbn [obind].
  unfold in_range. destruct (Z.leb_spec 1 (mo c)), (Z.leb_spec (mo c) 12); try lia.
  cbn [andb oguard]. rewrite expect_app. cbn [obind]. rewrite getnum_pad by lia. cbn [obind].
  rewrite expect_app. cbn [obind]. rewrite getnum_pad by lia. cbn [obind].
  destruct (Z.ltb_spec (hr c) 24); [|lia]. cbn [oguard].
  rewrite expect_app. cbn [obind]. rewrite getnum_pad by lia. cbn [obind].
  destruct (Z.ltb_spec (mi c) 60); [|lia]. cbn [oguard].
  rewrite expect_app. cbn [obind]. rewrite getnum_pad by lia. cbn [obind].
  destruct (Z.ltb_spec (se c) 60); [|lia]. done.
Qed.

Lemma sdrop_cons (n : nat) (a : ascii) (s : string) : sdrop (S n) (String a s) = sdrop n s.
Proof. done. Qed.

Lemma parse_nanoseconds_pad (z : Z) (s : string) :
  0 <= z < second -> parse_nanoseconds (String "." (digits_pad 9 z ++ s)) 10 = Some z.
Proof.
  unfold second. intros Hz. unfold parse_nanoseconds. cbn [comma_or_period negb].
  rewrite sdrop_cons, (stake_pad 9 z s : stake (Nat.min 10 10 - 1) (sdrop 0 _) = _).
  rewrite parse_int_pad by (cbn; lia).
  destruct (Z.ltb_spec z 0); [lia|]. f_equal.
  change (z * 1 = z). lia.
Qed.

Lemma finish_date_ok (c : civil) (n : Z) :
  valid_date (yr c) (mo c) (dy c) ->
  finish_date (with_ns c n) = Some (instant_of (with_ns c n)).
Proof.
  intros [_ ?]. unfold finish_date, in_range, with_ns. cbn [yr mo dy].
  destruct (Z.leb_spec 1 (dy c)), (Z.leb_spec (dy c) (days_in (yr c) (mo c))); try lia. done.
Qed.

Lemma parse_fixed_eq (s rest : string) (c : civil) (n : Z) :
  parse_date_time s = Some (c, String "." (rest ++ "Z")) -> String.length rest = 9%nat ->
  parse_nanoseconds (String "." (rest ++ "Z")) 10 = Some n ->
  parse_fixed s = finish_date (with_ns c n).
Proof.
  intros Hs Hl Hn. unfold parse_fixed. rewrite Hs. cbn [obind]. rewrite Hn.
  cbn [String.length]. rewrite string_length_app, Hl. cbn [String.length Nat.add Nat.leb oguard obind].
  rewrite sdrop_cons, <- Hl, sdrop_app. done.
Qed.

Lemma with_ns_same (c : civil) : with_ns c (ns c) = c.
Proof. by destruct c. Qed.

Lemma with_ns_twice (c : civil) (m n : Z) : with_ns (with_ns c m) n = with_ns c n.
Proof. done. Qed.

(** What [fixedUTC] writes, [time.Parse(fixedUTCLayout, ...)] reads back. *)
Lemma parse_fixed_format (t : time) :
  four_digit_year t -> parse_fixed (format_fixed t) = Some t.
Proof.
  intros Hy. unfold four_digit_year in Hy. rewrite <- yr_civil_of in Hy.
  pose proof (civil_of_spec t) as (Dt & Ct & Et). cbv zeta in *.
  rewrite (parse_fixed_eq (format_fixed t) (digits_pad 9 (ns (civil_of t)))
    (with_ns (civil_of t) 0) (ns (civil_of t))).
  - by rewrite with_ns_twice, finish_date_ok, with_ns_same, Et by done.
  - unfold format_fixed. cbv zeta. by rewrite parse_date_time_format, sapp_cons, sapp_nil.
  - apply length_digits_pad.
  - apply parse_nanoseconds_pad, Ct.
Qed.
