(* ===== verification/GoJson.v ===== *)
(** * JSON as [encoding/json] reads and writes it

    The token stream of [json.Decoder.Token], the documents of
    [json.Decoder.Decode] and the output of [json.Marshal]. *)

From Stdlib Require Import ZArith Lia String Ascii.
From S2P Require Import Prelude GoStrings GoTime.
Open Scope Z_scope.
Set Warnings "-register-all".

Inductive json : Type :=
  | JNull
  | JBool (b : bool)
  | JNum (text : string)
  | JStr (s : string)
  | JArr (l : list json)
  | JObj (l : list (string * json)).

Inductive jtoken : Type :=
  | TDelim (c : ascii)
  | TStr (s : string)
  | TNum (text : string)
  | TBool (b : bool)
  | TNull.

#[export] Instance jtoken_eq_dec : EqDecision jtoken.
Proof. solve_decision. Defined.

(** ** Lexemes *)
Definition json_space (a : ascii) : bool :=
  (code a =? 32) || (code a =? 9) || (code a =? 13) || (code a =? 10).
Fixpoint skip_space (s : string) : string :=
  match s with
  | String a s' => if json_space a then skip_space s' else s
  | EmptyString => EmptyString
  end.

Definition hex_val (a : ascii) : option Z :=
  let c := code a in
  if in_range 48 57 c then Some (c - 48)
  else if in_range 97 102 c then Some (c - 87)
  else if in_range 65 70 c then Some (c - 55)
  else None.

Definition hex4 (a b c d : ascii) : option Z :=
  let! w := hex_val a in let! x := hex_val b in let! y := hex_val c in let! z := hex_val d in
  Some (((w * 16 + x) * 16 + y) * 16 + z).

Definition quote : ascii := chr 34.

Definition simple_escape (a : ascii) : option ascii :=
  if Ascii.eqb a quote then Some quote else
  match a with
  | "b" => Some (chr 8) | "f" => Some (chr 12) | "n" => Some (chr 10)
  | "r" => Some (chr 13) | "t" => Some (chr 9)
  | "\" => Some "\" | "/" => Some "/"
  | _ => None
  end%char.

(** The text of a string literal up to its closing quote, and what follows. *)
Fixpoint scan_string (s : string) : option (string * string) :=
  match s with
  | EmptyString => None
  | String c t =>
    if Ascii.eqb c quote then Some (EmptyString, t)
    else if Ascii.eqb c "\" then
      match t with
      | String "u" (String h1 (String h2 (String h3 (String h4 t')))) =>
        let! _ := hex4 h1 h2 h3 h4 in
        let! (raw, r) := scan_string t' in
        Some (String c (String "u" (String h1 (String h2 (String h3 (String h4 raw))))), r)
      | String e t' =>
        let! _ := simple_escape e in
        let! (raw, r) := scan_string t' in Some (String c (String e raw), r)
      | EmptyString => None
      end
    else if code c <? 32 then None
    else let! (raw, r) := scan_string t in Some (String c raw, r)
  end.

Definition is_surrogate (r : Z) : bool := in_range 55296 57343 r.

(** [utf16.DecodeRune]. *)
Definition utf16_decode (r1 r2 : Z) : Z :=
  if in_range 55296 56319 r1 && in_range 56320 57343 r2
  then (r1 - 55296) * 1024 + (r2 - 56320) + 65536
  else rune_error.

(** [unquote] on the text of a scanned literal: escapes are replaced, and
    malformed UTF-8 and lone surrogates become [RuneError]. *)
Fixpoint unquote (fuel : nat) (s : string) : string :=
  match fuel with
  | O => EmptyString
  | S f =>
    match s with
    | EmptyString => EmptyString
    | String "\" (String "u" (String a (String b (String c (String d t))))) =>
      match hex4 a b c d with
      | None => EmptyString
      | Some r =>
        let lone := (of_bytes (encode_rune (if is_surrogate r then rune_error else r)) ++ unquote f t)%string in
        if is_surrogate r then
          match t with
          | String "\" (String "u" (String a' (String b' (String c' (String d' t'))))) =>
            match hex4 a' b' c' d' with
            | Some r' => let r2 := utf16_decode r r' in
                         if r2 =? rune_error then lone
                         else (of_bytes (encode_rune r2) ++ unquote f t')%string
            | None => lone
            end
          | _ => lone
          end
        else lone
      end
    | String "\" (String e t) =>
      match simple_escape e with Some x => String x (unquote f t) | None => EmptyString end
    | String c t =>
      if code c <? 128 then String c (unquote f t)
      else let '(r, n) := decode_rune (bytes (stake 4 s)) in
           (of_bytes (encode_rune r) ++ unquote f (sdrop n s))%string
    end
  end.

(** A number literal: an optional sign, the integer part, fraction, exponent. *)
Definition scan_digits1 (s : string) : option (string * string) :=
  let '(d, r) := span_digits s in if String.eqb d "" then None else Some (d, r).

Definition scan_exponent (s : string) : option (string * string) :=
  match s with
  | String c t =>
    if Ascii.eqb c "e" || Ascii.eqb c "E" then
      let '(sign, t) := match t with
                        | String "+" u => ("+"%string, u) | String "-" u => ("-"%string, u)
                        | _ => (EmptyString, t) end in
      let! (d, r) := scan_digits1 t in Some (String c (sign ++ d), r)
    else Some (EmptyString, s)
  | EmptyString => Some (EmptyString, s)
  end%string.

Definition scan_fraction (s : string) : option (string * string) :=
  match s with
  | String "." t => let! (d, r) := scan_digits1 t in Some (String "." d, r)
  | _ => Some (EmptyString, s)
  end.

Definition scan_number (s : string) : option (string * string) :=
  let '(sign, t) := match s with String "-" t => ("-"%string, t) | _ => (EmptyString, s) end in
  let! (i, r) := match t with
                 | String "0" t' => Some ("0"%string, t')
                 | _ => scan_digits1 t
                 end in
  let! (fr, r) := scan_fraction r in
  let! (ex, r) := scan_exponent r in
  Some ((sign ++ i ++ fr ++ ex)%string, r).

(** A scalar value at the head of the input. *)
Definition scan_scalar (s : string) : option (jtoken * string) :=
  match s with
  | String "t" _ => let! r := expect "true" s in Some (TBool true, r)
  | String "f" _ => let! r := expect "false" s in Some (TBool false, r)
  | String "n" _ => let! r := expect "null" s in Some (TNull, r)
  | String c t =>
    if Ascii.eqb c quote
    then let! (raw, r) := scan_string t in Some (TStr (unquote (String.length raw) raw), r)
    else let! (x, r) := scan_number s in Some (TNum x, r)
  | EmptyString => None
  end.

(** ** [json.Decoder.Token] *)
Inductive tstate : Type :=
  | TopValue | ArrayStart | ArrayValue | ArrayComma
  | ObjectStart | ObjectKey | ObjectColon | ObjectValue | ObjectComma.

#[export] Instance tstate_eq_dec : EqDecision tstate.
Proof. solve_decision. Defined.

Record decoder := Decoder { d_rest : string; d_state : tstate; d_stack : list tstate }.
Definition new_decoder (raw : string) : decoder := Decoder raw TopValue [].

Inductive tok_result : Type :=
  | TokEOF
  | TokErr
  | Tok (t : jtoken) (d : decoder).

Definition value_allowed (s : tstate) : bool :=
  match s with TopValue | ArrayStart | ArrayValue | ObjectValue => true | _ => false end.
(** [tokenValueEnd]. *)
Definition value_end (s : tstate) : tstate :=
  match s with ArrayStart | ArrayValue => ArrayComma | ObjectValue => ObjectComma | _ => s end.

Definition open_delim (d : decoder) (c : ascii) (rest : string) (s : tstate) : tok_result :=
  if value_allowed (d_state d) then Tok (TDelim c) (Decoder rest s (d_state d :: d_stack d)) else TokErr.

Definition close_delim (d : decoder) (c : ascii) (rest : string) (ok : bool) : tok_result :=
  if ok then
    match d_stack d with
    | s :: st => Tok (TDelim c) (Decoder rest (value_end s) st)
    | [] => TokErr
    end
  else TokErr.

(** One pass of the loop; [inl] is a consumed separator. *)
Definition token_pass (d : decoder) : decoder + tok_result :=
  let s := skip_space (d_rest d) in
  let st := d_state d in
  match s with
  | EmptyString => inr TokEOF
  | String c t =>
    if Ascii.eqb c "[" then inr (open_delim d c t ArrayStart)
    else if Ascii.eqb c "{" then inr (open_delim d c t ObjectStart)
    else if Ascii.eqb c "]" then
      inr (close_delim d c t (bool_decide (st = ArrayStart \/ st = ArrayComma)))
    else if Ascii.eqb c "}" then
      inr (close_delim d c t (bool_decide (st = ObjectStart \/ st = ObjectComma)))
    else if Ascii.eqb c ":" then
      match st with
      | ObjectColon => inl (Decoder t ObjectValue (d_stack d))
      | _ => inr TokErr
      end
    else if Ascii.eqb c "," then
      match st with
      | ArrayComma => inl (Decoder t ArrayValue (d_stack d))
      | ObjectComma => inl (Decoder t ObjectKey (d_stack d))
      | _ => inr TokErr
      end
    else if Ascii.eqb c quote && bool_decide (st = ObjectStart \/ st = ObjectKey) then
      match scan_scalar s with
      | Some (x, r) => inr (Tok x (Decoder r ObjectColon (d_stack d)))
      | None => inr TokErr
      end
    else if value_allowed st then
      match scan_scalar s with
      | Some (x, r) => inr (Tok x (Decoder r (value_end st) (d_stack d)))
      | None => inr TokErr
      end
    else inr TokErr
  end.

(** After a separator neither separator is allowed, so two passes are enough. *)
Definition next_token (d : decoder) : tok_result :=
  match token_pass d with
  | inr r => r
  | inl d' => match token_pass d' with inr r => r | inl _ => TokErr end
  end.

(** The tokens up to the end of the input or the first error, and whether the
    end was reached. *)
Fixpoint token_trace (fuel : nat) (d : decoder) : list jtoken * bool :=
  match fuel with
  | O => ([], false)
  | S f =>
    match next_token d with
    | TokEOF => ([], true)
    | TokErr => ([], false)
    | Tok t d' => let '(ts, ok) := token_trace f d' in (t :: ts, ok)
    end
  end.
Definition tokens (raw : string) : list jtoken * bool :=
  token_trace (S (String.length raw)) (new_decoder raw).

(** [decoder.More()]. *)
Definition more (d : decoder) : bool :=
  match skip_space (d_rest d) with
  | String c _ => negb (Ascii.eqb c "]" || Ascii.eqb c "}")
  | EmptyString => false
  end.

(** ** Documents: [json.Decoder.Decode] *)
Fixpoint parse_value (fuel : nat) (d : decoder) : option (json * decoder) :=
  match fuel with
  | O => None
  | S f =>
    match next_token d with
    | Tok (TDelim c) d1 =>
      if Ascii.eqb c "{" then
        let! (ms, d2) := parse_members f d1 in Some (JObj ms, d2)
      else if Ascii.eqb c "[" then
        let! (vs, d2) := parse_elements f d1 in Some (JArr vs, d2)
      else None
    | Tok (TStr s) d1 => Some (JStr s, d1)
    | Tok (TNum s) d1 => Some (JNum s, d1)
    | Tok (TBool b) d1 => Some (JBool b, d1)
    | Tok TNull d1 => Some (JNull, d1)
    | _ => None
    end
  end
with parse_members (fuel : nat) (d : decoder) : option (list (string * json) * decoder) :=
  match fuel with
  | O => None
  | S f =>
    if more d then
      match next_token d with
      | Tok (TStr k) d1 =>
        let! (v, d2) := parse_value f d1 in
        let! (ms, d3) := parse_members f d2 in Some ((k, v) :: ms, d3)
      | _ => None
      end
    else match next_token d with
         | Tok (TDelim c) d1 => oguard (Ascii.eqb c "}") (Some ([], d1))
         | _ => None
         end
  end
with parse_elements (fuel : nat) (d : decoder) : option (list json * decoder) :=
  match fuel with
  | O => None
  | S f =>
    if more d then
      let! (v, d2) := parse_value f d in
      let! (vs, d3) := parse_elements f d2 in Some (v :: vs, d3)
    else match next_token d with
         | Tok (TDelim c) d1 => oguard (Ascii.eqb c "]") (Some ([], d1))
         | _ => None
         end
  end.

(** The scanner refuses more than 10000 open containers. *)
Fixpoint nesting (v : json) : Z :=
  match v with
  | JArr l => 1 + foldr Z.max 0 (map nesting l)
  | JObj l => 1 + foldr Z.max 0 (map (fun kv => nesting (snd kv)) l)
  | _ => 0
  end.

(** [Decode(&v)] on a fresh decoder: the first value and the input after it. *)
Definition decode_first (raw : string) : option (json * string) :=
  let! (v, d) := parse_value (2 * String.length raw + 2) (new_decoder raw) in
  oguard (nesting v <=? 10000) (Some (v, d_rest d)).

(** A following [Decode] returns [io.EOF] on white space only. *)
Definition at_eof (rest : string) : bool := String.eqb (skip_space rest) "".

(** [json.Unmarshal]: one value and nothing else. *)
Definition unmarshal (raw : string) : option json :=
  let! (v, rest) := decode_first raw in oguard (at_eof rest) (Some v).

(** The members of a root object with the text of each value, as a
    [json.RawMessage] field receives it. *)
Definition value_text (from upto : decoder) : string :=
  let s := match skip_space (d_rest from) with
           | String ":" t | String "," t => skip_space t
           | s => s
           end in
  stake (String.length s - String.length (d_rest upto)) s.

Fixpoint raw_members (fuel : nat) (d : decoder) : option (list (string * (string * json))) :=
  match fuel with
  | O => None
  | S f =>
    if more d then
      match next_token d with
      | Tok (TStr k) d1 =>
        let! (v, d2) := parse_value f d1 in
        let! ms := raw_members f d2 in Some ((k, (value_text d1 d2, v)) :: ms)
      | _ => None
      end
    else match next_token d with Tok (TDelim _) _ => Some [] | _ => None end
  end.
Definition raw_object (raw : string) : option (list (string * (string * json))) :=
  match next_token (new_decoder raw) with
  | Tok (TDelim "{") d => raw_members (2 * String.length raw + 2) d
  | _ => None
  end.

Fixpoint raw_elements (fuel : nat) (d : decoder) : option (list (string * json)) :=
  match fuel with
  | O => None
  | S f =>
    if more d then
      let! (v, d2) := parse_value f d in
      let! vs := raw_elements f d2 in Some ((value_text d d2, v) :: vs)
    else match next_token d with Tok (TDelim _) _ => Some [] | _ => None end
  end.
Definition raw_array (raw : string) : option (list (string * json)) :=
  match next_token (new_decoder raw) with
  | Tok (TDelim "[") d => raw_elements (2 * String.length raw + 2) d
  | _ => None
  end.

(** A key of an object decoded into a map or struct: the last one wins. *)
Definition member {A : Type} (k : string) (ms : list (string * A)) : option A :=
  option_map snd (find_last (fun kv => String.eqb (fst kv) k) ms).

(** ** Fields of a decoded struct

    [None]: the value has a type the field cannot hold, an error.  [null] and an
    absent key leave the zero value. *)
Definition int_field (v : option json) : option Z :=
  match v with
  | None | Some JNull => Some 0
  | Some (JNum t) => parse_int t
  | _ => None
  end.
Definition int_pointer_field (v : option json) : option (option Z) :=
  match v with
  | None | Some JNull => Some None
  | Some (JNum t) => option_map Some (parse_int t)
  | _ => None
  end.
Definition string_field (v : option json) : option string :=
  match v with
  | None | Some JNull => Some EmptyString
  | Some (JStr s) => Some s
  | _ => None
  end.
Definition bool_field (v : option json) : option bool :=
  match v with
  | None | Some JNull => Some false
  | Some (JBool b) => Some b
  | _ => None
  end.
Definition strings_field (v : option json) : option (list string) :=
  match v with
  | None | Some JNull => Some []
  | Some (JArr l) => mapM (fun x => string_field (Some x)) l
  | _ => None
  end.
Definition float_or_int_text (v : json) : option string :=
  match v with JNum t => Some t | _ => None end.

(** ** [json.Marshal] *)
Definition hex_digit (z : Z) : ascii := if z <? 10 then chr (48 + z) else chr (87 + z).
Definition escape_rune (r : Z) (width : nat) : string :=
  if r =? 34 then String "\" (String quote "")
  else if r =? 92 then "\\"
  else if r =? 8 then "\b" else if r =? 12 then "\f" else if r =? 10 then "\n"
  else if r =? 13 then "\r" else if r =? 9 then "\t"
  else if (r <? 32) || (r =? 60) || (r =? 62) || (r =? 38) then
    "\u00" ++ String (hex_digit (r / 16)) (String (hex_digit (r mod 16)) "")
  else if (r =? rune_error) && (width =? 1)%nat then "\ufffd"
  else if r =? 8232 then "\u2028" else if r =? 8233 then "\u2029"
  else of_bytes (encode_rune r).

Definition quote_string (s : string) : string :=
  String quote (fold_right (fun '(r, n) acc => escape_rune r n ++ acc)%string
                  (String quote "") (runes_w (bytes s))).

Definition key_ltb (a b : string * string) : bool := String.ltb (fst a) (fst b).

(** Objects are Go maps here: their keys come out in increasing order. *)
Fixpoint marshal (v : json) : string :=
  match v with
  | JNull => "null"
  | JBool true => "true"
  | JBool false => "false"
  | JNum t => t
  | JStr s => quote_string s
  | JArr l => "[" ++ join "," (map marshal l) ++ "]"
  | JObj l =>
    let ms := sort_by key_ltb (map (fun kv => (fst kv, marshal (snd kv))) l) in
    "{" ++ join "," (map (fun kv => quote_string (fst kv) ++ ":" ++ snd kv) ms) ++ "}"
  end%string.

(** A struct is written with its fields in the order of their declaration. *)
Definition marshal_struct (fields : list (string * json)) : string :=
  ("{" ++ join "," (map (fun kv => quote_string (fst kv) ++ ":" ++ marshal (snd kv)) fields) ++ "}")%string.

(** ** The tokens of a document *)
Fixpoint flatten (v : json) : list jtoken :=
  match v with
  | JNull => [TNull]
  | JBool b => [TBool b]
  | JNum t => [TNum t]
  | JStr s => [TStr s]
  | JArr l => TDelim "[" :: flat_map flatten l ++ [TDelim "]"]
  | JObj l => TDelim "{" :: flat_map (fun kv => TStr (fst kv) :: flatten (snd kv)) l ++ [TDelim "}"]
  end.

(** ** Lemmas on the scanner: every scalar takes input *)
Lemma skip_space_length (s : string) : (String.length (skip_space s) <= String.length s)%nat.
Proof. induction s as [|a s IH]; simpl; [done|]. destruct (json_space a); simpl; lia. Qed.

Lemma obind_Some {A B : Type} (m : option A) (k : A -> option B) b :
  obind m k = Some b -> exists a, m = Some a /\ k a = Some b.
Proof. destruct m; simpl; [eauto | discriminate]. Qed.

Lemma oguard_Some {A : Type} (b : bool) (k : option A) a :
  oguard b k = Some a -> b = true /\ k = Some a.
Proof. destruct b; simpl; [auto | discriminate]. Qed.

(** Takes apart a hypothesis [m = Some v] built from [let!] and [oguard]. *)
Ltac inv_opts H :=
  repeat (cbv beta in H;
    lazymatch type of H with
    | obind _ (fun _ => let (_, _) := _ in _) = Some _ =>
      let a := fresh "a" in let b := fresh "b" in let Ha := fresh "Ha" in
      apply obind_Some in H; destruct H as ([a b] & Ha & H)
    | obind _ _ = Some _ =>
      let a := fresh "a" in let Ha := fresh "Ha" in
      apply obind_Some in H; destruct H as (a & Ha & H)
    | oguard _ _ = Some _ =>
      let Ha := fresh "Ha" in apply oguard_Some in H; destruct H as [Ha H]
    end).

Lemma expect_length (p s r : string) : expect p s = Some r -> p <> ""%string ->
  (String.length r < String.length s)%nat.
Proof.
  unfold expect. intros H Hp.
  destruct (String.prefix p s) eqn:E; [|discriminate]. injection H as <-.
  revert s E. induction p as [|a p IH]; [done|]. intros [|b s] E; [discriminate|]. simpl in *.
  destruct (ascii_dec a b); [|discriminate].
  destruct p as [|a' p]; [simpl; destruct s; simpl; lia|].
  specialize (IH ltac:(done) s E). lia.
Qed.

Lemma scan_string_length (s raw r : string) :
  scan_string s = Some (raw, r) -> (String.length r < String.length s)%nat.
Proof.
  remember (String.length s) as n eqn:Hn. revert s raw r Hn.
  induction n as [n IH] using lt_wf_ind. intros s raw r -> H.
  destruct s as [|c t]; [discriminate|]. cbn [scan_string] in H.
  destruct (Ascii.eqb c quote); [injection H as <- <-; simpl; lia|].
  assert (Hrec : forall u, (String.length u < String.length (String c t))%nat ->
    forall raw' r', scan_string u = Some (raw', r') -> (String.length r' < String.length u)%nat).
  { intros u Hu raw' r' E. by eapply (IH _ Hu u). }
  destruct (Ascii.eqb c "\").
  - assert (Hs : forall e t', t = String e t' ->
      (let! _ := simple_escape e in
       let! (raw, r) := scan_string t' in Some (String c (String e raw), r)) = Some (raw, r) ->
      (String.length r < String.length (String c t))%nat).
    { intros e t' -> E. inv_opts E. injection E as _ <-.
      apply Hrec in Ha0; simpl; simpl in Ha0; lia. }
    destruct t as [|e t]; [discriminate|].
    destruct (ascii_dec e "u") as [->|Hne].
    + destruct t as [|h1 [|h2 [|h3 [|h4 t']]]]; try discriminate.
      inv_opts H. injection H as _ <-. apply Hrec in Ha0; simpl; simpl in Ha0; lia.
    + apply (Hs e t eq_refl). revert H.
      destruct e as [[] [] [] [] [] [] [] []]; try done; by destruct Hne.
  - destruct (code c <? 32); [discriminate|]. inv_opts H. injection H as _ <-.
    apply Hrec in Ha; simpl in *; lia.
Qed.

Lemma span_digits_length (s d r : string) : span_digits s = (d, r) ->
  (String.length d + String.length r = String.length s)%nat.
Proof.
  revert d r. induction s as [|a s IH]; intros d r; simpl; [intros [= <- <-]; done|].
  destruct (is_digit a).
  - destruct (span_digits s) as [d' r']. intros [= <- <-]. simpl. rewrite <- (IH d' r'); done.
  - intros [= <- <-]. done.
Qed.

Lemma scan_digits1_length (s d r : string) : scan_digits1 s = Some (d, r) ->
  (String.length r < String.length s)%nat.
Proof.
  unfold scan_digits1. destruct (span_digits s) as [d' r'] eqn:E.
  destruct (String.eqb_spec d' ""); [discriminate|]. intros [= <- <-].
  apply span_digits_length in E. destruct d'; [done|]. simpl in E. lia.
Qed.

Lemma scan_fraction_length (s d r : string) : scan_fraction s = Some (d, r) ->
  (String.length r <= String.length s)%nat.
Proof.
  unfold scan_fraction. destruct s as [|c s]; [intros [= <- <-]; done|].
  destruct (ascii_dec c ".") as [->|Hne].
  - intros H. inv_opts H. injection H as _ <-. apply scan_digits1_length in Ha. simpl. lia.
  - intros H. assert (String c s = r) as ->; [|done].
    destruct c as [[] [] [] [] [] [] [] []]; try (by injection H); by destruct Hne.
Qed.

Lemma scan_exponent_length (s d r : string) : scan_exponent s = Some (d, r) ->
  (String.length r <= String.length s)%nat.
Proof.
  unfold scan_exponent. destruct s as [|c s]; [intros [= <- <-]; done|].
  destruct (Ascii.eqb c "e" || Ascii.eqb c "E"); [|intros [= <- <-]; done].
  set (p := match s with String "+" u => _ | _ => _ end).
  assert (Hp : (String.length (snd p) <= String.length s)%nat).
  { subst p. destruct s as [|x s]; [done|].
    destruct x as [[] [] [] [] [] [] [] []]; simpl; lia. }
  destruct p as [sg t]. intros H. inv_opts H. injection H as _ <-.
  apply scan_digits1_length in Ha. simpl in *. lia.
Qed.

Lemma scan_number_length (s x r : string) : scan_number s = Some (x, r) ->
  (String.length r < String.length s)%nat.
Proof.
  unfold scan_number. set (p := match s with String "-" t => _ | _ => _ end).
  assert (Hp : (String.length (snd p) <= String.length s)%nat).
  { subst p. destruct s as [|c s]; [done|].
    destruct c as [[] [] [] [] [] [] [] []]; simpl; lia. }
  destruct p as [sg t]. cbn [snd] in Hp. intros H. inv_opts H. injection H as _ <-.
  apply scan_fraction_length in Ha0. apply scan_exponent_length in Ha1.
  assert (String.length b < String.length t)%nat; [|lia].
  destruct t as [|c t]; [discriminate|].
  destruct (ascii_dec c "0") as [->|Hne]; [injection Ha as <- <-; simpl; lia|].
  apply (scan_digits1_length _ a). rewrite <- Ha.
  destruct c as [[] [] [] [] [] [] [] []]; try done; by destruct Hne.
Qed.

(** A scalar token takes input and is not a delimiter. *)
Lemma scan_scalar_spec (s r : string) (x : jtoken) : scan_scalar s = Some (x, r) ->
  (String.length r < String.length s)%nat /\ forall c, x <> TDelim c.
Proof.
  unfold scan_scalar. intros H. destruct s as [|c t]; [discriminate|].
  assert (Hd : (if Ascii.eqb c quote
    then let! (raw, r) := scan_string t in Some (TStr (unquote (String.length raw) raw), r)
    else let! (y, r) := scan_number (String c t) in Some (TNum y, r)) = Some (x, r) ->
    (String.length r < String.length (String c t))%nat /\ forall c', x <> TDelim c').
  { clear H. destruct (Ascii.eqb c quote); intros H; inv_opts H; injection H as <- <-.
    - apply scan_string_length in Ha. split; [simpl; lia|done].
    - apply scan_number_length in Ha. done. }
  destruct (ascii_dec c "t") as [->|Ht];
    [inv_opts H; injection H as <- <-; split; [by eapply expect_length|done]|].
  destruct (ascii_dec c "f") as [->|Hf];
    [inv_opts H; injection H as <- <-; split; [by eapply expect_length|done]|].
  destruct (ascii_dec c "n") as [->|Hn];
    [inv_opts H; injection H as <- <-; split; [by eapply expect_length|done]|].
  apply Hd. destruct c as [[] [] [] [] [] [] [] []]; try exact H; exfalso;
    first [by apply Ht | by apply Hf | by apply Hn].
Qed.

(** ** Lemmas on [Token] *)

(** The state after a value or a key read in state [s]. *)
Definition norm (s : tstate) : tstate :=
  match s with
  | TopValue => TopValue
  | ArrayStart | ArrayValue | ArrayComma => ArrayComma
  | ObjectColon | ObjectValue => ObjectComma
  | ObjectStart | ObjectKey | ObjectComma => ObjectColon
  end.

Definition is_close (t : jtoken) : bool :=
  match t with TDelim c => Ascii.eqb c "]" || Ascii.eqb c "}" | _ => false end.

(** What reading one token does to the decoder. *)
Definition token_effect (t : jtoken) (d d' : decoder) : Prop :=
  (String.length (d_rest d') < String.length (d_rest d))%nat /\
  more d = negb (is_close t) /\
  match t with
  | TDelim c =>
    (c = "["%char /\ d_state d' = ArrayStart /\
       exists s, d_stack d' = s :: d_stack d /\ value_end s = norm (d_state d)) \/
    (c = "{"%char /\ d_state d' = ObjectStart /\
       exists s, d_stack d' = s :: d_stack d /\ value_end s = norm (d_state d)) \/
    ((c = "]"%char \/ c = "}"%char) /\
       exists s, d_stack d = s :: d_stack d' /\ d_state d' = value_end s)
  | _ => d_stack d' = d_stack d /\ d_state d' = norm (d_state d)
  end.

Lemma value_allowed_norm (s : tstate) : value_allowed s = true -> value_end s = norm s.
Proof. by destruct s. Qed.

Ltac ascii_cases c :=
  repeat match goal with
  | H : context [Ascii.eqb c ?x] |- _ => destruct (Ascii.eqb_spec c x) as [?Heq|?Hne]; [subst c|]
  | |- context [Ascii.eqb c ?x] => destruct (Ascii.eqb_spec c x) as [?Heq|?Hne]; [subst c|]
  end.

Lemma token_pass_effect (d d' : decoder) (t : jtoken) :
  token_pass d = inr (Tok t d') -> token_effect t d d'.
Proof.
  unfold token_pass, token_effect, more. pose proof (skip_space_length (d_rest d)) as Hl.
  destruct (skip_space (d_rest d)) as [|c u]; [discriminate|]. cbn [String.length] in Hl.
  assert (Hscal : Ascii.eqb c "]" = false -> Ascii.eqb c "}" = false ->
    forall s', s' = norm (d_state d) ->
    match scan_scalar (String c u) with
    | Some (x, r) => inr (Tok x (Decoder r s' (d_stack d))) | None => inr TokErr end
      = (inr (Tok t d') : decoder + tok_result) ->
    (String.length (d_rest d') < String.length (d_rest d))%nat /\
    negb (Ascii.eqb c "]" || Ascii.eqb c "}") = negb (is_close t) /\
    match t with
    | TDelim _ => False
    | _ => d_stack d' = d_stack d /\ d_state d' = norm (d_state d)
    end).
  { intros E1 E2 s' Hs'. destruct (scan_scalar (String c u)) as [[x r]|] eqn:E; [|discriminate].
    apply scan_scalar_spec in E as [Hlt Hnd]. intros [= <- <-]. cbn [d_rest d_state d_stack] in *.
    cbn [String.length] in Hlt. rewrite E1, E2.
    destruct x; try (by destruct (Hnd c0)); repeat split; try done; lia. }
  unfold open_delim, close_delim.
  destruct (Ascii.eqb_spec c "[") as [->|].
  { destruct (value_allowed (d_state d)) eqn:Ev; [|discriminate]. intros [= <- <-].
    cbn. repeat split; [lia|]. left. repeat split; try done. eexists. split; [done|].
    by apply value_allowed_norm. }
  destruct (Ascii.eqb_spec c "{") as [->|].
  { destruct (value_allowed (d_state d)) eqn:Ev; [|discriminate]. intros [= <- <-].
    cbn. repeat split; [lia|]. right; left. repeat split; try done. eexists. split; [done|].
    by apply value_allowed_norm. }
  destruct (Ascii.eqb_spec c "]") as [->|Hb].
  { case_bool_decide; [|discriminate]. destruct (d_stack d) as [|s st] eqn:Es; [discriminate|].
    intros [= <- <-]. cbn. repeat split; [lia|]. right; right. split; [by left|]. by eexists. }
  destruct (Ascii.eqb_spec c "}") as [->|Hc].
  { case_bool_decide; [|discriminate]. destruct (d_stack d) as [|s st] eqn:Es; [discriminate|].
    intros [= <- <-]. cbn. repeat split; [lia|]. right; right. split; [by right|]. by eexists. }
  destruct (Ascii.eqb_spec c ":"); [by destruct (d_state d)|].
  destruct (Ascii.eqb_spec c ","); [by destruct (d_state d)|].
  intros H.
  destruct (Ascii.eqb c quote && bool_decide (d_state d = ObjectStart \/ d_state d = ObjectKey)) eqn:Ek.
  - apply andb_true_iff in Ek as [_ Ek]. apply bool_decide_eq_true in Ek.
    destruct (Hscal eq_refl eq_refl ObjectColon) as (? & ? & ?); [by destruct Ek as [-> | ->]|done|].
    repeat split; try done. by destruct t.
  - destruct (value_allowed (d_state d)) eqn:Ev; [|discriminate].
    destruct (Hscal eq_refl eq_refl (value_end (d_state d))) as (? & ? & ?);
      [by apply value_allowed_norm|done|].
    repeat split; try done. by destruct t.
Qed.

Lemma token_pass_separator (d d1 : decoder) : token_pass d = inl d1 ->
  (String.length (d_rest d1) < String.length (d_rest d))%nat /\ more d = true /\
  d_stack d1 = d_stack d /\ norm (d_state d1) = norm (d_state d) /\
  (d_state d1 = ArrayValue \/ d_state d1 = ObjectKey \/ d_state d1 = ObjectValue).
Proof.
  unfold token_pass, more. pose proof (skip_space_length (d_rest d)) as Hl.
  destruct (skip_space (d_rest d)) as [|c u]; [discriminate|]. cbn [String.length] in Hl.
  unfold open_delim, close_delim.
  repeat (match goal with |- (if ?b then _ else _) = _ -> _ => destruct b eqn:? end; try discriminate).
  - destruct (d_state d); try discriminate. intros [= <-].
    apply Ascii.eqb_eq in Heqb3 as ->. cbn. repeat split; try done; try lia; tauto.
  - apply Ascii.eqb_eq in Heqb4 as ->.
    destruct (d_state d); try discriminate; intros [= <-]; cbn; repeat split; try done; try lia; tauto.
  - by destruct (scan_scalar _) as [[? ?]|].
  - by destruct (scan_scalar _) as [[? ?]|].
Qed.

Lemma next_token_effect (d d' : decoder) (t : jtoken) :
  next_token d = Tok t d' -> token_effect t d d'.
Proof.
  unfold next_token. destruct (token_pass d) as [d1|r] eqn:E.
  - apply token_pass_separator in E as (Hl & Hm & Hs & Hn & Hst).
    destruct (token_pass d1) as [?|r] eqn:E1; [discriminate|]. intros ->.
    pose proof (token_pass_effect _ _ _ E1) as (Hl1 & Hm1 & H1). unfold token_effect.
    split; [lia|]. rewrite Hm.
    assert (Hc : is_close t = false).
    { unfold token_pass in E1. destruct t as [c| | | |]; try done. cbn.
      destruct H1 as [(-> & _)|[(-> & _)|(Hc & _)]]; try done. exfalso.
      destruct (skip_space (d_rest d1)) as [|a u]; [discriminate|].
      unfold open_delim, close_delim in E1.
      assert (Hv : value_allowed (d_state d1) = true \/ d_state d1 = ObjectKey)
        by (destruct Hst as [-> | [-> | ->]]; auto).
      assert (H1 : d_state d1 <> ArrayStart /\ d_state d1 <> ArrayComma /\
                   d_state d1 <> ObjectStart /\ d_state d1 <> ObjectComma)
        by (destruct Hst as [-> | [-> | ->]]; done).
      destruct H1 as (? & ? & ? & ?).
      repeat (match type of E1 with (if ?b then _ else _) = _ => destruct b eqn:? end).
      - destruct (value_allowed (d_state d1)); [|discriminate]. injection E1 as -> _.
        apply Ascii.eqb_eq in Heqb. subst. destruct Hc; discriminate.
      - destruct (value_allowed (d_state d1)); [|discriminate]. injection E1 as -> _.
        apply Ascii.eqb_eq in Heqb0. subst. destruct Hc; discriminate.
      - case_bool_decide as Hb; [destruct Hb; done|discriminate].
      - case_bool_decide as Hb; [destruct Hb; done|discriminate].
      - by destruct (d_state d1).
      - by destruct (d_state d1).
      - destruct (scan_scalar _) as [[x r]|] eqn:Ex; [|discriminate].
        injection E1; intros; subst. apply scan_scalar_spec in Ex as [_ Ex]. by destruct (Ex c).
      - destruct (scan_scalar _) as [[x r]|] eqn:Ex; [|discriminate].
        injection E1; intros; subst. apply scan_scalar_spec in Ex as [_ Ex]. by destruct (Ex c).
      - discriminate. }
    rewrite Hc. split; [done|].
    destruct t as [c| | | |]; rewrite Hs in H1; rewrite Hn in H1; done.
  - intros ->. by apply token_pass_effect.
Qed.

(** [reads d ts d']: successive calls return the tokens [ts]. *)
Inductive reads : decoder -> list jtoken -> decoder -> Prop :=
  | reads_nil d : reads d [] d
  | reads_cons d t d1 ts d2 :
      next_token d = Tok t d1 -> reads d1 ts d2 -> reads d (t :: ts) d2.

Lemma reads_app d ts1 ts2 d2 :
  reads d (ts1 ++ ts2) d2 <-> exists d1, reads d ts1 d1 /\ reads d1 ts2 d2.
Proof.
  split.
  - revert d. induction ts1 as [|t ts1 IH]; intros d; simpl; [eexists; split; [constructor|done]|].
    intros H. inversion H as [|? ? d1 ? ? Ht Hr]; subst.
    destruct (IH _ Hr) as (d3 & ? & ?). exists d3. split; [by econstructor|done].
  - intros (d1 & H1 & H2). induction H1; simpl; [done|]. econstructor; eauto.
Qed.

Lemma reads_length d ts d' : reads d ts d' ->
  (String.length (d_rest d') + length ts <= String.length (d_rest d))%nat.
Proof.
  induction 1 as [|d t d1 ts d2 Ht _ IH]; simpl; [lia|].
  apply next_token_effect in Ht as (? & _). lia.
Qed.

Lemma reads_one d t d' : reads d [t] d' <-> next_token d = Tok t d'.
Proof.
  split.
  - intros H. inversion H as [|? ? d1 ? ? Ht Hr]; subst. by inversion Hr; subst.
  - intros H. econstructor; [done|constructor].
Qed.

(** An induction principle with the values inside lists. *)
Lemma json_rect_strong (P : json -> Prop) :
  P JNull -> (forall b, P (JBool b)) -> (forall t, P (JNum t)) -> (forall s, P (JStr s)) ->
  (forall l, Forall P l -> P (JArr l)) ->
  (forall l, Forall (fun kv => P (snd kv)) l -> P (JObj l)) -> forall v, P v.
Proof.
  intros H1 H2 H3 H4 H5 H6.
  fix IH 1. intros [|b|t|s|l|l]; [done|apply H2|apply H3|apply H4|apply H5|apply H6].
  - induction l as [|v l IHl]; constructor; [apply IH|exact IHl].
  - induction l as [|[k v] l IHl]; constructor; [apply IH|exact IHl].
Qed.

(** Reading a whole value leaves the enclosing containers as they are. *)
Lemma reads_flatten_state (v : json) : forall d d', reads d (flatten v) d' ->
  d_stack d' = d_stack d /\ d_state d' = norm (d_state d).
Proof.
  induction v as [| | | |l IH|l IH] using json_rect_strong; intros d d' H; cbn [flatten] in H;
    try (apply reads_one, next_token_effect in H; destruct H as (_ & _ & H); exact H).
  - inversion H as [|? ? d1 ? ? Ht Hr]; subst. clear H.
    apply next_token_effect in Ht as (_ & _ & [(_ & Hst & s & Hs & Hn)|[(? & _)|([?|?] & _)]]);
      try discriminate.
    apply reads_app in Hr as (d2 & Hr & Hc).
    assert (Hel : d_stack d2 = d_stack d1).
    { clear Hc Hst Hs Hn. revert d1 Hr. induction IH as [|v l Hv _ IHl]; intros d1 Hr; cbn in Hr.
      - by inversion Hr.
      - apply reads_app in Hr as (d3 & Hr1 & Hr2). apply Hv in Hr1 as [? _].
        apply IHl in Hr2. congruence. }
    apply reads_one, next_token_effect in Hc as (_ & _ & [(? & _)|[(? & _)|(_ & s' & Hs' & Hst')]]);
      try discriminate.
    rewrite Hel, Hs in Hs'. injection Hs' as <- <-. split; [done|congruence].
  - inversion H as [|? ? d1 ? ? Ht Hr]; subst. clear H.
    apply next_token_effect in Ht as (_ & _ & [(? & _)|[(_ & Hst & s & Hs & Hn)|([?|?] & _)]]);
      try discriminate.
    apply reads_app in Hr as (d2 & Hr & Hc).
    assert (Hel : d_stack d2 = d_stack d1).
    { clear Hc Hst Hs Hn. revert d1 Hr. induction IH as [|[k v] l Hv _ IHl]; intros d1 Hr; cbn in Hr.
      - by inversion Hr.
      - inversion Hr as [|? ? d3 ? ? Ht3 Hr3]; subst.
        apply next_token_effect in Ht3 as (_ & _ & Hs3 & _).
        apply reads_app in Hr3 as (d4 & Hr1 & Hr2). apply Hv in Hr1 as [? _].
        apply IHl in Hr2. congruence. }
    apply reads_one, next_token_effect in Hc as (_ & _ & [(? & _)|[(? & _)|(_ & s' & Hs' & Hst')]]);
      try discriminate.
    rewrite Hel, Hs in Hs'. injection Hs' as <- <-. split; [done|congruence].
Qed.

(** ** Documents and tokens *)
Definition flatten_members (ms : list (string * json)) : list jtoken :=
  flat_map (fun kv => TStr (fst kv) :: flatten (snd kv)) ms.

Lemma parse_reads (fuel : nat) : forall d,
  (forall v d', parse_value fuel d = Some (v, d') -> reads d (flatten v) d') /\
  (forall ms d', parse_members fuel d = Some (ms, d') ->
     reads d (flatten_members ms ++ [TDelim "}"]) d') /\
  (forall vs d', parse_elements fuel d = Some (vs, d') ->
     reads d (flat_map flatten vs ++ [TDelim "]"]) d').
Proof.
  induction fuel as [|f IH]; intros d; [repeat split; intros; discriminate|].
  cbn [parse_value parse_members parse_elements]. repeat split.
  - intros v d' H. destruct (next_token d) as [| |t d1] eqn:Et; try discriminate.
    destruct t as [c|s|s|b|]; try (injection H as <- <-; by apply reads_one).
    destruct (Ascii.eqb_spec c "{") as [->|_].
    + inv_opts H. injection H as <- <-. econstructor; [done|]. by apply (proj1 (proj2 (IH d1))).
    + destruct (Ascii.eqb_spec c "[") as [->|_]; [|discriminate].
      inv_opts H. injection H as <- <-. econstructor; [done|]. by apply (proj2 (proj2 (IH d1))).
  - intros ms d' H. destruct (more d).
    + destruct (next_token d) as [| |t d1] eqn:Et; try discriminate.
      destruct t as [|k| | |]; try discriminate. inv_opts H. injection H as <- <-.
      unfold flatten_members. cbn [flat_map fst snd app]. fold (flatten_members a0).
      rewrite <- app_assoc. econstructor; [done|].
      apply reads_app. eexists. split; [by apply (proj1 (IH d1))|by apply (proj1 (proj2 (IH b)))].
    + destruct (next_token d) as [| |t d1] eqn:Et; try discriminate.
      destruct t as [c| | | |]; try discriminate. inv_opts H. apply Ascii.eqb_eq in Ha as ->.
      injection H as <- <-. by apply reads_one.
  - intros vs d' H. destruct (more d).
    + inv_opts H. injection H as <- <-. cbn. rewrite <- app_assoc.
      apply reads_app. eexists. split; [by apply (proj1 (IH d))|by apply (proj2 (proj2 (IH b)))].
    + destruct (next_token d) as [| |t d1] eqn:Et; try discriminate.
      destruct t as [c| | | |]; try discriminate. inv_opts H. apply Ascii.eqb_eq in Ha as ->.
      injection H as <- <-. by apply reads_one.
Qed.

Lemma flatten_head (v : json) : exists t ts, flatten v = t :: ts /\ is_close t = false.
Proof. destruct v; cbn; eauto. Qed.

Lemma reads_more d t ts d' : reads d (t :: ts) d' -> more d = negb (is_close t).
Proof. intros H. inversion H; subst. by apply next_token_effect in H3 as (_ & ? & _). Qed.

Lemma reads_parse (v : json) : forall d d' fuel,
  reads d (flatten v) d' -> (length (flatten v) <= fuel)%nat ->
  parse_value fuel d = Some (v, d').
Proof.
  induction v as [| | | |l IH|l IH] using json_rect_strong; intros d d' fuel H Hf;
    destruct fuel as [|f]; try (cbn in Hf; lia); cbn [flatten parse_value] in *;
    try (apply reads_one in H; rewrite H; done).
  - inversion H as [|? ? d1 ? ? Ht Hr]; subst. rewrite Ht. cbn [Ascii.eqb eqb].
    enough (parse_elements f d1 = Some (l, d')) as -> by done.
    clear Ht H. cbn [length] in Hf. rewrite length_app in Hf. cbn [length] in Hf.
    revert d1 f Hr Hf. induction IH as [|v l Hv _ IHl]; intros d1 [|f] Hr Hf; try lia.
    + cbn in Hr |- *. rewrite (reads_more _ _ _ _ Hr). apply reads_one in Hr. cbn. by rewrite Hr.
    + cbn in Hr, Hf. rewrite <- app_assoc in Hr. rewrite length_app in Hf.
      destruct (flatten_head v) as (t & ts & Ev & Hc).
      assert (Hm : more d1 = true) by (rewrite Ev in Hr; by rewrite (reads_more _ _ _ _ Hr), Hc).
      assert (1 <= length (flatten v))%nat by (rewrite Ev; simpl; lia).
      apply reads_app in Hr as (d2 & Hr1 & Hr2). cbn [parse_elements]. rewrite Hm.
      rewrite (Hv _ _ _ Hr1) by lia. cbn [obind]. rewrite (IHl d2) by (done || lia). done.
  - inversion H as [|? ? d1 ? ? Ht Hr]; subst. rewrite Ht. cbn [Ascii.eqb eqb].
    enough (parse_members f d1 = Some (l, d')) as -> by done.
    clear Ht H. cbn [length] in Hf. rewrite length_app in Hf. cbn [length] in Hf.
    revert d1 f Hr Hf. induction IH as [|[k v] l Hv _ IHl]; intros d1 [|f] Hr Hf; try lia.
    + cbn in Hr |- *. rewrite (reads_more _ _ _ _ Hr). apply reads_one in Hr. cbn. by rewrite Hr.
    + cbn in Hr, Hf, Hv. rewrite <- app_assoc in Hr. rewrite length_app in Hf.
      cbn [parse_members]. rewrite (reads_more _ _ _ _ Hr). cbn [is_close negb].
      inversion Hr as [|? ? d2 ? ? Hk Hr2]; subst. rewrite Hk.
      apply reads_app in Hr2 as (d3 & Hr1 & Hr2).
      rewrite (Hv _ _ _ Hr1) by lia. cbn [obind]. rewrite (IHl d3) by (done || lia). done.
Qed.

Lemma token_trace_reads (fuel : nat) d ts :
  (String.length (d_rest d) < fuel)%nat ->
  token_trace fuel d = (ts, true) <-> exists d', reads d ts d' /\ next_token d' = TokEOF.
Proof.
  revert d ts. induction fuel as [|f IH]; intros d ts Hf; [lia|]. cbn [token_trace].
  destruct (next_token d) as [| |t d1] eqn:Et.
  - split.
    + intros [= <-]. exists d. split; [constructor|done].
    + intros (d' & Hr & He). inversion Hr; subst; [done|congruence].
  - split; [discriminate|]. intros (d' & Hr & He). inversion Hr; subst; congruence.
  - pose proof (next_token_effect _ _ _ Et) as (Hl & _).
    destruct (token_trace f d1) as [ts1 ok] eqn:E1. split.
    + intros [= <- ->]. apply IH in E1 as (d' & Hr & He); [|lia].
      exists d'. split; [by econstructor|done].
    + intros (d' & Hr & He). inversion Hr as [|? ? d2 ts2 ? Ht2 Hr2]; subst; [congruence|].
      assert (d2 = d1 /\ t0 = t) as [-> ->] by (split; congruence).
      assert (token_trace f d1 = (ts2, true)) as E2 by (apply IH; [lia|eauto]).
      congruence.
Qed.

(** A document: one value, with white space only around it. *)
Definition parse_document (raw : string) : option json :=
  let! (v, d) := parse_value (2 * String.length raw + 2) (new_decoder raw) in
  oguard (at_eof (d_rest d)) (Some v).

Lemma top_eof (d : decoder) : d_state d = TopValue ->
  next_token d = TokEOF <-> at_eof (d_rest d) = true.
Proof.
  unfold next_token, token_pass, at_eof. intros ->.
  destruct (skip_space (d_rest d)) as [|c u]; [done|].
  split; [|discriminate]. unfold open_delim, close_delim. cbn [value_allowed].
  intros H. exfalso. revert H. repeat case_match; intros; simplify_eq.
Qed.

Lemma tokens_document (raw : string) (v : json) :
  tokens raw = (flatten v, true) <-> parse_document raw = Some v.
Proof.
  unfold tokens, parse_document. rewrite token_trace_reads by (simpl; lia). split.
  - intros (d' & Hr & He). pose proof (reads_length _ _ _ Hr) as Hl. cbn in Hl.
    pose proof (reads_flatten_state _ _ _ Hr) as [_ Hst]. cbn in Hst.
    rewrite (reads_parse _ _ _ _ Hr) by lia. cbn [obind].
    by rewrite (proj1 (top_eof d' Hst) He).
  - intros H. inv_opts H. injection H as <-.
    pose proof (proj1 (parse_reads _ _) _ _ Ha) as Hr. exists b. split; [done|].
    pose proof (reads_flatten_state _ _ _ Hr) as [_ Hst]. by apply top_eof.
Qed.

Lemma parse_document_unmarshal (raw : string) (v : json) :
  unmarshal raw = Some v <-> parse_document raw = Some v /\ nesting v <= 10000.
Proof.
  unfold unmarshal, decode_first, parse_document.
  destruct (parse_value _ _) as [[w d]|]; cbn [obind]; [|split; [done|intros [? _]; done]].
  destruct (Z.leb_spec (nesting w) 10000); cbn [oguard obind];
    destruct (at_eof (d_rest d)); cbn [oguard]; (split; [|intros [? ?]]); intros; simplify_eq; try done; lia.
Qed.

(** Text with apostrophes for quotation marks, for concrete inputs. *)
Fixpoint quoted (s : string) : string :=
  match s with
  | EmptyString => EmptyString
  | String c t => String (if Ascii.eqb c (chr 39) then quote else c) (quoted t)
  end.
