(* ===== verification/Marshal.v ===== *)
(** * What [json.Marshal] writes is read back

    The scanner and the decoder of [GoJson] read the text of a value as the value
    with its members in order; every value that was decoded can be written so. *)

From Stdlib Require Import ZArith Lia String Ascii.
From S2P Require Import Prelude GoStrings Utf8 GoTime GoJson.
Open Scope string_scope.
Open Scope list_scope.
Open Scope Z_scope.

#[local] Ltac Zify.zify_post_hook ::= Z.div_mod_to_equations.

(** ** Strings *)

(** How a rune is written. *)
Definition escape (r : Z) : string := escape_rune r (length (encode_rune r)).
Definition escapes (rs : list Z) : string := fold_right (fun r acc => escape r +:+ acc) "" rs.

Lemma quote_text (rs : list Z) : forallb scalar rs = true ->
  quote_string (text rs) = String quote (escapes rs +:+ String quote "").
Proof.
  intros Hr. unfold quote_string. rewrite runes_text by done. f_equal. clear Hr.
  induction rs as [|r rs IH]; [done|]. cbn [map fold_right escapes]. rewrite IH.
  fold (escapes rs). by rewrite sappend_assoc.
Qed.

(** The three shapes: a two-character escape, a hexadecimal one, or the bytes. *)
Inductive escaped : Z -> string -> Prop :=
  | escaped_simple r e x : simple_escape e = Some x -> e <> "u"%char -> code x = r -> escaped r (String "\" (String e ""))
  | escaped_hex r a b c d : hex4 a b c d = Some r -> escaped r (String "\" (String "u" (String a (String b (String c (String d ""))))))
  | escaped_bytes r : 32 <= r -> r <> 34 -> r <> 92 -> escaped r (of_bytes (encode_rune r)).

Lemma escape_cases (r : Z) : scalar r = true -> escaped r (escape r).
Proof.
  intros Hr. unfold escape, escape_rune.
  destruct (Z.eqb_spec r 34) as [->|H34]; [by apply (escaped_simple 34 quote quote)|].
  destruct (Z.eqb_spec r 92) as [->|H92]; [by apply (escaped_simple 92 "\" "\")|].
  destruct (Z.eqb_spec r 8) as [->|]; [by apply (escaped_simple 8 "b" (chr 8))|].
  destruct (Z.eqb_spec r 12) as [->|]; [by apply (escaped_simple 12 "f" (chr 12))|].
  destruct (Z.eqb_spec r 10) as [->|]; [by apply (escaped_simple 10 "n" (chr 10))|].
  destruct (Z.eqb_spec r 13) as [->|]; [by apply (escaped_simple 13 "r" (chr 13))|].
  destruct (Z.eqb_spec r 9) as [->|]; [by apply (escaped_simple 9 "t" (chr 9))|].
  assert (H0 : 0 <= r) by (destruct (encode_cases r Hr) as [[? _]|[[? _]|[[? _]|[? _]]]]; lia).
  destruct (_ || (r =? 38)) eqn:Eh.
  - assert (Hm : forallb (fun r => match hex4 "0" "0" (hex_digit (r / 16)) (hex_digit (r mod 16)) with
      | Some x => x =? r | None => false end) (map Z.of_nat (seq 0 64)) = true) by (vm_compute; reflexivity).
    rewrite forallb_forall in Hm. specialize (Hm r).
    assert (Hi : In r (map Z.of_nat (seq 0 64))).
    { apply in_map_iff. exists (Z.to_nat r). split; [lia|]. apply in_seq. rewrite !orb_true_iff in Eh.
      destruct Eh as [[[E|E]|E]|E]; to_prop; lia. }
    specialize (Hm Hi). destruct (hex4 _ _ _ _) as [x|] eqn:E; [|done]. apply Z.eqb_eq in Hm as ->. by apply escaped_hex.
  - rewrite !orb_false_iff in Eh. destruct Eh as [[[E _] _] _]. apply Z.ltb_ge in E.
    destruct (Z.eqb_spec r rune_error) as [->|]; [by apply escaped_bytes|]. cbn [andb].
    destruct (Z.eqb_spec r 8232) as [->|]; [by apply escaped_hex|].
    destruct (Z.eqb_spec r 8233) as [->|]; [by apply escaped_hex|]. by apply escaped_bytes.
Qed.

(** *** The scanner takes an escape whole *)
Lemma scan_escape (e x : ascii) (t : string) : simple_escape e = Some x -> e <> "u"%char ->
  scan_string (String "\" (String e t)) = (let! (raw, r) := scan_string t in Some (String "\" (String e raw), r)).
Proof.
  intros Hx Hu. transitivity (let! _ := simple_escape e in let! (raw, r) := scan_string t in Some (String "\" (String e raw), r));
    [|by rewrite Hx].
  destruct e as [[] [] [] [] [] [] [] []]; try reflexivity; by destruct Hu.
Qed.
Lemma scan_byte (c : ascii) (t : string) : c <> quote -> c <> "\"%char -> 32 <= code c ->
  scan_string (String c t) = (let! (raw, r) := scan_string t in Some (String c raw, r)).
Proof.
  intros Hq Hs Hc. cbn [scan_string]. destruct (Ascii.eqb_spec c quote); [done|]. destruct (Ascii.eqb_spec c "\"); [done|].
  destruct (Z.ltb_spec (code c) 32); [lia|done].
Qed.
(** The bytes of a rune that is not escaped. *)
Definition passes (b : Z) : Prop := 32 <= b <= 255 /\ b <> 34 /\ b <> 92.
Lemma passes_rune (r : Z) : scalar r = true -> 32 <= r -> r <> 34 -> r <> 92 -> Forall passes (encode_rune r).
Proof.
  intros Hr H32 Hq Hs. unfold passes. destruct (Z.lt_ge_cases r 128) as [Hb|Hb].
  - destruct (encode_cases r Hr) as [(?&->)|[(?&_)|[(?&_)|(?&_)]]]; [|lia..]. apply Forall_singleton. lia.
  - eapply Forall_impl; [by apply encode_high|]. unfold high. intros b Hx. lia.
Qed.
Lemma scan_bytes (l : list Z) (t : string) : Forall passes l ->
  scan_string (of_bytes l +:+ t) = (let! (raw, r) := scan_string t in Some (of_bytes l +:+ raw, r)).
Proof.
  induction 1 as [|b l (Hb & Hq & Hs) _ IH]; [cbn [of_bytes]; rewrite sapp_nil; by destruct (scan_string t) as [[? ?]|]|].
  cbn [of_bytes]. rewrite sapp_cons, scan_byte, IH.
  - by destruct (scan_string t) as [[? ?]|].
  - intros E. apply Hq. apply (f_equal code) in E. rewrite code_chr in E by lia. by rewrite E.
  - intros E. apply Hs. apply (f_equal code) in E. rewrite code_chr in E by lia. by rewrite E.
  - rewrite code_chr; lia.
Qed.
Lemma scan_escaped (r : Z) (s t : string) : scalar r = true -> escaped r s ->
  scan_string (s +:+ t) = (let! (raw, u) := scan_string t in Some (s +:+ raw, u)).
Proof.
  intros Hr Hs. destruct Hs as [r e x He Hu _|r a b c d Hx|r H32 Hq Hb].
  - exact (scan_escape e x t He Hu).
  - rewrite !sapp_cons, sapp_nil. cbn [scan_string Ascii.eqb eqb]. rewrite Hx. cbn [obind].
    by destruct (scan_string t) as [[? ?]|].
  - by apply scan_bytes, passes_rune.
Qed.
Lemma scan_escapes (rs : list Z) (t : string) : forallb scalar rs = true ->
  scan_string (escapes rs +:+ String quote t) = Some (escapes rs, t).
Proof.
  induction rs as [|r rs IH]; intros Hr; [done|]. apply andb_true_iff in Hr as [Hr Hrs]. cbn [escapes fold_right].
  fold (escapes rs). rewrite sappend_assoc, (scan_escaped r) by (done || by apply escape_cases). by rewrite IH.
Qed.

(** *** [unquote] undoes it *)
Lemma unquote_escape (f : nat) (e x : ascii) (t : string) : simple_escape e = Some x -> e <> "u"%char ->
  unquote (S f) (String "\" (String e t)) = String x (unquote f t).
Proof.
  intros Hx Hu. transitivity (match simple_escape e with Some x => String x (unquote f t) | None => "" end); [|by rewrite Hx].
  destruct e as [[] [] [] [] [] [] [] []]; try reflexivity; by destruct Hu.
Qed.
Lemma unquote_hex (f : nat) (a b c d : ascii) (r : Z) (t : string) : hex4 a b c d = Some r -> is_surrogate r = false ->
  unquote (S f) (String "\" (String "u" (String a (String b (String c (String d t)))))) = of_bytes (encode_rune r) +:+ unquote f t.
Proof. intros Hx Hs. cbn [unquote]. by rewrite Hx, Hs. Qed.
Lemma unquote_byte (f : nat) (c : ascii) (t : string) : c <> "\"%char ->
  unquote (S f) (String c t) =
  if code c <? 128 then String c (unquote f t)
  else let '(r, n) := decode_rune (bytes (stake 4 (String c t))) in of_bytes (encode_rune r) +:+ unquote f (sdrop n (String c t)).
Proof. intros Hc. destruct c as [[] [] [] [] [] [] [] []]; try reflexivity; by destruct Hc. Qed.

Lemma bytes_stake (n : nat) (s : string) : bytes (stake n s) = take n (bytes s).
Proof.
  unfold stake. revert s. induction n as [|n IH]; intros [|a s]; try done. cbn [substring bytes take]. by rewrite IH.
Qed.
Lemma bytes_sdrop (n : nat) (s : string) : bytes (sdrop n s) = drop n (bytes s).
Proof. revert s. induction n as [|n IH]; intros [|a s]; try done. cbn [sdrop bytes drop]. apply IH. Qed.
Lemma length_of_bytes (l : list Z) : String.length (of_bytes l) = length l.
Proof. induction l as [|b l IH]; [done|]. cbn. by rewrite IH. Qed.

Lemma unquote_rune (f : nat) (r : Z) (t : string) : scalar r = true -> r <> 92 ->
  unquote (S f) (of_bytes (encode_rune r) +:+ t) = of_bytes (encode_rune r) +:+ unquote f t.
Proof.
  intros Hr Hs. pose proof (encode_bytes r Hr) as Hb. pose proof (decode_rune_encode r (take (4 - length (encode_rune r)) (bytes t)) Hr) as Hd.
  assert (Hl : bytes (stake 4 (of_bytes (encode_rune r) +:+ t)) = encode_rune r ++ take (4 - length (encode_rune r)) (bytes t)).
  { rewrite bytes_stake, bytes_app, bytes_of_bytes by done. rewrite take_app_ge by apply length_encode_rune. done. }
  assert (Ho : sdrop (length (encode_rune r)) (of_bytes (encode_rune r) +:+ t) = t)
    by (rewrite <- length_of_bytes; apply sdrop_app).
  destruct (Z.lt_ge_cases r 128) as [Hlt|Hge].
  - destruct (encode_cases r Hr) as [(?&E)|[(?&_)|[(?&_)|(?&_)]]]; [|lia..]. rewrite E. cbn [of_bytes].
    rewrite !sapp_cons, sapp_nil, unquote_byte.
    + rewrite code_chr by lia. by rewrite (proj2 (Z.ltb_lt r 128)).
    + intros Ec. apply Hs. apply (f_equal code) in Ec. rewrite code_chr in Ec by lia. by rewrite Ec.
  - pose proof (encode_high r Hr Hge) as Hh. destruct (encode_rune r) as [|b l] eqn:E; [by pose proof (length_encode_rune r) as X; rewrite E in X; cbn in X; lia|].
    inversion Hh as [|? ? Hb0 _]; subst. unfold high in Hb0. cbn [of_bytes] in *. rewrite !sapp_cons in *.
    rewrite unquote_byte.
    + rewrite code_chr by lia. destruct (Z.ltb_spec b 128); [lia|]. rewrite Hl, Hd, Ho, E. cbn [of_bytes]. by rewrite sapp_cons.
    + intros Ec. apply (f_equal code) in Ec. rewrite code_chr in Ec by lia. change (code "\") with 92 in Ec. lia.
Qed.
Lemma scalar_surrogate (r : Z) : scalar r = true -> is_surrogate r = false.
Proof.
  unfold scalar, is_surrogate, in_range. intros H. apply orb_true_iff in H.
  destruct (Z.leb_spec 55296 r), (Z.leb_spec r 57343); try done. destruct H; to_prop; lia.
Qed.
Lemma unquote_escaped (f : nat) (r : Z) (s t : string) : scalar r = true -> escaped r s ->
  unquote (S f) (s +:+ t) = of_bytes (encode_rune r) +:+ unquote f t.
Proof.
  intros Hr Hs. destruct Hs as [r e x He Hu Hx|r a b c d Hx|r _ _ Hb].
  - rewrite !sapp_cons, sapp_nil, (unquote_escape _ _ _ _ He Hu). subst r. pose proof (code_range x).
    assert (Hx : code x < 128).
    { destruct e as [[] [] [] [] [] [] [] []]; try discriminate He; injection He as <-; vm_compute; done. }
    unfold encode_rune. decide_bounds. cbn [of_bytes]. by rewrite sapp_cons, sapp_nil, chr_code.
  - rewrite !sapp_cons, sapp_nil. apply unquote_hex; [done|by apply scalar_surrogate].
  - by apply unquote_rune.
Qed.
Lemma unquote_escapes (rs : list Z) (f : nat) : forallb scalar rs = true -> (length rs <= f)%nat ->
  unquote f (escapes rs) = text rs.
Proof.
  revert f. induction rs as [|r rs IH]; intros f Hr Hf; [by destruct f|]. apply andb_true_iff in Hr as [Hr Hrs].
  destruct f as [|f]; [cbn in Hf; lia|]. cbn [escapes fold_right]. fold (escapes rs).
  rewrite (unquote_escaped f r) by (done || by apply escape_cases). rewrite text_cons, IH by (done || cbn in Hf; lia). done.
Qed.
Lemma length_escapes (rs : list Z) : forallb scalar rs = true -> (length rs <= String.length (escapes rs))%nat.
Proof.
  induction rs as [|r rs IH]; intros Hr; [done|]. apply andb_true_iff in Hr as [Hr Hrs]. cbn [escapes fold_right length].
  fold (escapes rs). rewrite string_length_app. specialize (IH Hrs).
  enough (1 <= String.length (escape r))%nat by lia. destruct (escape_cases r Hr); [cbn; lia..|].
  rewrite length_of_bytes. apply length_encode_rune.
Qed.

(** A quoted string is one token. *)
Lemma scan_quoted (s rest : string) : utf8 s -> scan_scalar (quote_string s +:+ rest) = Some (TStr s, rest).
Proof.
  intros (rs & Hr & ->). rewrite quote_text by done. rewrite sapp_cons, sappend_assoc, sapp_cons, sapp_nil.
  change (scan_scalar (String quote (escapes rs +:+ String quote rest)))
    with (let! (raw, r) := scan_string (escapes rs +:+ String quote rest) in Some (TStr (unquote (String.length raw) raw), r)).
  rewrite scan_escapes by done. cbn [obind]. by rewrite unquote_escapes by (done || by apply length_escapes).
Qed.
Lemma quote_head (s : string) : exists t, quote_string s = String quote t.
Proof. unfold quote_string. by eexists. Qed.

(** What [unquote] gives is well-formed. *)
Lemma utf8_unquote (f : nat) : forall s, utf8 (unquote f s).
Proof.
  induction f as [|f IH]; intros s; [apply utf8_nil|].
  destruct s as [|c t]; [apply utf8_nil|]. destruct (ascii_dec c "\") as [->|Hc].
  - destruct t as [|e t]; [apply (utf8_cons "\"); [done|apply (IH "")]|].
    assert (Hs : utf8 (match simple_escape e with Some x => String x (unquote f t) | None => "" end)).
    { destruct (simple_escape e) as [x|] eqn:He; [|apply utf8_nil]. apply utf8_cons; [|apply IH].
      destruct e as [[] [] [] [] [] [] [] []]; try discriminate He; injection He as <-; vm_compute; done. }
    destruct (ascii_dec e "u") as [->|Hu]; [|destruct e as [[] [] [] [] [] [] [] []]; try exact Hs; by destruct Hu].
    destruct t as [|a [|b [|c [|d t]]]]; try apply utf8_nil. cbn [unquote].
    destruct (hex4 a b c d) as [r|]; [|apply utf8_nil].
    assert (Hl : forall x, utf8 (of_bytes (encode_rune x) +:+ unquote f t)) by (intros x; by apply utf8_app; [apply utf8_rune|]).
    destruct (is_surrogate r); [|apply Hl]. repeat case_match; first [apply Hl|apply utf8_app; [apply utf8_rune|apply IH]].
  - rewrite unquote_byte by done. destruct (Z.ltb_spec (code c) 128); [by apply utf8_cons|].
    destruct (decode_rune _) as [r n]. apply utf8_app; [apply utf8_rune|apply IH].
Qed.

(** ** Numbers *)
Fixpoint all_digits (s : string) : bool :=
  match s with EmptyString => true | String a t => is_digit a && all_digits t end.
Definition no_digit (r : string) : Prop := match r with EmptyString => True | String c _ => is_digit c = false end.

Lemma span_all_digits (d r : string) : all_digits d = true -> no_digit r -> span_digits (d +:+ r) = (d, r).
Proof.
  induction d as [|a d IH]; intros Hd Hr.
  - rewrite sapp_nil. destruct r as [|c r]; [done|]. cbn [span_digits]. by rewrite Hr.
  - cbn [all_digits] in Hd. apply andb_true_iff in Hd as [Ha Hd]. rewrite sapp_cons. cbn [span_digits].
    by rewrite Ha, IH.
Qed.
Lemma span_digits_all (s d r : string) : span_digits s = (d, r) -> all_digits d = true.
Proof.
  revert d r. induction s as [|a s IH]; intros d r; cbn [span_digits]; [by intros [= <- _]|].
  destruct (is_digit a) eqn:Ha; [|by intros [= <- _]]. destruct (span_digits s) as [d' r'] eqn:E.
  intros [= <- _]. cbn [all_digits]. by rewrite Ha, (IH d' r').
Qed.
Definition some_digits (d : string) : Prop := all_digits d = true /\ d <> "".
Lemma scan_digits1_all (s d r : string) : scan_digits1 s = Some (d, r) -> some_digits d.
Proof.
  unfold scan_digits1. destruct (span_digits s) as [d' r'] eqn:E. destruct (String.eqb_spec d' ""); [done|].
  intros [= <- _]. split; [by eapply span_digits_all|done].
Qed.
Lemma scan_some_digits (d r : string) : some_digits d -> no_digit r -> scan_digits1 (d +:+ r) = Some (d, r).
Proof.
  intros [Hd Hn] Hr. unfold scan_digits1. rewrite span_all_digits by done. by destruct (String.eqb_spec d "").
Qed.

(** The parts of a number literal. *)
Definition sign_part (s : string) : Prop := s = "" \/ s = "-".
Definition integer_part (s : string) : Prop := s = "0" \/ exists a t, s = String a t /\ some_digits s /\ a <> "0"%char.
Definition fraction_part (s : string) : Prop := s = "" \/ exists d, s = String "." d /\ some_digits d.
Definition exponent_part (s : string) : Prop := s = "" \/ exists c sign d, s = String c (sign +:+ d) /\
  (c = "e"%char \/ c = "E"%char) /\ (sign = "" \/ sign = "+" \/ sign = "-") /\ some_digits d.
Definition number (x : string) : Prop := exists sign i fr ex, x = sign +:+ (i +:+ (fr +:+ ex)) /\
  sign_part sign /\ integer_part i /\ fraction_part fr /\ exponent_part ex.
(** What can follow a value. *)
Definition ends (r : string) : Prop :=
  match r with EmptyString => True | String c _ => c = ","%char \/ c = "]"%char \/ c = "}"%char end.

Lemma scan_number_number (s x r : string) : scan_number s = Some (x, r) -> number x.
Proof.
  unfold scan_number. set (p := match s with String "-" t => _ | _ => _ end).
  assert (Hp : sign_part (fst p)).
  { subst p. destruct s as [|c s]; [by left|]. destruct c as [[] [] [] [] [] [] [] []]; try by left. by right. }
  destruct p as [sign t]. cbn [fst] in Hp. intros H. apply obind_Some in H as ([i r1] & Hi & H).
  apply obind_Some in H as ([fr r2] & Hf & H). apply obind_Some in H as ([ex r3] & He & H). injection H as <- _.
  exists sign, i, fr, ex. split; [done|]. split; [done|]. split; [|split].
  - destruct t as [|c t]; [discriminate Hi|]. destruct (ascii_dec c "0") as [->|Hc]; [left; by injection Hi as <- _|].
    assert (Hd : scan_digits1 (String c t) = Some (i, r1))
      by (rewrite <- Hi; destruct c as [[] [] [] [] [] [] [] []]; try done; by destruct Hc).
    pose proof (scan_digits1_all _ _ _ Hd) as Hs. right. unfold scan_digits1 in Hd. cbn [span_digits] in Hd.
    destruct (is_digit c); [|by destruct (String.eqb_spec "" "")]. destruct (span_digits t) as [d u].
    destruct (String.eqb_spec (String c d) ""); [done|]. injection Hd as <- _. eauto.
  - unfold scan_fraction in Hf. destruct r1 as [|c r1]; [injection Hf as <- _; by left|].
    destruct (ascii_dec c ".") as [->|Hc].
    + apply obind_Some in Hf as ([d u] & Hd & [= <- _]). right. exists d. split; [done|]. by eapply scan_digits1_all.
    + left. destruct c as [[] [] [] [] [] [] [] []]; try (by injection Hf as <- _); by destruct Hc.
  - unfold scan_exponent in He. destruct r2 as [|c r2]; [injection He as <- _; by left|].
    destruct (Ascii.eqb c "e" || Ascii.eqb c "E") eqn:Ec; [|injection He as <- _; by left].
    set (q := match r2 with String "+" u => _ | _ => _ end) in He.
    assert (Hq : fst q = "" \/ fst q = "+" \/ fst q = "-").
    { subst q. destruct r2 as [|x r2]; [by left|]. destruct x as [[] [] [] [] [] [] [] []]; auto. }
    destruct q as [sg u]. cbn [fst] in Hq. apply obind_Some in He as ([d v] & Hd & [= <- _]). right.
    exists c, sg, d. split; [done|]. split; [|split; [done|by eapply scan_digits1_all]].
    apply orb_true_iff in Ec as [Ec|Ec]; apply Ascii.eqb_eq in Ec; auto.
Qed.

Lemma ends_no_digit (r : string) : ends r -> no_digit r.
Proof. destruct r as [|c r]; [done|]. by intros [->|[->| ->]]. Qed.
Lemma digits_head (d : string) : some_digits d -> exists a t, d = String a t /\ is_digit a = true.
Proof. intros [Hd Hn]. destruct d as [|a t]; [done|]. apply andb_true_iff in Hd as [Ha _]. eauto. Qed.

Lemma scan_exponent_part (ex r : string) : exponent_part ex -> ends r -> scan_exponent (ex +:+ r) = Some (ex, r).
Proof.
  intros [->|(c & sg & d & -> & Hc & Hs & Hd)] Hr.
  - rewrite sapp_nil. destruct r as [|c r]; [done|]. by destruct Hr as [->|[->| ->]].
  - pose proof (scan_some_digits d r Hd (ends_no_digit _ Hr)) as Hscan.
    rewrite sapp_cons, sappend_assoc. unfold scan_exponent.
    replace (Ascii.eqb c "e" || Ascii.eqb c "E") with true by (by destruct Hc as [-> | ->]).
    assert (E : match sg +:+ (d +:+ r) with String "+" u => ("+", u) | String "-" u => ("-", u) | _ => ("", sg +:+ (d +:+ r)) end
      = (sg, d +:+ r)).
    { destruct Hs as [->|[->| ->]]; [|done|done]. rewrite sapp_nil. destruct (digits_head d Hd) as (a & t & -> & Ha).
      rewrite sapp_cons. destruct a as [[] [] [] [] [] [] [] []]; try done; discriminate Ha. }
    rewrite E, Hscan. done.
Qed.
Lemma exponent_no_digit (ex r : string) : exponent_part ex -> ends r -> no_digit (ex +:+ r).
Proof. intros [->|(c & sg & d & -> & Hc & _)] Hr; [rewrite sapp_nil; by apply ends_no_digit|]. rewrite sapp_cons. by destruct Hc as [-> | ->]. Qed.
Lemma scan_fraction_part (fr ex r : string) : fraction_part fr -> exponent_part ex -> ends r ->
  scan_fraction (fr +:+ (ex +:+ r)) = Some (fr, ex +:+ r).
Proof.
  intros [->|(d & -> & Hd)] He Hr.
  - rewrite sapp_nil. destruct He as [->|(c & sg & d & -> & Hc & _)].
    + rewrite sapp_nil. destruct r as [|c r]; [done|]. by destruct Hr as [->|[->| ->]].
    + rewrite sapp_cons. by destruct Hc as [-> | ->].
  - rewrite sapp_cons. cbn [scan_fraction]. by rewrite (scan_some_digits d) by (done || by apply exponent_no_digit).
Qed.
Lemma fraction_no_digit (fr ex r : string) : fraction_part fr -> exponent_part ex -> ends r -> no_digit (fr +:+ (ex +:+ r)).
Proof. intros [->|(d & -> & _)] He Hr; [rewrite sapp_nil; by apply exponent_no_digit|]. by rewrite sapp_cons. Qed.

(** A number literal is one token. *)
Lemma scan_number_ends (x r : string) : number x -> ends r -> scan_number (x +:+ r) = Some (x, r).
Proof.
  intros (sign & i & fr & ex & -> & Hs & Hi & Hf & He) Hr. rewrite !sappend_assoc.
  pose proof (scan_fraction_part fr ex r Hf He Hr) as E2. pose proof (scan_exponent_part ex r He Hr) as E3.
  set (rest := fr +:+ (ex +:+ r)) in *.
  assert (Hn : no_digit rest) by by apply fraction_no_digit.
  assert (E1 : match i +:+ rest with String "0" t' => Some ("0", t') | _ => scan_digits1 (i +:+ rest) end = Some (i, rest)).
  { destruct Hi as [->|(a & t & -> & Hd & Ha)]; [done|]. rewrite <- (scan_some_digits (String a t) rest) by done.
    rewrite sapp_cons. destruct a as [[] [] [] [] [] [] [] []]; try done; by destruct Ha. }
  assert (E0 : match sign +:+ (i +:+ rest) with String "-" t => ("-", t) | _ => ("", sign +:+ (i +:+ rest)) end = (sign, i +:+ rest)).
  { destruct Hs as [->| ->]; [|done]. rewrite sapp_nil. destruct Hi as [->|(a & t & -> & [Hd _] & _)]; [done|].
    apply andb_true_iff in Hd as [Ha _]. rewrite sapp_cons. destruct a as [[] [] [] [] [] [] [] []]; try done; discriminate Ha. }
  unfold scan_number. rewrite E0, E1. cbn [obind]. rewrite E2. cbn [obind]. by rewrite E3.
Qed.
Lemma number_head (x : string) : number x -> exists c t, x = String c t /\ (c = "-"%char \/ is_digit c = true).
Proof.
  intros (sign & i & fr & ex & -> & Hs & Hi & _). destruct Hs as [->| ->]; [|rewrite sapp_cons; eauto].
  rewrite sapp_nil. destruct Hi as [->|(a & t & -> & [Hd _] & _)]; [rewrite sapp_cons; eauto|].
  apply andb_true_iff in Hd as [Ha _]. rewrite sapp_cons. eauto.
Qed.

(** ** Values *)

(** The tokens [json.Marshal] can write; every token that was read is one. *)
Definition token_ok (t : jtoken) : Prop :=
  match t with TStr s => utf8 s | TNum x => number x | _ => True end.
Definition written (v : json) : Prop := Forall token_ok (flatten v).

Lemma scan_scalar_ok (s r : string) (t : jtoken) : scan_scalar s = Some (t, r) -> token_ok t.
Proof.
  unfold scan_scalar. intros H. destruct s as [|c u]; [discriminate|].
  assert (Hd : (if Ascii.eqb c quote
    then let! (raw, r) := scan_string u in Some (TStr (unquote (String.length raw) raw), r)
    else let! (y, r) := scan_number (String c u) in Some (TNum y, r)) = Some (t, r) -> token_ok t).
  { clear H. destruct (Ascii.eqb c quote); intros H; inv_opts H; injection H as <- _; [apply utf8_unquote|].
    by eapply scan_number_number. }
  destruct c as [[] [] [] [] [] [] [] []]; try exact (Hd H); inv_opts H; injection H as <- _; done.
Qed.
Lemma next_token_ok (d d' : decoder) (t : jtoken) : next_token d = Tok t d' -> token_ok t.
Proof.
  assert (Hp : forall d, token_pass d = inr (Tok t d') -> token_ok t).
  { intros d0. unfold token_pass, open_delim, close_delim. intros H.
    repeat match type of H with
    | (match ?x with _ => _ end) = _ => destruct x eqn:?; try discriminate H
    | inr (match ?x with _ => _ end) = _ => destruct x eqn:?; try discriminate H
    end; injection H as <- _; try done; by eapply scan_scalar_ok. }
  unfold next_token. destruct (token_pass d) as [d1|r] eqn:E; [|intros ->; by eapply Hp].
  destruct (token_pass d1) as [d2|r] eqn:E1; [done|]. intros ->. by eapply Hp.
Qed.
Lemma reads_ok (d d' : decoder) (ts : list jtoken) : reads d ts d' -> Forall token_ok ts.
Proof. induction 1 as [|d t d1 ts d2 Ht _ IH]; constructor; [by eapply next_token_ok|done]. Qed.
Lemma parse_written (f : nat) (d d' : decoder) (v : json) : parse_value f d = Some (v, d') -> written v.
Proof. intros H. by apply parse_reads, reads_ok in H. Qed.
Lemma written_document (raw : string) (v : json) : parse_document raw = Some v -> written v.
Proof. unfold parse_document. intros H. inv_opts H. injection H as <-. by eapply parse_written. Qed.

(** *** From the start of a value *)

(** The first token needs no separator. *)
Definition starts (d : decoder) (ts : list jtoken) (d' : decoder) : Prop :=
  exists t d1 ts', ts = t :: ts' /\ token_pass d = inr (Tok t d1) /\ reads d1 ts' d'.
Lemma starts_reads d ts d' : starts d ts d' -> reads d ts d'.
Proof. intros (t & d1 & ts' & -> & Hp & Hr). econstructor; [|exact Hr]. unfold next_token. by rewrite Hp. Qed.
Lemma separated_reads d d0 ts d' : token_pass d = inl d0 -> starts d0 ts d' -> reads d ts d'.
Proof. intros Hs (t & d1 & ts' & -> & Hp & Hr). econstructor; [|exact Hr]. unfold next_token. by rewrite Hs, Hp. Qed.
Lemma starts_app d ts d1 ts2 d2 : starts d ts d1 -> reads d1 ts2 d2 -> starts d (ts ++ ts2) d2.
Proof.
  intros (t & d0 & ts' & -> & Hp & Hr) H2. exists t, d0, (ts' ++ ts2). split; [done|]. split; [done|].
  apply reads_app. eauto.
Qed.
Lemma starts_one d t d' : token_pass d = inr (Tok t d') -> starts d [t] d'.
Proof. intros Hp. exists t, d', []. split; [done|]. split; [done|constructor]. Qed.

(** A character that starts a scalar token. *)
Definition opens_scalar (c : ascii) : bool :=
  negb (json_space c || Ascii.eqb c "[" || Ascii.eqb c "{" || Ascii.eqb c "]" || Ascii.eqb c "}" || Ascii.eqb c ":" || Ascii.eqb c ",").
Lemma scalar_pass c u st stk : opens_scalar c = true ->
  token_pass (Decoder (String c u) st stk) =
  if Ascii.eqb c quote && bool_decide (st = ObjectStart \/ st = ObjectKey) then
    match scan_scalar (String c u) with Some (x, r) => inr (Tok x (Decoder r ObjectColon stk)) | None => inr TokErr end
  else if value_allowed st then
    match scan_scalar (String c u) with Some (x, r) => inr (Tok x (Decoder r (value_end st) stk)) | None => inr TokErr end
  else inr TokErr.
Proof.
  unfold opens_scalar. rewrite negb_true_iff, !orb_false_iff. intros [[[[[[E0 E1] E2] E3] E4] E5] E6].
  unfold token_pass. cbn [d_rest d_state d_stack skip_space]. by rewrite E0, E1, E2, E3, E4, E5, E6.
Qed.
Lemma scalar_starts s c u t rest st stk : s = String c u -> opens_scalar c = true -> scan_scalar s = Some (t, rest) ->
  value_allowed st = true -> starts (Decoder s st stk) [t] (Decoder rest (value_end st) stk).
Proof.
  intros -> Hc Hs Hv. apply starts_one. rewrite scalar_pass by done.
  by rewrite bool_decide_false, andb_false_r, Hv, Hs by (intros [-> | ->]; discriminate Hv).
Qed.

Lemma string_starts (s rest : string) st stk : utf8 s -> value_allowed st = true ->
  starts (Decoder (quote_string s +:+ rest) st stk) [TStr s] (Decoder rest (value_end st) stk).
Proof.
  intros Hs. destruct (quote_head s) as [t E]. eapply scalar_starts; [by rewrite E, sapp_cons|done|by apply scan_quoted].
Qed.
Lemma key_starts (s rest : string) st stk : utf8 s -> st = ObjectStart \/ st = ObjectKey ->
  starts (Decoder (quote_string s +:+ rest) st stk) [TStr s] (Decoder rest ObjectColon stk).
Proof.
  intros Hs Hk. apply starts_one. pose proof (scan_quoted s rest Hs) as Hscan. destruct (quote_head s) as [t E].
  rewrite E, sapp_cons in *. by rewrite scalar_pass, bool_decide_true, Hscan.
Qed.
Lemma digit_opens (c : ascii) : c = "-"%char \/ is_digit c = true -> opens_scalar c = true /\ Ascii.eqb c quote = false.
Proof. intros [->|Hc]; [done|]. destruct c as [[] [] [] [] [] [] [] []]; try discriminate Hc; done. Qed.
Lemma number_starts (x rest : string) st stk : number x -> value_allowed st = true -> ends rest ->
  starts (Decoder (x +:+ rest) st stk) [TNum x] (Decoder rest (value_end st) stk).
Proof.
  intros Hx Hv Hr. pose proof (scan_number_ends x rest Hx Hr) as Hscan. destruct (number_head x Hx) as (c & t & -> & Hc).
  destruct (digit_opens c Hc) as [Ho Hq]. eapply scalar_starts; [by rewrite sapp_cons|done| |done]. rewrite sapp_cons in *.
  transitivity (let! (y, r) := scan_number (String c (t +:+ rest)) in Some (TNum y, r)); [|by rewrite Hscan].
  unfold scan_scalar. rewrite Hq. destruct c as [[] [] [] [] [] [] [] []]; try reflexivity; by destruct Hc.
Qed.
Lemma word_starts (word rest : string) t st stk : value_allowed st = true ->
  (word = "null" /\ t = TNull) \/ (word = "true" /\ t = TBool true) \/ (word = "false" /\ t = TBool false) ->
  starts (Decoder (word +:+ rest) st stk) [t] (Decoder rest (value_end st) stk).
Proof.
  intros Hv Hw. assert (Hs : scan_scalar (word +:+ rest) = Some (t, rest)).
  { transitivity (let! r := expect word (word +:+ rest) in Some (t, r)); [|by rewrite expect_app].
    by destruct Hw as [[-> ->]|[[-> ->]|[-> ->]]]. }
  destruct Hw as [[-> ->]|[[-> ->]|[-> ->]]]; (eapply scalar_starts; [by rewrite sapp_cons|done|exact Hs|exact Hv]).
Qed.

(** *** Containers *)
(** Texts between separators: each is read on its own, from any of the two states
    before it, and the separator leads from the state behind one to that before the next. *)
Section Separated.
Context {A : Type} (write : A -> string) (tokens_of : A -> list jtoken) (first again behind : tstate).
Context (Hbehind : forall rest stk, token_pass (Decoder (String "," rest) behind stk) = inl (Decoder rest again stk)).
Definition item_reads (x : A) : Prop := forall st stk rest, st = first \/ st = again -> ends rest ->
  starts (Decoder (write x +:+ rest) st stk) (tokens_of x) (Decoder rest behind stk).
Lemma items_start (l : list A) x st stk rest : Forall item_reads (x :: l) -> st = first \/ st = again -> ends rest ->
  starts (Decoder (join "," (map write (x :: l)) +:+ rest) st stk) (flat_map tokens_of (x :: l)) (Decoder rest behind stk).
Proof.
  revert x st. induction l as [|y l IH]; intros x st Hl Hst Hr; inversion Hl as [|? ? Hx Hl']; subst.
  - cbn [map join flat_map]. rewrite app_nil_r. by apply Hx.
  - change (join "," (map write (x :: y :: l))) with (write x +:+ ("," +:+ join "," (map write (y :: l)))).
    rewrite !sappend_assoc, sapp_cons, sapp_nil. change (flat_map tokens_of (x :: y :: l)) with (tokens_of x ++ flat_map tokens_of (y :: l)).
    eapply starts_app; [apply Hx; [done|by left]|]. eapply separated_reads; [apply Hbehind|]. apply IH; [done|by right|done].
Qed.
End Separated.

(** Objects with their members in the order of the keys: what [marshal] writes. *)
Definition member_ltb (a b : string * json) : bool := String.ltb (fst a) (fst b).
Fixpoint sorted (v : json) : json :=
  match v with
  | JArr l => JArr (map sorted l)
  | JObj l => JObj (sort_by member_ltb (map (fun kv => (fst kv, sorted (snd kv))) l))
  | _ => v
  end.

Lemma insert_by_map {A B} (lt : A -> A -> bool) (lt' : B -> B -> bool) (f : A -> B) x l :
  (forall a b, lt' (f a) (f b) = lt a b) -> insert_by lt' (f x) (map f l) = map f (insert_by lt x l).
Proof. intros Hf. induction l as [|y l IH]; [done|]. cbn. rewrite Hf. destruct (lt y x); [cbn; by rewrite IH|done]. Qed.
Lemma sort_by_map {A B} (lt : A -> A -> bool) (lt' : B -> B -> bool) (f : A -> B) l :
  (forall a b, lt' (f a) (f b) = lt a b) -> sort_by lt' (map f l) = map f (sort_by lt l).
Proof. intros Hf. induction l as [|x l IH]; [done|]. cbn. rewrite IH. by apply insert_by_map. Qed.
Lemma flat_map_map {A B C} (f : B -> list C) (g : A -> B) l : flat_map f (map g l) = flat_map (fun x => f (g x)) l.
Proof. induction l as [|x l IH]; [done|]. cbn. by rewrite IH. Qed.

(** What the text of a value, and of a member, is read as. *)
Definition value_reads (v : json) : Prop := forall st stk rest, value_allowed st = true -> ends rest ->
  starts (Decoder (marshal v +:+ rest) st stk) (flatten (sorted v)) (Decoder rest (value_end st) stk).
Definition member_text (kv : string * json) : string := quote_string (fst kv) +:+ ":" +:+ marshal (snd kv).
Definition member_tokens (kv : string * json) : list jtoken := TStr (fst kv) :: flatten (sorted (snd kv)).

Lemma starts_open c u st st' stk ts d' : (c = "["%char /\ st' = ArrayStart) \/ (c = "{"%char /\ st' = ObjectStart) ->
  value_allowed st = true -> reads (Decoder u st' (st :: stk)) ts d' -> starts (Decoder (String c u) st stk) (TDelim c :: ts) d'.
Proof.
  intros Hc Hv Hr. exists (TDelim c), (Decoder u st' (st :: stk)), ts. split; [done|]. split; [|done].
  transitivity (inr (open_delim (Decoder (String c u) st stk) c u st') : decoder + tok_result).
  - by destruct Hc as [[-> ->]|[-> ->]].
  - unfold open_delim. cbn [d_state d_stack]. by rewrite Hv.
Qed.
Lemma array_reads (l : list json) st stk rest : Forall value_reads l -> value_allowed st = true ->
  starts (Decoder ("[" +:+ join "," (map marshal l) +:+ "]" +:+ rest) st stk)
    (TDelim "[" :: flat_map (fun v => flatten (sorted v)) l ++ [TDelim "]"]) (Decoder rest (value_end st) stk).
Proof.
  intros Hl Hv. rewrite !sapp_cons, !sapp_nil.
  eapply starts_open; [by left|done|].
  destruct l as [|x l].
  - apply reads_one. reflexivity.
  - apply reads_app. exists (Decoder (String "]" rest) ArrayComma (st :: stk)). split; [apply starts_reads|by apply reads_one].
    apply (items_start marshal (fun v => flatten (sorted v)) ArrayStart ArrayValue ArrayComma); [done| |by left|by right; left].
    eapply Forall_impl; [exact Hl|]. intros v Hx st' stk' rest' Hst Hr. destruct Hst as [-> | ->]; by apply Hx.
Qed.
Lemma object_reads (l : list (string * json)) st stk rest : Forall (fun kv => utf8 (fst kv) /\ value_reads (snd kv)) l ->
  value_allowed st = true ->
  starts (Decoder ("{" +:+ join "," (map member_text l) +:+ "}" +:+ rest) st stk)
    (TDelim "{" :: flat_map member_tokens l ++ [TDelim "}"]) (Decoder rest (value_end st) stk).
Proof.
  intros Hl Hv. rewrite !sapp_cons, !sapp_nil.
  eapply starts_open; [by right|done|].
  destruct l as [|x l].
  - apply reads_one. reflexivity.
  - apply reads_app. exists (Decoder (String "}" rest) ObjectComma (st :: stk)). split; [apply starts_reads|by apply reads_one].
    apply (items_start member_text member_tokens ObjectStart ObjectKey ObjectComma); [done| |by left|by right; right].
    eapply Forall_impl; [exact Hl|]. intros [k v] [Hk Hx] st' stk' rest' Hst Hr. unfold member_text, member_tokens. cbn [fst snd] in *.
    rewrite !sappend_assoc, sapp_cons, sapp_nil. apply (starts_app _ [TStr k] _ (flatten (sorted v)) _ (key_starts _ _ _ _ Hk Hst)).
    eapply separated_reads; [reflexivity|]. by apply Hx.
Qed.

Lemma written_items {A} (tokens_of : A -> list jtoken) l c c' :
  Forall token_ok (TDelim c :: flat_map tokens_of l ++ [TDelim c']) -> Forall (fun x => Forall token_ok (tokens_of x)) l.
Proof.
  intros H. inversion H as [|? ? _ H']; subst. apply Forall_app in H' as [H' _]. clear H.
  induction l as [|x l IH]; [constructor|]. apply Forall_app in H' as [Hx Hl]. constructor; [done|by apply IH].
Qed.
Lemma marshal_object (l : list (string * json)) :
  marshal (JObj l) = "{" +:+ join "," (map member_text (sort_by member_ltb l)) +:+ "}".
Proof.
  cbn [marshal]. do 3 f_equal. rewrite (sort_by_map member_ltb key_ltb (fun kv => (fst kv, marshal (snd kv)))) by done.
  by rewrite map_map.
Qed.
Lemma sorted_object (l : list (string * json)) :
  sorted (JObj l) = JObj (map (fun kv => (fst kv, sorted (snd kv))) (sort_by member_ltb l)).
Proof. cbn [sorted]. f_equal. by apply (sort_by_map member_ltb). Qed.

(** The text of a value is read as the value with its members in order. *)
Lemma marshal_reads (v : json) : written v -> value_reads v.
Proof.
  induction v as [|b|t|s|l IH|l IH] using json_rect_strong; intros Hw st stk rest Hv Hr.
  - apply word_starts; auto.
  - destruct b; apply word_starts; auto.
  - inversion Hw; subst. by apply number_starts.
  - inversion Hw; subst. by apply string_starts.
  - cbn [marshal sorted flatten]. rewrite flat_map_map, !sappend_assoc. apply array_reads; [|done].
    apply written_items in Hw. rewrite Forall_forall in *. intros x Hx. by apply IH, Hw.
  - rewrite marshal_object, sorted_object. cbn [flatten]. rewrite flat_map_map, !sappend_assoc.
    apply object_reads; [|done]. apply written_items in Hw. rewrite Forall_forall in *. intros [k x] Hx.
    rewrite elem_of_sort_by in Hx. specialize (Hw _ Hx). inversion Hw as [|? ? Hk Hs]; subst.
    split; [exact Hk|]. by apply (IH (k, x)).
Qed.
Lemma starts_document raw v : starts (new_decoder raw) (flatten v) (Decoder "" TopValue []) -> parse_document raw = Some v.
Proof.
  intros Hs. apply tokens_document. unfold tokens. apply token_trace_reads; [simpl; lia|].
  exists (Decoder "" TopValue []). split; [by apply starts_reads|reflexivity].
Qed.
Lemma marshal_document (v : json) : written v -> parse_document (marshal v) = Some (sorted v).
Proof.
  intros Hw. apply starts_document. pose proof (marshal_reads v Hw TopValue [] "" eq_refl I) as H.
  by rewrite sappend_nil_r in H.
Qed.
Lemma flatten_members_sorted (ms : list (string * json)) :
  flatten (JObj (map (fun kv => (fst kv, sorted (snd kv))) ms)) = TDelim "{" :: flat_map member_tokens ms ++ [TDelim "}"].
Proof. cbn [flatten]. by rewrite flat_map_map. Qed.
(** A struct is read as an object with its fields in the order of their declaration. *)
Lemma marshal_struct_document (ms : list (string * json)) : Forall (fun kv => utf8 (fst kv) /\ written (snd kv)) ms ->
  parse_document (marshal_struct ms) = Some (JObj (map (fun kv => (fst kv, sorted (snd kv))) ms)).
Proof.
  intros Hm. apply starts_document. rewrite flatten_members_sorted.
  replace (marshal_struct ms) with ("{" +:+ join "," (map member_text ms) +:+ "}" +:+ "") by (by rewrite sappend_nil_r).
  apply (object_reads ms TopValue [] ""); [|done]. eapply Forall_impl; [exact Hm|]. intros kv [Hk Hv]. split; [done|by apply marshal_reads].
Qed.
