(* ===== verification/Order.v ===== *)
(** * Total orders as comparison functions

    The keys the store sorts by: numbers, texts, and tuples of them compared
    lexicographically. *)

From Stdlib Require Import ZArith Lia String Ascii.
From S2P Require Import Prelude GoStrings GoTime.

Class Comparison {A : Type} (c : A -> A -> comparison) := {
  cmp_eq : forall x y, c x y = Eq <-> x = y;
  cmp_opp : forall x y, c y x = CompOpp (c x y);
  cmp_trans : forall x y z, c x y = Lt -> c y z = Lt -> c x z = Lt }.

#[export] Instance Z_comparison : Comparison Z.compare.
Proof.
  split; [apply Z.compare_eq_iff|intros; apply Z.compare_antisym|].
  intros x y z. rewrite !Z.compare_lt_iff. lia.
Qed.

Lemma ascii_compare_code a b : Ascii.compare a b = Z.compare (code a) (code b).
Proof. unfold Ascii.compare, code. by rewrite N2Z.inj_compare. Qed.

#[export] Instance string_comparison : Comparison String.compare.
Proof.
  assert (Hrefl : forall x, String.compare x x = Eq).
  { intros x. pose proof (String.compare_antisym x x) as H. by destruct (String.compare x x). }
  split; [intros x y; split; [apply String.compare_eq_iff|by intros ->]|intros; apply String.compare_antisym|].
  induction x as [|a x IH]; intros [|b y] [|c z]; simpl; try done.
  rewrite !ascii_compare_code.
  destruct (Z.compare_spec (code a) (code b)), (Z.compare_spec (code b) (code c)),
    (Z.compare_spec (code a) (code c)); try done; try lia. apply IH.
Qed.

(** Lexicographic order on pairs. *)
Definition lex_compare {A B : Type} (ca : A -> A -> comparison) (cb : B -> B -> comparison)
    (x y : A * B) : comparison := lex (ca (fst x) (fst y)) (cb (snd x) (snd y)).

#[export] Instance lex_comparison {A B : Type} (ca : A -> A -> comparison) (cb : B -> B -> comparison)
  `{!Comparison ca} `{!Comparison cb} : Comparison (lex_compare ca cb).
Proof.
  assert (Ha : forall x, ca x x = Eq) by (intros x; by apply cmp_eq).
  split; unfold lex_compare.
  - intros [a b] [a' b']. cbn. destruct (ca a a') eqn:E; simpl; [| |].
    + apply cmp_eq in E as ->. rewrite cmp_eq. split; [by intros ->|by intros [= ->]].
    + split; [done|]. intros [= -> ->]. by rewrite Ha in E.
    + split; [done|]. intros [= -> ->]. by rewrite Ha in E.
  - intros [a b] [a' b']. cbn. rewrite (cmp_opp a a'). destruct (ca a a'); simpl; [apply cmp_opp|done|done].
  - intros [a b] [a' b'] [a'' b'']. cbn.
    destruct (ca a a') eqn:E1; simpl; intros H1 H2.
    + apply cmp_eq in E1 as ->. destruct (ca a' a''); simpl in *; [|done|done]. by eapply cmp_trans.
    + destruct (ca a' a'') eqn:E2; simpl in H2; [| |done].
      * apply cmp_eq in E2 as ->. by rewrite E1.
      * by rewrite (cmp_trans _ _ _ E1 E2).
    + done.
Qed.

(** The strict order of a comparison, as [sort_by] takes it. *)
Definition before {A : Type} (c : A -> A -> comparison) (x y : A) : bool :=
  match c x y with Lt => true | _ => false end.

Lemma insert_by_ext {A} (lt lt' : A -> A -> bool) x l : (forall a b, lt a b = lt' a b) -> insert_by lt x l = insert_by lt' x l.
Proof. intros E. induction l as [|y l IH]; simpl; [done|]. by rewrite E, IH. Qed.
Lemma sort_by_ext {A} (lt lt' : A -> A -> bool) l : (forall a b, lt a b = lt' a b) -> sort_by lt l = sort_by lt' l.
Proof. intros E. induction l as [|x l IH]; simpl; [done|]. by rewrite IH, (insert_by_ext lt lt'). Qed.
Lemma StronglySorted_impl {A} (R R' : A -> A -> Prop) l : (forall a b, R a b -> R' a b) -> StronglySorted R l -> StronglySorted R' l.
Proof. intros HR. induction 1 as [|x l _ IH Hx]; constructor; [done|]. eapply Forall_impl; [exact Hx|]. intros y. apply HR. Qed.

Section Sorting.
Context {A : Type} (c : A -> A -> comparison) `{!Comparison c}.

Lemma before_asym x y : before c x y = true -> before c y x = false.
Proof. unfold before. rewrite (cmp_opp x y). by destruct (c x y). Qed.

Lemma before_trans x y z : before c x y = true -> before c y z = true -> before c x z = true.
Proof.
  unfold before. destruct (c x y) eqn:E1; [done| |done]. destruct (c y z) eqn:E2; [done| |done].
  by rewrite (cmp_trans _ _ _ E1 E2).
Qed.

Lemma before_total x y : before c x y = true \/ x = y \/ before c y x = true.
Proof.
  unfold before. rewrite (cmp_opp x y). destruct (c x y) eqn:E; simpl; auto. right. left. by apply cmp_eq.
Qed.

Lemma le_by_trans x y z : le_by (before c) x y -> le_by (before c) y z -> le_by (before c) x z.
Proof.
  unfold le_by. intros H1 H2. destruct (before c z x) eqn:E; [|done].
  destruct (before_total y z) as [Hyz|[->|Hyz]]; [|congruence..].
  pose proof (before_trans _ _ _ Hyz E). congruence.
Qed.

(** Sorting on a key. *)
Lemma sort_key_sorted {B : Type} (key : B -> A) (l : list B) :
  StronglySorted (le_by (fun x y => before c (key x) (key y))) (sort_by (fun x y => before c (key x) (key y)) l).
Proof.
  apply sort_by_sorted; unfold le_by.
  - intros x y. apply before_asym.
  - intros x y z. apply le_by_trans.
Qed.
End Sorting.

Lemma before_string s t : before String.compare s t = String.ltb s t.
Proof. unfold before, String.ltb. by destruct (String.compare s t). Qed.

(** ** Pages of a sorted list *)
Lemma filter_none {B} (f : B -> bool) (l : list B) : (forall x, x ∈ l -> f x = false) -> List.filter f l = [].
Proof.
  induction l as [|x l IH]; intros H; [done|]. simpl. rewrite (H x) by left.
  apply IH. intros y Hy. apply H. by right.
Qed.

Lemma filter_every {B} (f : B -> bool) (l : list B) : (forall x, x ∈ l -> f x = true) -> List.filter f l = l.
Proof.
  induction l as [|x l IH]; intros H; [done|]. simpl. rewrite (H x) by left.
  f_equal. apply IH. intros y Hy. apply H. by right.
Qed.

Lemma elem_of_filter_by {B} (f : B -> bool) (l : list B) x : x ∈ List.filter f l <-> x ∈ l /\ f x = true.
Proof. by rewrite !list_elem_of_In, filter_In. Qed.

Lemma filter_by_perm {B} (f : B -> bool) (l1 l2 : list B) : l1 ≡ₚ l2 -> List.filter f l1 ≡ₚ List.filter f l2.
Proof.
  induction 1 as [|x l1 l2 _ IH|x y l|l1 l2 l3 _ IH1 _ IH2]; simpl; [done| | |by etransitivity].
  - destruct (f x); [by constructor|done].
  - destruct (f x), (f y); [apply perm_swap|done..].
Qed.

Lemma filter_by_sorted {B} (R : B -> B -> Prop) (f : B -> bool) l :
  StronglySorted R l -> StronglySorted R (List.filter f l).
Proof.
  induction 1 as [|x l Hl IH Hx]; [constructor|]. simpl. destruct (f x); [|done].
  constructor; [done|]. rewrite Forall_forall in Hx |- *. intros y Hy.
  apply elem_of_filter_by in Hy as [Hy _]. by apply Hx.
Qed.

Lemma sorted_app_lt {B} (R : B -> B -> Prop) (l1 l2 : list B) : StronglySorted R (l1 ++ l2) ->
  StronglySorted R l1 /\ forall x y, x ∈ l1 -> y ∈ l2 -> R x y.
Proof.
  induction l1 as [|z l1 IH]; intros H; [split; [constructor|]; intros x y Hx; by apply elem_of_nil in Hx|].
  simpl in H. apply StronglySorted_inv in H as [Hs Hz]. destruct (IH Hs) as [IH1 IH2].
  apply Forall_app in Hz as [Hz1 Hz2]. split; [by constructor|]. intros x y Hx Hy.
  apply elem_of_cons in Hx as [->|Hx]; [|by apply IH2]. rewrite Forall_forall in Hz2. by apply Hz2.
Qed.

Section Pages.
Context {A B : Type} (c : A -> A -> comparison) `{!Comparison c} (key : B -> A).

Definition key_lt (x y : B) : Prop := before c (key x) (key y) = true.
Definition by_key (l : list B) : list B := sort_by (fun x y => before c (key x) (key y)) l.

Lemma before_irrefl x : before c x x = false.
Proof. destruct (before c x x) eqn:E; [|done]. by rewrite (before_asym c _ _ E) in E. Qed.

(** With distinct keys the sorted list is strictly increasing. *)
Lemma by_key_strict l : NoDup (map key l) -> StronglySorted key_lt (by_key l).
Proof.
  intros HN. pose proof (sort_key_sorted c key l) as Hs. fold (by_key l) in Hs.
  assert (HN' : NoDup (map key (by_key l))).
  { unfold by_key. assert (map key (sort_by (fun x y => before c (key x) (key y)) l) ≡ₚ map key l) as E
      by (apply Permutation_map, sort_by_perm). by rewrite E. }
  induction Hs as [|x t Ht IH Hx]; [constructor|]. simpl in HN'. apply NoDup_cons in HN' as [Hn HN'].
  constructor; [by apply IH|]. rewrite Forall_forall in Hx |- *. intros y Hy. specialize (Hx y Hy).
  unfold le_by, key_lt in *. destruct (before_total c (key x) (key y)) as [H|[H|H]]; [done| |congruence].
  destruct Hn. rewrite H. apply list_elem_of_fmap. by exists y.
Qed.

Lemma sorted_perm_eq l1 l2 : StronglySorted key_lt l1 -> StronglySorted key_lt l2 -> l1 ≡ₚ l2 -> l1 = l2.
Proof.
  intros H1 H2 HP. apply (StronglySorted_unique_strong key_lt); [|done..].
  intros x y _ _ Hxy Hyx. unfold key_lt in *. rewrite (before_asym c _ _ Hxy) in Hyx. discriminate.
Qed.

Lemma NoDup_map_filter (f : B -> bool) l : NoDup (map key l) -> NoDup (map key (List.filter f l)).
Proof.
  induction l as [|x l IH]; [done|]. simpl. intros HN. apply NoDup_cons in HN as [Hx HN].
  destruct (f x); [|by apply IH]. simpl. apply NoDup_cons. split; [|by apply IH].
  intros H. apply Hx. apply list_elem_of_fmap in H as (y & -> & Hy). apply elem_of_filter_by in Hy as [Hy _].
  apply list_elem_of_fmap. by exists y.
Qed.

Lemma by_key_filter (f : B -> bool) l : NoDup (map key l) ->
  by_key (List.filter f l) = List.filter f (by_key l).
Proof.
  intros HN. apply sorted_perm_eq.
  - by apply by_key_strict, NoDup_map_filter.
  - by apply filter_by_sorted, by_key_strict.
  - unfold by_key at 1. rewrite sort_by_perm.
    apply filter_by_perm. symmetry. apply sort_by_perm.
Qed.

(** What follows the last row of a page is the rest of the list. *)
Lemma after_page n r l : StronglySorted key_lt l -> list.last (take n l) = Some r ->
  List.filter (fun x => before c (key r) (key x)) l = drop n l.
Proof.
  intros Hs Hr. rewrite <- (take_drop n l) in Hs at 1. destruct (sorted_app_lt _ _ _ Hs) as [Ht Hd].
  rewrite <- (take_drop n l) at 1. rewrite List.filter_app, filter_none, filter_every; [done| |].
  - intros x Hx. apply Hd; [|done]. by apply last_Some_elem_of.
  - apply last_Some in Hr as [t Et]. rewrite Et in Ht |- *. intros x Hx.
    apply elem_of_app in Hx as [Hx|Hx].
    + apply sorted_app_lt in Ht as [_ Ht]. by apply (before_asym c), Ht; [|left].
    + apply list_elem_of_singleton in Hx as ->. apply before_irrefl.
Qed.
End Pages.
