(* ===== verification/StrictJson.v ===== *)
(** * Strict JSON objects ([internal/strictjson])

    The validator that guards every wire format of the recorder: it reads the
    token stream with a stack of open containers and refuses duplicate keys,
    unexpected root keys and anything that is not exactly one JSON value. *)

From Stdlib Require Import ZArith Lia String Ascii.
From S2P Require Import Prelude GoStrings GoTime GoJson.
Open Scope Z_scope.
Set Warnings "-register-all".

Inductive strict_error : Type :=
  | ErrDuplicateObjectKey
  | ErrUnexpectedObjectKey (key : string)
  | ErrMissingObjectKey (key : string)
  | ErrJson (message : string).

Record container := Container {
  delimiter : ascii;
  expectKey : bool;
  keys : option (list string)   (* [None] is the nil map: keys are not checked *)
}.

Record vstate := VState { stack : list container; rootValues : Z }.

Definition containsExact (values : list string) (target : string) : bool :=
  existsb (fun value => String.eqb value target) values.

Definition matchingDelimiters (opening closing : ascii) : bool :=
  (Ascii.eqb opening "{" && Ascii.eqb closing "}")
  || (Ascii.eqb opening "[" && Ascii.eqb closing "]").

(** The closure [completeValue]. *)
Definition completeValue (st : vstate) : result strict_error vstate :=
  match stack st with
  | [] => if 1 <? rootValues st + 1 then Err (ErrJson "JSON contains multiple root values")
          else Ok (VState [] (rootValues st + 1))
  | parent :: rest =>
    if Ascii.eqb (delimiter parent) "{" then
      if expectKey parent then Err (ErrJson "JSON object contains a value without a key")
      else Ok (VState (Container (delimiter parent) true (keys parent) :: rest) (rootValues st))
    else Ok st
  end.

Section Validator.
Context (checkedContainerDepth : Z) (allowedRootKeys : list string) (exactRootObject : bool).

Definition openContainer (st : vstate) (c : ascii) : result strict_error vstate :=
  let depth := Z.of_nat (length (stack st)) + 1 in
  let entry := Container c (Ascii.eqb c "{")
    (if Ascii.eqb c "{" && ((checkedContainerDepth =? 0) || (depth <=? checkedContainerDepth))
     then Some [] else None) in
  match stack st with
  | parent :: _ =>
    if Ascii.eqb (delimiter parent) "{" && expectKey parent
    then Err (ErrJson "JSON object key must be a string")
    else Ok (VState (entry :: stack st) (rootValues st))
  | [] =>
    if negb (rootValues st =? 0) then Err (ErrJson "JSON contains multiple root values")
    else if exactRootObject && negb (Ascii.eqb c "{")
    then Err (ErrJson "JSON root value must be an object")
    else Ok (VState (entry :: stack st) (rootValues st))
  end.

Definition closeContainer (st : vstate) (c : ascii) : result strict_error vstate :=
  match stack st with
  | current :: rest =>
    if negb (matchingDelimiters (delimiter current) c)
    then Err (ErrJson "JSON container delimiters do not match")
    else if Ascii.eqb (delimiter current) "{" && negb (expectKey current)
    then Err (ErrJson "JSON object key has no value")
    else completeValue (VState rest (rootValues st))
  | [] => Err (ErrJson "JSON container delimiters do not match")
  end.

(** A key of the object on top of the stack. *)
Definition readKey (st : vstate) (current : container) (rest : list container) (t : jtoken)
    : result strict_error vstate :=
  match t with
  | TStr key =>
    if match keys current with Some ks => bool_decide (key ∈ ks) | None => false end
    then Err ErrDuplicateObjectKey
    else if (length (stack st) =? 1)%nat && exactRootObject && negb (containsExact allowedRootKeys key)
    then Err (ErrUnexpectedObjectKey key)
    else Ok (VState (Container (delimiter current) false (option_map (cons key) (keys current)) :: rest)
                    (rootValues st))
  | _ => Err (ErrJson "JSON object key must be a string")
  end.

Definition readScalar (st : vstate) : result strict_error vstate :=
  if (length (stack st) =? 0)%nat && exactRootObject
  then Err (ErrJson "JSON root value must be an object") else completeValue st.

(** The body of the loop for one token. *)
Definition validateToken (st : vstate) (t : jtoken) : result strict_error vstate :=
  match t with
  | TDelim c =>
    if Ascii.eqb c "{" || Ascii.eqb c "[" then openContainer st c
    else if Ascii.eqb c "}" || Ascii.eqb c "]" then closeContainer st c
    else Err (ErrJson "JSON contains an unexpected delimiter")
  | _ =>
    match stack st with
    | current :: rest =>
      if Ascii.eqb (delimiter current) "{" && expectKey current
      then readKey st current rest t else readScalar st
    | [] => readScalar st
    end
  end.

Fixpoint validateLoop (fuel : nat) (d : decoder) (st : vstate) : result strict_error vstate :=
  match fuel with
  | O => Err (ErrJson "out of fuel")
  | S f =>
    match next_token d with
    | TokEOF => Ok st
    | TokErr => Err (ErrJson "decode JSON token")
    | Tok t d' => rbind (validateToken st t) (validateLoop f d')
    end
  end.

Definition validateEnd (st : vstate) : result strict_error unit :=
  if negb (length (stack st) =? 0)%nat then Err (ErrJson "JSON container is not closed")
  else if negb (rootValues st =? 1) then Err (ErrJson "JSON must contain exactly one value")
  else Ok tt.

Definition validateObjectKeys (raw : string) : result strict_error unit :=
  rbind (validateLoop (S (String.length raw)) (new_decoder raw) (VState [] 0)) validateEnd.

(** ** The specification: a predicate on the document *)
Definition keys_ok (depth : Z) (ks : list string) : Prop :=
  (checkedContainerDepth = 0 \/ depth <= checkedContainerDepth -> NoDup ks) /\
  (exactRootObject = true -> depth = 1 -> Forall (fun k => k ∈ allowedRootKeys) ks).

Inductive value_ok : Z -> json -> Prop :=
  | ok_null n : value_ok n JNull
  | ok_bool n b : value_ok n (JBool b)
  | ok_num n t : value_ok n (JNum t)
  | ok_str n s : value_ok n (JStr s)
  | ok_arr n l : Forall (value_ok (n + 1)) l -> value_ok n (JArr l)
  | ok_obj n l : keys_ok n (map fst l) -> Forall (fun kv => value_ok (n + 1) (snd kv)) l ->
      value_ok n (JObj l).

Definition document_ok (v : json) : Prop :=
  value_ok 1 v /\ (exactRootObject = true -> exists ms, v = JObj ms).
End Validator.

Definition ValidateObjectKeys (raw : string) (checkedContainerDepth : Z) : result strict_error unit :=
  validateObjectKeys checkedContainerDepth [] false raw.

Definition ValidateExactRootObject (raw : string) (checkedContainerDepth : Z)
    (allowedRootKeys : list string) : result strict_error unit :=
  validateObjectKeys checkedContainerDepth allowedRootKeys true raw.

Fixpoint requireKeys (root : list (string * json)) (required : list string) : result strict_error unit :=
  match required with
  | [] => Ok tt
  | key :: rest => match member key root with
                   | Some _ => requireKeys root rest
                   | None => Err (ErrMissingObjectKey key)
                   end
  end.

Definition ValidateExactRootObjectRequired (raw : string) (checkedContainerDepth : Z)
    (requiredRootKeys : list string) : result strict_error unit :=
  rbind (ValidateExactRootObject raw checkedContainerDepth requiredRootKeys) (fun _ =>
    match unmarshal raw with
    | Some (JObj root) => requireKeys root requiredRootKeys
    | Some JNull => requireKeys [] requiredRootKeys
    | _ => Err (ErrJson "decode JSON root object")
    end).

(** ** The loop as a run over the tokens *)
Section Proofs.
Context (checked : Z) (allowed : list string) (exact : bool).
Abbreviation vtoken := (validateToken checked allowed exact).
Abbreviation key_ok := (keys_ok checked allowed exact).
Abbreviation val_ok := (value_ok checked allowed exact).

Fixpoint vrun (st : vstate) (ts : list jtoken) : result strict_error vstate :=
  match ts with
  | [] => Ok st
  | t :: ts' => rbind (vtoken st t) (fun st' => vrun st' ts')
  end.

Lemma vrun_app st ts1 ts2 : vrun st (ts1 ++ ts2) = rbind (vrun st ts1) (fun st' => vrun st' ts2).
Proof.
  revert st. induction ts1 as [|t ts1 IH]; intros st; [done|]. simpl.
  destruct (vtoken st t); simpl; [apply IH|done].
Qed.

Lemma validateLoop_run fuel d st st' :
  validateLoop checked allowed exact fuel d st = Ok st' <->
  exists ts, token_trace fuel d = (ts, true) /\ vrun st ts = Ok st'.
Proof.
  revert d st. induction fuel as [|f IH]; intros d st; cbn [validateLoop token_trace].
  - split; [done|]. intros (ts & H & _). discriminate.
  - destruct (next_token d) as [| |t d'].
    + split; [intros [= <-]; by exists []|]. intros (ts & [= <-] & H). exact H.
    + split; [done|]. intros (ts & H & _). discriminate.
    + destruct (token_trace f d') as [ts1 ok] eqn:Et.
      destruct (vtoken st t) as [st1|e] eqn:Ev; cbn [rbind].
      * rewrite IH, Et. split.
        -- intros (ts & [= <- ->] & H). exists (t :: ts1). split; [done|]. simpl. by rewrite Ev.
        -- intros (ts & [= <- ->] & H). exists ts1. split; [done|]. simpl in H. by rewrite Ev in H.
      * split; [done|]. intros (ts & [= <- ->] & H). simpl in H. by rewrite Ev in H.
Qed.

Definition final (st : vstate) : Prop := stack st = [] /\ rootValues st = 1.
Definition accepts (st : vstate) (ts : list jtoken) : Prop :=
  exists st', vrun st ts = Ok st' /\ final st'.

Lemma validateEnd_final st : validateEnd st = Ok tt <-> final st.
Proof.
  unfold validateEnd, final. destruct (stack st); simpl.
  - destruct (Z.eqb_spec (rootValues st) 1); simpl; split; try done. by intros [_ ?].
  - split; [done|]. by intros [? _].
Qed.

Lemma validateObjectKeys_tokens raw :
  validateObjectKeys checked allowed exact raw = Ok tt <->
  exists ts, tokens raw = (ts, true) /\ accepts (VState [] 0) ts.
Proof.
  unfold validateObjectKeys, tokens, accepts. split.
  - intros H. apply rbind_Ok in H as (st & H & He).
    apply validateLoop_run in H as (ts & Ht & H). apply validateEnd_final in He. eauto 6.
  - intros (ts & Ht & st & H & He). apply validateEnd_final in He.
    assert (validateLoop checked allowed exact (S (String.length raw)) (new_decoder raw) (VState [] 0) = Ok st)
      as -> by (apply validateLoop_run; eauto). exact He.
Qed.

(** A state in which the next token begins a value. *)
Definition value_position (st : vstate) : Prop :=
  match stack st with
  | [] => rootValues st = 0
  | c :: _ => delimiter c = "["%char \/ (delimiter c = "{"%char /\ expectKey c = false)
  end.

Definition level (st : vstate) : Z := Z.of_nat (length (stack st)) + 1.

Lemma level_push c tl n m : level (VState (c :: tl) n) = level (VState tl m) + 1.
Proof. unfold level. cbn [stack length]. lia. Qed.

Lemma level_two tl n : Z.of_nat (length tl) + 2 = level (VState tl n) + 1.
Proof. unfold level. cbn [stack]. lia. Qed.

Lemma complete_at st : value_position st ->
  exists st1, completeValue st = Ok st1 /\ length (stack st1) = length (stack st).
Proof.
  unfold value_position, completeValue. destruct st as [[|[c e k] tl] n]; simpl.
  - intros ->. eauto.
  - intros [-> | [-> ->]]; simpl; eauto.
Qed.

Definition new_keys (n : Z) : option (list string) :=
  if (checked =? 0) || (n <=? checked) then Some [] else None.

(** *** Completeness: the tokens of a good document run through *)
Definition keys_fresh (K : option (list string)) (ks : list string) : Prop :=
  match K with Some seen => NoDup ks /\ forall k, k ∈ ks -> k ∉ seen | None => True end.

Lemma containsExact_spec l k : containsExact l k = true <-> k ∈ l.
Proof.
  unfold containsExact. rewrite existsb_exists. split.
  - intros (x & Hx & E). apply String.eqb_eq in E as <-. by apply list_elem_of_In.
  - intros H. exists k. split; [by apply list_elem_of_In|apply String.eqb_refl].
Qed.

Definition roots_allowed (n : nat) (ks : list string) : Prop :=
  exact = true -> n = 1%nat -> Forall (fun k => k ∈ allowed) ks.

Lemma vrun_key K tl n k ks :
  keys_fresh K (k :: ks) -> roots_allowed (S (length tl)) (k :: ks) ->
  vtoken (VState (Container "{" true K :: tl) n) (TStr k)
    = Ok (VState (Container "{" false (option_map (cons k) K) :: tl) n) /\
  keys_fresh (option_map (cons k) K) ks /\ roots_allowed (S (length tl)) ks.
Proof.
  unfold keys_fresh, roots_allowed. intros HK HR. split; [|split].
  - unfold validateToken. cbn. destruct K as [seen|]; cbn.
    + destruct HK as [_ HK]. rewrite bool_decide_eq_false_2 by (apply HK; left).
      destruct (decide (length tl = 0%nat)) as [E|E].
      * rewrite E. cbn. destruct exact eqn:Ee; [|done]. cbn.
        rewrite E in HR. specialize (HR eq_refl eq_refl). inversion HR; subst.
        rewrite (proj2 (containsExact_spec _ _)) by done. done.
      * destruct tl; [done|]. done.
    + destruct (decide (length tl = 0%nat)) as [E|E].
      * rewrite E. cbn. destruct exact eqn:Ee; [|done]. cbn.
        rewrite E in HR. specialize (HR eq_refl eq_refl). inversion HR; subst.
        rewrite (proj2 (containsExact_spec _ _)) by done. done.
      * destruct tl; [done|]. done.
  - destruct K as [seen|]; [|done]. destruct HK as [HN HK]. inversion HN; subst. simpl.
    split; [done|]. intros x Hx. rewrite elem_of_cons. intros [->|Hs]; [done|].
    apply (HK x); [by right|done].
  - intros He Hn. specialize (HR He Hn). by inversion HR.
Qed.

Lemma vrun_open st c :
  value_position st -> (c = "{"%char \/ c = "["%char) ->
  (exact = true -> stack st = [] -> c = "{"%char) ->
  vtoken st (TDelim c) = Ok (VState (Container c (Ascii.eqb c "{")
    (if Ascii.eqb c "{" then new_keys (level st) else None) :: stack st) (rootValues st)).
Proof.
  intros Hp Hc He. unfold validateToken, openContainer, new_keys.
  assert (Ascii.eqb c "{" || Ascii.eqb c "[" = true) as -> by (by destruct Hc as [-> | ->]).
  unfold value_position, level in *. destruct st as [[|[c' e k] tl] n]; simpl in *.
  - rewrite Hp. simpl. destruct exact; simpl.
    + rewrite He by done. simpl. by repeat case_match.
    + by destruct Hc as [-> | ->].
  - destruct Hp as [-> | [-> ->]]; simpl; by destruct Hc as [-> | ->].
Qed.

Lemma readScalar_value st t :
  value_position st -> (exact = true -> stack st <> []) ->
  (forall c, t <> TDelim c) -> vtoken st t = completeValue st.
Proof.
  intros Hp He Ht. unfold validateToken, readScalar, value_position in *.
  destruct t as [c| | | |]; [by destruct (Ht c)|..];
    (destruct st as [[|[c e k] tl] n]; cbn in *;
      [destruct exact; [by destruct He|done]
      |destruct Hp as [-> | [-> ->]]; reflexivity]).
Qed.

Lemma vrun_value v : forall st,
  val_ok (level st) v -> value_position st ->
  (exact = true -> stack st = [] -> exists ms, v = JObj ms) ->
  vrun st (flatten v) = completeValue st.
Proof.
  induction v as [| | | |l IH|l IH] using json_rect_strong; intros st Hv Hp He;
    try (cbn [flatten vrun]; rewrite readScalar_value;
         [by destruct (completeValue st)|done|intros E Hs; by destruct (He E Hs)|done]).
  - cbn [flatten vrun].
    rewrite vrun_open; [|done|by right|intros E Hs; by destruct (He E Hs)]. cbn [rbind].
    set (st1 := VState _ _). inversion Hv as [| | | |? ? Hl|]; subst.
    assert (vrun st1 (flat_map flatten l) = Ok st1) as E.
    { assert (Hlev : level st1 = level st + 1) by (unfold level; simpl; lia).
      clear He Hv. induction IH as [|v l Hv _ IHl]; [done|]. inversion Hl; subst.
      cbn. rewrite vrun_app, (Hv st1); [|by rewrite Hlev|by left|done].
      cbn. by apply IHl. }
    rewrite vrun_app, E. cbn. destruct st as [tl n]; cbn. by destruct (completeValue _).
  - cbn [flatten vrun].
    rewrite vrun_open; [|done|by left|done]. cbn [rbind].
    replace (Ascii.eqb "{" "{") with true by done. cbv iota.
    inversion Hv as [| | | | |? ? [Hk Hr] Hl]; subst.
    assert (Hfresh : keys_fresh (new_keys (level st)) (map fst l)).
    { unfold new_keys, keys_fresh. destruct ((checked =? 0) || (level st <=? checked)) eqn:E; [|done].
      split; [|intros; apply not_elem_of_nil]. apply Hk.
      apply orb_true_iff in E as [?|?]; to_prop; auto. }
    assert (Hroot : roots_allowed (S (length (stack st))) (map fst l)).
    { intros E Hn. apply Hr; [done|]. unfold level. lia. }
    assert (exists K', vrun (VState (Container "{" true (new_keys (level st)) :: stack st) (rootValues st))
        (flatten_members l) = Ok (VState (Container "{" true K' :: stack st) (rootValues st)))
      as [K' E].
    { clear He Hv Hk Hr. generalize dependent (new_keys (level st)).
      unfold level in Hl. clear Hp. destruct st as [tl n]. cbn in *.
      induction IH as [|[k v] l Hv _ IHl]; intros K Hfresh; [by exists K|].
      inversion Hl; subst. cbn [map fst snd flatten_members flat_map vrun app] in *.
      destruct (vrun_key K tl n k (map fst l)) as (E1 & E2 & E3); [done..|].
      rewrite E1. cbn [rbind]. rewrite vrun_app, Hv; [|rewrite (level_push _ tl n n); unfold level; done|by right|done].
      cbn [rbind completeValue stack delimiter expectKey]. by apply IHl. }
    rewrite vrun_app. fold (flatten_members l). rewrite E. cbn.
    destruct st as [tl n]; cbn. by destruct (completeValue _).
Qed.

(** *** Soundness: what runs through is a good document *)
Lemma accepts_cons st t ts :
  accepts st (t :: ts) -> exists st1, vtoken st t = Ok st1 /\ accepts st1 ts.
Proof. intros (st' & H & Hf). simpl in H. apply rbind_Ok in H as (st1 & ? & ?). by exists st1; split; [|exists st']. Qed.

Lemma accepts_nil st : accepts st [] -> final st.
Proof. intros (st' & [= <-] & H). exact H. Qed.

Definition reads_value (ts : list jtoken) (st : vstate) : Prop :=
  exists (v : json) (rest : list jtoken) (st1 : vstate), ts = flatten v ++ rest /\ val_ok (level st) v /\
    (exact = true -> stack st = [] -> exists ms, v = JObj ms) /\
    completeValue st = Ok st1 /\ accepts st1 rest.

Definition reads_members (ts : list jtoken) (K : option (list string)) (tl : list container) (n : Z) : Prop :=
  exists (ms : list (string * json)) (rest : list jtoken) (st1 : vstate), ts = flatten_members ms ++ TDelim "}" :: rest /\
    keys_fresh K (map fst ms) /\ roots_allowed (S (length tl)) (map fst ms) /\
    Forall (fun kv => val_ok (Z.of_nat (length tl) + 2) (snd kv)) ms /\
    completeValue (VState tl n) = Ok st1 /\ accepts st1 rest.

Definition reads_elements (ts : list jtoken) (tl : list container) (n : Z) : Prop :=
  exists (vs : list json) (rest : list jtoken) (st1 : vstate), ts = flat_map flatten vs ++ TDelim "]" :: rest /\
    Forall (val_ok (Z.of_nat (length tl) + 2)) vs /\
    completeValue (VState tl n) = Ok st1 /\ accepts st1 rest.

Definition sound_upto (m : nat) : Prop := forall ts, (length ts <= m)%nat ->
  (forall st, value_position st -> (exists t ts', ts = t :: ts' /\ t <> TDelim "]") ->
     accepts st ts -> reads_value ts st) /\
    (forall K tl n, accepts (VState (Container "{" true K :: tl) n) ts -> reads_members ts K tl n) /\
    (forall e K tl n, accepts (VState (Container "[" e K :: tl) n) ts -> reads_elements ts tl n).

Lemma sound_value (m : nat) ts st : sound_upto m -> (length ts <= S m)%nat ->
  value_position st -> (exists t ts', ts = t :: ts' /\ t <> TDelim "]") ->
  accepts st ts -> reads_value ts st.
Proof.
  intros IH Hl Hp (t & ts' & -> & Hc) Ha. cbn in Hl.
  destruct (accepts_cons _ _ _ Ha) as (st1 & Hv & Ha1).
  destruct (IH ts' ltac:(lia)) as (_ & IHm & IHe).
  assert (Hscal : (forall c, t <> TDelim c) -> val_ok (level st) (JStr "") -> forall v,
    flatten v = [t] -> val_ok (level st) v -> reads_value (t :: ts') st).
  { intros Hnd _ v Hf Hok. exists v, ts', st1. rewrite Hf.
    assert (Hx : exact = true -> stack st <> []).
    { intros E Hs. unfold validateToken, readScalar in Hv. rewrite Hs, E in Hv.
      destruct t as [c| | | |]; [by destruct (Hnd c)|..]; discriminate. }
    split; [done|]. split; [done|]. split; [intros E Hs; by destruct (Hx E)|].
    rewrite readScalar_value in Hv by done. done. }
  destruct t as [c|s|x|b|].
  2-5: (eapply Hscal; [done|constructor| |]; [instantiate (1 := ltac:(first
    [exact (JStr s)|exact (JNum x)|exact (JBool b)|exact JNull])); reflexivity|constructor]).
  unfold validateToken in Hv.
  destruct (Ascii.eqb c "{" || Ascii.eqb c "[") eqn:Eo.
  - assert (Hob : c = "{"%char \/ c = "["%char)
      by (apply orb_true_iff in Eo as [E|E]; apply Ascii.eqb_eq in E; auto).
    assert (Hex : exact = true -> stack st = [] -> c = "{"%char).
    { intros E Hs. destruct Hob as [->| ->]; [done|]. unfold openContainer in Hv.
      rewrite Hs, E in Hv. simpl in Hv. by destruct (negb _). }
    pose proof (vrun_open st c Hp Hob Hex) as Ho. unfold validateToken in Ho. rewrite Eo in Ho.
    rewrite Ho in Hv. injection Hv as <-. destruct Hob as [-> | ->]; simpl in Ha1.
    + destruct (IHm _ _ _ Ha1) as (ms & rest & st2 & -> & Hf & Hr & Hm & Hcv & Hac).
      exists (JObj ms), rest, st2. cbn [flatten app]. rewrite <- app_assoc. cbn [app].
      split; [done|]. split; [|split; [by exists ms|split; [by destruct st|done]]].
      constructor.
      * split.
        -- intros Hchk. unfold new_keys, keys_fresh in Hf.
           rewrite (proj2 (orb_true_iff _ _)) in Hf; [apply Hf|].
           destruct Hchk; [left; by apply Z.eqb_eq|right; by apply Z.leb_le].
        -- intros E Hn. apply Hr; [done|]. unfold level in Hn. lia.
      * unfold level. replace (Z.of_nat (length (stack st)) + 1 + 1) with (Z.of_nat (length (stack st)) + 2) by lia. done.
    + destruct (IHe _ _ _ _ Ha1) as (vs & rest & st2 & -> & Hm & Hcv & Hac).
      exists (JArr vs), rest, st2. cbn [flatten app]. rewrite <- app_assoc. cbn [app].
      split; [done|]. split; [|split; [intros E Hs; by specialize (Hex E Hs)|split; [by destruct st|done]]].
      constructor. unfold level. replace (Z.of_nat (length (stack st)) + 1 + 1) with (Z.of_nat (length (stack st)) + 2) by lia. done.
  - exfalso. destruct (Ascii.eqb c "}" || Ascii.eqb c "]") eqn:Ec; [|discriminate].
    assert (c = "}"%char) as ->.
    { apply orb_true_iff in Ec as [E|E]; apply Ascii.eqb_eq in E; [done|]. by subst. }
    unfold closeContainer, value_position in *.
    destruct (stack st) as [|[d e k] tl]; [discriminate|]. cbn in *.
    destruct Hp as [-> | [-> ->]]; discriminate.
Qed.

Lemma sound_members (m : nat) ts K tl n : sound_upto m -> (length ts <= S m)%nat ->
  accepts (VState (Container "{" true K :: tl) n) ts -> reads_members ts K tl n.
Proof.
  intros IH Hl Ha. destruct ts as [|t ts]; [by destruct (accepts_nil _ Ha)|]. cbn in Hl.
  destruct (accepts_cons _ _ _ Ha) as (st1 & Hv & Ha1).
  destruct t as [c|k| | |]; [|..]; try (cbn in Hv; discriminate).
  - unfold validateToken in Hv.
    destruct (Ascii.eqb c "{" || Ascii.eqb c "["); [by cbn in Hv|].
    destruct (Ascii.eqb c "}" || Ascii.eqb c "]") eqn:Ec; [|discriminate]. cbn in Hv.
    destruct (Ascii.eqb_spec c "}") as [->|]; 
      [|destruct (Ascii.eqb_spec c "]") as [->|]; discriminate]. cbn in Hv.
    exists [], ts, st1. repeat split; try done; [|intros _ _; apply Forall_nil_2].
    unfold keys_fresh. destruct K; [|done]. split; [constructor|]. intros x Hx. by apply elem_of_nil in Hx.
  - unfold validateToken, readKey in Hv. cbn in Hv.
    destruct (match K with Some ks => _ | None => false end) eqn:Ek; [discriminate|].
    destruct ((length tl =? 0)%nat && exact && negb (containsExact allowed k)) eqn:Er; [discriminate|].
    injection Hv as <-.
    destruct (IH ts ltac:(lia)) as (IHv & _ & _).
    assert (Hne : exists t ts', ts = t :: ts' /\ t <> TDelim "]").
    { destruct ts as [|t ts']; [by destruct (accepts_nil _ Ha1)|]. exists t, ts'. split; [done|].
      intros ->. destruct (accepts_cons _ _ _ Ha1) as (? & Hv & _). discriminate. }
    destruct (IHv (VState (Container "{" false (option_map (cons k) K) :: tl) n))
      as (v & rest & st2 & -> & Hok & _ & Hcv & Hac); [by right|done|done|].
    cbn in Hcv. injection Hcv as <-. destruct (flatten_head v) as (t0 & ts0 & Ev & _).
    assert (Hlr : (length rest <= m)%nat)
      by (rewrite Ev in Hl; simpl in Hl; rewrite length_app in Hl; lia).
    destruct (IH rest Hlr) as (_ & IHm & _).
    destruct (IHm _ _ _ Hac) as (ms & rest' & st3 & -> & Hf & Hr & Hms & Hcv & Hac').
    exists ((k, v) :: ms), rest', st3. cbn. rewrite <- app_assoc. repeat split; try done.
    + unfold keys_fresh in *. destruct K as [seen|]; [|done]. cbn in Hf. to_prop.
      destruct Hf as [HN HD]. split.
      * constructor; [|done]. intros Hin. apply (HD _ Hin). left.
      * intros x Hx. apply elem_of_cons in Hx as [->|Hx]; [done|].
        intros Hs. apply (HD _ Hx). by right.
    + intros E Hn. constructor; [|by apply Hr]. simpl in Hn. injection Hn as Hn.
      rewrite Hn, E in Er. simpl in Er. apply containsExact_spec. by apply negb_false_iff in Er.
    + constructor; [|done]. rewrite (level_push _ tl n n) in Hok. by rewrite (level_two tl n).
Qed.

Lemma sound_elements (m : nat) ts e K tl n : sound_upto m -> (length ts <= S m)%nat ->
  accepts (VState (Container "[" e K :: tl) n) ts -> reads_elements ts tl n.
Proof.
  intros IH Hl Ha. destruct ts as [|t ts]; [by destruct (accepts_nil _ Ha)|].
  destruct (decide (t = TDelim "]")) as [->|Hne].
  - destruct (accepts_cons _ _ _ Ha) as (st1 & Hv & Ha1). cbn in Hv.
    exists [], ts, st1. repeat split; try done.
  - destruct (sound_value m (t :: ts) (VState (Container "[" e K :: tl) n) IH Hl)
      as (v & rest & st2 & E & Hok & _ & Hcv & Hac); [by left|eauto|done|].
    cbn in Hcv. injection Hcv as <-. destruct (flatten_head v) as (t0 & ts0 & Ev & _).
    assert (Hlr : (length rest <= m)%nat).
    { rewrite E, Ev in Hl. simpl in Hl. rewrite length_app in Hl. lia. }
    destruct (IH rest Hlr) as (_ & _ & IHe).
    destruct (IHe _ _ _ _ Hac) as (vs & rest' & st3 & -> & Hms & Hcv & Hac').
    exists (v :: vs), rest', st3. rewrite E. cbn. rewrite <- app_assoc.
    repeat split; try done. constructor; [|done]. rewrite (level_push _ tl n n) in Hok. by rewrite (level_two tl n).
Qed.

Lemma sound (m : nat) : sound_upto m.
Proof.
  induction m as [|m IH]; intros ts Hl.
  - destruct ts; [|simpl in Hl; lia]. repeat split; intros.
    + by destruct H0 as (? & ? & ? & _).
    + by destruct (accepts_nil _ H).
    + by destruct (accepts_nil _ H).
  - repeat split; intros; [by eapply sound_value|by eapply sound_members|by eapply sound_elements].
Qed.

(** The validator decides the specification. *)
Lemma validateObjectKeys_spec raw :
  validateObjectKeys checked allowed exact raw = Ok tt <->
  exists v, parse_document raw = Some v /\ document_ok checked allowed exact v.
Proof.
  rewrite validateObjectKeys_tokens. split.
  - intros (ts & Ht & Ha).
    assert (Hp : value_position (VState [] 0)) by done.
    assert (Hne : exists t ts', ts = t :: ts' /\ t <> TDelim "]").
    { destruct ts as [|t ts']; [by destruct (accepts_nil _ Ha)|]. exists t, ts'. split; [done|].
      intros ->. destruct (accepts_cons _ _ _ Ha) as (? & Hv & _). discriminate. }
    destruct (proj1 (sound _ ts (le_n _)) _ Hp Hne Ha) as (v & rest & st1 & -> & Hok & He & Hc & Ha').
    cbn in Hc. injection Hc as <-.
    assert (rest = []) as ->.
    { destruct rest as [|t rest]; [done|]. exfalso.
      destruct (accepts_cons _ _ _ Ha') as (st2 & Hv & _). unfold validateToken in Hv.
      destruct t as [c| | | |]; cbn in Hv; try (unfold readScalar in Hv; by destruct exact).
      destruct (Ascii.eqb c "{" || Ascii.eqb c "["); [done|].
      by destruct (Ascii.eqb c "}" || Ascii.eqb c "]"). }
    rewrite app_nil_r in Ht. exists v. split; [by apply tokens_document|]. split; [done|]. auto.
  - intros (v & Hd & Hok & He). exists (flatten v). split; [by apply tokens_document|].
    exists (VState [] 1). split; [|done]. rewrite vrun_value; [done|done|done|]. intros E _. by apply He.
Qed.
End Proofs.

(** ** Properties *)
Lemma member_Some_iff {A : Type} (k : string) (ms : list (string * A)) :
  (exists v, member k ms = Some v) <-> k ∈ map fst ms.
Proof.
  unfold member. split.
  - intros [v H]. destruct (find_last _ ms) as [[k' v']|] eqn:E; [|discriminate].
    apply find_last_Some in E as [Hin Heq]. apply String.eqb_eq in Heq. simpl in Heq. subst k'.
    apply list_elem_of_fmap. by exists (k, v').
  - intros H. apply list_elem_of_fmap in H as ([k' v] & -> & Hin). simpl.
    destruct (find_last _ ms) as [[k2 v2]|] eqn:E; [by exists v2|]. exfalso.
    unfold find_last in E. rewrite find_first_None in E.
    assert (String.eqb k' k' = false) as Hf; [|by rewrite String.eqb_refl in Hf].
    apply (E (k', v)). rewrite list_elem_of_In in Hin |- *. by apply -> in_rev.
Qed.

Lemma requireKeys_Ok (root : list (string * json)) (required : list string) :
  requireKeys root required = Ok tt <-> forall k, k ∈ required -> k ∈ map fst root.
Proof.
  induction required as [|k ks IH]; simpl.
  - split; [intros _ k Hk; by apply elem_of_nil in Hk|done].
  - pose proof (member_Some_iff k root) as Hk. destruct (member k root) as [v|].
    + rewrite IH. split.
      * intros H x Hx. apply elem_of_cons in Hx as [->|Hx]; [|by apply H]. apply Hk. by exists v.
      * intros H x Hx. apply H. by right.
    + split; [done|]. intros H. destruct (proj2 Hk) as [v Hv]; [apply H; left|discriminate].
Qed.

(** C19: the strict validator accepts an input exactly when it is one JSON
    document, an object, whose root keys are all allowed and in which no object
    down to the checked depth has the same key twice. *)
Theorem ValidateExactRootObject_correct (raw : string) (depth : Z) (allowed : list string) :
  ValidateExactRootObject raw depth allowed = Ok tt <->
  exists v, parse_document raw = Some v /\ document_ok depth allowed true v.
Proof. apply validateObjectKeys_spec. Qed.

Lemma required_root_exact (raw : string) (depth : Z) (required : list string)
    (Hdepth : depth = 0 \/ 1 <= depth) (Hnodup : NoDup required) :
  ValidateExactRootObjectRequired raw depth required = Ok tt ->
  exists ms, unmarshal raw = Some (JObj ms) /\ map fst ms ≡ₚ required.
Proof.
  unfold ValidateExactRootObjectRequired. intros H. apply rbind_Ok in H as ([] & Hv & H).
  apply validateObjectKeys_spec in Hv as (v & Hd & Hok & Hobj).
  destruct (Hobj eq_refl) as [ms ->].
  destruct (unmarshal raw) as [w|] eqn:Eu; [|discriminate].
  apply parse_document_unmarshal in Eu as [Ed _]. assert (w = JObj ms) as -> by congruence.
  exists ms. split; [done|]. rewrite requireKeys_Ok in H.
  inversion Hok as [| | | | |? ? [Hn Ha] _]; subst.
  apply NoDup_Permutation; [by apply Hn|done|]. intros k. split; [|apply H].
  intros Hk. by apply (proj1 (Forall_forall _ _) (Ha eq_refl eq_refl)).
Qed.

(** With required keys the root object has exactly the required keys, each
    of them once. *)
Theorem ValidateExactRootObjectRequired_exact (raw : string) (depth : Z) (required : list string)
    (Hdepth : depth = 0 \/ 1 <= depth) (Hnodup : NoDup required) :
  ValidateExactRootObjectRequired raw depth required = Ok tt ->
  exists ms, unmarshal raw = Some (JObj ms) /\ map fst ms ≡ₚ required.
Proof. by apply required_root_exact. Qed.

Lemma ValidateExactRootObjectRequired_exact_witness :
  exists ms, unmarshal (quoted "{'b':[1],'a':2}") = Some (JObj ms) /\ map fst ms ≡ₚ ["a"; "b"]%string.
Proof.
  apply (ValidateExactRootObjectRequired_exact (quoted "{'b':[1],'a':2}") 0 ["a"; "b"]%string).
  - by left.
  - apply (bool_decide_eq_true_1 _). vm_compute. reflexivity.
  - vm_compute. reflexivity.
Defined.
