(* ===== verification/Sha256.v ===== *)
(** * SHA-256 and hexadecimal digests ([crypto/sha256], [encoding/hex]) *)

From Stdlib Require Import ZArith Lia String Ascii.
From S2P Require Import Prelude GoStrings.
Open Scope Z_scope.

Definition w32 (z : Z) : Z := Z.land z 4294967295.
Definition rotr (x n : Z) : Z := Z.lor (Z.shiftr x n) (w32 (Z.shiftl x (32 - n))).

Definition round_constants : list Z :=
  [1116352408; 1899447441; 3049323471; 3921009573; 961987163; 1508970993; 2453635748; 2870763221;
   3624381080; 310598401; 607225278; 1426881987; 1925078388; 2162078206; 2614888103; 3248222580;
   3835390401; 4022224774; 264347078; 604807628; 770255983; 1249150122; 1555081692; 1996064986;
   2554220882; 2821834349; 2952996808; 3210313671; 3336571891; 3584528711; 113926993; 338241895;
   666307205; 773529912; 1294757372; 1396182291; 1695183700; 1986661051; 2177026350; 2456956037;
   2730485921; 2820302411; 3259730800; 3345764771; 3516065817; 3600352804; 4094571909; 275423344;
   430227734; 506948616; 659060556; 883997877; 958139571; 1322822218; 1537002063; 1747873779;
   1955562222; 2024104815; 2227730452; 2361852424; 2428436474; 2756734187; 3204031479; 3329325298].

Definition initial_hash : list Z :=
  [1779033703; 3144134277; 1013904242; 2773480762; 1359893119; 2600822924; 528734635; 1541459225].

Definition be_bytes (n : nat) (z : Z) : list Z :=
  map (fun i => Z.land (Z.shiftr z (8 * Z.of_nat (n - 1 - i))) 255) (seq 0 n).

Definition pad_message (m : list Z) : list Z :=
  let n := length m in
  m ++ [128] ++ repeat 0 (Z.to_nat ((55 - Z.of_nat n) mod 64)) ++ be_bytes 8 (8 * Z.of_nat n).

Fixpoint words (l : list Z) : list Z :=
  match l with
  | a :: b :: c :: d :: l' => (((a * 256 + b) * 256 + c) * 256 + d) :: words l'
  | _ => []
  end.

(** The message schedule, latest word first. *)
Fixpoint extend (n : nat) (w : list Z) : list Z :=
  match n with
  | O => w
  | S n' =>
    let x15 := nth 14 w 0 in let x2 := nth 1 w 0 in
    let s0 := Z.lxor (Z.lxor (rotr x15 7) (rotr x15 18)) (Z.shiftr x15 3) in
    let s1 := Z.lxor (Z.lxor (rotr x2 17) (rotr x2 19)) (Z.shiftr x2 10) in
    extend n' (w32 (nth 15 w 0 + s0 + nth 6 w 0 + s1) :: w)
  end.

Definition sha_round (h : list Z) (kw : Z * Z) : list Z :=
  match h with
  | [a; b; c; d; e; f; g; hh] =>
    let s1 := Z.lxor (Z.lxor (rotr e 6) (rotr e 11)) (rotr e 25) in
    let ch := Z.lxor (Z.land e f) (Z.land (4294967295 - e) g) in
    let t1 := hh + s1 + ch + fst kw + snd kw in
    let s0 := Z.lxor (Z.lxor (rotr a 2) (rotr a 13)) (rotr a 22) in
    let maj := Z.lxor (Z.lxor (Z.land a b) (Z.land a c)) (Z.land b c) in
    [w32 (t1 + s0 + maj); a; b; c; w32 (d + t1); e; f; g]
  | _ => h
  end.

Definition compress (h : list Z) (block : list Z) : list Z :=
  let w := rev (extend 48 (rev (words block))) in
  zip_with (fun x y => w32 (x + y)) h (fold_left sha_round (zip round_constants w) h).

Definition sha256_bytes (m : list Z) : list Z :=
  flat_map (be_bytes 4) (fold_left compress (chunks 64 (pad_message m)) initial_hash).

Definition hex_byte (b : Z) : string :=
  let d z := chr (if z <? 10 then 48 + z else 87 + z) in
  String (d (b / 16)) (String (d (b mod 16)) EmptyString).
Definition hex (l : list Z) : string := fold_right (fun b acc => (hex_byte b ++ acc)%string) EmptyString l.

(** [hex.EncodeToString(sha256.Sum256(s))]. *)
Definition sha256_hex (s : string) : string := hex (sha256_bytes (bytes s)).

Lemma slen_hex (l : list Z) : slen (hex l) = 2 * Z.of_nat (length l).
Proof.
  induction l as [|b l IH]; [done|]. cbn [hex fold_right]. fold (hex l).
  rewrite slen_app, IH. cbn [length]. unfold hex_byte. cbn [slen]. lia.
Qed.

Lemma length_sha_round h kw : length h = 8%nat -> length (sha_round h kw) = 8%nat.
Proof. do 9 (destruct h as [|? h]; try done). Qed.

Lemma length_compress h b : length h = 8%nat -> length (compress h b) = 8%nat.
Proof.
  intros H. unfold compress. rewrite length_zip_with, H.
  set (l := zip round_constants _). clearbody l.
  enough (length (fold_left sha_round l h) = 8%nat) as -> by done.
  revert h H. induction l as [|kw l IH]; intros h H; [done|]. simpl. by apply IH, length_sha_round.
Qed.

(** A digest has 64 hexadecimal characters. *)
Lemma slen_sha256_hex (s : string) : slen (sha256_hex s) = 64.
Proof.
  unfold sha256_hex, sha256_bytes. rewrite slen_hex.
  assert (H : forall bs h, length h = 8%nat -> length (fold_left compress bs h) = 8%nat).
  { induction bs as [|b bs IH]; intros h Hh; [done|]. simpl. by apply IH, length_compress. }
  generalize (H (chunks 64 (pad_message (bytes s))) initial_hash eq_refl).
  generalize (fold_left compress (chunks 64 (pad_message (bytes s))) initial_hash).
  intros l. do 9 (destruct l as [|? l]; try done).
Qed.

Lemma sha256_bytes_range (m : list Z) : Forall (fun b => 0 <= b < 256) (sha256_bytes m).
Proof.
  unfold sha256_bytes. apply Forall_forall.
  intros b Hb. apply list_elem_of_In, in_flat_map in Hb as (w & _ & Hb). apply in_map_iff in Hb as (i & <- & _).
  rewrite (Z.land_ones _ 8) by lia. apply Z.mod_pos_bound. lia.
Qed.
