(* ===== verification/Sql.v ===== *)
(** * Statements, transactions and the errors of the store

    The database is a value of the model, threaded through the operations.  Each
    statement, [BEGIN] and [COMMIT] consumes one entry of an oracle that says
    whether the driver fails there; a transaction that does not commit leaves
    the database as it was. *)

From Stdlib Require Import ZArith Lia String Ascii.
From S2P Require Import Prelude GoStrings GoTime GoJson.
Open Scope Z_scope.

(** ** Error codes of [eventstore/errors.go] *)
Definition CodePathInvalid : string := "STORE_PATH_INVALID".
Definition CodeOpenFailed : string := "STORE_OPEN_FAILED".
Definition CodePragmaFailed : string := "STORE_PRAGMA_FAILED".
Definition CodeMigrationFailed : string := "STORE_MIGRATION_FAILED".
Definition CodeMigrationUnsupported : string := "STORE_MIGRATION_UNSUPPORTED".
Definition CodeBusy : string := "STORE_BUSY".
Definition CodeReadOnly : string := "STORE_READ_ONLY".
Definition CodeWriteFailed : string := "STORE_WRITE_FAILED".
Definition CodeQueryFailed : string := "STORE_QUERY_FAILED".
Definition CodeCanceled : string := "STORE_CANCELED".

(** [*Error] and [*validationError]. *)
Inductive error : Type :=
  | StoreError (code : string)
  | ValidationError (code : string).

Definition ErrorCode (e : error) : string :=
  match e with StoreError c => c | ValidationError _ => CodeOpenFailed end.
Definition ValidationCode (e : error) : string :=
  match e with ValidationError c => c | StoreError _ => EmptyString end.

(** What the driver or the context reports. *)
Inductive fault : Type :=
  | Canceled
  | DeadlineExceeded
  | SqliteCode (code : Z)
  | OtherFault.

(** SQLITE_CONSTRAINT. *)
Definition constraint_fault : fault := SqliteCode 19.

Definition classifySQLiteError (defaultCode : string) (f : fault) : error :=
  match f with
  | Canceled | DeadlineExceeded => StoreError CodeCanceled
  | SqliteCode c =>
    let c := Z.land c 255 in
    if (c =? 5) || (c =? 6) then StoreError CodeBusy
    else if c =? 8 then StoreError CodeReadOnly
    else StoreError defaultCode
  | OtherFault => StoreError defaultCode
  end.

(** What the schema relies on of SQLite's JSON functions. *)
Class SqliteJson := { json_valid : string -> bool; json_type : string -> string }.

(** SQLite's [length] of a TEXT value: its characters. *)
Definition text_length (s : string) : Z := Z.of_nat (length (runes s)).
Definition text_between (lo hi : Z) (s : string) : bool := in_range lo hi (text_length s).

(** ** The monad *)
Section Monad.
Context {S : Type}.

Definition oracle := list (option fault).
Definition M (A : Type) : Type := S -> oracle -> result error A * S * oracle.

Definition mret {A} (a : A) : M A := fun s o => (Ok a, s, o).
Definition mfail {A} (e : error) : M A := fun s o => (Err e, s, o).
Definition mbind {A B} (m : M A) (k : A -> M B) : M B := fun s o =>
  let '(r, s', o') := m s o in
  match r with Ok a => k a s' o' | Err e => (Err e, s', o') end.
Definition mlift {A} (r : result error A) : M A :=
  match r with Ok a => mret a | Err e => mfail e end.

(** One statement: [f] reads and changes the database, or fails with a fault
    of its own (a constraint). *)
Definition stmt {A} (defaultCode : string) (f : S -> result fault (A * S)) : M A := fun s o =>
  match o with
  | Some e :: o' => (Err (classifySQLiteError defaultCode e), s, o')
  | _ => let o' := tail o in
         match f s with
         | Ok (a, s') => (Ok a, s', o')
         | Err e => (Err (classifySQLiteError defaultCode e), s, o')
         end
  end.

Definition query {A} (defaultCode : string) (f : S -> A) : M A :=
  stmt defaultCode (fun s => Ok (f s, s)).

(** [BeginTx], the body, [Commit]; the deferred [Rollback] undoes the body on
    any error. *)
Definition transaction {A} (beginCode commitCode : string) (body : M A) : M A := fun s o =>
  let '(r, _, o1) := stmt beginCode (fun s => Ok (tt, s)) s o in
  match r with
  | Err e => (Err e, s, o1)
  | Ok _ =>
    let '(r, s1, o2) := body s o1 in
    match r with
    | Err e => (Err e, s, o2)
    | Ok a =>
      let '(r, _, o3) := stmt commitCode (fun s => Ok (tt, s)) s1 o2 in
      match r with Ok _ => (Ok a, s1, o3) | Err e => (Err e, s, o3) end
    end
  end.

(** The same where the body may return without [Commit]: the second component
    says whether it commits, and the deferred [Rollback] undoes it otherwise. *)
Definition transaction_if {A} (beginCode commitCode : string) (body : M (A * bool)) : M A := fun s o =>
  let '(r, _, o1) := stmt beginCode (fun s => Ok (tt, s)) s o in
  match r with
  | Err e => (Err e, s, o1)
  | Ok _ =>
    let '(r, s1, o2) := body s o1 in
    match r with
    | Err e => (Err e, s, o2)
    | Ok (a, false) => (Ok a, s, o2)
    | Ok (a, true) =>
      let '(r, _, o3) := stmt commitCode (fun s => Ok (tt, s)) s1 o2 in
      match r with Ok _ => (Ok a, s1, o3) | Err e => (Err e, s, o3) end
    end
  end.

Fixpoint mmapi {A B} (i : Z) (f : Z -> A -> M B) (l : list A) : M (list B) :=
  match l with
  | [] => mret []
  | x :: l' => mbind (f i x) (fun y => mbind (mmapi (i + 1) f l') (fun ys => mret (y :: ys)))
  end.
Definition mmap {A B} (f : A -> M B) (l : list A) : M (list B) := mmapi 0 (fun _ => f) l.
Fixpoint miter {A} (f : A -> M unit) (l : list A) : M unit :=
  match l with
  | [] => mret tt
  | x :: l' => mbind (f x) (fun _ => miter f l')
  end.
End Monad.
Arguments M : clear implicits.

Declare Scope db_scope.
Delimit Scope db_scope with db.
Notation "'let*' x ':=' m 'in' k" := (mbind m (fun x => k))
  (at level 10, x pattern, m at level 100, k at level 200) : db_scope.

(** ** Lemmas *)
Section Lemmas.
Context {S : Type}.
Open Scope db_scope.

Definition outcome {A} (m : M S A) s o : result error A := fst (fst (m s o)).
Definition state_after {A} (m : M S A) s o : S := snd (fst (m s o)).

(** A transaction keeps the database on any error. *)
Lemma transaction_atomic {A} bc cc (m : M S A) s o e :
  outcome (transaction bc cc m) s o = Err e -> state_after (transaction bc cc m) s o = s.
Proof.
  unfold outcome, state_after, transaction.
  destruct (stmt bc _ s o) as [[[] ?] o1]; [|done].
  destruct (m s o1) as [[[] s1] o2]; [|done].
  destruct (stmt cc _ s1 o2) as [[[] ?] ?]; done.
Qed.

(** A committed transaction is its body. *)
Lemma transaction_Ok {A} bc cc (m : M S A) s o a :
  outcome (transaction bc cc m) s o = Ok a ->
  exists o1, outcome m s o1 = Ok a /\ state_after (transaction bc cc m) s o = state_after m s o1.
Proof.
  unfold outcome, state_after, transaction.
  destruct (stmt bc _ s o) as [[[] ?] o1]; [|done]. intros H. exists o1. revert H.
  destruct (m s o1) as [[[] s1] o2]; [|done].
  destruct (stmt cc _ s1 o2) as [[[] ?] ?]; done.
Qed.

(** An invariant of the database holds after an operation. *)
Definition preserves {A} (P : S -> Prop) (m : M S A) : Prop :=
  forall s o, P s -> P (state_after m s o).

Lemma preserves_mret {A} P (a : A) : preserves P (mret a).
Proof. intros s o H. exact H. Qed.
Lemma preserves_mfail {A} P e : preserves P (@mfail S A e).
Proof. intros s o H. exact H. Qed.
Lemma preserves_mbind {A B} P (m : M S A) (k : A -> M S B) :
  preserves P m -> (forall a, preserves P (k a)) -> preserves P (mbind m k).
Proof.
  unfold preserves, state_after, mbind. intros Hm Hk s o Hs. specialize (Hm s o Hs).
  destruct (m s o) as [[[a|e] s'] o']; simpl in *; [|done]. by apply Hk.
Qed.
Lemma preserves_mlift {A} P (r : result error A) : preserves P (@mlift S A r).
Proof. destruct r; intros s o H; exact H. Qed.
Lemma preserves_stmt {A} P c (f : S -> result fault (A * S)) :
  (forall s a s', P s -> f s = Ok (a, s') -> P s') -> preserves P (stmt c f).
Proof.
  unfold preserves, state_after, stmt. intros Hf s o Hs.
  destruct o as [|[e|] o]; [|done|]; destruct (f s) as [[a s']|e] eqn:E; simpl; eauto.
Qed.
Lemma preserves_query {A} P c (f : S -> A) : preserves P (query c f).
Proof. apply preserves_stmt. intros s a s' Hs E. by injection E as _ <-. Qed.
Lemma preserves_transaction {A} P bc cc (m : M S A) :
  preserves P m -> preserves P (transaction bc cc m).
Proof.
  unfold preserves. intros Hm s o Hs.
  destruct (outcome (transaction bc cc m) s o) eqn:E.
  - apply transaction_Ok in E as (o1 & _ & ->). by apply Hm.
  - by erewrite transaction_atomic.
Qed.
Lemma preserves_mmapi {A B} P (f : Z -> A -> M S B) l :
  (forall i x, x ∈ l -> preserves P (f i x)) -> forall i, preserves P (mmapi i f l).
Proof.
  induction l as [|x l IH]; intros Hf i; [apply preserves_mret|]. simpl.
  apply preserves_mbind; [apply Hf; left|]. intros y.
  apply preserves_mbind; [|intros; apply preserves_mret].
  apply IH. intros j z Hz. apply Hf. by right.
Qed.
Lemma preserves_miter {A} P (f : A -> M S unit) l :
  (forall x, x ∈ l -> preserves P (f x)) -> preserves P (miter f l).
Proof.
  induction l as [|x l IH]; intros Hf; [apply preserves_mret|]. simpl.
  apply preserves_mbind; [apply Hf; left|]. intros y. apply IH. intros z Hz. apply Hf. by right.
Qed.

(** *** Inversion of a run that succeeds *)
Lemma mret_inv {A} (a b : A) (s s' : S) o o' : mret a s o = (Ok b, s', o') -> b = a /\ s' = s.
Proof. by intros [= <- <- <-]. Qed.
Lemma mfail_inv {A} e (b : A) (s s' : S) o o' : mfail e s o = (Ok b, s', o') -> False.
Proof. done. Qed.
Lemma mlift_inv {A} (r : result error A) b (s s' : S) o o' :
  mlift r s o = (Ok b, s', o') -> r = Ok b /\ s' = s.
Proof. destruct r; [by intros [= <- <- <-]|done]. Qed.
Lemma mbind_inv {A B} (m : M S A) (k : A -> M S B) b s s' o o' :
  mbind m k s o = (Ok b, s', o') ->
  exists a s1 o1, m s o = (Ok a, s1, o1) /\ k a s1 o1 = (Ok b, s', o').
Proof.
  unfold mbind. destruct (m s o) as [[[a|e] s1] o1] eqn:E; [|done]. eauto 6.
Qed.
Lemma stmt_inv {A} c (f : S -> result fault (A * S)) a s s' o o' :
  stmt c f s o = (Ok a, s', o') -> f s = Ok (a, s').
Proof.
  unfold stmt. destruct o as [|[e|] o]; [|done|];
    destruct (f s) as [[? ?]|]; intros; by simplify_eq.
Qed.
Lemma query_inv {A} c (f : S -> A) a s s' o o' :
  query c f s o = (Ok a, s', o') -> a = f s /\ s' = s.
Proof. intros H. apply stmt_inv in H. by simplify_eq. Qed.
Lemma transaction_inv {A} bc cc (m : M S A) a s s' o o' :
  transaction bc cc m s o = (Ok a, s', o') -> exists o1 o2, m s o1 = (Ok a, s', o2).
Proof.
  unfold transaction. destruct (stmt bc _ s o) as [[[] ?] o1]; [|done].
  destruct (m s o1) as [[[a1|] s1] o2] eqn:E; [|done].
  destruct (stmt cc _ s1 o2) as [[[] ?] o3]; intros; simplify_eq. eauto.
Qed.
Lemma transaction_err {A} bc cc (m : M S A) e s s' o o' :
  transaction bc cc m s o = (Err e, s', o') -> s' = s.
Proof.
  unfold transaction. destruct (stmt bc _ s o) as [[[] ?] o1]; [|intros; by simplify_eq].
  destruct (m s o1) as [[[a1|] s1] o2] eqn:E; [|intros; by simplify_eq].
  destruct (stmt cc _ s1 o2) as [[[] ?] o3]; intros; by simplify_eq.
Qed.

Lemma transaction_if_inv {A} bc cc (m : M S (A * bool)) a s s' o o' :
  transaction_if bc cc m s o = (Ok a, s', o') ->
  exists b s1 o1 o2, m s o1 = (Ok (a, b), s1, o2) /\ s' = if b : bool then s1 else s.
Proof.
  unfold transaction_if. destruct (stmt bc _ s o) as [[[] ?] o1]; [|done].
  destruct (m s o1) as [[[[a1 []]|] s1] o2] eqn:E; [| |done].
  - destruct (stmt cc _ s1 o2) as [[[] ?] o3]; intros; simplify_eq. by exists true, s', o1, o2.
  - intros. simplify_eq. by exists false, s1, o1, o'.
Qed.
Lemma transaction_if_err {A} bc cc (m : M S (A * bool)) e s s' o o' :
  transaction_if bc cc m s o = (Err e, s', o') -> s' = s.
Proof.
  unfold transaction_if. destruct (stmt bc _ s o) as [[[] ?] o1]; [|intros; by simplify_eq].
  destruct (m s o1) as [[[[a1 []]|] s1] o2] eqn:E; [| |intros; by simplify_eq].
  - destruct (stmt cc _ s1 o2) as [[[] ?] o3]; intros; by simplify_eq.
  - intros. by simplify_eq.
Qed.

(** *** The oracle only decides whether a run fails *)
Definition determined {A} (m : M S A) : Prop :=
  forall s o1 o2 a1 a2 s1 s2 o1' o2',
    m s o1 = (Ok a1, s1, o1') -> m s o2 = (Ok a2, s2, o2') -> a1 = a2 /\ s1 = s2.

Lemma determined_mret {A} (a : A) : determined (mret a).
Proof. intros s o1 o2 a1 a2 s1 s2 o1' o2'. unfold mret. intros; by simplify_eq. Qed.
Lemma determined_mfail {A} e : determined (@mfail S A e).
Proof. by intros s o1 o2 a1 a2 s1 s2 o1' o2'. Qed.
Lemma determined_mbind {A B} (m : M S A) (k : A -> M S B) :
  determined m -> (forall a, determined (k a)) -> determined (mbind m k).
Proof.
  intros Hm Hk s o1 o2 b1 b2 s1 s2 o1' o2' H1 H2.
  apply mbind_inv in H1 as (a & t & q & H1 & H1'). apply mbind_inv in H2 as (a' & t' & q' & H2 & H2').
  destruct (Hm _ _ _ _ _ _ _ _ _ H1 H2) as [-> ->]. by eapply Hk.
Qed.
Lemma determined_stmt {A} c (f : S -> result fault (A * S)) : determined (stmt c f).
Proof.
  intros s o1 o2 a1 a2 s1 s2 o1' o2' H1 H2. apply stmt_inv in H1, H2. split; congruence.
Qed.
Lemma determined_transaction {A} bc cc (m : M S A) : determined m -> determined (transaction bc cc m).
Proof.
  intros Hm s o1 o2 a1 a2 s1 s2 o1' o2' H1 H2.
  apply transaction_inv in H1 as (? & ? & H1). apply transaction_inv in H2 as (? & ? & H2). by eapply Hm.
Qed.

(** *** An operation takes its statements from the front of the oracle *)
Definition consumes {A} (m : M S A) : Prop := forall s o, exists used, o = used ++ snd (m s o).

Lemma consumes_mret {A} (a : A) : consumes (mret a).
Proof. intros s o. by exists []. Qed.
Lemma consumes_mfail {A} e : consumes (@mfail S A e).
Proof. intros s o. by exists []. Qed.
Lemma consumes_mlift {A} (r : result error A) : consumes (@mlift S A r).
Proof. intros s o. exists []. by destruct r. Qed.
Lemma consumes_mbind {A B} (m : M S A) (k : A -> M S B) :
  consumes m -> (forall a, consumes (k a)) -> consumes (mbind m k).
Proof.
  intros Hm Hk s o. destruct (Hm s o) as [u Hu]. unfold mbind.
  destruct (m s o) as [[[a|e] s1] o1]; cbn [snd] in *; [|by exists u].
  destruct (Hk a s1 o1) as [v Hv]. exists (u ++ v). by rewrite <- app_assoc, <- Hv.
Qed.
Lemma consumes_stmt {A} c (f : S -> result fault (A * S)) : consumes (stmt c f).
Proof.
  intros s o. unfold stmt. destruct o as [|[e|] o]; cbn [tail]; [exists []|by exists [Some e]|exists [None]];
    by destruct (f s) as [[? ?]|].
Qed.
Lemma consumes_query {A} c (f : S -> A) : consumes (query c f).
Proof. apply consumes_stmt. Qed.
Lemma consumes_transaction {A} bc cc (m : M S A) : consumes m -> consumes (transaction bc cc m).
Proof.
  intros Hm s o. unfold transaction. destruct (consumes_stmt bc (fun s => Ok (tt, s)) s o) as [u Hu].
  destruct (stmt bc _ s o) as [[[] ?] o1]; cbn [snd] in Hu; [|by exists u]. destruct (Hm s o1) as [v Hv].
  destruct (m s o1) as [[[] s1] o2]; cbn [snd] in *; [|exists (u ++ v); by rewrite <- app_assoc, <- Hv].
  destruct (consumes_stmt cc (fun s => Ok (tt, s)) s1 o2) as [w Hw]. exists (u ++ v ++ w).
  rewrite <- !app_assoc. destruct (stmt cc _ s1 o2) as [[[] ?] o3]; cbn [snd] in *; by rewrite <- Hw, <- Hv.
Qed.
Lemma consumes_mmapi {A B} (f : Z -> A -> M S B) l : (forall i x, consumes (f i x)) -> forall i, consumes (mmapi i f l).
Proof.
  intros Hf. induction l as [|x l IH]; intros i; [apply consumes_mret|]. simpl.
  apply consumes_mbind; [apply Hf|]. intros y. apply consumes_mbind; [apply IH|]. intros ys. apply consumes_mret.
Qed.
Lemma consumes_miter {A} (f : A -> M S unit) l : (forall x, consumes (f x)) -> consumes (miter f l).
Proof.
  intros Hf. induction l as [|x l IH]; [apply consumes_mret|]. simpl. apply consumes_mbind; auto.
Qed.

(** A loop of operations: an invariant that relates each element to the final
    state through a property the later steps keep. *)
Lemma mmapi_Forall2 {A B} (I : S -> Prop) (R : S -> S -> Prop) (Q : Z -> A -> B -> S -> Prop)
    (f : Z -> A -> M S B) :
  Reflexive R -> Transitive R ->
  (forall i x y s s' o o', I s -> f i x s o = (Ok y, s', o') -> I s' /\ R s s' /\ Q i x y s') ->
  (forall i x y s s', Q i x y s -> R s s' -> I s' -> Q i x y s') ->
  forall l i ys s s' o o', I s -> mmapi i f l s o = (Ok ys, s', o') ->
    I s' /\ R s s' /\
    Forall2 (fun ix y => Q (fst ix) (snd ix) y s') (zip (map (fun n => i + Z.of_nat n) (seq 0 (length l))) l) ys.
Proof.
  intros HR HT Hf HQ. induction l as [|x l IH]; intros i ys s s' o o' HI H.
  - apply mret_inv in H as [-> ->]. split; [done|]. split; [done|]. constructor.
  - simpl in H. apply mbind_inv in H as (y & s1 & o1 & H1 & H).
    apply mbind_inv in H as (ys1 & s2 & o2 & H2 & H). apply mret_inv in H as [-> ->].
    destruct (Hf _ _ _ _ _ _ _ HI H1) as (HI1 & HR1 & HQ1).
    destruct (IH _ _ _ _ _ _ HI1 H2) as (HI2 & HR2 & HF).
    split; [done|]. split; [by etransitivity|]. simpl. constructor.
    + simpl. rewrite Z.add_0_r. by eapply HQ.
    + rewrite <- seq_shift, map_map.
      erewrite map_ext; [exact HF|]. intros n. simpl. lia.
Qed.
End Lemmas.

(** Takes apart a run [m s o = (Ok a, s', o')] built from binds. *)
Ltac inv_m H :=
  repeat (cbv beta zeta in H;
    lazymatch type of H with
    | mbind _ _ _ _ = (Ok _, _, _) =>
      let a := fresh "a" in let s := fresh "d" in let o := fresh "o" in let Ha := fresh "Hm" in
      apply mbind_inv in H; destruct H as (a & s & o & Ha & H)
    | mret _ _ _ = (Ok _, _, _) =>
      let E1 := fresh in let E2 := fresh in
      apply mret_inv in H; destruct H as [E1 E2]; try subst
    | mfail _ _ _ = (Ok _, _, _) => destruct (mfail_inv _ _ _ _ _ _ H)
    | mlift _ _ _ = (Ok _, _, _) =>
      let E2 := fresh in apply mlift_inv in H; destruct H as [H E2]; try subst
    | query _ _ _ _ = (Ok _, _, _) =>
      let E1 := fresh in let E2 := fresh in
      apply query_inv in H; destruct H as [E1 E2]; try subst
    | stmt _ _ _ _ = (Ok _, _, _) => apply stmt_inv in H
    end).

#[export] Hint Resolve determined_mret determined_mfail determined_mbind determined_stmt
  determined_transaction : monitor.
#[export] Hint Resolve preserves_mret preserves_mfail preserves_mbind preserves_mlift
  preserves_query preserves_transaction preserves_mmapi preserves_miter : monitor.
#[export] Hint Resolve consumes_mret consumes_mfail consumes_mlift consumes_mbind consumes_stmt consumes_query
  consumes_transaction consumes_mmapi consumes_miter : monitor.
