(* ===== verification/Schema.v ===== *)
(** * The rows and the database ([src/migrations])

    One record for the rows of each table, the [CHECK] constraints as boolean
    tests, and the database as the record of its tables.  A table with an
    [INTEGER PRIMARY KEY] is a list of numbered rows; a row is inserted at the
    end, under the id after the largest one in use. *)

From Stdlib Require Import ZArith Lia String Ascii.
From S2P Require Import Prelude GoStrings GoTime GoJson Sql.
Open Scope Z_scope.
Open Scope string_scope.
Open Scope list_scope.

(** ** Event status codes ([eventstore/event.go]) *)
Definition StatusAccepted : string := "accepted".
Definition StatusDuplicate : string := "duplicate".
Definition StatusRejected : string := "rejected".
Definition StatusConflict : string := "conflict".

(** ** Numbered rows *)
Record row (A : Type) := Row { rid : Z; rval : A }.
Arguments Row {A} rid rval.
Arguments rid {A} r.
Arguments rval {A} r.

Definition max_id {A} (t : list (row A)) : Z := foldr (fun r m => Z.max (rid r) m) 0 t.
Definition next_id {A} (t : list (row A)) : Z := max_id t + 1.
Definition insert_row {A} (x : A) (t : list (row A)) : list (row A) := t ++ [Row (next_id t) x].

(** Ids are positive and increase from row to row. *)
Definition ids_sorted {A} (t : list (row A)) : Prop :=
  StronglySorted Z.lt (map rid t) /\ Forall (fun r => 0 < rid r) t.

Lemma max_id_le {A} (t : list (row A)) : Forall (fun r => rid r <= max_id t) t.
Proof.
  induction t as [|r t IH]; constructor; simpl; [lia|].
  eapply Forall_impl; [exact IH|]. simpl. intros; lia.
Qed.
Lemma max_id_nonneg {A} (t : list (row A)) : 0 <= max_id t.
Proof. induction t; simpl; lia. Qed.

Lemma insert_row_sorted {A} (x : A) (t : list (row A)) : ids_sorted t -> ids_sorted (insert_row x t).
Proof.
  unfold ids_sorted, insert_row. intros [Hs Hp]. split.
  - rewrite map_app. simpl. pose proof (max_id_le t) as Hm. unfold next_id.
    generalize dependent (max_id t). intros m Hm. clear Hp. induction t as [|r t IH]; simpl in *.
    + repeat constructor.
    + apply StronglySorted_inv in Hs as [Hs Hr]. inversion Hm; subst.
      constructor; [by apply IH|]. apply Forall_app. split; [done|]. repeat constructor. lia.
  - apply Forall_app. split; [done|]. repeat constructor. simpl. unfold next_id.
    pose proof (max_id_nonneg t). lia.
Qed.

(** The first row a test selects, as [SELECT ... WHERE] on a unique key. *)
Definition select1 {A} (f : A -> bool) (t : list (row A)) : option (row A) :=
  find_first (fun r => f (rval r)) t.
(** [ORDER BY id DESC LIMIT 1]. *)
Definition select_last {A} (f : A -> bool) (t : list (row A)) : option (row A) :=
  find_last (fun r => f (rval r)) t.

(** ** Events and heartbeats *)
Record preparedEvent := PreparedEvent {
  pe_SchemaVersion : Z; pe_CollectorID : string; pe_EventType : string;
  pe_DeviceTimestampRaw : string; pe_DeviceTimeUTC : string; pe_ReceivedAtUTC : string;
  pe_ClockOffsetMS : Z; pe_ClockErrorMS : Z; pe_IdempotencyKey : string;
  pe_PayloadJSON : string; pe_PayloadHash : string; pe_ContentHash : string }.

Record preparedHeartbeat := PreparedHeartbeat {
  ph_SchemaVersion : Z; ph_CollectorID : string; ph_State : string;
  ph_DeviceStartRaw : string; ph_DeviceEndRaw : string;
  ph_DeviceStartUTC : string; ph_DeviceEndUTC : string; ph_ReceivedAtUTC : string;
  ph_CorrectedStartUTC : string; ph_CorrectedEndUTC : string;
  ph_ClockOffsetMS : Z; ph_ClockErrorMS : Z; ph_IdempotencyKey : string;
  ph_QualityFlagsJSON : string; ph_ContentHash : string }.

(** ** Media *)
Record MediaMetadata := MkMediaMetadata {
  mm_CollectorID : string; mm_SourceIdempotencyKey : string; mm_ManagedRelativePath : string;
  mm_DeviceStartRaw : string; mm_DeviceEndRaw : string;
  mm_DeviceStartUTC : string; mm_DeviceEndUTC : string; mm_ReceivedAtUTC : string;
  mm_ClockOffsetMS : Z; mm_ClockErrorMS : Z; mm_SizeBytes : Z; mm_DurationMS : Z;
  mm_CodecName : string; mm_FormatName : string; mm_MediaType : string;
  mm_SHA256 : string; mm_MetadataHash : string; mm_SidecarSchemaVersion : Z }.

(** An empty string or a zero id stands for NULL, as [nullableString] and
    [nullableInt64] write it and [sql.NullString] reads it. *)
Record MediaIngestEvent := MkMediaIngestEvent {
  mi_EventKey : string; mi_IngestKey : string; mi_CollectorID : string;
  mi_SourceIdempotencyKey : string; mi_SourceName : string; mi_SourceFingerprint : string;
  mi_Status : string; mi_TemporaryRelativePath : string; mi_MediaSegmentID : Z;
  mi_ErrorCode : string; mi_OccurredAtUTC : string }.

Record MediaStateEvent := MkMediaStateEvent {
  ms_EventKey : string; ms_MediaSegmentID : Z; ms_Status : string; ms_ReasonCode : string;
  ms_Producer : string; ms_OccurredAtUTC : string }.

Record MediaIngestStatus := MkMediaIngestStatus {
  is_IngestKey : string; is_LastEventID : Z; is_Status : string; is_ErrorCode : string;
  is_MediaSegmentID : Z; is_UpdatedAtUTC : string }.

Record MediaSegmentStatus := MkMediaSegmentStatus {
  ss_MediaSegmentID : Z; ss_LastStateEventID : Z; ss_Status : string; ss_ReasonCode : string;
  ss_UpdatedAtUTC : string }.

Record MediaFileCheck := MkMediaFileCheck {
  fc_IngestKey : string; fc_CheckKind : string; fc_Signature : string; fc_CheckedAtUTC : string }.

(** ** ActivityWatch, timeline and coverage *)
Record ActivityWatchCheckpoint := MkActivityWatchCheckpoint {
  ac_BucketID : string; ac_SourceTimeUTC : string; ac_SourceEventID : Z; ac_UpdatedAtUTC : string }.

Record timelineProjection := TimelineProjection {
  tp_StableID : string; tp_SourceType : string; tp_SourceID : Z; tp_CollectorID : string;
  tp_EventType : string; tp_DeviceStartRaw : string; tp_DeviceEndRaw : string;
  tp_DeviceStartUTC : string; tp_DeviceEndUTC : string; tp_ReceivedAtUTC : string;
  tp_CorrectedStartUTC : string; tp_CorrectedEndUTC : string;
  tp_ClockOffsetMS : Z; tp_ClockErrorMS : Z; tp_ClockUncertain : bool;
  tp_QualityFlagsJSON : string; tp_PayloadJSON : string; tp_SourceSchemaVersion : Z }.

Record CoverageIntervalRow := MkCoverageIntervalRow {
  ci_CollectorID : string; ci_StartUTC : string; ci_EndUTC : string; ci_Availability : string;
  ci_QualityFlagsJSON : string; ci_ReasonCode : string; ci_Generation : Z; ci_BuiltAtUTC : string }.

Record CoverageStateRow := MkCoverageStateRow {
  cs_CollectorID : string; cs_RangeStartUTC : string; cs_RangeEndUTC : string;
  cs_Generation : Z; cs_Status : string; cs_ErrorCode : option string;
  cs_FactWatermark : Z; cs_BuiltAtUTC : string }.

(** ** Operations *)
Record FaultEvent := MkFaultEvent {
  fe_Module : string; fe_Severity : string; fe_Status : string; fe_ErrorCode : string;
  fe_Detail : string; fe_OccurredAtUTC : string }.

Record ModuleStateEvent := MkModuleStateEvent {
  mo_Module : string; mo_Status : string; mo_ReasonCode : string; mo_OccurredAtUTC : string }.

Record ModeTransitionEvent := MkModeTransitionEvent {
  mt_OldMode : string; mt_NewMode : string; mt_Operator : string; mt_Trigger : string;
  mt_ReasonCode : string; mt_OccurredAtUTC : string }.

Record RetentionEvent := MkRetentionEvent {
  rt_MediaSegmentID : Z; rt_Status : string; rt_ReasonCode : string;
  rt_ManagedRelativePath : string; rt_OccurredAtUTC : string }.

(** ** The database *)
Record database := Database {
  raw_events : list (row preparedEvent);
  collector_heartbeats : list (row preparedHeartbeat);
  media_segments : list (row MediaMetadata);
  media_ingest_events : list (row MediaIngestEvent);
  media_segment_state_events : list (row MediaStateEvent);
  media_ingest_status : list MediaIngestStatus;
  media_segment_status : list MediaSegmentStatus;
  media_file_checks : list MediaFileCheck;
  activitywatch_checkpoints : list (string * ActivityWatchCheckpoint);
  timeline_entries : list (row timelineProjection);
  coverage_intervals : list (row CoverageIntervalRow);
  coverage_projection_state : list CoverageStateRow;
  fault_events : list (row (string * FaultEvent));
  module_state_events : list (row (string * ModuleStateEvent));
  mode_transition_events : list (row (string * ModeTransitionEvent));
  retention_events : list (row (string * RetentionEvent))
}.

Definition empty_database : database :=
  Database [] [] [] [] [] [] [] [] [] [] [] [] [] [] [] [].

(** Replacing one table. *)
Definition with_raw_events (d : database) (x : list (row preparedEvent)) : database :=
  Database x (collector_heartbeats d) (media_segments d) (media_ingest_events d)
    (media_segment_state_events d) (media_ingest_status d) (media_segment_status d)
    (media_file_checks d) (activitywatch_checkpoints d) (timeline_entries d)
    (coverage_intervals d) (coverage_projection_state d) (fault_events d)
    (module_state_events d) (mode_transition_events d) (retention_events d).
Definition with_collector_heartbeats (d : database) (x : list (row preparedHeartbeat)) : database :=
  Database (raw_events d) x (media_segments d) (media_ingest_events d)
    (media_segment_state_events d) (media_ingest_status d) (media_segment_status d)
    (media_file_checks d) (activitywatch_checkpoints d) (timeline_entries d)
    (coverage_intervals d) (coverage_projection_state d) (fault_events d)
    (module_state_events d) (mode_transition_events d) (retention_events d).
Definition with_media_segments (d : database) (x : list (row MediaMetadata)) : database :=
  Database (raw_events d) (collector_heartbeats d) x (media_ingest_events d)
    (media_segment_state_events d) (media_ingest_status d) (media_segment_status d)
    (media_file_checks d) (activitywatch_checkpoints d) (timeline_entries d)
    (coverage_intervals d) (coverage_projection_state d) (fault_events d)
    (module_state_events d) (mode_transition_events d) (retention_events d).
Definition with_media_ingest_events (d : database) (x : list (row MediaIngestEvent)) : database :=
  Database (raw_events d) (collector_heartbeats d) (media_segments d) x
    (media_segment_state_events d) (media_ingest_status d) (media_segment_status d)
    (media_file_checks d) (activitywatch_checkpoints d) (timeline_entries d)
    (coverage_intervals d) (coverage_projection_state d) (fault_events d)
    (module_state_events d) (mode_transition_events d) (retention_events d).
Definition with_media_segment_state_events (d : database) (x : list (row MediaStateEvent)) : database :=
  Database (raw_events d) (collector_heartbeats d) (media_segments d) (media_ingest_events
    d) x (media_ingest_status d) (media_segment_status d) (media_file_checks d)
    (activitywatch_checkpoints d) (timeline_entries d) (coverage_intervals d)
    (coverage_projection_state d) (fault_events d) (module_state_events d)
    (mode_transition_events d) (retention_events d).
Definition with_media_ingest_status (d : database) (x : list MediaIngestStatus) : database :=
  Database (raw_events d) (collector_heartbeats d) (media_segments d) (media_ingest_events
    d) (media_segment_state_events d) x (media_segment_status d) (media_file_checks d)
    (activitywatch_checkpoints d) (timeline_entries d) (coverage_intervals d)
    (coverage_projection_state d) (fault_events d) (module_state_events d)
    (mode_transition_events d) (retention_events d).
Definition with_media_segment_status (d : database) (x : list MediaSegmentStatus) : database :=
  Database (raw_events d) (collector_heartbeats d) (media_segments d) (media_ingest_events
    d) (media_segment_state_events d) (media_ingest_status d) x (media_file_checks d)
    (activitywatch_checkpoints d) (timeline_entries d) (coverage_intervals d)
    (coverage_projection_state d) (fault_events d) (module_state_events d)
    (mode_transition_events d) (retention_events d).
Definition with_media_file_checks (d : database) (x : list MediaFileCheck) : database :=
  Database (raw_events d) (collector_heartbeats d) (media_segments d) (media_ingest_events
    d) (media_segment_state_events d) (media_ingest_status d) (media_segment_status d) x
    (activitywatch_checkpoints d) (timeline_entries d) (coverage_intervals d)
    (coverage_projection_state d) (fault_events d) (module_state_events d)
    (mode_transition_events d) (retention_events d).
Definition with_activitywatch_checkpoints (d : database) (x : list (string * ActivityWatchCheckpoint)) : database :=
  Database (raw_events d) (collector_heartbeats d) (media_segments d) (media_ingest_events
    d) (media_segment_state_events d) (media_ingest_status d) (media_segment_status d)
    (media_file_checks d) x (timeline_entries d) (coverage_intervals d)
    (coverage_projection_state d) (fault_events d) (module_state_events d)
    (mode_transition_events d) (retention_events d).
Definition with_timeline_entries (d : database) (x : list (row timelineProjection)) : database :=
  Database (raw_events d) (collector_heartbeats d) (media_segments d) (media_ingest_events
    d) (media_segment_state_events d) (media_ingest_status d) (media_segment_status d)
    (media_file_checks d) (activitywatch_checkpoints d) x (coverage_intervals d)
    (coverage_projection_state d) (fault_events d) (module_state_events d)
    (mode_transition_events d) (retention_events d).
Definition with_coverage_intervals (d : database) (x : list (row CoverageIntervalRow)) : database :=
  Database (raw_events d) (collector_heartbeats d) (media_segments d) (media_ingest_events
    d) (media_segment_state_events d) (media_ingest_status d) (media_segment_status d)
    (media_file_checks d) (activitywatch_checkpoints d) (timeline_entries d) x
    (coverage_projection_state d) (fault_events d) (module_state_events d)
    (mode_transition_events d) (retention_events d).
Definition with_coverage_projection_state (d : database) (x : list CoverageStateRow) : database :=
  Database (raw_events d) (collector_heartbeats d) (media_segments d) (media_ingest_events
    d) (media_segment_state_events d) (media_ingest_status d) (media_segment_status d)
    (media_file_checks d) (activitywatch_checkpoints d) (timeline_entries d)
    (coverage_intervals d) x (fault_events d) (module_state_events d)
    (mode_transition_events d) (retention_events d).
Definition with_fault_events (d : database) (x : list (row (string * FaultEvent))) : database :=
  Database (raw_events d) (collector_heartbeats d) (media_segments d) (media_ingest_events
    d) (media_segment_state_events d) (media_ingest_status d) (media_segment_status d)
    (media_file_checks d) (activitywatch_checkpoints d) (timeline_entries d)
    (coverage_intervals d) (coverage_projection_state d) x (module_state_events d)
    (mode_transition_events d) (retention_events d).
Definition with_module_state_events (d : database) (x : list (row (string * ModuleStateEvent))) : database :=
  Database (raw_events d) (collector_heartbeats d) (media_segments d) (media_ingest_events
    d) (media_segment_state_events d) (media_ingest_status d) (media_segment_status d)
    (media_file_checks d) (activitywatch_checkpoints d) (timeline_entries d)
    (coverage_intervals d) (coverage_projection_state d) (fault_events d) x
    (mode_transition_events d) (retention_events d).
Definition with_mode_transition_events (d : database) (x : list (row (string * ModeTransitionEvent))) : database :=
  Database (raw_events d) (collector_heartbeats d) (media_segments d) (media_ingest_events
    d) (media_segment_state_events d) (media_ingest_status d) (media_segment_status d)
    (media_file_checks d) (activitywatch_checkpoints d) (timeline_entries d)
    (coverage_intervals d) (coverage_projection_state d) (fault_events d)
    (module_state_events d) x (retention_events d).
Definition with_retention_events (d : database) (x : list (row (string * RetentionEvent))) : database :=
  Database (raw_events d) (collector_heartbeats d) (media_segments d) (media_ingest_events
    d) (media_segment_state_events d) (media_ingest_status d) (media_segment_status d)
    (media_file_checks d) (activitywatch_checkpoints d) (timeline_entries d)
    (coverage_intervals d) (coverage_projection_state d) (fault_events d)
    (module_state_events d) (mode_transition_events d) x.

(** ** CHECK constraints *)
Definition one_of (l : list string) (s : string) : bool := existsb (String.eqb s) l.

Section Checks.
Context `{SqliteJson}.

Definition json_array (s : string) : bool := json_valid s && String.eqb (json_type s) "array".

Definition check_raw_event (e : preparedEvent) : bool :=
  text_between 1 128 (pe_CollectorID e) && text_between 1 128 (pe_EventType e)
  && text_between 1 128 (pe_DeviceTimestampRaw e) && text_between 20 35 (pe_DeviceTimeUTC e)
  && text_between 20 35 (pe_ReceivedAtUTC e) && (0 <=? pe_ClockErrorMS e)%Z
  && text_between 1 256 (pe_IdempotencyKey e) && json_valid (pe_PayloadJSON e)
  && text_between 64 64 (pe_PayloadHash e) && text_between 64 64 (pe_ContentHash e)
  && (0 <? pe_SchemaVersion e)%Z.

Definition check_heartbeat (h : preparedHeartbeat) : bool :=
  text_between 1 128 (ph_CollectorID h) && text_between 1 256 (ph_IdempotencyKey h)
  && one_of ["active"; "idle"] (ph_State h)
  && text_between 1 128 (ph_DeviceStartRaw h) && text_between 1 128 (ph_DeviceEndRaw h)
  && text_between 20 35 (ph_DeviceStartUTC h) && text_between 20 35 (ph_DeviceEndUTC h)
  && text_between 20 35 (ph_ReceivedAtUTC h)
  && text_between 30 30 (ph_CorrectedStartUTC h) && text_between 30 30 (ph_CorrectedEndUTC h)
  && (0 <=? ph_ClockErrorMS h)%Z && json_array (ph_QualityFlagsJSON h)
  && text_between 64 64 (ph_ContentHash h) && (0 <? ph_SchemaVersion h)%Z.

Definition check_media_segment (m : MediaMetadata) : bool :=
  text_between 1 128 (mm_CollectorID m) && text_between 1 256 (mm_SourceIdempotencyKey m)
  && text_between 1 512 (mm_ManagedRelativePath m)
  && text_between 1 128 (mm_DeviceStartRaw m) && text_between 1 128 (mm_DeviceEndRaw m)
  && text_between 20 35 (mm_DeviceStartUTC m) && text_between 20 35 (mm_DeviceEndUTC m)
  && text_between 20 35 (mm_ReceivedAtUTC m) && (0 <=? mm_ClockErrorMS m)%Z
  && (0 <? mm_SizeBytes m)%Z && (0 <? mm_DurationMS m)%Z
  && text_between 1 128 (mm_CodecName m) && text_between 1 128 (mm_FormatName m)
  && String.eqb (mm_MediaType m) "video" && text_between 64 64 (mm_SHA256 m)
  && text_between 64 64 (mm_MetadataHash m) && (0 <? mm_SidecarSchemaVersion m)%Z.

Definition null_or (f : string -> bool) (s : string) : bool := String.eqb s "" || f s.

Definition check_media_ingest_event (e : MediaIngestEvent) : bool :=
  text_between 64 64 (mi_EventKey e) && text_between 64 64 (mi_IngestKey e)
  && null_or (text_between 1 128) (mi_CollectorID e)
  && null_or (text_between 1 256) (mi_SourceIdempotencyKey e)
  && text_between 1 512 (mi_SourceName e) && text_between 64 64 (mi_SourceFingerprint e)
  && one_of ["discovered"; "pending"; "validated"; "quarantined"; "accepted"; "failed"] (mi_Status e)
  && null_or (text_between 1 512) (mi_TemporaryRelativePath e)
  && null_or (text_between 1 128) (mi_ErrorCode e).

Definition check_media_state (e : MediaStateEvent) : bool :=
  text_between 64 64 (ms_EventKey e)
  && one_of ["accepted"; "missing"; "restored"; "retention_deleted"] (ms_Status e)
  && null_or (text_between 1 128) (ms_ReasonCode e) && text_between 1 128 (ms_Producer e).

Definition check_media_file_check (c : MediaFileCheck) : bool :=
  text_between 64 64 (fc_IngestKey c) && one_of ["confirmed"; "quarantined"] (fc_CheckKind c)
  && text_between 64 64 (fc_Signature c).

Definition check_activitywatch_checkpoint (id : string) (c : ActivityWatchCheckpoint) : bool :=
  text_between 1 128 id && text_between 1 256 (ac_BucketID c)
  && text_between 30 30 (ac_SourceTimeUTC c) && (0 <=? ac_SourceEventID c)%Z
  && text_between 30 30 (ac_UpdatedAtUTC c).

Definition check_coverage_interval (i : CoverageIntervalRow) : bool :=
  text_between 1 128 (ci_CollectorID i) && text_between 30 30 (ci_StartUTC i)
  && text_between 30 30 (ci_EndUTC i)
  && one_of ["covered"; "confirmed_idle"; "pending"; "delayed"; "offline"; "unknown"] (ci_Availability i)
  && json_array (ci_QualityFlagsJSON i) && text_between 1 128 (ci_ReasonCode i)
  && (0 <? ci_Generation i)%Z && text_between 30 30 (ci_BuiltAtUTC i)
  && String.ltb (ci_StartUTC i) (ci_EndUTC i).

Definition check_coverage_state (s : CoverageStateRow) : bool :=
  text_between 1 128 (cs_CollectorID s) && text_between 30 30 (cs_RangeStartUTC s)
  && text_between 30 30 (cs_RangeEndUTC s) && (0 <? cs_Generation s)%Z
  && one_of ["fresh"; "stale"] (cs_Status s) && (0 <=? cs_FactWatermark s)%Z
  && text_between 30 30 (cs_BuiltAtUTC s) && String.ltb (cs_RangeStartUTC s) (cs_RangeEndUTC s).

Definition check_fault_event (key : string) (e : FaultEvent) : bool :=
  text_between 64 64 key && text_between 1 128 (fe_Module e)
  && one_of ["P0"; "P1"; "P2"; "P3"] (fe_Severity e)
  && one_of ["active"; "recovered"; "degraded"; "disabled"] (fe_Status e)
  && text_between 1 128 (fe_ErrorCode e) && text_between 1 1024 (fe_Detail e)
  && text_between 20 35 (fe_OccurredAtUTC e).

Definition check_module_state (key : string) (e : ModuleStateEvent) : bool :=
  text_between 64 64 key && text_between 1 128 (mo_Module e)
  && one_of ["healthy"; "degraded"; "disabled"; "unavailable"] (mo_Status e)
  && text_between 1 128 (mo_ReasonCode e) && text_between 20 35 (mo_OccurredAtUTC e).

Definition check_mode_transition (key : string) (e : ModeTransitionEvent) : bool :=
  text_between 64 64 key && one_of ["unknown"; "record-only"; "minimum"] (mt_OldMode e)
  && one_of ["record-only"; "minimum"] (mt_NewMode e) && text_between 1 128 (mt_Operator e)
  && text_between 1 128 (mt_Trigger e) && text_between 1 128 (mt_ReasonCode e)
  && text_between 20 35 (mt_OccurredAtUTC e).

Definition check_retention_event (key : string) (e : RetentionEvent) : bool :=
  text_between 64 64 key && one_of ["planned"; "deleted"; "failed"] (rt_Status e)
  && text_between 1 128 (rt_ReasonCode e) && text_between 1 512 (rt_ManagedRelativePath e)
  && text_between 20 35 (rt_OccurredAtUTC e).
End Checks.
