(* ===== verification/Keyed.v ===== *)
(** * Idempotent batches

    [AppendBatch] and [AppendHeartbeatBatch] are the same procedure on two
    tables: validate every candidate, then, in one transaction, insert the valid
    ones under a unique key and report accepted, duplicate or conflict.  The file
    models it once, over an interface to the table, and proves what it promises;
    [Events] and [Heartbeats] supply the tables. *)

From Stdlib Require Import ZArith Lia String Ascii.
From S2P Require Import Prelude GoStrings GoTime GoJson Sql Schema.
Open Scope Z_scope.
Open Scope string_scope.
Open Scope list_scope.
Open Scope result_scope.
Open Scope db_scope.

Record WriteResult := MkWriteResult {
  wr_Index : Z; wr_Status : string; wr_EventID : Z; wr_ErrorCode : string }.

(** A table with the unique key (collector_id, idempotency_key), a content hash,
    its CHECK constraints and the code it reports for a conflict. *)
Record keyed_table (A : Type) := KeyedTable {
  k_rows : database -> list (row A);
  k_with : database -> list (row A) -> database;
  k_key : A -> string * string;
  k_hash : A -> string;
  k_check : A -> bool;
  k_conflict : string }.
Arguments k_rows {A} _ _.
Arguments k_with {A} _ _ _.
Arguments k_key {A} _ _.
Arguments k_hash {A} _ _.
Arguments k_check {A} _ _.
Arguments k_conflict {A} _.

(** The table is a field of the database. *)
Class KeyedLaws {A} (T : keyed_table A) := {
  k_rows_with : forall d t, k_rows T (k_with T d t) = t;
  k_with_with : forall d t u, k_with T (k_with T d t) u = k_with T d u;
  k_with_rows : forall d, k_with T d (k_rows T d) = d }.

Section Append.
Context {A : Type} (T : keyed_table A).

Definition same_key (item e : A) : bool := bool_decide (k_key T e = k_key T item).

(** [INSERT ... ON CONFLICT(collector_id, idempotency_key) DO NOTHING]: the id
    of the new row, or [None] where no row was affected. *)
Definition insert_keyed (item : A) (d : database) : result fault (option Z * database) :=
  if negb (k_check T item) then Err constraint_fault
  else match select1 (same_key item) (k_rows T d) with
       | Some _ => Ok (None, d)
       | None => Ok (Some (next_id (k_rows T d)), k_with T d (insert_row item (k_rows T d)))
       end.

Definition append_keyed (index : Z) (item : A) : M database WriteResult :=
  let* affected := stmt CodeWriteFailed (insert_keyed item) in
  match affected with
  | Some id => mret (MkWriteResult index StatusAccepted id "")
  | None =>
    let* found := stmt CodeWriteFailed (fun d =>
      match select1 (same_key item) (k_rows T d) with
      | Some r => Ok (r, d)
      | None => Err OtherFault   (* sql.ErrNoRows *)
      end) in
    if String.eqb (k_hash T (rval found)) (k_hash T item)
    then mret (MkWriteResult index StatusDuplicate (rid found) "")
    else mret (MkWriteResult index StatusConflict (rid found) (k_conflict T))
  end.

(** One slot per candidate: the code of a rejected one, or the prepared item. *)
Definition prepare_slot (prepare : string -> result error A) (raw : string)
    : result error (string + A) :=
  match prepare raw with
  | Ok item => Ok (inr item)
  | Err (ValidationError code) => Ok (inl code)
  | Err e => Err e
  end.

Fixpoint prepare_all (prepare : string -> result error A) (candidates : list string)
    : result error (list (string + A)) :=
  match candidates with
  | [] => Ok []
  | raw :: rest =>
    let? slot := prepare_slot prepare raw in
    let? slots := prepare_all prepare rest in Ok (slot :: slots)
  end.

Definition is_valid_slot (slot : string + A) : bool :=
  match slot with inr _ => true | inl _ => false end.

Definition append_slot (index : Z) (slot : string + A) : M database WriteResult :=
  match slot with
  | inl code => mret (MkWriteResult index StatusRejected 0 code)
  | inr item => append_keyed index item
  end.

Definition append_batch (maxItems : Z) (emptyCode largeCode : string)
    (prepare : string -> result error A) (candidates : list string)
    : M database (list WriteResult) :=
  if (Z.of_nat (length candidates) =? 0)%Z then mfail (ValidationError emptyCode)
  else if (maxItems <? Z.of_nat (length candidates))%Z then mfail (ValidationError largeCode)
  else
    let* slots := mlift (prepare_all prepare candidates) in
    if existsb is_valid_slot slots then
      transaction CodeWriteFailed CodeWriteFailed (mmapi 0 append_slot slots)
    else mmapi 0 append_slot slots.
End Append.

(** ** Lookups *)
Lemma select1_Some {A} (f : A -> bool) (t : list (row A)) r :
  select1 f t = Some r -> r ∈ t /\ f (rval r) = true.
Proof. apply (find_first_Some (fun r => f (rval r))). Qed.

Lemma select1_None {A} (f : A -> bool) (t : list (row A)) :
  select1 f t = None <-> forall r, r ∈ t -> f (rval r) = false.
Proof. apply (find_first_None (fun r => f (rval r))). Qed.

(** Under a unique index a key selects the row that has it. *)
Lemma select1_unique {A K} (key : A -> K) (f : A -> bool) (t : list (row A)) r :
  NoDup (map (fun r => key (rval r)) t) ->
  (forall x, f (rval x) = true <-> key (rval x) = key (rval r)) ->
  r ∈ t -> select1 f t = Some r.
Proof.
  intros HN Hf. induction t as [|x t IH]; intros Hr; [by apply elem_of_nil in Hr|].
  simpl in HN. apply NoDup_cons in HN as [Hx HN]. unfold select1. simpl.
  apply elem_of_cons in Hr as [->|Hr].
  - by rewrite (proj2 (Hf x)).
  - destruct (f (rval x)) eqn:E; [|by apply IH].
    apply Hf in E. exfalso. apply Hx. rewrite E. apply list_elem_of_fmap. by exists r.
Qed.

(** ** What the procedure promises *)
Section Proofs.
Context {A : Type} (T : keyed_table A) `{!KeyedLaws T}.

(** The unique index, and ids in order. *)
Definition table_ok (d : database) : Prop :=
  NoDup (map (fun r => k_key T (rval r)) (k_rows T d)) /\ ids_sorted (k_rows T d).

(** Only rows of the table were added. *)
Definition extends (d d' : database) : Prop :=
  exists rows, d' = k_with T d (k_rows T d ++ rows).

#[export] Instance extends_refl : Reflexive extends.
Proof. intros d. exists []. by rewrite app_nil_r, k_with_rows. Qed.
#[export] Instance extends_trans : Transitive extends.
Proof.
  intros d1 d2 d3 [r1 ->] [r2 ->]. exists (r1 ++ r2).
  by rewrite app_assoc, k_rows_with, k_with_with.
Qed.

(** What the result of one slot says about the table. *)
Definition slot_result (d0 : database) (index : Z) (slot : string + A)
    (res : WriteResult) (d : database) : Prop :=
  wr_Index res = index /\
  match slot with
  | inl code => res = MkWriteResult index StatusRejected 0 code
  | inr item =>
    exists r, r ∈ k_rows T d /\ rid r = wr_EventID res /\ k_key T (rval r) = k_key T item /\
    ((wr_Status res = StatusAccepted /\ wr_ErrorCode res = "" /\ rval r = item /\
        forall r0, r0 ∈ k_rows T d0 -> k_key T (rval r0) <> k_key T item) \/
     (wr_Status res = StatusDuplicate /\ wr_ErrorCode res = "" /\
        k_hash T (rval r) = k_hash T item) \/
     (wr_Status res = StatusConflict /\ wr_ErrorCode res = k_conflict T /\
        k_hash T (rval r) <> k_hash T item))
  end.

Lemma same_key_true item e : same_key T item e = true <-> k_key T e = k_key T item.
Proof. unfold same_key. by rewrite bool_decide_eq_true. Qed.

Lemma insert_keyed_ok item d a d' :
  table_ok d -> insert_keyed T item d = Ok (a, d') ->
  table_ok d' /\ extends d d' /\
  match a with
  | Some id => Row id item ∈ k_rows T d' /\ select1 (same_key T item) (k_rows T d) = None
  | None => d' = d /\ exists r, select1 (same_key T item) (k_rows T d) = Some r
  end.
Proof.
  unfold insert_keyed. intros Hok. destruct (k_check T item); [|done]. simpl.
  destruct (select1 (same_key T item) (k_rows T d)) as [r|] eqn:E; intros [= <- <-].
  - split; [done|]. split; [done|]. eauto.
  - split; [|split; [by eexists|]].
    + destruct Hok as [HN Hs]. split; [|rewrite k_rows_with; by apply insert_row_sorted].
      rewrite k_rows_with. unfold insert_row. rewrite map_app. apply NoDup_app. split; [done|].
      split; [|simpl; apply NoDup_singleton]. intros k Hk Hk2. simpl in Hk2. apply list_elem_of_singleton in Hk2.
      apply list_elem_of_fmap in Hk as (r & -> & Hr).
      apply (proj1 (select1_None _ _) E) in Hr. by rewrite (proj2 (same_key_true item (rval r))) in Hr.
    + split; [|done]. rewrite k_rows_with. unfold insert_row. apply elem_of_app. right. left.
Qed.

Lemma append_slot_ok d0 i slot res d d' o o' :
  extends d0 d -> table_ok d -> append_slot T i slot d o = (Ok res, d', o') ->
  table_ok d' /\ extends d d' /\ slot_result d0 i slot res d'.
Proof.
  intros H0 Hok Hrun. destruct slot as [code|item]; simpl in Hrun.
  { inv_m Hrun. split; [done|]. split; [reflexivity|]. by split. }
  unfold append_keyed in Hrun. inv_m Hrun.
  apply stmt_inv in Hm. apply (insert_keyed_ok _ _ _ _ Hok) in Hm as (Hok1 & He & Ha). destruct a as [id|]; inv_m Hrun.
  - destruct Ha as [Hin Hnone]. split; [done|]. split; [done|]. split; [done|].
    exists (Row id item). split; [done|]. split; [done|]. split; [done|]. left.
    split; [done|]. split; [done|]. split; [done|].
    intros r0 Hr0 Hk. destruct H0 as [rows ->]. rewrite k_rows_with in Hnone.
    apply (proj1 (select1_None _ _)) with (r := r0) in Hnone; [|apply elem_of_app; by left].
    by rewrite (proj2 (same_key_true item (rval r0))) in Hnone.
  - destruct Ha as (-> & r & Hr). apply stmt_inv in Hm. rewrite Hr in Hm. injection Hm as <- <-.
    apply select1_Some in Hr as [Hin Hk]. apply same_key_true in Hk.
    destruct (String.eqb_spec (k_hash T (rval r)) (k_hash T item)); inv_m Hrun;
      (split; [done|]; split; [done|]; split; [done|]; exists r;
       split; [done|]; split; [done|]; split; [done|]; right);
      [left|right]; done.
Qed.

Lemma slot_result_mono d0 i slot res d d' :
  slot_result d0 i slot res d -> extends d d' -> slot_result d0 i slot res d'.
Proof.
  intros [Hi Hs] [rows ->]. split; [done|]. destruct slot as [code|item]; [done|].
  destruct Hs as (r & Hr & Hs). exists r. split; [|done]. rewrite k_rows_with. apply elem_of_app. by left.
Qed.

Lemma append_batch_inv mx c1 c2 prep cs d o rs d' o' :
  append_batch T mx c1 c2 prep cs d o = (Ok rs, d', o') ->
  exists slots o1 o2, prepare_all prep cs = Ok slots /\
    mmapi 0 (append_slot T) slots d o1 = (Ok rs, d', o2).
Proof.
  unfold append_batch. case_match; [done|]. case_match; [done|]. intros Hr. inv_m Hr.
  apply mlift_inv in Hm as [Hm ->]. case_match.
  - apply transaction_inv in Hr as (o2 & o3 & Hr). eauto 6.
  - eauto 6.
Qed.

Definition indexed {B} (l : list B) : list (Z * B) :=
  zip (map (fun n => 0 + Z.of_nat n)%Z (seq 0 (length l))) l.

Lemma append_slots_ok d0 slots rs d' o o' :
  table_ok d0 -> mmapi 0 (append_slot T) slots d0 o = (Ok rs, d', o') ->
  table_ok d' /\ extends d0 d' /\
  Forall2 (fun ix res => slot_result d0 (fst ix) (snd ix) res d') (indexed slots) rs.
Proof.
  intros Hok Hr.
  apply (mmapi_Forall2 (fun d => table_ok d /\ extends d0 d) extends
    (slot_result d0)) in Hr.
  - destruct Hr as ((? & ?) & _ & ?). done.
  - apply _.
  - apply _.
  - intros i x y s s' o1 o1' [Hs He] Hx.
    destruct (append_slot_ok _ _ _ _ _ _ _ _ He Hs Hx) as (? & ? & ?).
    split; [split; [done|by etransitivity]|done].
  - intros i x y s s' Hq He _. by eapply slot_result_mono.
  - split; [done|reflexivity].
Qed.
Definition same_slot (s1 s2 : string + A) : Prop :=
match s1, s2 with
| inl c1, inl c2 => c1 = c2
| inr e1, inr e2 => k_key T e1 = k_key T e2 /\ k_hash T e1 = k_hash T e2
| _, _ => False
end.

(** Two preparations that agree on what the table compares. *)
Definition same_prepare (p1 p2 : string -> result error A) : Prop := forall raw,
  match p1 raw, p2 raw with
  | Ok e1, Ok e2 => k_key T e1 = k_key T e2 /\ k_hash T e1 = k_hash T e2
  | Err e1, Err e2 => e1 = e2
  | _, _ => False
  end.

Lemma prepare_all_same p1 p2 cs slots1 slots2 : same_prepare p1 p2 ->
  prepare_all p1 cs = Ok slots1 -> prepare_all p2 cs = Ok slots2 ->
  Forall2 same_slot slots1 slots2.
Proof.
  intros Hp. revert slots1 slots2. induction cs as [|raw cs IH]; intros slots1 slots2 H1 H2; simpl in *.
  - by simplify_eq.
  - apply rbind_Ok in H1 as (s1 & E1 & H1). apply rbind_Ok in H1 as (ss1 & E1' & H1).
    apply rbind_Ok in H2 as (s2 & E2 & H2). apply rbind_Ok in H2 as (ss2 & E2' & H2).
    simplify_eq. constructor; [|by apply IH].
    unfold prepare_slot in E1, E2. specialize (Hp raw).
    destruct (p1 raw) as [e1|[c1|c1]], (p2 raw) as [e2|[c2|c2]]; simpl in *; simplify_eq; done.
Qed.

Definition retry_of (res : WriteResult) : WriteResult :=
  MkWriteResult (wr_Index res)
    (if String.eqb (wr_Status res) StatusAccepted then StatusDuplicate else wr_Status res)
    (wr_EventID res) (wr_ErrorCode res).

Lemma append_slot_again d0 i slot1 slot2 res1 res2 d d2 o o2 :
  table_ok d -> slot_result d0 i slot1 res1 d -> same_slot slot1 slot2 ->
  append_slot T i slot2 d o = (Ok res2, d2, o2) -> d2 = d /\ res2 = retry_of res1.
Proof.
  intros Hok [Hi Hs] Hsame Hr.
  destruct slot1 as [c1|e1], slot2 as [c2|e2]; simpl in Hsame; try done.
  { simpl in Hr. inv_m Hr. by rewrite Hs. }
  destruct Hsame as [Hk Hh]. destruct Hs as (r & Hin & Hid & Hkey & Hs).
  assert (Hsel : select1 (same_key T e2) (k_rows T d) = Some r).
  { apply (select1_unique (k_key T)); [apply Hok| |done].
    intros x. rewrite same_key_true, Hkey, Hk. done. }
  simpl in Hr. unfold append_keyed in Hr. inv_m Hr. apply stmt_inv in Hm.
  unfold insert_keyed in Hm. rewrite Hsel in Hm.
  destruct (k_check T e2); [|done]. simpl in Hm. injection Hm as <- <-.
  inv_m Hr. apply stmt_inv in Hm. rewrite Hsel in Hm. injection Hm as <- <-.
  destruct res1 as [i1 st1 id1 ec1]; cbn in *; subst i1 id1. unfold retry_of; cbn.
  destruct Hs as [(-> & -> & Hv & _)|[(-> & -> & Hv)|(-> & -> & Hv)]].
  - rewrite Hv, Hh, String.eqb_refl in Hr. by inv_m Hr.
  - rewrite Hv, Hh, String.eqb_refl in Hr. by inv_m Hr.
  - rewrite <- Hh in Hr. destruct (String.eqb_spec (k_hash T (rval r)) (k_hash T e1)); [done|].
    by inv_m Hr.
Qed.

Lemma append_slots_again d0 d slots1 slots2 rs1 : forall i rs2 d2 o o2,
  table_ok d ->
  Forall2 (fun ix res => slot_result d0 (fst ix) (snd ix) res d)
    (zip (map (fun n => i + Z.of_nat n)%Z (seq 0 (length slots1))) slots1) rs1 ->
  Forall2 same_slot slots1 slots2 ->
  mmapi i (append_slot T) slots2 d o = (Ok rs2, d2, o2) -> d2 = d /\ rs2 = map retry_of rs1.
Proof.
  intros i rs2 d2 o o2 Hok Hf Hsame. revert i rs1 rs2 d2 o o2 Hf.
  induction Hsame as [|s1 s2 l1 l2 H1 Hl IH]; intros i rs1 rs2 d2 o o2 Hf Hr.
  - simpl in Hf. inversion Hf; subst. simpl in Hr. by inv_m Hr.
  - simpl in Hf. inversion Hf as [|? res ? rs Hq Hf']; subst. simpl in Hr, Hq.
    apply mbind_inv in Hr as (y & s' & o1 & Hm & Hr).
    apply mbind_inv in Hr as (ys & s'' & o3 & Hm2 & Hr). apply mret_inv in Hr as [-> ->].
    rewrite Z.add_0_r in Hq.
    destruct (append_slot_again _ _ _ _ _ _ _ _ _ _ Hok Hq H1 Hm) as [-> ->].
    destruct (IH (i + 1)%Z rs ys s'' o1 o3) as [-> ->]; [|done|done].
    rewrite <- seq_shift, map_map in Hf'.
    erewrite map_ext; [exact Hf'|]. intros n. simpl. lia.
Qed.


Lemma append_batch_correct mx c1 c2 prep cs d o rs d' o' :
  table_ok d -> append_batch T mx c1 c2 prep cs d o = (Ok rs, d', o') ->
  table_ok d' /\ extends d d' /\
  exists slots, prepare_all prep cs = Ok slots /\
    Forall2 (fun ix res => slot_result d (fst ix) (snd ix) res d') (indexed slots) rs.
Proof.
  intros Hok Hrun.
  destruct (append_batch_inv _ _ _ _ _ _ _ _ _ _ Hrun) as (slots & o1 & o2 & Hp & Hr).
  destruct (append_slots_ok _ _ _ _ _ _ Hok Hr) as (? & ? & ?). eauto.
Qed.

Lemma append_batch_retry mx c1 c2 p1 p2 cs d o rs1 d1 o1 o2 rs2 d2 o3 :
  same_prepare p1 p2 -> table_ok d ->
  append_batch T mx c1 c2 p1 cs d o = (Ok rs1, d1, o1) ->
  append_batch T mx c1 c2 p2 cs d1 o2 = (Ok rs2, d2, o3) ->
  d2 = d1 /\ rs2 = map retry_of rs1.
Proof.
  intros Hp Hok Hfirst Hagain.
  destruct (append_batch_inv _ _ _ _ _ _ _ _ _ _ Hfirst) as (slots1 & oa & ob & Hp1 & Hr1).
  destruct (append_batch_inv _ _ _ _ _ _ _ _ _ _ Hagain) as (slots2 & oc & od & Hp2 & Hr2).
  destruct (append_slots_ok _ _ _ _ _ _ Hok Hr1) as (Hok1 & _ & Hf).
  eapply append_slots_again; [exact Hok1|exact Hf| |exact Hr2].
  by eapply prepare_all_same.
Qed.

Lemma append_batch_atomic mx c1 c2 prep cs d o e d' o' :
  append_batch T mx c1 c2 prep cs d o = (Err e, d', o') -> d' = d.
Proof.
  intros Hrun. unfold append_batch in Hrun.
  case_match; [by injection Hrun|]. case_match; [by injection Hrun|].
  unfold mbind in Hrun.
  destruct (prepare_all prep cs) as [slots|]; simpl in Hrun; [|by injection Hrun].
  destruct (existsb is_valid_slot slots) eqn:Ev; [by eapply transaction_err|]. clear -Hrun Ev.
  enough (forall i o, exists rs, mmapi i (append_slot T) slots d o = (Ok rs, d, o)) as Hno
    by (destruct (Hno 0%Z o) as [rs Hno']; rewrite Hno' in Hrun; done).
  clear Hrun. induction slots as [|[c|x] slots IH]; intros i o1; simpl in *; [by eexists|..|done].
  unfold mbind, mret. destruct (IH Ev (i + 1)%Z o1) as [rs ->]. by eexists.
Qed.
End Proofs.
