(* ===== verification/Events.v ===== *)
(** * Raw events ([eventstore/event.go])

    Validation and canonical hashing of an event, and the transaction that
    appends a batch idempotently. *)

From Stdlib Require Import ZArith Lia String Ascii.
From S2P Require Import Prelude GoStrings GoTime GoJson Sha256 StrictJson Sql Schema Keyed.
Open Scope Z_scope.
Open Scope string_scope.
Open Scope list_scope.
Open Scope result_scope.
Open Scope db_scope.

Definition EventSchemaVersion : Z := 1.
Definition CodeBatchEmpty : string := "EVENT_BATCH_EMPTY".
Definition CodeBatchTooLarge : string := "EVENT_BATCH_TOO_LARGE".
Definition CodeEventTooLarge : string := "EVENT_TOO_LARGE".
Definition CodeEventDecodeInvalid : string := "EVENT_JSON_INVALID".
Definition CodeEventSchemaInvalid : string := "EVENT_SCHEMA_UNSUPPORTED".
Definition CodeCollectorInvalid : string := "EVENT_COLLECTOR_INVALID".
Definition CodeEventTypeInvalid : string := "EVENT_TYPE_INVALID".
Definition CodeDeviceTimeInvalid : string := "EVENT_DEVICE_TIME_INVALID".
Definition CodeClockOffsetInvalid : string := "EVENT_CLOCK_OFFSET_INVALID".
Definition CodeClockErrorInvalid : string := "EVENT_CLOCK_ERROR_INVALID".
Definition CodeIdempotencyInvalid : string := "EVENT_IDEMPOTENCY_KEY_INVALID".
Definition CodePayloadInvalid : string := "EVENT_PAYLOAD_INVALID".
Definition CodePayloadTooDeep : string := "EVENT_PAYLOAD_TOO_DEEP".
Definition CodeIdempotencyConflict : string := "EVENT_IDEMPOTENCY_CONFLICT".

(** ** The store ([eventstore/store.go]) *)
Record CollectorPolicy := MkCollectorPolicy { cp_Kind : string; cp_HeartbeatPeriod : duration }.

Record Store := MkStore {
  maxBatchEvents : Z; maxEventBytes : Z; maxPayloadDepth : Z; maxPageSize : Z;
  maxTimelineProjectionBytes : Z; collectorPolicies : gmap string CollectorPolicy }.

Record eventInput := EventInput {
  ei_SchemaVersion : Z; ei_CollectorID : string; ei_EventType : string;
  ei_DeviceTimestampRaw : string; ei_ClockOffsetMS : option Z; ei_ClockErrorMS : option Z;
  ei_IdempotencyKey : string; ei_Payload : string }.

Definition eventInputJSONFields : list string :=
  ["schema_version"; "collector_id"; "event_type"; "device_timestamp_raw";
   "clock_offset_ms"; "clock_error_ms"; "idempotency_key"; "payload"].

(** ** Helpers *)
Definition validIdentifier (value : string) (maximum : Z) : bool :=
  negb (String.eqb value "" || (maximum <? slen value)%Z || negb (String.eqb (trim_space value) value)
        || negb (valid_utf8 value))
  && forallb (fun r => negb (is_control r)) (runes value).

(** [parseJSONValue], with the length of the input as fuel for its recursion. *)
Fixpoint parseJSONValue (fuel : nat) (d : decoder) (depth maxDepth : Z) {struct fuel}
    : result error (json * decoder) :=
  match fuel with
  | O => Err (ValidationError CodePayloadInvalid)
  | S f =>
    match next_token d with
    | TokEOF | TokErr => Err (ValidationError CodePayloadInvalid)
    | Tok (TDelim c) d1 =>
      if (maxDepth <? depth)%Z then Err (ValidationError CodePayloadTooDeep)
      else if Ascii.eqb c "{" then
        let? (ms, d2) := parseJSONObject f d1 depth maxDepth [] in Ok (JObj ms, d2)
      else if Ascii.eqb c "[" then
        let? (vs, d2) := parseJSONArray f d1 depth maxDepth in Ok (JArr vs, d2)
      else Err (ValidationError CodePayloadInvalid)
    | Tok (TStr s) d1 => Ok (JStr s, d1)
    | Tok (TNum s) d1 => Ok (JNum s, d1)
    | Tok (TBool b) d1 => Ok (JBool b, d1)
    | Tok TNull d1 => Ok (JNull, d1)
    end
  end
(** The loop over the members of an object; [seen] are the keys of the map so far. *)
with parseJSONObject (fuel : nat) (d : decoder) (depth maxDepth : Z) (seen : list string) {struct fuel}
    : result error (list (string * json) * decoder) :=
  match fuel with
  | O => Err (ValidationError CodePayloadInvalid)
  | S f =>
    if more d then
      match next_token d with
      | Tok (TStr key) d1 =>
        if bool_decide (key ∈ seen) then Err (ValidationError CodePayloadInvalid)
        else
          let? (v, d2) := parseJSONValue f d1 (depth + 1) maxDepth in
          let? (ms, d3) := parseJSONObject f d2 depth maxDepth (key :: seen) in
          Ok ((key, v) :: ms, d3)
      | _ => Err (ValidationError CodePayloadInvalid)
      end
    else
      match next_token d with
      | Tok (TDelim c) d1 => guard? Ascii.eqb c "}" else ValidationError CodePayloadInvalid in Ok ([], d1)
      | _ => Err (ValidationError CodePayloadInvalid)
      end
  end
with parseJSONArray (fuel : nat) (d : decoder) (depth maxDepth : Z) {struct fuel}
    : result error (list json * decoder) :=
  match fuel with
  | O => Err (ValidationError CodePayloadInvalid)
  | S f =>
    if more d then
      let? (v, d2) := parseJSONValue f d (depth + 1) maxDepth in
      let? (vs, d3) := parseJSONArray f d2 depth maxDepth in Ok (v :: vs, d3)
    else
      match next_token d with
      | Tok (TDelim c) d1 => guard? Ascii.eqb c "]" else ValidationError CodePayloadInvalid in Ok ([], d1)
      | _ => Err (ValidationError CodePayloadInvalid)
      end
  end.

Definition parsePayload (raw : string) (maxDepth : Z) : result error json :=
  if String.eqb raw "" then Err (ValidationError CodePayloadInvalid)
  else
    let? (value, d) := parseJSONValue (2 * String.length raw + 2) (new_decoder raw) 1 maxDepth in
    guard? at_eof (d_rest d) else ValidationError CodePayloadInvalid in
    match value with
    | JObj _ => Ok value
    | _ => Err (ValidationError CodePayloadInvalid)
    end.

(** [decoder.Decode(&input)] followed by [ensureJSONEOF]. *)
Definition decodeEventInput (raw : string) : option eventInput :=
  let! _ := unmarshal raw in
  let! ms := raw_object raw in
  let f k := option_map snd (member k ms) in
  let! version := int_field (f "schema_version") in
  let! collector := string_field (f "collector_id") in
  let! event_type := string_field (f "event_type") in
  let! device := string_field (f "device_timestamp_raw") in
  let! offset := int_pointer_field (f "clock_offset_ms") in
  let! err := int_pointer_field (f "clock_error_ms") in
  let! key := string_field (f "idempotency_key") in
  Some (EventInput version collector event_type device offset err key
          (match member "payload" ms with Some (text, _) => text | None => "" end)).

Definition clock_offset_limit : Z := 365 * 24 * 60 * 60 * 1000.
Definition clock_error_limit : Z := 24 * 60 * 60 * 1000.

Definition offset_ok (v : option Z) : bool :=
  match v with Some z => negb ((z <? - clock_offset_limit)%Z || (clock_offset_limit <? z)%Z) | None => false end.
Definition clock_error_ok (v : option Z) : bool :=
  match v with Some z => negb ((z <? 0)%Z || (clock_error_limit <? z)%Z) | None => false end.

Definition valid (b : bool) (code : string) : result error unit :=
  if b then Ok tt else Err (ValidationError code).
Definition from_option {A} (m : option A) (code : string) : result error A :=
  match m with Some a => Ok a | None => Err (ValidationError code) end.
Definition strict_ok (r : result strict_error unit) : bool := is_ok r.

(** [prepare]: the guards in the order of the source. *)
Definition prepare (store : Store) (raw receivedAt : string) : result error preparedEvent :=
  let? _ := valid (slen raw <=? maxEventBytes store)%Z CodeEventTooLarge in
  let? _ := valid (strict_ok (ValidateExactRootObject raw 0 eventInputJSONFields)) CodeEventDecodeInvalid in
  let? input := from_option (decodeEventInput raw) CodeEventDecodeInvalid in
  let? _ := valid (ei_SchemaVersion input =? EventSchemaVersion)%Z CodeEventSchemaInvalid in
  let? _ := valid (validIdentifier (ei_CollectorID input) 128) CodeCollectorInvalid in
  let? _ := valid (validIdentifier (ei_EventType input) 128) CodeEventTypeInvalid in
  let device := ei_DeviceTimestampRaw input in
  let? _ := valid (negb ((slen device =? 0)%Z || (128 <? slen device)%Z
                         || negb (String.eqb (trim_space device) device))) CodeDeviceTimeInvalid in
  let? _ := valid (negb (has_suffix device "-00:00")) CodeDeviceTimeInvalid in
  let? deviceTime := from_option (parse_rfc3339nano device) CodeDeviceTimeInvalid in
  let? _ := valid (offset_ok (ei_ClockOffsetMS input)) CodeClockOffsetInvalid in
  let? _ := valid (clock_error_ok (ei_ClockErrorMS input)) CodeClockErrorInvalid in
  let? _ := valid (validIdentifier (ei_IdempotencyKey input) 256) CodeIdempotencyInvalid in
  let? payloadValue := parsePayload (ei_Payload input) (maxPayloadDepth store) in
  let payloadHash := sha256_hex (marshal payloadValue) in
  let deviceTimeUTC := format_rfc3339nano deviceTime in
  let offset := default 0%Z (ei_ClockOffsetMS input) in
  let clockError := default 0%Z (ei_ClockErrorMS input) in
  let content := marshal_struct
    [("schema_version", JNum (format_int (ei_SchemaVersion input)));
     ("collector_id", JStr (ei_CollectorID input)); ("event_type", JStr (ei_EventType input));
     ("device_timestamp_raw", JStr device); ("device_time_utc", JStr deviceTimeUTC);
     ("clock_offset_ms", JNum (format_int offset)); ("clock_error_ms", JNum (format_int clockError));
     ("payload_hash", JStr payloadHash)] in
  Ok (PreparedEvent (ei_SchemaVersion input) (ei_CollectorID input) (ei_EventType input) device
        deviceTimeUTC receivedAt offset clockError (ei_IdempotencyKey input) (ei_Payload input)
        payloadHash (sha256_hex content)).

(** ** Appending *)
Section Append.
Context `{SqliteJson}.

(** The table [raw_events] as [appendOne] uses it. *)
Definition events_table : keyed_table preparedEvent := {|
  k_rows := raw_events; k_with := with_raw_events;
  k_key e := (pe_CollectorID e, pe_IdempotencyKey e);
  k_hash := pe_ContentHash; k_check := check_raw_event; k_conflict := CodeIdempotencyConflict |}.

Definition appendOne (index : Z) (item : preparedEvent) : M database WriteResult :=
  append_keyed events_table index item.

Definition AppendBatch (store : Store) (now : time) (candidates : list string)
    : M database (list WriteResult) :=
  append_batch events_table (maxBatchEvents store) CodeBatchEmpty CodeBatchTooLarge
    (fun raw => prepare store raw (format_rfc3339nano now)) candidates.

#[export] Instance events_table_laws : KeyedLaws events_table.
Proof. split; [done|done|]. by intros []. Qed.
End Append.

(** ** The payload parser *)

(** No object of the value has a key twice. *)
Fixpoint dup_free (v : json) : Prop :=
  match v with
  | JArr l => foldr (fun x P => dup_free x /\ P) True l
  | JObj l => NoDup (map fst l) /\ foldr (fun kv P => dup_free (snd kv) /\ P) True l
  | _ => True
  end.

(** The containers of [v] stay within [maxDepth] when [v] stands at [depth]. *)
Definition within (depth maxDepth : Z) (v : json) : Prop := (nesting v = 0 \/ depth + nesting v <= maxDepth + 1)%Z.
Definition all_within (depth maxDepth : Z) (l : list json) : Prop :=
  foldr (fun v P => (dup_free v /\ within depth maxDepth v) /\ P) True l.

Lemma nesting_nonneg v : (0 <= nesting v)%Z.
Proof.
  destruct v; cbn; try lia.
  - enough (0 <= foldr Z.max 0 (map nesting l))%Z by lia. induction l; simpl; lia.
  - enough (0 <= foldr Z.max 0 (map (fun kv => nesting (snd kv)) l))%Z by lia. induction l; simpl; lia.
Qed.

Lemma nesting_object ms : (1 <= nesting (JObj ms))%Z.
Proof.
  cbn. enough (0 <= foldr Z.max 0 (map (fun kv => nesting (snd kv)) ms))%Z by lia.
  induction ms; simpl; lia.
Qed.

Lemma all_within_nesting depth m l : (depth <= m)%Z ->
  all_within (depth + 1) m l <->
  foldr (fun x P => dup_free x /\ P) True l /\ (depth + (1 + foldr Z.max 0 (map nesting l)) <= m + 1)%Z.
Proof.
  intros Hd. unfold all_within, within. induction l as [|v l IH]; simpl; [split; [split; [done|lia]|done]|].
  rewrite IH. pose proof (nesting_nonneg v). split.
  - intros [[? ?] [? ?]]. split; [done|]. lia.
  - intros [[? ?] ?]. repeat split; try done; lia.
Qed.

Lemma obind_iff {A B} (m : option A) (k : A -> option B) b :
  obind m k = Some b <-> exists a, m = Some a /\ k a = Some b.
Proof. split; [apply obind_Some|]. intros (a & -> & H). exact H. Qed.
Lemma rbind_iff {E A B} (m : result E A) (k : A -> result E B) b :
  rbind m k = Ok b <-> exists a, m = Ok a /\ k a = Ok b.
Proof. split; [apply rbind_Ok|]. intros (a & -> & H). exact H. Qed.

Definition members_within (depth m : Z) (seen : list string) (ms : list (string * json)) : Prop :=
  NoDup (map fst ms) /\ (forall k, k ∈ map fst ms -> k ∉ seen) /\ all_within depth m (map snd ms).

Lemma members_within_cons depth m seen k v ms :
  members_within depth m seen ((k, v) :: ms) <->
  (k ∉ seen) /\ dup_free v /\ within depth m v /\ members_within depth m (k :: seen) ms.
Proof.
  unfold members_within, all_within. cbn [map fst snd foldr]. rewrite NoDup_cons. split.
  - intros ((Hk & HN) & Hs & (Hd & Hw) & Ha). repeat split; try done.
    + apply Hs. left.
    + intros x Hx. rewrite elem_of_cons. intros [->|Hx']; [done|]. apply (Hs x); [by right|done].
  - intros (Hk & Hd & Hw & HN & Hs & Ha). repeat split; try done.
    + intros Hin. apply (Hs k Hin). left.
    + intros x Hx. apply elem_of_cons in Hx as [->|Hx]; [done|].
      intros Hx'. apply (Hs x Hx). by right.
Qed.

(** A container whose contents are within the bound is within it, and back. *)
Lemma nestings_nonneg l : (0 <= foldr Z.max 0 (map nesting l))%Z.
Proof. induction l; simpl; lia. Qed.
Lemma within_array depth m l : (depth <= m)%Z ->
  all_within (depth + 1) m l <-> dup_free (JArr l) /\ within depth m (JArr l).
Proof.
  intros Hm. rewrite all_within_nesting by done. unfold within. cbn [nesting dup_free].
  pose proof (nestings_nonneg l). split; intros [? ?]; (split; [done|]); lia.
Qed.
Lemma dup_free_members (ms : list (string * json)) :
  foldr (fun kv P => dup_free (snd kv) /\ P) True ms <-> foldr (fun x P => dup_free x /\ P) True (map snd ms).
Proof. induction ms as [|x ms IH]; simpl; [done|]. by rewrite IH. Qed.
Lemma within_object depth m ms : (depth <= m)%Z ->
  members_within (depth + 1) m [] ms <-> dup_free (JObj ms) /\ within depth m (JObj ms).
Proof.
  intros Hm. unfold members_within. rewrite all_within_nesting by done. unfold within. cbn [nesting dup_free].
  rewrite dup_free_members, <- (map_map snd nesting). pose proof (nestings_nonneg (map snd ms)). split.
  - intros (HN & _ & Hd & Hn). split; [done|]. lia.
  - intros ([HN Hd] & Hn). split; [done|]. split; [|split; [done|lia]]. intros k _ Hk. by apply elem_of_nil in Hk.
Qed.
Lemma too_deep depth m v : (m < depth)%Z -> within depth m v -> (exists l, v = JArr l) \/ (exists ms, v = JObj ms) -> False.
Proof.
  intros Hm Hw [[l ->]|[ms ->]]; unfold within in Hw; cbn [nesting] in Hw.
  - pose proof (nestings_nonneg l). lia.
  - pose proof (nestings_nonneg (map snd ms)) as Hn. rewrite map_map in Hn. lia.
Qed.

(** What the three functions accept, with the same fuel. *)
Definition value_spec (m : Z) (fuel : nat) : Prop := forall d depth v d',
  parseJSONValue fuel d depth m = Ok (v, d') <-> parse_value fuel d = Some (v, d') /\ dup_free v /\ within depth m v.
Definition object_spec (m : Z) (fuel : nat) : Prop := forall d depth seen ms d',
  parseJSONObject fuel d depth m seen = Ok (ms, d') <->
  parse_members fuel d = Some (ms, d') /\ members_within (depth + 1) m seen ms.
Definition array_spec (m : Z) (fuel : nat) : Prop := forall d depth vs d',
  parseJSONArray fuel d depth m = Ok (vs, d') <-> parse_elements fuel d = Some (vs, d') /\ all_within (depth + 1) m vs.

Lemma value_step m f : object_spec m f -> array_spec m f -> value_spec m (S f).
Proof.
  intros IHm IHe d depth v d'. cbn [parseJSONValue parse_value].
  destruct (next_token d) as [| |t d1]; [split; [done|by intros [? _]]..|].
  destruct t as [c|s|s|b|];
    try (split; [intros [= <- <-]; split; [done|split; [done|by left]]|intros ([= <- <-] & _); done]).
  destruct (Z.ltb_spec m depth) as [Hm|Hm].
  { split; [done|]. intros (Hp & _ & Hw). exfalso. apply (too_deep _ _ _ Hm Hw). revert Hp.
    case_match; [|case_match; [|done]]; rewrite obind_iff; intros ([xs d2] & _ & [= <- _]); eauto. }
  destruct (Ascii.eqb c "{"); [|destruct (Ascii.eqb c "["); [|split; [done|by intros [? _]]]];
    rewrite rbind_iff, obind_iff; split.
  - intros ([ms d2] & Hp & [= <- <-]). apply IHm in Hp as [Hp Hw].
    split; [eexists (_, _); eauto|by apply within_object].
  - intros (([ms d2] & Hp & [= <- <-]) & Hw). exists (ms, d2). split; [|done]. apply IHm. split; [done|by apply within_object].
  - intros ([l d2] & Hp & [= <- <-]). apply IHe in Hp as [Hp Hw].
    split; [eexists (_, _); eauto|by apply within_array].
  - intros (([l d2] & Hp & [= <- <-]) & Hw). exists (l, d2). split; [|done]. apply IHe. split; [done|by apply within_array].
Qed.
Lemma object_step m f : value_spec m f -> object_spec m f -> object_spec m (S f).
Proof.
  intros IHv IHm d depth seen ms d'. cbn [parseJSONObject parse_members]. destruct (more d).
  - destruct (next_token d) as [| |t d1]; [split; [done|by intros [? _]]..|].
    destruct t as [c|k|s|b|]; try (split; [done|by intros [? _]]).
    rewrite obind_iff. case_bool_decide as Hk.
    { split; [done|]. intros (([v d2] & _ & Hp) & Hw). apply obind_iff in Hp as ([xs d3] & _ & [= <- _]).
      by apply members_within_cons in Hw as [? _]. }
    rewrite rbind_iff. split.
    + intros ([v d2] & Hv & Hp). apply rbind_iff in Hp as ([xs d3] & Hx & [= <- <-]).
      apply IHv in Hv as (Hv & Hd & Hw). apply IHm in Hx as (Hx & Hms).
      split; [|by apply members_within_cons]. eexists (_, _). split; [done|]. apply obind_iff. by eexists (_, _).
    + intros (([v d2] & Hv & Hp) & Hw). apply obind_iff in Hp as ([xs d3] & Hx & [= <- <-]).
      apply members_within_cons in Hw as (_ & Hd & Hw & Hms).
      exists (v, d2). split; [by apply IHv|]. apply rbind_iff. exists (xs, d3). split; [|done]. by apply IHm.
  - destruct (next_token d) as [| |t d1]; [split; [done|by intros [? _]]..|].
    destruct t as [c|k|s|b|]; try (split; [done|by intros [? _]]).
    destruct (Ascii.eqb c "}"); cbn [oguard]; [|split; [done|by intros [? _]]].
    split; [|by intros [[= <- <-] _]]. intros [= <- <-]. split; [done|].
    split; [constructor|]. split; [|done]. intros x Hx. by apply elem_of_nil in Hx.
Qed.
Lemma array_step m f : value_spec m f -> array_spec m f -> array_spec m (S f).
Proof.
  intros IHv IHe d depth vs d'. cbn [parseJSONArray parse_elements]. destruct (more d).
  - rewrite rbind_iff, obind_iff. split.
    + intros ([v d2] & Hv & Hp). apply rbind_iff in Hp as ([xs d3] & Hx & [= <- <-]).
      apply IHv in Hv as (Hv & Hd & Hw). apply IHe in Hx as (Hx & Hms).
      split; [|done]. eexists (_, _). split; [done|]. apply obind_iff. by eexists (_, _).
    + intros (([v d2] & Hv & Hp) & Hw). apply obind_iff in Hp as ([xs d3] & Hx & [= <- <-]).
      destruct Hw as [[Hd Hw] Hms]. exists (v, d2). split; [by apply IHv|].
      apply rbind_iff. exists (xs, d3). split; [|done]. by apply IHe.
  - destruct (next_token d) as [| |t d1]; [split; [done|by intros [? _]]..|].
    destruct t as [c|k|s|b|]; try (split; [done|by intros [? _]]).
    destruct (Ascii.eqb c "]"); cbn [oguard]; [|split; [done|by intros [? _]]].
    split; [|by intros [[= <- <-] _]]. by intros [= <- <-].
Qed.
Lemma parseJSON_spec m fuel : value_spec m fuel /\ object_spec m fuel /\ array_spec m fuel.
Proof.
  induction fuel as [|f (IHv & IHm & IHe)].
  - repeat split; intros; try done; by destruct H.
  - split; [by apply value_step|split; [by apply object_step|by apply array_step]].
Qed.
Lemma parseJSONValue_spec m fuel d depth v d' :
  parseJSONValue fuel d depth m = Ok (v, d') <-> parse_value fuel d = Some (v, d') /\ dup_free v /\ within depth m v.
Proof. apply (parseJSON_spec m fuel). Qed.

(** C23: a payload is accepted exactly when it is a JSON document, an object
    without duplicate keys at any level and nested no deeper than configured;
    the value returned is that document. *)
Theorem parsePayload_correct (raw : string) (maxDepth : Z) (v : json) :
  parsePayload raw maxDepth = Ok v <->
  raw <> "" /\ parse_document raw = Some v /\ (exists ms, v = JObj ms) /\ dup_free v /\
  (nesting v <= maxDepth)%Z.
Proof.
  unfold parsePayload, parse_document. destruct (String.eqb_spec raw "") as [->|Hne]; [split; [done|by intros [? _]]|].
  rewrite rbind_iff, obind_iff. split.
  - intros ([w d] & Hp & H). apply parseJSONValue_spec in Hp as (Hp & Hd & Hw).
    destruct (at_eof (d_rest d)) eqn:Ee; [|done]. destruct w as [| | | | |ms]; try done. injection H as <-.
    split; [done|]. split; [exists (JObj ms, d); by rewrite Ee|].
    split; [by exists ms|]. split; [done|]. unfold within in Hw. pose proof (nesting_object ms). lia.
  - intros (_ & ([w d] & Hp & H) & [ms ->] & Hd & Hn). apply oguard_Some in H as [He [= ->]].
    exists (JObj ms, d). rewrite He. split; [|done]. apply parseJSONValue_spec. split; [done|].
    split; [done|]. right. lia.
Qed.

(** ** Properties of the batch *)

(** The guards of [prepare]. *)
Lemma valid_Ok b code : valid b code = Ok tt <-> b = true.
Proof. by destruct b. Qed.
Lemma from_option_Ok {A} (m : option A) code a : from_option m code = Ok a <-> m = Some a.
Proof. destruct m; simpl; split; intros; by simplify_eq. Qed.

(** The reception time is the only part of a prepared event that depends on the
    clock. *)
Definition with_received (e : preparedEvent) (t : string) : preparedEvent :=
  PreparedEvent (pe_SchemaVersion e) (pe_CollectorID e) (pe_EventType e) (pe_DeviceTimestampRaw e)
    (pe_DeviceTimeUTC e) t (pe_ClockOffsetMS e) (pe_ClockErrorMS e) (pe_IdempotencyKey e)
    (pe_PayloadJSON e) (pe_PayloadHash e) (pe_ContentHash e).

Lemma prepare_received st raw t1 t2 :
  prepare st raw t2 = rmap (fun e => with_received e t2) (prepare st raw t1).
Proof.
  unfold prepare, rbind, rmap. repeat (case_match; try done; simplify_eq).
Qed.

(** A concrete store and event, for the witnesses. *)
#[export] Instance document_json : SqliteJson := {|
  json_valid s := match parse_document s with Some _ => true | None => false end;
  json_type s := match parse_document s with
                 | Some (JArr _) => "array" | Some (JObj _) => "object" | Some (JStr _) => "text"
                 | Some (JNum _) => "real" | Some (JBool _) => "true" | _ => "null"
                 end |}.
Definition sample_store : Store := MkStore 10 65536 8 100 33554432 ∅.
Definition sample_time : time := 63844806896789000000.
Definition sample_event : string := quoted
  "{'schema_version':1,'collector_id':'phone','event_type':'note','device_timestamp_raw':'2024-02-29T20:34:56+08:00','clock_offset_ms':0,'clock_error_ms':5,'idempotency_key':'k1','payload':{'b':[1],'a':null}}".

Section Properties.
Context `{SqliteJson}.

(** C5: a batch that succeeds only appends rows, keeps the table's unique key
    and ids, and reports for every candidate what the table then holds: a
    rejected candidate has the code of its first failed check; an accepted one
    is the row under the reported id and no earlier row had its key; a duplicate
    or conflicting one names the row that has its key, with the same or another
    content hash. *)
Theorem AppendBatch_correct st now cs d o rs d' o'
    (Hok : table_ok events_table d) (Hrun : AppendBatch st now cs d o = (Ok rs, d', o')) :
  table_ok events_table d' /\ extends events_table d d' /\
  exists slots, prepare_all (fun raw => prepare st raw (format_rfc3339nano now)) cs = Ok slots /\
    Forall2 (fun ix res => slot_result events_table d (fst ix) (snd ix) res d') (indexed slots) rs.
Proof. exact (append_batch_correct events_table _ _ _ _ _ _ _ _ _ _ Hok Hrun). Qed.

(** C22: sending an accepted batch again, at any later time, leaves the database
    as it is and returns the same results with "duplicate" for "accepted". *)
Theorem AppendBatch_retry st now1 now2 cs d o rs1 d1 o1 o2 rs2 d2 o3
    (Hok : table_ok events_table d) (Hfirst : AppendBatch st now1 cs d o = (Ok rs1, d1, o1))
    (Hagain : AppendBatch st now2 cs d1 o2 = (Ok rs2, d2, o3)) :
  d2 = d1 /\ rs2 = map retry_of rs1.
Proof.
  refine (append_batch_retry events_table _ _ _ _ _ _ _ _ _ _ _ _ _ _ _ _ Hok Hfirst Hagain). intros raw.
  cbv beta. rewrite (prepare_received st raw (format_rfc3339nano now1) (format_rfc3339nano now2)).
  destruct (prepare st raw _); simpl; done.
Qed.

(** A batch that fails, whichever statement the driver fails at, leaves the
    database unchanged. *)
Theorem AppendBatch_atomic st now cs d o e d' o'
    (Hrun : AppendBatch st now cs d o = (Err e, d', o')) : d' = d.
Proof. exact (append_batch_atomic events_table _ _ _ _ _ _ _ _ _ _ Hrun). Qed.
End Properties.

Lemma empty_table_ok {A} (T : keyed_table A) : k_rows T empty_database = [] -> table_ok T empty_database.
Proof. intros E. unfold table_ok, ids_sorted. rewrite E. repeat constructor. Qed.

Lemma AppendBatch_correct_witness :
  exists rs d' o', AppendBatch sample_store sample_time [sample_event; "x"] empty_database []
    = (Ok rs, d', o') /\ table_ok events_table d'.
Proof.
  destruct (AppendBatch sample_store sample_time [sample_event; "x"] empty_database [])
    as [[[rs|e] d'] o'] eqn:E; [|exfalso; vm_compute in E; discriminate].
  exists rs, d', o'. split; [reflexivity|].
  apply (AppendBatch_correct _ _ _ _ _ _ _ _ (empty_table_ok events_table eq_refl) E).
Defined.

Definition sample_after : database := state_after (AppendBatch sample_store sample_time [sample_event]) empty_database [].

Lemma AppendBatch_retry_witness :
  exists rs1 rs2, outcome (AppendBatch sample_store sample_time [sample_event]) empty_database [] = Ok rs1 /\
    outcome (AppendBatch sample_store (sample_time + 1) [sample_event]) sample_after [] = Ok rs2 /\
    rs2 = map retry_of rs1.
Proof.
  unfold outcome.
  destruct (AppendBatch sample_store sample_time [sample_event] empty_database []) as [[[rs1|e] d1] o1] eqn:E1;
    [|exfalso; vm_compute in E1; discriminate].
  assert (Hd : sample_after = d1) by (unfold sample_after, state_after; rewrite E1; reflexivity).
  destruct (AppendBatch sample_store (sample_time + 1) [sample_event] sample_after []) as [[[rs2|e] d2] o2] eqn:E2;
    [|exfalso; vm_compute in E2; discriminate].
  exists rs1, rs2. split; [reflexivity|]. split; [reflexivity|].
  rewrite Hd in E2.
  apply (AppendBatch_retry _ _ _ _ _ _ _ _ _ _ _ _ _ (empty_table_ok events_table eq_refl) E1 E2).
Defined.

Lemma AppendBatch_atomic_witness :
  state_after (AppendBatch sample_store sample_time [sample_event]) empty_database
    [None; None; Some (SqliteCode 5)] = empty_database.
Proof.
  destruct (AppendBatch sample_store sample_time [sample_event] empty_database
    [None; None; Some (SqliteCode 5)]) as [[[rs|e] d1] o1] eqn:E;
    [exfalso; vm_compute in E; discriminate|].
  unfold state_after. rewrite E. apply (AppendBatch_atomic _ _ _ _ _ _ _ _ E).
Defined.
