(* ===== verification/Heartbeats.v ===== *)
(** * Collector heartbeats ([eventstore/heartbeat.go]) *)

From Stdlib Require Import ZArith Lia String Ascii.
From S2P Require Import Prelude GoStrings GoTime GoJson Sha256 StrictJson Sql Schema Keyed Events.
Open Scope Z_scope.
Open Scope string_scope.
Open Scope list_scope.
Open Scope result_scope.
Open Scope db_scope.

Definition HeartbeatSchemaVersion : Z := 1.
Definition HeartbeatStateActive : string := "active".
Definition HeartbeatStateIdle : string := "idle".
Definition CodeHeartbeatTooLarge : string := "HEARTBEAT_TOO_LARGE".
Definition CodeHeartbeatJSONInvalid : string := "HEARTBEAT_JSON_INVALID".
Definition CodeHeartbeatSchemaInvalid : string := "HEARTBEAT_SCHEMA_UNSUPPORTED".
Definition CodeHeartbeatCollector : string := "HEARTBEAT_COLLECTOR_INVALID".
Definition CodeHeartbeatState : string := "HEARTBEAT_STATE_INVALID".
Definition CodeHeartbeatTime : string := "HEARTBEAT_TIME_INVALID".
Definition CodeHeartbeatDuration : string := "HEARTBEAT_DURATION_INVALID".
Definition CodeHeartbeatClock : string := "HEARTBEAT_CLOCK_INVALID".
Definition CodeHeartbeatIdempotency : string := "HEARTBEAT_IDEMPOTENCY_KEY_INVALID".
Definition CodeHeartbeatQuality : string := "HEARTBEAT_QUALITY_FLAGS_INVALID".
Definition CodeHeartbeatConflict : string := "HEARTBEAT_IDEMPOTENCY_CONFLICT".

Definition heartbeatInputJSONFields : list string :=
  ["schema_version"; "collector_id"; "state"; "device_start_raw"; "device_end_raw";
   "clock_offset_ms"; "clock_error_ms"; "idempotency_key"; "quality_flags"].

Record heartbeatInput := HeartbeatInput {
  hi_SchemaVersion : Z; hi_CollectorID : string; hi_State : string;
  hi_DeviceStartRaw : string; hi_DeviceEndRaw : string;
  hi_ClockOffsetMS : option Z; hi_ClockErrorMS : option Z; hi_IdempotencyKey : string;
  hi_QualityFlags : option (list string) }.

Definition strings_pointer_field (v : option json) : option (option (list string)) :=
  match v with
  | None | Some JNull => Some None
  | Some (JArr _) => option_map Some (strings_field v)
  | _ => None
  end.

Definition decodeHeartbeatInput (raw : string) : option heartbeatInput :=
  let! root := unmarshal raw in
  match root with
  | JObj ms =>
    let f k := member k ms in
    let! version := int_field (f "schema_version") in
    let! collector := string_field (f "collector_id") in
    let! state := string_field (f "state") in
    let! start := string_field (f "device_start_raw") in
    let! finish := string_field (f "device_end_raw") in
    let! offset := int_pointer_field (f "clock_offset_ms") in
    let! err := int_pointer_field (f "clock_error_ms") in
    let! key := string_field (f "idempotency_key") in
    let! flags := strings_pointer_field (f "quality_flags") in
    Some (HeartbeatInput version collector state start finish offset err key flags)
  | _ => None
  end.

Definition parseKnownOffsetTime (value : string) : option time :=
  if String.eqb value "" || (128 <? slen value)%Z || negb (String.eqb (trim_space value) value)
     || has_suffix value "-00:00"
  then None else parse_rfc3339nano value.

Definition fixedUTC (value : time) : string := format_fixed value.

(** [Time.Sub] saturates at the range of a duration. *)
Definition time_sub (a b : time) : duration := Z.max int64_min (Z.min int64_max (a - b)).

Definition quality_flags_allowed : list string := ["obscured"; "corrupt"; "clock_uncertain"; "incomplete"].

Fixpoint check_flags (seen values : list string) : bool :=
  match values with
  | [] => true
  | v :: rest => if negb (bool_decide (v ∈ quality_flags_allowed)) || bool_decide (v ∈ seen) then false
                 else check_flags (v :: seen) rest
  end.
Definition normalizeQualityFlags (values : list string) : option (list string) :=
  if check_flags [] values then Some (sort_by String.ltb values) else None.

Definition strings_json (l : list string) : string := marshal (JArr (map JStr l)).

Definition heartbeat_content (input : heartbeatInput) (start finish : time) (offset clockError : Z)
    (flags : list string) : string :=
  marshal_struct
    [("schema_version", JNum (format_int (hi_SchemaVersion input)));
     ("collector_id", JStr (hi_CollectorID input)); ("state", JStr (hi_State input));
     ("device_start_raw", JStr (hi_DeviceStartRaw input)); ("device_end_raw", JStr (hi_DeviceEndRaw input));
     ("start_utc", JStr (fixedUTC start)); ("end_utc", JStr (fixedUTC finish));
     ("clock_offset_ms", JNum (format_int offset)); ("clock_error_ms", JNum (format_int clockError));
     ("quality_flags", JArr (map JStr flags))].

Definition prepareHeartbeat (store : Store) (raw : string) (receivedAt : time)
    : result error preparedHeartbeat :=
  let? _ := valid (slen raw <=? maxEventBytes store)%Z CodeHeartbeatTooLarge in
  let? _ := valid (strict_ok (ValidateExactRootObject raw 0 heartbeatInputJSONFields)) CodeHeartbeatJSONInvalid in
  let? input := from_option (decodeHeartbeatInput raw) CodeHeartbeatJSONInvalid in
  let? _ := valid (hi_SchemaVersion input =? HeartbeatSchemaVersion)%Z CodeHeartbeatSchemaInvalid in
  let? policy := from_option (collectorPolicies store !! hi_CollectorID input) CodeHeartbeatCollector in
  let? _ := valid (validIdentifier (hi_CollectorID input) 128) CodeHeartbeatCollector in
  let? _ := valid (String.eqb (hi_State input) HeartbeatStateActive
                   || String.eqb (hi_State input) HeartbeatStateIdle) CodeHeartbeatState in
  let? start := from_option (parseKnownOffsetTime (hi_DeviceStartRaw input)) CodeHeartbeatTime in
  let? finish := from_option (parseKnownOffsetTime (hi_DeviceEndRaw input)) CodeHeartbeatTime in
  let? _ := valid (negb (negb (start <? finish)%Z || (cp_HeartbeatPeriod policy <? time_sub finish start)%Z))
              CodeHeartbeatDuration in
  let? _ := valid (offset_ok (hi_ClockOffsetMS input) && clock_error_ok (hi_ClockErrorMS input))
              CodeHeartbeatClock in
  let? _ := valid (validIdentifier (hi_IdempotencyKey input) 256) CodeHeartbeatIdempotency in
  let? given := from_option (hi_QualityFlags input) CodeHeartbeatQuality in
  let? flags := from_option (normalizeQualityFlags given) CodeHeartbeatQuality in
  let offset := default 0%Z (hi_ClockOffsetMS input) in
  let clockError := default 0%Z (hi_ClockErrorMS input) in
  Ok (PreparedHeartbeat (hi_SchemaVersion input) (hi_CollectorID input) (hi_State input)
        (hi_DeviceStartRaw input) (hi_DeviceEndRaw input)
        (format_rfc3339nano start) (format_rfc3339nano finish) (format_rfc3339nano receivedAt)
        (fixedUTC (start + offset * millisecond)%Z) (fixedUTC (finish + offset * millisecond)%Z)
        offset clockError (hi_IdempotencyKey input) (strings_json flags)
        (sha256_hex (heartbeat_content input start finish offset clockError flags))).

Section Append.
Context `{SqliteJson}.

(** The table [collector_heartbeats] as [appendHeartbeat] uses it. *)
Definition heartbeats_table : keyed_table preparedHeartbeat := {|
  k_rows := collector_heartbeats; k_with := with_collector_heartbeats;
  k_key h := (ph_CollectorID h, ph_IdempotencyKey h);
  k_hash := ph_ContentHash; k_check := check_heartbeat; k_conflict := CodeHeartbeatConflict |}.

Definition appendHeartbeat (index : Z) (item : preparedHeartbeat) : M database WriteResult :=
  append_keyed heartbeats_table index item.

Definition AppendHeartbeatBatch (store : Store) (now : time) (candidates : list string)
    : M database (list WriteResult) :=
  append_batch heartbeats_table (maxBatchEvents store) CodeBatchEmpty CodeBatchTooLarge
    (fun raw => prepareHeartbeat store raw now) candidates.

#[export] Instance heartbeats_table_laws : KeyedLaws heartbeats_table.
Proof. split; [done|done|]. by intros []. Qed.

(** ** Properties *)

(** Nothing the table compares depends on the reception time. *)
Lemma prepareHeartbeat_same st t1 t2 :
  same_prepare heartbeats_table (fun raw => prepareHeartbeat st raw t1)
    (fun raw => prepareHeartbeat st raw t2).
Proof.
  intros raw. unfold prepareHeartbeat, rbind. repeat (case_match; try done; simplify_eq); by split.
Qed.

(** A heartbeat batch only appends rows, keeps the unique key and ids, and
    reports for every candidate what the table then holds. *)
Theorem AppendHeartbeatBatch_correct st now cs d o rs d' o'
    (Hok : table_ok heartbeats_table d)
    (Hrun : AppendHeartbeatBatch st now cs d o = (Ok rs, d', o')) :
  table_ok heartbeats_table d' /\ extends heartbeats_table d d' /\
  exists slots, prepare_all (fun raw => prepareHeartbeat st raw now) cs = Ok slots /\
    Forall2 (fun ix res => slot_result heartbeats_table d (fst ix) (snd ix) res d') (indexed slots) rs.
Proof. exact (append_batch_correct heartbeats_table _ _ _ _ _ _ _ _ _ _ Hok Hrun). Qed.

(** A heartbeat batch sent again changes nothing and reports duplicates. *)
Theorem AppendHeartbeatBatch_retry st now1 now2 cs d o rs1 d1 o1 o2 rs2 d2 o3
    (Hok : table_ok heartbeats_table d)
    (Hfirst : AppendHeartbeatBatch st now1 cs d o = (Ok rs1, d1, o1))
    (Hagain : AppendHeartbeatBatch st now2 cs d1 o2 = (Ok rs2, d2, o3)) :
  d2 = d1 /\ rs2 = map retry_of rs1.
Proof.
  exact (append_batch_retry heartbeats_table _ _ _ _ _ _ _ _ _ _ _ _ _ _ _
    (prepareHeartbeat_same st now1 now2) Hok Hfirst Hagain).
Qed.
End Append.

(** *** The stored times of a prepared heartbeat *)

(** An accepted heartbeat covers a positive interval no longer than the
    policy's period, and its corrected times are the device times moved by the
    clock offset, written in the fixed format. *)
Theorem prepareHeartbeat_interval st raw receivedAt h
    (Hprep : prepareHeartbeat st raw receivedAt = Ok h) :
  exists start finish policy,
    collectorPolicies st !! ph_CollectorID h = Some policy /\
    parse_rfc3339nano (ph_DeviceStartRaw h) = Some start /\
    parse_rfc3339nano (ph_DeviceEndRaw h) = Some finish /\
    0 < time_sub finish start <= cp_HeartbeatPeriod policy /\
    ph_CorrectedStartUTC h = format_fixed (start + ph_ClockOffsetMS h * millisecond) /\
    ph_CorrectedEndUTC h = format_fixed (finish + ph_ClockOffsetMS h * millisecond) /\
    - clock_offset_limit <= ph_ClockOffsetMS h <= clock_offset_limit /\
    0 <= ph_ClockErrorMS h <= clock_error_limit.
Proof.
  unfold prepareHeartbeat in Hprep. inv_oks Hprep. injection Hprep as <-. cbn.
  repeat match goal with
  | H : from_option _ _ = Ok _ |- _ => apply from_option_Ok in H
  | H : valid _ _ = Ok ?x |- _ => destruct x; apply valid_Ok in H
  end.
  assert (Hp : forall s t, parseKnownOffsetTime s = Some t -> parse_rfc3339nano s = Some t).
  { intros s t. unfold parseKnownOffsetTime. by case_match. }
  rewrite negb_true_iff, orb_false_iff, negb_false_iff, Z.ltb_lt, Z.ltb_ge in Ha8.
  rewrite andb_true_iff in Ha9. destruct Ha9 as [Ho He]. unfold offset_ok, clock_error_ok in Ho, He.
  destruct (hi_ClockOffsetMS _) as [off|]; [|done]. destruct (hi_ClockErrorMS _) as [err|]; [|done].
  rewrite negb_true_iff, orb_false_iff, !Z.ltb_ge in Ho, He. simpl.
  eexists _, _, _. split; [done|]. split; [by apply Hp|]. split; [by apply Hp|].
  split; [|split; [done|split; [done|lia]]]. split; [|lia].
  unfold time_sub, int64_min, int64_max. lia.
Qed.

(** ** Concrete runs *)
Definition heartbeat_store : Store :=
  MkStore 10 65536 8 100 33554432 {[ "phone" := MkCollectorPolicy "heartbeat" (60 * second) ]}.
Definition heartbeat_text (start finish offset key : string) : string := quoted
  ("{'schema_version':1,'collector_id':'phone','state':'active','device_start_raw':'" +:+ start
   +:+ "','device_end_raw':'" +:+ finish +:+ "','clock_offset_ms':" +:+ offset
   +:+ ",'clock_error_ms':5,'idempotency_key':'" +:+ key +:+ "','quality_flags':['obscured','corrupt']}").
Definition sample_heartbeat : string :=
  heartbeat_text "2024-02-29T20:34:56+08:00" "2024-02-29T12:35:26.5Z" "1500" "h1".
(** One minute after the end of year 9999. *)
Definition late_heartbeat : string :=
  heartbeat_text "9999-12-31T23:59:30Z" "9999-12-31T23:59:59Z" "60000" "h2".

Lemma AppendHeartbeatBatch_correct_witness :
  exists rs d' o', AppendHeartbeatBatch heartbeat_store sample_time [sample_heartbeat] empty_database []
    = (Ok rs, d', o') /\ table_ok heartbeats_table d'.
Proof.
  destruct (AppendHeartbeatBatch heartbeat_store sample_time [sample_heartbeat] empty_database [])
    as [[[rs|e] d'] o'] eqn:E; [|exfalso; vm_compute in E; discriminate].
  exists rs, d', o'. split; [reflexivity|].
  apply (AppendHeartbeatBatch_correct _ _ _ _ _ _ _ _ (empty_table_ok heartbeats_table eq_refl) E).
Defined.

Definition heartbeat_after : database :=
  state_after (AppendHeartbeatBatch heartbeat_store sample_time [sample_heartbeat]) empty_database [].

Lemma AppendHeartbeatBatch_retry_witness :
  exists rs1 rs2,
    outcome (AppendHeartbeatBatch heartbeat_store sample_time [sample_heartbeat]) empty_database [] = Ok rs1 /\
    outcome (AppendHeartbeatBatch heartbeat_store 0 [sample_heartbeat]) heartbeat_after [] = Ok rs2 /\
    rs2 = map retry_of rs1.
Proof.
  unfold outcome.
  destruct (AppendHeartbeatBatch heartbeat_store sample_time [sample_heartbeat] empty_database [])
    as [[[rs1|e] d1] o1] eqn:E1; [|exfalso; vm_compute in E1; discriminate].
  assert (Hd : heartbeat_after = d1) by (unfold heartbeat_after, state_after; rewrite E1; reflexivity).
  destruct (AppendHeartbeatBatch heartbeat_store 0 [sample_heartbeat] heartbeat_after [])
    as [[[rs2|e] d2] o2] eqn:E2; [|exfalso; vm_compute in E2; discriminate].
  exists rs1, rs2. split; [reflexivity|]. split; [reflexivity|]. rewrite Hd in E2.
  apply (AppendHeartbeatBatch_retry _ _ _ _ _ _ _ _ _ _ _ _ _
    (empty_table_ok heartbeats_table eq_refl) E1 E2).
Defined.

Lemma prepareHeartbeat_interval_witness :
  exists h, prepareHeartbeat heartbeat_store sample_heartbeat sample_time = Ok h /\
    - clock_offset_limit <= ph_ClockOffsetMS h <= clock_offset_limit.
Proof.
  destruct (prepareHeartbeat heartbeat_store sample_heartbeat sample_time) as [h|e] eqn:E;
    [|exfalso; vm_compute in E; discriminate].
  exists h. split; [reflexivity|].
  destruct (prepareHeartbeat_interval _ _ _ _ E) as (? & ? & ? & _ & _ & _ & _ & _ & _ & H & _).
  exact H.
Defined.

(** A heartbeat that passes every check of [prepareHeartbeat] can still have
    a corrected time outside the years of four digits; its row then violates the
    table's CHECK, and the whole batch, the good heartbeats with it, fails. *)
Theorem AppendHeartbeatBatch_poison :
  is_ok (prepareHeartbeat heartbeat_store late_heartbeat sample_time) = true /\
  is_ok (outcome (AppendHeartbeatBatch heartbeat_store sample_time [sample_heartbeat]) empty_database []) = true /\
  outcome (AppendHeartbeatBatch heartbeat_store sample_time [sample_heartbeat; late_heartbeat]) empty_database []
    = Err (StoreError CodeWriteFailed).
Proof. repeat split; vm_compute; reflexivity. Qed.
