(* ===== verification/Base64.v ===== *)
(** * base64.RawURLEncoding and the decoding of cursors *)

From Stdlib Require Import ZArith Lia String Ascii.
From S2P Require Import Prelude GoStrings Utf8 GoTime GoJson.
Open Scope Z_scope.

#[local] Ltac Zify.zify_post_hook ::= Z.div_mod_to_equations.

(** ** The alphabet A-Z a-z 0-9 - _ *)
Definition b64_char (v : Z) : Z :=
  if v <? 26 then 65 + v else if v <? 52 then 71 + v else if v <? 62 then v - 4
  else if v =? 62 then 45 else 95.
Definition b64_value (c : Z) : option Z :=
  if in_range 65 90 c then Some (c - 65) else if in_range 97 122 c then Some (c - 71)
  else if in_range 48 57 c then Some (c + 4) else if c =? 45 then Some 62
  else if c =? 95 then Some 63 else None.

Fixpoint b64_encode (l : list Z) : list Z :=
  match l with
  | a :: b :: c :: t =>
    b64_char (a / 4) :: b64_char (a mod 4 * 16 + b / 16) :: b64_char (b mod 16 * 4 + c / 64)
      :: b64_char (c mod 64) :: b64_encode t
  | [a; b] => [b64_char (a / 4); b64_char (a mod 4 * 16 + b / 16); b64_char (b mod 16 * 4)]
  | [a] => [b64_char (a / 4); b64_char (a mod 4 * 16)]
  | [] => []
  end.

(** Carriage returns and line feeds are skipped; the unused bits of a last
    quantum are not looked at. *)
Fixpoint b64_quanta (l : list Z) : option (list Z) :=
  match l with
  | w :: x :: y :: z :: t =>
    let! w := b64_value w in let! x := b64_value x in
    let! y := b64_value y in let! z := b64_value z in
    let! r := b64_quanta t in
    Some (w * 4 + x / 16 :: x mod 16 * 16 + y / 4 :: y mod 4 * 64 + z :: r)
  | [w; x; y] =>
    let! w := b64_value w in let! x := b64_value x in let! y := b64_value y in
    Some [w * 4 + x / 16; x mod 16 * 16 + y / 4]
  | [w; x] => let! w := b64_value w in let! x := b64_value x in Some [w * 4 + x / 16]
  | [_] => None
  | [] => Some []
  end.

Definition EncodeToString (s : string) : string := of_bytes (b64_encode (bytes s)).
Definition DecodeString (s : string) : option string :=
  option_map of_bytes (b64_quanta (List.filter (fun c => negb ((c =? 10) || (c =? 13))) (bytes s))).

(** ** Round trip *)
Lemma b64_value_char (v : Z) : 0 <= v < 64 -> b64_value (b64_char v) = Some v.
Proof.
  intros H. unfold b64_char, b64_value, in_range.
  repeat (case_match; to_prop; try lia; try (f_equal; lia)).
Qed.

Lemma b64_char_range (v : Z) : 0 <= v < 64 -> 45 <= b64_char v <= 122.
Proof. intros H. unfold b64_char. repeat case_match; to_prop; lia. Qed.

Definition byte_list (l : list Z) : Prop := Forall (fun b => 0 <= b <= 255) l.

Lemma b64_induction (P : list Z -> Prop) :
  P [] -> (forall a, P [a]) -> (forall a b, P [a; b]) ->
  (forall a b c t, P t -> P (a :: b :: c :: t)) -> forall l, P l.
Proof.
  intros H0 H1 H2 H3. fix IH 1. intros [|a [|b [|c t]]]; [done|apply H1|apply H2|apply H3, IH].
Qed.

Lemma b64_quanta_encode (l : list Z) : byte_list l -> b64_quanta (b64_encode l) = Some l.
Proof.
  induction l as [|a|a b|a b c t IH] using b64_induction; intros H; [done|..];
    unfold byte_list in *; rewrite ?Forall_cons in H; cbn [b64_encode b64_quanta].
  - destruct H as [Ha _]. rewrite !b64_value_char by lia. cbn [obind]. do 2 f_equal. lia.
  - destruct H as (Ha & Hb & _). rewrite !b64_value_char by lia. cbn [obind].
    f_equal. f_equal; [lia|]. f_equal. lia.
  - destruct H as (Ha & Hb & Hc & Ht). rewrite !b64_value_char by lia. cbn [obind].
    rewrite IH by done. cbn [obind]. f_equal. f_equal; [lia|]. f_equal; [lia|]. f_equal; lia.
Qed.

Lemma b64_encode_range (l : list Z) : byte_list l -> Forall (fun c => 45 <= c <= 122) (b64_encode l).
Proof.
  induction l as [|a|a b|a b c t IH] using b64_induction; intros H; [constructor|..];
    unfold byte_list in *; rewrite ?Forall_cons in H; cbn [b64_encode];
    repeat (constructor; [apply b64_char_range; lia|]); [constructor|constructor|].
  apply IH. tauto.
Qed.

Lemma byte_list_bytes (s : string) : byte_list (bytes s).
Proof.
  induction s as [|a s IH]; [constructor|]. constructor; [|done]. pose proof (code_range a). lia.
Qed.

Lemma filter_all {A} (f : A -> bool) (l : list A) :
  Forall (fun x => f x = true) l -> List.filter f l = l.
Proof. induction 1 as [|x l Hx _ IH]; simpl; [done|]. rewrite Hx. by f_equal. Qed.

Lemma DecodeString_EncodeToString (s : string) : DecodeString (EncodeToString s) = Some s.
Proof.
  unfold DecodeString, EncodeToString.
  pose proof (b64_encode_range _ (byte_list_bytes s)) as Hr.
  rewrite bytes_of_bytes by (eapply Forall_impl; [exact Hr|]; simpl; lia).
  rewrite filter_all.
  - rewrite b64_quanta_encode by apply byte_list_bytes. simpl. by rewrite of_bytes_bytes.
  - eapply Forall_impl; [exact Hr|]. intros c Hc. simpl in Hc.
    destruct (Z.eqb_spec c 10), (Z.eqb_spec c 13); try done; lia.
Qed.

Lemma length_b64_encode (l : list Z) :
  Z.of_nat (length (b64_encode l)) = (4 * Z.of_nat (length l) + 2) / 3.
Proof.
  induction l as [|a|a b|a b c t IH] using b64_induction; [done|done|done|].
  cbn [b64_encode length]. lia.
Qed.

(** ** Decoding a struct with [DisallowUnknownFields]

    A key names a field exactly or up to case folding; [null] leaves the field,
    and a later key overrides an earlier one. *)
Fixpoint fold_name (l : list Z) : list Z :=
  match l with
  | 197 :: 191 :: t => 115 :: fold_name t                (* U+017F *)
  | 226 :: 132 :: 170 :: t => 107 :: fold_name t         (* U+212A *)
  | c :: t => (if in_range 65 90 c then c + 32 else c) :: fold_name t
  | [] => []
  end.
Definition names_field (name key : string) : bool :=
  String.eqb key name || bool_decide (fold_name (bytes key) = fold_name (bytes name)).

Definition known_fields (names : list string) (ms : list (string * json)) : bool :=
  forallb (fun kv => existsb (fun n => names_field n (fst kv)) names) ms.
Definition field_values (name : string) (ms : list (string * json)) : list json :=
  map snd (List.filter (fun kv => names_field name (fst kv)) ms).

Fixpoint decode_last {A} (dec : json -> option A) (zero : A) (l : list json) : option A :=
  match l with
  | [] => Some zero
  | JNull :: l' => decode_last dec zero l'
  | v :: l' => let! x := dec v in decode_last dec x l'
  end.
Definition int_of (v : json) : option Z := match v with JNum t => parse_int t | _ => None end.
Definition string_of (v : json) : option string := match v with JStr s => Some s | _ => None end.
Definition bool_of (v : json) : option bool := match v with JBool b => Some b | _ => None end.

(** The members of the object a struct is decoded from; [null] is an empty one. *)
Definition struct_members (v : json) : option (list (string * json)) :=
  match v with JObj ms => Some ms | JNull => Some [] | _ => None end.
