(* ===== verification/FlatJson.v ===== *)
(** * Flat structs read back

    What [json.Marshal] writes for a struct of integers and plain strings, the
    decoder reads back: the lemma behind the round trips of the cursors. *)

From Stdlib Require Import ZArith Lia String Ascii.
From S2P Require Import Prelude GoStrings Utf8 GoTime GoJson Marshal.
Open Scope string_scope.
Open Scope list_scope.
Open Scope Z_scope.

#[local] Ltac Zify.zify_post_hook ::= Z.div_mod_to_equations.

(** ** Integers in decimal *)
Lemma num_digits_bound (f : nat) (z : Z) :
  0 <= z < 10 ^ Z.of_nat (S f) -> z < 10 ^ Z.of_nat (num_digits f z).
Proof.
  revert z. induction f as [|f IH]; intros z Hz; cbn [num_digits]; [lia|].
  destruct (Z.ltb_spec z 10); [cbn; lia|].
  rewrite (Nat2Z.inj_succ (num_digits _ _)), Z.pow_succ_r by lia.
  assert (Hz' : 0 <= z / 10 < 10 ^ Z.of_nat (S f)).
  { rewrite (Nat2Z.inj_succ (S f)), (Z.pow_succ_r 10 (Z.of_nat (S f))) in Hz by lia. lia. }
  specialize (IH (z / 10) Hz'). lia.
Qed.

Lemma num_digits_pos (f : nat) (z : Z) : exists n, num_digits f z = S n.
Proof. destruct f; cbn [num_digits]; [eauto|]. case_match; eauto. Qed.

Lemma log2_fuel (a : Z) : 0 <= a -> a < 10 ^ Z.of_nat (S (Z.to_nat (Z.log2 a))).
Proof.
  intros Ha. rewrite Nat2Z.inj_succ, Z2Nat.id by apply Z.log2_nonneg.
  destruct (Z.eq_dec a 0) as [->|]; [done|].
  pose proof (Z.log2_spec a ltac:(lia)) as [_ H]. eapply Z.lt_le_trans; [exact H|].
  apply Z.pow_le_mono_l. lia.
Qed.

(** The digits of a positive number do not start with a zero. *)
Lemma digits_head_nonzero (f : nat) (z : Z) (s : string) :
  1 <= z < 10 ^ Z.of_nat (S f) ->
  exists c t, digits_pad (num_digits f z) z +:+ s = String c t /\ is_digit c = true /\ c <> "0"%char.
Proof.
  revert z s. induction f as [|f IH]; intros z s Hz; cbn [num_digits].
  - change (10 ^ Z.of_nat 1) with 10 in Hz. cbn [digits_pad]. rewrite sapp_nil.
    eexists _, _. split; [reflexivity|]. destruct (digit_chr (z mod 10)) as [Hd Hv]; [lia|].
    split; [done|]. intros E. rewrite E in Hv. change (digit_val "0"%char) with 0 in Hv. lia.
  - destruct (Z.ltb_spec z 10).
    + cbn [digits_pad]. rewrite sapp_nil. eexists _, _. split; [reflexivity|].
      destruct (digit_chr (z mod 10)) as [Hd Hv]; [lia|]. split; [done|].
      intros E. rewrite E in Hv. change (digit_val "0"%char) with 0 in Hv. lia.
    + rewrite digits_pad_succ. apply IH.
      rewrite (Nat2Z.inj_succ (S f)), (Z.pow_succ_r 10 (Z.of_nat (S f))) in Hz by lia. lia.
Qed.

Lemma parse_int_format_int (z : Z) : int64_min <= z <= int64_max -> parse_int (format_int z) = Some z.
Proof.
  intros Hz. unfold format_int. set (a := Z.abs z).
  set (f := Z.to_nat (Z.log2 a)).
  assert (Ha : 0 <= a < 10 ^ Z.of_nat (num_digits f a)).
  { split; [lia|]. apply num_digits_bound. subst f. split; [lia|]. apply log2_fuel. lia. }
  destruct (num_digits_pos f a) as [n Hn]. rewrite Hn in *.
  pose proof (digits_val_pad (S n) a 0 "" Ha) as Hd. rewrite sappend_nil_r in Hd.
  destruct (digits_pad_head n a "") as (d & t & E & Hdig). rewrite sappend_nil_r in E.
  rewrite E in Hd |- *. rewrite Z.mul_0_l, Z.add_0_l in Hd.
  change (digits_val a "") with (Some a) in Hd.
  unfold parse_int, int64_min, int64_max in *.
  destruct (Z.ltb_spec z 0).
  - rewrite Hd. assert (- a = z) as -> by lia.
    destruct (Z.leb_spec (-9223372036854775808) z); [|lia].
    destruct (Z.leb_spec z 9223372036854775807); [done|lia].
  - rewrite (digit_not_sign d t Hdig), Hd. assert (a = z) as -> by lia.
    destruct (Z.leb_spec (-9223372036854775808) z); [|lia].
    destruct (Z.leb_spec z 9223372036854775807); [done|lia].
Qed.

(** ** Scanning *)
Lemma all_digits_app (s t : string) : all_digits (s +:+ t) = all_digits s && all_digits t.
Proof. induction s as [|a s IH]; [done|]. rewrite sapp_cons. cbn [all_digits]. by rewrite IH, andb_assoc. Qed.
Lemma all_digits_pad (n : nat) (z : Z) : 0 <= z -> all_digits (digits_pad n z) = true.
Proof.
  revert z. induction n as [|n IH]; intros z Hz; [done|]. cbn [digits_pad].
  rewrite all_digits_app, IH by lia. cbn [all_digits]. destruct (digit_chr (z mod 10)) as [-> _]; [lia|done].
Qed.
Lemma span_digits_pad (n : nat) (z : Z) (c : ascii) (s : string) :
  0 <= z -> is_digit c = false ->
  span_digits (digits_pad n z +:+ String c s) = (digits_pad n z, String c s).
Proof. intros Hz Hc. apply span_all_digits; [by apply all_digits_pad|exact Hc]. Qed.

Lemma number_format_int (z : Z) : number (format_int z).
Proof.
  unfold format_int. set (a := Z.abs z). set (f := Z.to_nat (Z.log2 a)).
  assert (Hi : integer_part (digits_pad (num_digits f a) a)).
  { destruct (Z.eq_dec a 0) as [E|E]; [left; subst f; rewrite E; reflexivity|]. right.
    destruct (digits_head_nonzero f a "") as (x & t & E1 & Hx & Hx0).
    { split; [lia|]. apply log2_fuel. lia. }
    rewrite sappend_nil_r in E1. exists x, t. split; [done|]. split; [|done].
    split; [by apply all_digits_pad; lia|by rewrite E1]. }
  exists (if z <? 0 then "-" else ""), (digits_pad (num_digits f a) a), "", "".
  split; [|split; [by destruct (z <? 0); [right|left]|split; [done|split; by left]]].
  destruct (z <? 0); by rewrite sapp_nil, sappend_nil_r.
Qed.

(** ** Plain strings: printable ASCII without escapes *)
Definition plain_char (a : ascii) : bool :=
  (32 <=? code a) && (code a <? 127) && negb (code a =? 34) && negb (code a =? 92)
  && negb (code a =? 60) && negb (code a =? 62) && negb (code a =? 38).
Fixpoint plain (s : string) : bool :=
  match s with EmptyString => true | String a s' => plain_char a && plain s' end.

Lemma plain_app (s t : string) : plain (s +:+ t) = plain s && plain t.
Proof. induction s as [|a s IH]; [done|]. rewrite sapp_cons. simpl. by rewrite IH, andb_assoc. Qed.

Lemma utf8_plain (s : string) : plain s = true -> utf8 s.
Proof.
  induction s as [|a s IH]; intros H; [apply utf8_nil|]. simpl in H. to_prop. apply utf8_cons; [|by apply IH].
  unfold plain_char in H. to_prop. lia.
Qed.

Lemma runes_plain (s : string) : plain s = true ->
  runes_w (bytes s) = map (fun b => (b, 1%nat)) (bytes s).
Proof.
  unfold runes_w. enough (forall f, plain s = true -> (length (bytes s) <= f)%nat ->
    runes_fuel f (bytes s) = map (fun b => (b, 1%nat)) (bytes s)) as H by (intros; by apply H).
  induction s as [|a s IH]; intros [|f] H Hf; simpl in *; try done; try lia.
  to_prop. unfold plain_char in H. to_prop.
  destruct (Z.ltb_spec (code a) 128); [|lia]. cbn. f_equal. apply IH; [done|lia].
Qed.

Lemma quote_plain (s : string) : plain s = true ->
  quote_string s = String quote (s +:+ String quote "").
Proof.
  intros H. unfold quote_string. rewrite runes_plain by done. f_equal.
  induction s as [|a s IH]; [done|]. simpl in H. to_prop. cbn [bytes map fold_right].
  rewrite IH, sapp_cons by done. unfold plain_char in H. to_prop. unfold escape_rune, encode_rune, rune_error.
  repeat match goal with
  | |- context [?x =? ?y] => destruct (Z.eqb_spec x y); [lia|]
  end.
  repeat match goal with
  | |- context [?x <? ?y] => destruct (Z.ltb_spec x y); try lia
  end.
  destruct (Z.leb_spec 0 (code a)); [|lia]. cbn [orb andb of_bytes].
  by rewrite chr_code, sapp_cons, sapp_nil.
Qed.

Lemma is_digit_plain (a : ascii) : is_digit a = true -> plain_char a = true.
Proof.
  unfold is_digit, plain_char. intros H. to_prop.
  repeat match goal with |- context [?x =? ?y] => destruct (Z.eqb_spec x y); [lia|] end.
  destruct (Z.leb_spec 32 (code a)), (Z.ltb_spec (code a) 127); try lia.
Qed.

Lemma plain_digits (n : nat) (z : Z) : 0 <= z -> plain (digits_pad n z) = true.
Proof.
  revert z. induction n as [|n IH]; intros z Hz; [done|]. cbn [digits_pad].
  rewrite plain_app, IH by lia. simpl. rewrite is_digit_plain; [done|]. apply digit_chr. lia.
Qed.

(** ** Flat structs *)
Inductive flat_value : json -> Prop :=
  | flat_int z : flat_value (JNum (format_int z))
  | flat_str s : plain s = true -> flat_value (JStr s).

Definition flat_fields (ms : list (string * json)) : Prop :=
  Forall (fun kv => plain (fst kv) = true /\ flat_value (snd kv)) ms.

Lemma flat_written (v : json) : flat_value v -> written v.
Proof. intros [z|s Hs]; (constructor; [|constructor]); [apply number_format_int|by apply utf8_plain]. Qed.
Lemma flat_sorted (v : json) : flat_value v -> sorted v = v.
Proof. by intros [z|s Hs]. Qed.

(** A marshalled flat struct is the document with its fields. *)
Lemma unmarshal_marshal_struct (ms : list (string * json)) : flat_fields ms -> unmarshal (marshal_struct ms) = Some (JObj ms).
Proof.
  intros Hf. assert (Es : map (fun kv : string * json => (fst kv, sorted (snd kv))) ms = ms).
  { induction Hf as [|[k v] ms [_ Hv] _ IH]; [done|]. cbn. by rewrite IH, flat_sorted. }
  apply parse_document_unmarshal. split.
  - rewrite marshal_struct_document, Es; [done|]. eapply Forall_impl; [exact Hf|]. intros kv [Hk Hv].
    split; [by apply utf8_plain|by apply flat_written].
  - clear Es. cbn [nesting]. enough (foldr Z.max 0 (map (fun kv : string * json => nesting (snd kv)) ms) = 0) as -> by lia.
    induction Hf as [|[k v] l [_ Hx] _ IH]; [done|]. cbn in *. rewrite IH. by destruct Hx.
Qed.

(** ** Lengths *)
Lemma slen_digits_pad (n : nat) (z : Z) : slen (digits_pad n z) = Z.of_nat n.
Proof. by rewrite slen_length, length_digits_pad. Qed.

Lemma slen_format_int (z : Z) : int64_min <= z <= int64_max -> slen (format_int z) <= 20.
Proof.
  intros Hz. unfold format_int. set (f := Z.to_nat _).
  assert (H : (num_digits f (Z.abs z) <= 19)%nat).
  { apply (num_digits_le f 18). unfold int64_min, int64_max in Hz.
    change (10 ^ Z.of_nat 19) with 10000000000000000000. lia. }
  case_match; cbn [slen]; rewrite slen_digits_pad; lia.
Qed.

Lemma slen_quote_plain (s : string) : plain s = true -> slen (quote_string s) = slen s + 2.
Proof. intros H. rewrite quote_plain by done. cbn [slen]. rewrite slen_app. cbn [slen]. lia. Qed.

Lemma slen_of_bytes (l : list Z) : slen (of_bytes l) = Z.of_nat (length l).
Proof. induction l as [|b l IH]; cbn [of_bytes slen length]; lia. Qed.
