(* ===== verification/GoTimeFacts.v ===== *)
(** * Times read back

    [time.Parse(time.RFC3339Nano, ...)] on the two formats the recorder writes,
    and the shape of those texts. *)

From Stdlib Require Import ZArith Lia String Ascii.
From S2P Require Import Prelude GoStrings GoTime GoJson FlatJson.
Open Scope string_scope.
Open Scope list_scope.
Open Scope Z_scope.

#[local] Ltac Zify.zify_post_hook ::= Z.div_mod_to_equations.

Lemma parse_nanoseconds_digits (n : nat) (z : Z) (s : string) :
  (1 <= n <= 9)%nat -> 0 <= z < 10 ^ Z.of_nat n ->
  parse_nanoseconds (String "." (digits_pad n z +:+ s)) (1 + n) = Some (z * 10 ^ Z.of_nat (9 - n)).
Proof.
  intros Hn Hz. unfold parse_nanoseconds. cbn [comma_or_period negb].
  replace (Nat.min (1 + n) 10) with (S n) by lia. rewrite sdrop_cons.
  change (sdrop 0 ?x) with x. replace (S n - 1)%nat with n by lia. rewrite stake_pad.
  destruct n as [|n]; [lia|]. rewrite parse_int_pad by lia.
  destruct (Z.ltb_spec z 0); [lia|]. reflexivity.
Qed.

(** The fraction and the zone that end a text. *)
Lemma parse_rfc3339nano_fraction (s : string) (c : civil) (n : nat) (z : Z) :
  parse_date_time s = Some (c, String "." (digits_pad n z +:+ "Z")) ->
  (1 <= n <= 9)%nat -> 0 <= z < 10 ^ Z.of_nat n -> valid_date (yr c) (mo c) (dy c) ->
  parse_rfc3339nano s = Some (instant_of (with_ns c (z * 10 ^ Z.of_nat (9 - n)))).
Proof.
  intros Hs Hn Hz Hd. unfold parse_rfc3339nano. rewrite Hs. cbn [obind].
  assert (Hhead : exists d t, digits_pad n z +:+ "Z" = String d t /\ is_digit d = true).
  { destruct n as [|n]; [lia|]. destruct (digits_pad_head n z "Z") as (d & t & E & Hdig). eauto. }
  destruct Hhead as (d & t & E & Hdig).
  assert (Hb : comma_or_period (String "." (digits_pad n z +:+ "Z"))
    && match sdrop 1 (String "." (digits_pad n z +:+ "Z")) with String a _ => is_digit a | _ => false end = true).
  { change (sdrop 1 (String "." ?x)) with x. rewrite E. cbn. exact Hdig. }
  rewrite Hb. change (sdrop 1 (String "." ?x)) with x.
  rewrite span_digits_pad by (done || lia). rewrite length_digits_pad, parse_nanoseconds_digits by done.
  cbn [obind parse_zone]. change (String.eqb "" "") with true. cbn [oguard].
  rewrite finish_date_ok by done. cbn [obind]. f_equal. lia.
Qed.

Lemma parse_rfc3339nano_fixed (t : time) : four_digit_year t -> parse_rfc3339nano (format_fixed t) = Some t.
Proof.
  intros Hy. unfold four_digit_year in Hy. rewrite <- yr_civil_of in Hy.
  pose proof (civil_of_spec t) as (Dt & Ct & Et). cbv zeta in *.
  rewrite (parse_rfc3339nano_fraction _ (with_ns (civil_of t) 0) 9 (ns (civil_of t))).
  - rewrite with_ns_twice. change (9 - 9)%nat with 0%nat. rewrite Z.mul_1_r. by rewrite with_ns_same, Et.
  - unfold format_fixed. cbv zeta. by rewrite parse_date_time_format, sapp_cons, sapp_nil.
  - lia.
  - apply Ct.
  - done.
Qed.

Lemma trim_zeros_spec (fuel n : nat) (z : Z) : (n <= fuel)%nat -> 0 < z < 10 ^ Z.of_nat n ->
  exists m z', trim_zeros fuel n z = String "." (digits_pad m z') /\ (1 <= m <= n)%nat
    /\ 0 <= z' < 10 ^ Z.of_nat m /\ z = z' * 10 ^ Z.of_nat (n - m).
Proof.
  revert n z. induction fuel as [|fuel IH]; intros n z Hf Hz.
  - assert (n = 0%nat) as -> by lia. cbn in Hz. lia.
  - cbn [trim_zeros]. destruct n as [|n]; [cbn in Hz; lia|].
    rewrite Nat2Z.inj_succ, Z.pow_succ_r in Hz by lia.
    destruct (Z.eqb_spec (z mod 10) 0) as [E|E].
    + destruct (IH n (z / 10)) as (m & z' & Et & Hm & Hz' & Ez); [lia|lia|].
      exists m, z'. replace (S n - 1)%nat with n by lia. split; [done|]. split; [lia|]. split; [done|].
      replace (S n - m)%nat with (S (n - m)) by lia. rewrite Nat2Z.inj_succ, Z.pow_succ_r by lia. lia.
    + exists (S n), z. split; [done|]. split; [lia|]. rewrite Nat2Z.inj_succ, Z.pow_succ_r by lia.
      replace (S n - S n)%nat with 0%nat by lia. change (10 ^ Z.of_nat 0) with 1. lia.
Qed.

Lemma parse_rfc3339nano_format (t : time) : four_digit_year t -> parse_rfc3339nano (format_rfc3339nano t) = Some t.
Proof.
  intros Hy. unfold four_digit_year in Hy. rewrite <- yr_civil_of in Hy.
  pose proof (civil_of_spec t) as (Dt & Ct & Et). cbv zeta in *.
  unfold format_rfc3339nano. cbv zeta. destruct (Z.eqb_spec (ns (civil_of t)) 0) as [E|E].
  - unfold parse_rfc3339nano. rewrite sapp_nil, parse_date_time_format by done. cbn [obind comma_or_period andb].
    cbn [parse_zone obind]. change (String.eqb "" "") with true. cbn [oguard]. rewrite with_ns_twice.
    rewrite finish_date_ok by done. cbn [obind]. pose proof (with_ns_same (civil_of t)) as Hsame. rewrite E in Hsame.
    rewrite Hsame, Et. f_equal. lia.
  - destruct Ct as (? & ? & ? & Hns). destruct (trim_zeros_spec 10 9 (ns (civil_of t))) as (m & z & Etr & Hm & Hz & Ez).
    { lia. } { change (10 ^ Z.of_nat 9) with second. lia. }
    rewrite (parse_rfc3339nano_fraction _ (with_ns (civil_of t) 0) m z); [|..|done]; [|..|done|done].
    + by rewrite with_ns_twice, <- Ez, with_ns_same, Et.
    + by rewrite Etr, parse_date_time_format, sapp_cons.
Qed.

(** ** Which trimmed texts are in the fixed layout *)
Lemma digits_val_letter s acc : digits_val acc (s ++ "Z")%string = None.
Proof.
  revert acc. induction s as [|a s IH]; intros acc; [done|]. rewrite sapp_cons. cbn [digits_val].
  by destruct (is_digit a).
Qed.
Lemma parse_int_letter s : parse_int (s ++ "Z")%string = None.
Proof.
  destruct s as [|a s]; [done|]. rewrite sapp_cons. unfold parse_int.
  assert (Hc : forall c, digits_val 0 (String c (s ++ "Z")%string) = None).
  { intros c. by rewrite <- sapp_cons, digits_val_letter. }
  destruct a as [[] [] [] [] [] [] [] []]; cbv iota beta;
    first [by rewrite Hc | rewrite digits_val_letter; by destruct (s ++ "Z")%string].
Qed.

(** The two texts of a time: the trimmed one has nine digits or is shorter. *)
Lemma format_rfc3339nano_shape (t : time) : exists frac,
  format_rfc3339nano t = (date_time_string (civil_of t) ++ frac ++ "Z")%string /\
  (frac = "" \/ exists m z, frac = String "." (digits_pad m z) /\ (1 <= m <= 9)%nat /\ 0 <= z /\
     (m = 9%nat -> format_rfc3339nano t = format_fixed t)).
Proof.
  pose proof (civil_of_spec t) as (_ & Ct & _). cbv zeta in Ct. unfold format_rfc3339nano, format_fixed. cbv zeta.
  destruct (Z.eqb_spec (ns (civil_of t)) 0) as [E|E]; [exists ""; split; [done|by left]|].
  destruct Ct as (? & ? & ? & Hns). destruct (trim_zeros_spec 10 9 (ns (civil_of t))) as (m & z & Etr & Hm & Hz & Ez).
  { lia. } { change (10 ^ Z.of_nat 9) with second. lia. }
  eexists. split; [done|]. right. exists m, z. split; [done|]. split; [done|]. split; [lia|]. intros ->.
  rewrite Etr. change (9 - 9)%nat with 0%nat in Ez. change (10 ^ Z.of_nat 0) with 1 in Ez.
  assert (z = ns (civil_of t)) as -> by lia. by rewrite sapp_cons.
Qed.

Lemma parse_fixed_trimmed (t : time) : four_digit_year t ->
  parse_fixed (format_rfc3339nano t) = None \/ format_rfc3339nano t = format_fixed t.
Proof.
  intros Hy. destruct (format_rfc3339nano_shape t) as (frac & E & Hf).
  unfold four_digit_year in Hy. rewrite <- yr_civil_of in Hy.
  pose proof (civil_of_spec t) as (Dt & Ct & _). cbv zeta in *.
  destruct Hf as [->|(m & z & -> & Hm & Hz & H9)].
  { left. rewrite E. unfold parse_fixed. by rewrite parse_date_time_format. }
  destruct (decide (m = 9%nat)) as [Em|Em]; [right; by apply H9|]. left. rewrite E. unfold parse_fixed.
  rewrite parse_date_time_format by done. cbn [obind].
  rewrite sapp_cons. cbn [String.length]. rewrite string_length_app, length_digits_pad. cbn [String.length].
  destruct (decide (m = 8%nat)) as [->|Hne].
  - change (10 <=? S (8 + 1))%nat with true. cbn [oguard]. unfold parse_nanoseconds. cbn [comma_or_period negb].
    change (Nat.min 10 10 - 1)%nat with 9%nat. rewrite sdrop_cons. change (sdrop 0 ?x) with x.
    assert (Hs : forall u, String.length u = 9%nat -> stake 9 u = u).
    { intros u Hu. rewrite <- Hu. clear. induction u as [|b u IH]; [done|]. cbn. f_equal. exact IH. }
    rewrite Hs by (by rewrite string_length_app, length_digits_pad). by rewrite parse_int_letter.
  - destruct (Nat.leb_spec 10 (S (m + 1))); [lia|]. done.
Qed.

Lemma plain_format_rfc3339nano (t : time) : four_digit_year t ->
  plain (format_rfc3339nano t) = true /\ slen (format_rfc3339nano t) <= 30.
Proof.
  intros Hy. destruct (format_rfc3339nano_shape t) as (frac & -> & Hf).
  unfold four_digit_year in Hy. rewrite <- yr_civil_of in Hy.
  pose proof (civil_of_spec t) as (Dt & Ct & _). cbv zeta in *. destruct (month_lt_100 _ _ _ Dt). destruct Ct as (? & ? & ? & ?).
  assert (Hfrac : plain frac = true /\ slen frac <= 10).
  { destruct Hf as [->|(m & z & -> & Hm & Hz & _)]; [done|]. cbn [plain slen]. rewrite plain_digits, slen_digits_pad by done.
    split; [done|lia]. }
  destruct Hfrac as [Hp Hl]. unfold date_time_string. rewrite format_year_pad by lia.
  rewrite !plain_app, !plain_digits, Hp by lia. split; [done|]. rewrite !slen_app, !slen_digits_pad. cbn [slen]. lia.
Qed.

(** ** The order of the trimmed format *)

(** Texts whose fraction is trimmed compare as their seconds do; within a second
    they need not: [.5Z] is above [.51Z]. *)
Lemma format_rfc3339nano_second (s t : time) : four_digit_year s -> four_digit_year t ->
  String.ltb (format_rfc3339nano s) (format_rfc3339nano t) = true -> s < t + second.
Proof.
  unfold four_digit_year, String.ltb, format_rfc3339nano, date_time_string. intros Hs Ht.
  rewrite <- yr_civil_of in Hs, Ht.
  pose proof (civil_of_spec s) as (Ds & Cs & Es). pose proof (civil_of_spec t) as (Dt & Ct & Et).
  cbv zeta. set (a := civil_of s) in *. set (b := civil_of t) in *. clearbody a b.
  rewrite !format_year_pad by lia. rewrite <- Es, <- Et.
  destruct (month_lt_100 _ _ _ Ds), (month_lt_100 _ _ _ Dt).
  pose proof (instant_compare (with_ns a 0) (with_ns b 0)) as Hc. unfold with_ns, valid_clock in Hc, Cs, Ct.
  cbn [yr mo dy hr mi se ns] in Hc. unfold second in *.
  destruct Cs as (? & ? & ? & ?), Ct as (? & ? & ? & ?).
  assert (Ea : instant_of a = instant_of (with_ns a 0) + ns a) by (unfold instant_of, with_ns; cbn; lia).
  assert (Eb : instant_of b = instant_of (with_ns b 0) + ns b) by (unfold instant_of, with_ns; cbn; lia).
  unfold with_ns in Ea, Eb. rewrite Ea, Eb. revert Hc.
  rewrite !sappend_assoc. generalize ((if (ns a =? 0)%Z then "" else trim_zeros 10 9 (ns a)) ++ "Z")%string.
  generalize ((if (ns b =? 0)%Z then "" else trim_zeros 10 9 (ns b)) ++ "Z")%string. intros y x Hc.
  repeat (rewrite scompare_digits by (cbn; lia); rewrite ?scompare_same).
  specialize (Hc Ds ltac:(lia) Dt ltac:(lia)). revert Hc.
  destruct (yr a ?= yr b), (mo a ?= mo b), (dy a ?= dy b), (hr a ?= hr b), (mi a ?= mi b), (se a ?= se b);
    cbn [lex]; intros Hc; try discriminate; intros _; symmetry in Hc;
    first [rewrite Z.compare_eq_iff in Hc|rewrite Z.compare_lt_iff in Hc]; lia.
Qed.

(** ** The shape of the fixed format *)
Lemma plain_format_fixed (t : time) : four_digit_year t -> plain (format_fixed t) = true.
Proof.
  intros Hy. unfold four_digit_year in Hy. rewrite <- yr_civil_of in Hy.
  pose proof (civil_of_spec t) as (Dt & Ct & _). cbv zeta in *. destruct (month_lt_100 _ _ _ Dt). destruct Ct as (? & ? & ? & ?).
  unfold format_fixed, date_time_string. cbv zeta. rewrite format_year_pad by lia.
  rewrite !plain_app, !plain_digits by lia. done.
Qed.

Lemma slen_format_fixed (t : time) : four_digit_year t -> slen (format_fixed t) = 30.
Proof.
  intros Hy. unfold four_digit_year in Hy. rewrite <- yr_civil_of in Hy.
  unfold format_fixed, date_time_string. cbv zeta. rewrite format_year_pad by lia.
  rewrite !slen_app, !slen_digits_pad. done.
Qed.

(** ** The years of four digits are an interval *)
Lemma year_of_mono (a b : Z) : a <= b -> year_of a <= year_of b.
Proof.
  intros H. pose proof (year_of_spec a). pose proof (year_of_spec b).
  destruct (Z.le_gt_cases (year_of a) (year_of b)) as [?|Hlt]; [done|].
  pose proof (days_before_year_lt _ _ Hlt). lia.
Qed.

Lemma four_digit_between (a t b : time) : a <= t <= b -> four_digit_year a -> four_digit_year b -> four_digit_year t.
Proof.
  unfold four_digit_year. intros [H1 H2] Ha Hb. assert (Hd : 0 < day_ns) by reflexivity.
  pose proof (year_of_mono _ _ (Z.div_le_mono _ _ _ Hd H1)).
  pose proof (year_of_mono _ _ (Z.div_le_mono _ _ _ Hd H2)). lia.
Qed.

Lemma fixed_lt (s t : time) : four_digit_year s -> four_digit_year t ->
  String.ltb (format_fixed s) (format_fixed t) = (s <? t).
Proof.
  intros Hs Ht. unfold String.ltb. rewrite format_fixed_compare by done. by rewrite Z.ltb_compare.
Qed.

(** ** Characters of a plain text *)
Lemma text_length_plain (s : string) : plain s = true -> Z.of_nat (length (runes s)) = slen s.
Proof.
  intros H. unfold runes. rewrite runes_plain by done. rewrite <- length_bytes, !length_map. done.
Qed.
