(* ===== verification/Canonical.v ===== *)
(** * Canonical payloads ([parsePayload], [prepare] of [eventstore/event.go])

    The text whose hash stands for a payload is a normal form: it is read back as
    the payload with its members in order, and two payloads have the same text
    exactly when they differ in the order of members only.  So two events have one
    content hash, short of a collision of SHA-256, exactly when they say the same. *)

From Stdlib Require Import ZArith Lia String Ascii.
From S2P Require Import Prelude GoStrings Utf8 GoTime GoJson Marshal Order Sha256 StrictJson FlatJson Sql Schema Keyed Events.
Open Scope string_scope.
Open Scope list_scope.
Open Scope result_scope.
Open Scope Z_scope.

(** ** The order of members *)

(** Two values that differ in the order of members only. *)
Inductive reordered : json -> json -> Prop :=
  | reordered_refl v : reordered v v
  | reordered_trans u v w : reordered u v -> reordered v w -> reordered u w
  | reordered_members l k : l ≡ₚ k -> reordered (JObj l) (JObj k)
  | reordered_element l v w k : reordered v w -> reordered (JArr (l ++ v :: k)) (JArr (l ++ w :: k))
  | reordered_member l key v w k : reordered v w -> reordered (JObj (l ++ (key, v) :: k)) (JObj (l ++ (key, w) :: k)).
#[export] Instance reordered_reflexive : Reflexive reordered := reordered_refl.
#[export] Instance reordered_transitive : Transitive reordered := reordered_trans.
#[export] Instance reordered_symmetric : Symmetric reordered.
Proof.
  induction 1 as [v|u v w _ IH1 _ IH2|l k H|l v w k _ IH|l key v w k _ IH];
    [apply reordered_refl|by eapply reordered_trans|by apply reordered_members|by apply reordered_element|by apply reordered_member].
Qed.

Lemma reordered_elements (p l k : list json) : Forall2 reordered l k -> reordered (JArr (p ++ l)) (JArr (p ++ k)).
Proof.
  intros H. revert p. induction H as [|v w l k Hv _ IH]; intros p; [done|].
  transitivity (JArr (p ++ w :: l)); [by apply reordered_element|].
  specialize (IH (p ++ [w])). by rewrite <- !app_assoc in IH.
Qed.
Lemma reordered_values (p l : list (string * json)) (f : json -> json) : Forall (fun kv => reordered (snd kv) (f (snd kv))) l ->
  reordered (JObj (p ++ l)) (JObj (p ++ map (fun kv => (fst kv, f (snd kv))) l)).
Proof.
  intros H. revert p. induction H as [|[key v] l Hv _ IH]; intros p; [done|]. cbn [map fst snd] in *.
  transitivity (JObj (p ++ (key, f v) :: l)); [by apply reordered_member|].
  specialize (IH (p ++ [(key, f v)])). by rewrite <- !app_assoc in IH.
Qed.
Lemma sorted_reordered (v : json) : reordered v (sorted v).
Proof.
  induction v as [| | | |l IH|l IH] using json_rect_strong; try done.
  - cbn [sorted]. apply (reordered_elements []). induction IH; constructor; done.
  - cbn [sorted]. etransitivity; [by apply (reordered_values [] l sorted)|].
    apply reordered_members. by rewrite sort_by_perm.
Qed.

Lemma dup_free_array l : dup_free (JArr l) <-> Forall dup_free l.
Proof. cbn [dup_free]. induction l as [|v l IH]; [split; [constructor|done]|]. cbn [foldr]. by rewrite Forall_cons, IH. Qed.
Lemma dup_free_object l : dup_free (JObj l) <-> NoDup (map fst l) /\ Forall (fun kv => dup_free (snd kv)) l.
Proof.
  cbn [dup_free]. enough (foldr (fun kv P => dup_free (snd kv) /\ P) True l <-> Forall (fun kv => dup_free (snd kv)) l) as -> by done.
  induction l as [|v l IH]; [split; [constructor|done]|]. cbn [foldr]. by rewrite Forall_cons, IH.
Qed.

(** With distinct keys the members have one order. *)
Lemma sort_members_perm (l k : list (string * json)) : l ≡ₚ k -> NoDup (map fst l) -> sort_by member_ltb l = sort_by member_ltb k.
Proof.
  intros Hp Hl. assert (Hk : NoDup (map fst k)) by by rewrite <- Hp.
  assert (E : forall m, sort_by member_ltb m = by_key String.compare fst m)
    by (intros m; apply sort_by_ext; intros x y; symmetry; apply before_string).
  rewrite !E. apply (sorted_perm_eq String.compare fst); [exact (by_key_strict String.compare fst l Hl)|exact (by_key_strict String.compare fst k Hk)|]. unfold by_key. by rewrite !sort_by_perm.
Qed.

Lemma reordered_sorted v w : reordered v w -> dup_free v -> dup_free w /\ sorted v = sorted w.
Proof.
  induction 1 as [v|u v w _ IH1 _ IH2|l k H|l v w k _ IH|l key v w k _ IH]; intros Hd.
  - done.
  - destruct (IH1 Hd) as [Hv ->]. by apply IH2.
  - apply dup_free_object in Hd as [Hn Hd]. split; [apply dup_free_object; by rewrite <- H|].
    by rewrite !sorted_object, (sort_members_perm l k).
  - rewrite dup_free_array, Forall_app, Forall_cons in Hd |- *. destruct Hd as (Hl & Hv & Hk).
    destruct (IH Hv) as [Hw E]. split; [done|]. cbn [sorted]. by rewrite !map_app, !map_cons, E.
  - rewrite dup_free_object, Forall_app, Forall_cons in Hd |- *. destruct Hd as (Hn & Hl & Hv & Hk).
    destruct (IH Hv) as [Hw E]. split; [by rewrite map_app in *|]. cbn [sorted]. rewrite !map_app, !map_cons. cbn [fst snd]. by rewrite E.
Qed.
Lemma max_nesting_perm {A} (f : A -> Z) l k : l ≡ₚ k -> foldr Z.max 0 (map f l) = foldr Z.max 0 (map f k).
Proof. induction 1; cbn; lia. Qed.
Lemma foldr_max_app l k : foldr Z.max 0 (l ++ k) = Z.max (foldr Z.max 0 l) (foldr Z.max 0 k).
Proof.
  induction l as [|x l IH]; cbn; [|lia]. enough (0 <= foldr Z.max 0 k) by lia. clear. induction k; cbn; lia.
Qed.
Lemma reordered_nesting v w : reordered v w -> nesting v = nesting w.
Proof.
  induction 1 as [v|u v w _ IH1 _ IH2|l k H|l v w k _ IH|l key v w k _ IH]; cbn [nesting]; try done.
  - congruence.
  - by rewrite (max_nesting_perm _ l k H).
  - rewrite !map_app, !map_cons, !foldr_max_app. cbn [foldr]. by rewrite IH.
  - rewrite !map_app, !map_cons, !foldr_max_app. cbn [foldr snd]. by rewrite IH.
Qed.

(** ** Canonical texts *)
Lemma marshal_sorted (v : json) : dup_free v -> marshal (sorted v) = marshal v.
Proof.
  induction v as [| | | |l IH|l IH] using json_rect_strong; intros Hd; try done.
  - apply dup_free_array in Hd. cbn [sorted marshal]. rewrite map_map. do 3 f_equal.
    induction IH as [|v l Hv _ IHl]; [done|]. inversion Hd; subst. cbn. by rewrite Hv, IHl.
  - apply dup_free_object in Hd as [Hn Hd]. rewrite sorted_object, !marshal_object. do 3 f_equal.
    rewrite (sort_by_map member_ltb) by done.
    rewrite (sort_members_perm (sort_by member_ltb l) l), map_map; [|by rewrite sort_by_perm|by rewrite sort_by_perm].
    apply map_ext_in. intros [key v] Hin. rewrite <- list_elem_of_In, elem_of_sort_by in Hin.
    rewrite Forall_forall in IH, Hd. pose proof (IH _ Hin (Hd _ Hin)) as E. cbn [snd] in E.
    unfold member_text. cbn [fst snd]. by rewrite E.
Qed.
Lemma canonical_iff (v w : json) : written v -> written w -> dup_free v -> dup_free w ->
  marshal v = marshal w <-> reordered v w.
Proof.
  intros Hv Hw Dv Dw. split.
  - intros E. pose proof (marshal_document v Hv) as Ev. rewrite E, marshal_document in Ev by done. injection Ev as Es.
    etransitivity; [apply sorted_reordered|]. rewrite <- Es. symmetry. apply sorted_reordered.
  - intros Hr. rewrite <- (marshal_sorted v), <- (marshal_sorted w) by done. by destruct (reordered_sorted v w Hr Dv) as [_ ->].
Qed.

(** A payload's canonical text is a payload: the same but for the order of members. *)
Lemma payload_canonical (raw : string) (m : Z) (v : json) : parsePayload raw m = Ok v ->
  parsePayload (marshal v) m = Ok (sorted v) /\ reordered v (sorted v) /\ marshal (sorted v) = marshal v.
Proof.
  rewrite !parsePayload_correct. intros (_ & Hp & [ms ->] & Hd & Hn). pose proof (sorted_reordered (JObj ms)) as Hr.
  pose proof (written_document _ _ Hp) as Hw. destruct (reordered_sorted _ _ Hr Hd) as [Hs _].
  split; [|split; [done|by apply marshal_sorted]].
  split; [by rewrite marshal_object|]. split; [by apply marshal_document|]. split; [by eexists|]. split; [done|].
  by rewrite <- (reordered_nesting _ _ Hr).
Qed.
Lemma payload_written (raw : string) (m : Z) (v : json) : parsePayload raw m = Ok v -> written v /\ dup_free v.
Proof. rewrite parsePayload_correct. intros (_ & Hp & _ & Hd & _). split; [by eapply written_document|done]. Qed.

(** ** The content of an event *)
Definition content_fields (e : preparedEvent) : list (string * json) :=
  [("schema_version", JNum (format_int (pe_SchemaVersion e)));
   ("collector_id", JStr (pe_CollectorID e)); ("event_type", JStr (pe_EventType e));
   ("device_timestamp_raw", JStr (pe_DeviceTimestampRaw e)); ("device_time_utc", JStr (pe_DeviceTimeUTC e));
   ("clock_offset_ms", JNum (format_int (pe_ClockOffsetMS e))); ("clock_error_ms", JNum (format_int (pe_ClockErrorMS e)));
   ("payload_hash", JStr (pe_PayloadHash e))].
Definition content_text (e : preparedEvent) : string := marshal_struct (content_fields e).

Lemma raw_members_written f d ms : raw_members f d = Some ms -> Forall (fun m => written (snd (snd m))) ms.
Proof.
  revert d ms. induction f as [|f IH]; intros d ms; cbn [raw_members]; [done|]. destruct (more d).
  - destruct (next_token d) as [| |t d1]; [done..|]. destruct t as [|k| | |]; try done. intros H. inv_opts H.
    injection H as <-. constructor; [by eapply parse_written|by eapply IH].
  - destruct (next_token d) as [| |t d1]; [done..|]. destruct t; try done. by intros [= <-].
Qed.
Lemma raw_object_written raw ms : raw_object raw = Some ms -> Forall (fun m => written (snd (snd m))) ms.
Proof.
  unfold raw_object. destruct (next_token _) as [| |t d]; [done..|]. destruct t as [c| | | |]; try done.
  destruct (ascii_dec c "{") as [->|Hc]; [apply raw_members_written|].
  destruct c as [[] [] [] [] [] [] [] []]; try done; by destruct Hc.
Qed.
Lemma string_field_utf8 k ms s : Forall (fun m => written (snd (snd m))) ms ->
  string_field (option_map snd (member (A := string * json) k ms)) = Some s -> utf8 s.
Proof.
  intros Hm. unfold member. destruct (find_last _ ms) as [[k' [x v]]|] eqn:E; [|intros [= <-]; apply utf8_nil].
  apply find_last_Some in E as [Hin _]. rewrite Forall_forall in Hm. specialize (Hm _ Hin). cbn in *.
  destruct v; try done; intros [= <-]; [apply utf8_nil|]. by inversion Hm.
Qed.

Lemma utf8_digits_pad n z : utf8 (digits_pad n z).
Proof.
  revert z. induction n as [|n IH]; intros z; [apply utf8_nil|]. cbn [digits_pad]. apply utf8_app; [done|].
  apply utf8_ascii. pose proof (Z.mod_pos_bound z 10 ltac:(lia)). rewrite code_chr; lia.
Qed.
Lemma utf8_format_rfc3339nano t : utf8 (format_rfc3339nano t).
Proof.
  assert (Hz : forall f n z, utf8 (trim_zeros f n z)).
  { induction f as [|f IH]; intros n z; [apply utf8_nil|]. cbn [trim_zeros]. destruct (z mod 10 =? 0); [done|].
    apply utf8_cons; [done|apply utf8_digits_pad]. }
  unfold format_rfc3339nano, date_time_string, format_year. repeat case_match;
    repeat first [apply utf8_digits_pad|apply utf8_nil|apply Hz|apply utf8_cons; [done|]|apply utf8_app].
Qed.
Lemma utf8_hex l : Forall (fun b => 0 <= b < 256) l -> utf8 (hex l).
Proof.
  assert (Hd : forall z, 0 <= z < 16 -> code (chr (if z <? 10 then 48 + z else 87 + z)) < 128)
    by (intros z Hz; destruct (z <? 10); rewrite code_chr; lia).
  induction 1 as [|b l Hb _ IH]; [apply utf8_nil|]. cbn [hex fold_right]. apply utf8_app; [|exact IH]. unfold hex_byte.
  apply utf8_cons; [apply Hd; split; [apply Z.div_pos; lia|apply Z.div_lt_upper_bound; lia]|].
  apply utf8_ascii, Hd. apply Z.mod_pos_bound. lia.
Qed.
Lemma utf8_sha256 s : utf8 (sha256_hex s).
Proof. apply utf8_hex, sha256_bytes_range. Qed.

(** What [prepare] puts into a row. *)
Definition int64 (z : Z) : Prop := int64_min <= z <= int64_max.
Definition presentable (e : preparedEvent) : Prop :=
  (utf8 (pe_CollectorID e) /\ utf8 (pe_EventType e) /\ utf8 (pe_DeviceTimestampRaw e) /\
   utf8 (pe_DeviceTimeUTC e) /\ utf8 (pe_PayloadHash e)) /\
  (int64 (pe_SchemaVersion e) /\ int64 (pe_ClockOffsetMS e) /\ int64 (pe_ClockErrorMS e)) /\
  Some (pe_DeviceTimeUTC e) = option_map format_rfc3339nano (parse_rfc3339nano (pe_DeviceTimestampRaw e)).
Lemma int64_small z : - 2 ^ 62 <= z <= 2 ^ 62 -> int64 z.
Proof. unfold int64, int64_min, int64_max. lia. Qed.
Lemma offset_range v : offset_ok v = true -> int64 (default 0 v).
Proof.
  destruct v as [z|]; cbn; [|done]. intros H. apply int64_small. unfold clock_offset_limit in H. to_prop. lia.
Qed.
Lemma clock_error_range v : clock_error_ok v = true -> int64 (default 0 v).
Proof.
  destruct v as [z|]; cbn; [|done]. intros H. apply int64_small. unfold clock_error_limit in H. to_prop. lia.
Qed.
Lemma decode_utf8 raw i : decodeEventInput raw = Some i ->
  utf8 (ei_CollectorID i) /\ utf8 (ei_EventType i) /\ utf8 (ei_DeviceTimestampRaw i).
Proof.
  unfold decodeEventInput. intros H. inv_opts H. injection H as <-. cbn.
  repeat split; (eapply string_field_utf8; [by eapply raw_object_written|eassumption]).
Qed.
Lemma prepare_content st raw t e : prepare st raw t = Ok e -> presentable e /\
  exists v, parsePayload (pe_PayloadJSON e) (maxPayloadDepth st) = Ok v /\
    pe_PayloadHash e = sha256_hex (marshal v) /\ pe_ContentHash e = sha256_hex (content_text e).
Proof.
  unfold prepare. cbv zeta. intros H. inv_oks H. injection H as <-.
  repeat match goal with
  | H : valid _ _ = Ok ?u |- _ => destruct u; apply valid_Ok in H
  | H : from_option _ _ = Ok _ |- _ => apply from_option_Ok in H
  end.
  split; [|eexists; split; [eassumption|done]]. unfold presentable. cbn.
  match goal with H : decodeEventInput _ = Some _ |- _ => apply decode_utf8 in H as (H1 & H2 & H3) end.
  match goal with H : parse_rfc3339nano _ = Some _ |- _ => rewrite H end.
  match goal with H : (ei_SchemaVersion _ =? _) = true |- _ => apply Z.eqb_eq in H as -> end.
  split; [repeat split; try done; [apply utf8_format_rfc3339nano|apply utf8_sha256]|].
  split; [|done]. split; [by apply int64_small|]. split; [by apply offset_range|by apply clock_error_range].
Qed.

(** *** Texts of contents *)
Lemma content_fields_written e : presentable e -> Forall (fun kv => utf8 (fst kv) /\ written (snd kv)) (content_fields e).
Proof.
  intros [(H1 & H2 & H3 & H4 & H5) _].
  repeat constructor; cbn [fst snd]; try (by apply utf8_plain); try done; apply number_format_int.
Qed.
Lemma format_int_inj a b : int64 a -> int64 b -> format_int a = format_int b -> a = b.
Proof.
  intros Ha Hb E. apply parse_int_format_int in Ha, Hb. rewrite E, Hb in Ha. by injection Ha as ->.
Qed.
(** Two events say the same, up to their payloads. *)
Definition same_fields (e f : preparedEvent) : Prop :=
  pe_SchemaVersion e = pe_SchemaVersion f /\ pe_CollectorID e = pe_CollectorID f /\ pe_EventType e = pe_EventType f /\
  pe_DeviceTimestampRaw e = pe_DeviceTimestampRaw f /\ pe_ClockOffsetMS e = pe_ClockOffsetMS f /\
  pe_ClockErrorMS e = pe_ClockErrorMS f.
Lemma content_text_iff e f : presentable e -> presentable f ->
  content_text e = content_text f <-> same_fields e f /\ pe_PayloadHash e = pe_PayloadHash f.
Proof.
  intros He Hf. pose proof (marshal_struct_document _ (content_fields_written e He)) as De.
  pose proof (marshal_struct_document _ (content_fields_written f Hf)) as Df.
  destruct He as (_ & (Ve & Oe & Ce) & Te), Hf as (_ & (Vf & Of & Cf) & Tf). unfold same_fields. split.
  - intros E. unfold content_text in E. rewrite E, Df in De. cbn [map fst snd content_fields sorted] in De.
    injection De as E1 E2 E3 E4 _ E6 E7 E8. repeat split; try done; by apply format_int_inj.
  - intros [(E1 & E2 & E3 & E4 & E6 & E7) E8]. rewrite E4, <- Tf in Te. injection Te as E5.
    unfold content_text, content_fields. by rewrite E1, E2, E3, E4, E5, E6, E7, E8.
Qed.

(** ** What a content hash stands for *)
Definition collide (x y : string) : Prop := x <> y /\ sha256_hex x = sha256_hex y.

(** C18: the canonical text of a payload is a payload again, the same but for the
    order of the members of its objects, and has itself as its canonical text; two
    payloads, of any two requests, have the same canonical text exactly when they
    differ in the order of members only. *)
Theorem payload_normal_form (raw1 raw2 : string) (m1 m2 : Z) (v1 v2 : json)
    (H1 : parsePayload raw1 m1 = Ok v1) (H2 : parsePayload raw2 m2 = Ok v2) :
  parsePayload (marshal v1) m1 = Ok (sorted v1) /\ reordered v1 (sorted v1) /\ marshal (sorted v1) = marshal v1 /\
  (marshal v1 = marshal v2 <-> reordered v1 v2).
Proof.
  destruct (payload_canonical _ _ _ H1) as (Hp & Hr & Hm). split; [done|]. split; [done|]. split; [done|].
  destruct (payload_written _ _ _ H1), (payload_written _ _ _ H2). by apply canonical_iff.
Qed.

(** C7: two events a store accepts have the same content hash exactly when they have
    the same schema version, collector, type, device time as written, clock offset and
    error, and payloads that differ in the order of members only; or else one of two
    pairs of different texts, their canonical payloads or their contents, is a
    collision of SHA-256. *)
Theorem content_hash_exact st raw1 raw2 t1 t2 e1 e2
    (H1 : prepare st raw1 t1 = Ok e1) (H2 : prepare st raw2 t2 = Ok e2) :
  exists v1 v2, parsePayload (pe_PayloadJSON e1) (maxPayloadDepth st) = Ok v1 /\
    parsePayload (pe_PayloadJSON e2) (maxPayloadDepth st) = Ok v2 /\
    (same_fields e1 e2 /\ reordered v1 v2 -> pe_ContentHash e1 = pe_ContentHash e2) /\
    (pe_ContentHash e1 = pe_ContentHash e2 -> same_fields e1 e2 /\ reordered v1 v2 \/
       collide (marshal v1) (marshal v2) \/ collide (content_text e1) (content_text e2)).
Proof.
  apply prepare_content in H1 as (P1 & v1 & V1 & B1 & C1), H2 as (P2 & v2 & V2 & B2 & C2).
  pose proof (content_text_iff _ _ P1 P2) as Ht. exists v1, v2. split; [done|]. split; [done|].
  destruct (payload_written _ _ _ V1) as [W1 D1], (payload_written _ _ _ V2) as [W2 D2].
  pose proof (canonical_iff v1 v2 W1 W2 D1 D2) as Hv. rewrite C1, C2. split.
  - intros [Hs Hr]. f_equal. apply Ht. split; [done|]. rewrite B1, B2. f_equal. by apply Hv.
  - intros E. destruct (decide (content_text e1 = content_text e2)) as [Et|Et]; [|by right; right].
    apply Ht in Et as [Hs Hh]. rewrite B1, B2 in Hh.
    destruct (decide (marshal v1 = marshal v2)) as [Em|Em]; [left; by rewrite <- Hv|right; by left].
Qed.

(** ** A payload in two orders *)
Abbreviation payload_ab := (quoted "{'b':'<\u00e9>','a':[1.50,null]}").
Abbreviation payload_ba := (quoted " {'a' : [1.50,null], 'b':'\u003cé>'}").
Lemma payload_normal_form_witness : exists v1 v2, parsePayload payload_ab 8 = Ok v1 /\ parsePayload payload_ba 8 = Ok v2 /\
  marshal v1 = quoted "{'a':[1.50,null],'b':'\u003cé\u003e'}" /\ reordered v1 v2 /\ v1 <> v2.
Proof.
  destruct (parsePayload payload_ab 8) as [v1|x] eqn:E1; [|exfalso; vm_compute in E1; discriminate].
  destruct (parsePayload payload_ba 8) as [v2|x] eqn:E2; [|exfalso; vm_compute in E2; discriminate].
  destruct (payload_normal_form _ _ _ _ _ _ E1 E2) as (_ & _ & _ & Hiff). vm_compute in E1, E2. injection E1 as <-. injection E2 as <-.
  eexists _, _. split; [reflexivity|]. split; [reflexivity|]. split; [reflexivity|]. split; [|discriminate].
  apply Hiff. reflexivity.
Defined.

(** The event of the samples with the members of its payload in another order. *)
Definition shuffled_event : string := quoted
  "{'payload':{'a':null, 'b':[1]},'schema_version':1,'collector_id':'phone','event_type':'note','device_timestamp_raw':'2024-02-29T20:34:56+08:00','clock_offset_ms':0,'clock_error_ms':5,'idempotency_key':'k2'}".
Lemma content_hash_exact_witness : exists e1 e2, prepare sample_store sample_event "" = Ok e1 /\
  prepare sample_store shuffled_event "" = Ok e2 /\ pe_PayloadJSON e1 <> pe_PayloadJSON e2 /\ pe_ContentHash e1 = pe_ContentHash e2.
Proof.
  destruct (prepare sample_store sample_event "") as [e1|x] eqn:E1; [|exfalso; vm_compute in E1; discriminate].
  destruct (prepare sample_store shuffled_event "") as [e2|x] eqn:E2; [|exfalso; vm_compute in E2; discriminate].
  destruct (content_hash_exact _ _ _ _ _ _ _ E1 E2) as (v1 & v2 & V1 & V2 & Hh & _).
  vm_compute in E1, E2. injection E1 as <-. injection E2 as <-.
  eexists _, _. split; [reflexivity|]. split; [reflexivity|]. split; [discriminate|]. apply Hh. split; [repeat split|].
  vm_compute in V1, V2. injection V1 as <-. injection V2 as <-. by apply reordered_members, perm_swap.
Defined.
