(* ===== verification/Query.v ===== *)
(** * Reading raw events page by page ([eventstore/query.go]) *)

From Stdlib Require Import ZArith Lia String Ascii.
From S2P Require Import Prelude GoStrings GoTime GoJson Sql Schema Keyed Events Base64 FlatJson.
Open Scope string_scope.
Open Scope list_scope.
Open Scope result_scope.
Open Scope db_scope.
Open Scope Z_scope.

Definition CodePageLimitInvalid : string := "QUERY_PAGE_LIMIT_INVALID".
Definition CodeCursorInvalid : string := "QUERY_CURSOR_INVALID".

Record Event := MkEvent {
  ev_ID : Z; ev_CollectorID : string; ev_EventType : string; ev_DeviceTimestampRaw : string;
  ev_DeviceTimeUTC : string; ev_ReceivedAtUTC : string; ev_ClockOffsetMS : Z; ev_ClockErrorMS : Z;
  ev_IdempotencyKey : string; ev_Payload : string; ev_PayloadHash : string; ev_SchemaVersion : Z }.

Record Page := MkPage { pg_SnapshotID : Z; pg_Events : list Event; pg_NextCursor : string }.
Record pageCursor := PageCursor { pc_Version : Z; pc_SnapshotID : Z; pc_LastID : Z }.

(** The columns of the SELECT list. *)
Definition event_of_row (r : row preparedEvent) : Event :=
  let e := rval r in
  MkEvent (rid r) (pe_CollectorID e) (pe_EventType e) (pe_DeviceTimestampRaw e) (pe_DeviceTimeUTC e)
    (pe_ReceivedAtUTC e) (pe_ClockOffsetMS e) (pe_ClockErrorMS e) (pe_IdempotencyKey e)
    (pe_PayloadJSON e) (pe_PayloadHash e) (pe_SchemaVersion e).

(** ** Cursors *)
Definition encodeCursor (c : pageCursor) : string :=
  EncodeToString (marshal_struct
    [("v", JNum (format_int (pc_Version c))); ("snapshot_id", JNum (format_int (pc_SnapshotID c)));
     ("last_id", JNum (format_int (pc_LastID c)))]).

Definition cursor_fields : list string := ["v"; "snapshot_id"; "last_id"].

Definition decode_page_cursor (raw : string) : option pageCursor :=
  let! root := unmarshal raw in
  let! ms := struct_members root in
  oguard (known_fields cursor_fields ms)
  (let! v := decode_last int_of 0 (field_values "v" ms) in
   let! s := decode_last int_of 0 (field_values "snapshot_id" ms) in
   let! l := decode_last int_of 0 (field_values "last_id" ms) in
   Some (PageCursor v s l)).

Definition decodeCursor (value : string) : result error pageCursor :=
  if 512 <? slen value then Err (StoreError CodeCursorInvalid)
  else match DecodeString value with
       | None => Err (StoreError CodeCursorInvalid)
       | Some raw =>
         match decode_page_cursor raw with
         | None => Err (StoreError CodeCursorInvalid)
         | Some cursor =>
           if negb (pc_Version cursor =? 1) || (pc_SnapshotID cursor <? 0) || (pc_LastID cursor <? 0)
              || (pc_SnapshotID cursor <? pc_LastID cursor)
           then Err (StoreError CodeCursorInvalid) else Ok cursor
         end
       end.

(** ** Queries *)

(** [substr(idempotency_key, 1, n)]. *)
Definition QueryEventFamily (collectorID baseIdempotencyKey : string) : M database (list Event) :=
  let prefix := baseIdempotencyKey +:+ ":duration:" in
  let* events := query CodeQueryFailed (fun d =>
    take 1025 (map event_of_row (List.filter (fun r =>
      String.eqb (pe_CollectorID (rval r)) collectorID
      && (String.eqb (pe_IdempotencyKey (rval r)) baseIdempotencyKey
          || String.eqb (runes_prefix (Z.to_nat (slen prefix)) (pe_IdempotencyKey (rval r))) prefix))
      (raw_events d)))) in
  if 1024 <? Z.of_nat (length events) then mfail (StoreError CodeQueryFailed) else mret events.

(** Rows with [last < id <= snapshot], in id order. *)
Definition rows_between (last snapshot : Z) (t : list (row preparedEvent)) : list (row preparedEvent) :=
  List.filter (fun r => (last <? rid r) && (rid r <=? snapshot)) t.

Definition page_cursor (cursorText : string) : M database pageCursor :=
  if String.eqb cursorText "" then
    let* snapshot := query CodeQueryFailed (fun d => max_id (raw_events d)) in
    mret (PageCursor 1 snapshot 0)
  else mlift (decodeCursor cursorText).

Definition last_event_id (events : list Event) : Z := match last events with Some e => ev_ID e | None => 0 end.

Definition QueryPage (store : Store) (cursorText : string) (limit : Z) : M database Page :=
  if (limit <? 1) || (maxPageSize store <? limit) then mfail (StoreError CodePageLimitInvalid)
  else transaction CodeQueryFailed CodeQueryFailed
    (let* cursor := page_cursor cursorText in
     let* events := query CodeQueryFailed (fun d =>
       take (Z.to_nat (limit + 1)) (map event_of_row
         (rows_between (pc_LastID cursor) (pc_SnapshotID cursor) (raw_events d)))) in
     if limit <? Z.of_nat (length events) then
       let events := take (Z.to_nat limit) events in
       mret (MkPage (pc_SnapshotID cursor) events
               (encodeCursor (PageCursor 1 (pc_SnapshotID cursor) (last_event_id events))))
     else mret (MkPage (pc_SnapshotID cursor) events "")).

(** ** Properties *)
Lemma slen_EncodeToString (s : string) : slen (EncodeToString s) = (4 * slen s + 2) / 3.
Proof.
  unfold EncodeToString. by rewrite slen_of_bytes, length_b64_encode, length_bytes.
Qed.

Lemma decode_encode (c : pageCursor) :
  pc_Version c = 1 -> 0 <= pc_LastID c <= pc_SnapshotID c -> pc_SnapshotID c <= int64_max ->
  decodeCursor (encodeCursor c) = Ok c.
Proof.
  intros Hv Hl Hs. destruct c as [v s l]. cbn in *. subst v. unfold encodeCursor, decodeCursor. cbn [pc_Version pc_SnapshotID pc_LastID].
  set (ms := [("v", _); _; _]).
  assert (Hlen : slen (marshal_struct ms) <= 100).
  { subst ms. unfold marshal_struct. cbn [map join fst snd marshal].
    rewrite !slen_app, !slen_quote_plain by done. cbn [slen].
    pose proof (slen_format_int s). pose proof (slen_format_int l). unfold int64_min in *. 
    change (slen (format_int 1)) with 1. lia. }
  rewrite slen_EncodeToString.
  destruct (Z.ltb_spec 512 ((4 * slen (marshal_struct ms) + 2) / 3)) as [H|_].
  { exfalso. assert ((4 * slen (marshal_struct ms) + 2) / 3 <= 134) by (apply Z.div_le_upper_bound; [lia|]; lia). lia. }
  rewrite DecodeString_EncodeToString. unfold decode_page_cursor.
  rewrite unmarshal_marshal_struct; [|repeat constructor]. cbn [obind struct_members].
  subst ms. change (known_fields cursor_fields _) with true. cbn [oguard].
  change (field_values "v" _) with [JNum (format_int 1)].
  change (field_values "snapshot_id" _) with [JNum (format_int s)].
  change (field_values "last_id" _) with [JNum (format_int l)].
  cbn [decode_last int_of]. rewrite !parse_int_format_int by (unfold int64_min, int64_max in *; lia).
  cbn [obind pc_Version pc_SnapshotID pc_LastID].
  destruct (Z.ltb_spec s 0), (Z.ltb_spec l 0), (Z.ltb_spec s l); try lia. done.
Qed.

(** A cursor the service hands out is read back as it was written. *)
Theorem decodeCursor_encodeCursor (c : pageCursor)
    (Hv : pc_Version c = 1) (Hl : 0 <= pc_LastID c <= pc_SnapshotID c) (Hs : pc_SnapshotID c <= int64_max) :
  decodeCursor (encodeCursor c) = Ok c.
Proof. by apply decode_encode. Qed.

Lemma decodeCursor_encodeCursor_witness :
  decodeCursor (encodeCursor (PageCursor 1 42 7)) = Ok (PageCursor 1 42 7).
Proof. apply decodeCursor_encodeCursor; [reflexivity|cbn; lia|unfold int64_max; cbn; lia]. Defined.

(** *** Pages add up to the snapshot *)
Abbreviation sorted_rows t := (StronglySorted Z.lt (map rid t)).

Lemma sorted_filter (f : row preparedEvent -> bool) t : sorted_rows t -> sorted_rows (List.filter f t).
Proof.
  induction t as [|r t IH]; intros H; [done|]. simpl in *. apply StronglySorted_inv in H as [Hs Hr].
  destruct (f r); [|by apply IH]. simpl. constructor; [by apply IH|].
  rewrite Forall_forall in Hr |- *. intros x Hx. apply Hr.
  apply list_elem_of_fmap in Hx as (y & -> & Hy). apply list_elem_of_fmap. exists y. split; [done|].
  rewrite list_elem_of_In in Hy |- *. by apply filter_In in Hy as [? _].
Qed.

Lemma sorted_app (l1 l2 : list (row preparedEvent)) : sorted_rows (l1 ++ l2) ->
  forall x y, x ∈ l1 -> y ∈ l2 -> rid x < rid y.
Proof.
  induction l1 as [|r l1 IH]; intros H x y Hx Hy; [by apply elem_of_nil in Hx|].
  simpl in H. apply StronglySorted_inv in H as [Hs Hr].
  apply elem_of_cons in Hx as [->|Hx]; [|by apply IH].
  rewrite Forall_forall in Hr. apply Hr. rewrite map_app. apply elem_of_app. right.
  apply list_elem_of_fmap. by exists y.
Qed.

Lemma sorted_app_l (l1 l2 : list (row preparedEvent)) : sorted_rows (l1 ++ l2) -> sorted_rows l1.
Proof.
  induction l1 as [|r l1 IH]; intros H; [constructor|]. simpl in *.
  apply StronglySorted_inv in H as [Hs Hr]. constructor; [by apply IH|].
  rewrite map_app in Hr. by apply Forall_app in Hr as [? _].
Qed.

(** What remains after a page is the rest of the rows. *)
Lemma rows_after_page last snapshot t n r :
  sorted_rows t -> (n <= length (rows_between last snapshot t))%nat ->
  list.last (take n (rows_between last snapshot t)) = Some r ->
  rows_between (rid r) snapshot t = drop n (rows_between last snapshot t).
Proof.
  intros Hs Hn Hr. set (R := rows_between last snapshot t) in *.
  assert (HR : sorted_rows R) by (by apply sorted_filter).
  assert (Hin : r ∈ take n R) by (by apply last_Some_elem_of).
  assert (Hrt : last < rid r).
  { apply elem_of_take in Hin as (i & Hi & _). apply list_elem_of_lookup_2 in Hi.
    unfold R, rows_between in Hi. rewrite list_elem_of_In in Hi. apply filter_In in Hi as [_ Hi]. to_prop. lia. }
  transitivity (List.filter (fun x => rid r <? rid x) R).
  { unfold R, rows_between. rewrite filter_filter_and. apply filter_ext_in. intros x _.
    destruct (Z.ltb_spec (rid r) (rid x)), (Z.ltb_spec last (rid x)), (Z.leb_spec (rid x) snapshot); try done; lia. }
  rewrite <- (take_drop n R) at 1. rewrite List.filter_app.
  assert (E1 : List.filter (fun x => rid r <? rid x) (take n R) = []).
  { assert (Hlast : forall x, x ∈ take n R -> rid x <= rid r).
    { apply last_Some in Hr as [l El]. rewrite El. intros x Hx. apply elem_of_app in Hx as [Hx|Hx].
      - assert (HRt : sorted_rows (take n R)).
        { rewrite <- (take_drop n R) in HR. by apply sorted_app_l in HR. }
        rewrite El in HRt. pose proof (sorted_app _ _ HRt x r Hx ltac:(left)). lia.
      - apply list_elem_of_singleton in Hx as ->. lia. }
    revert Hlast. generalize (take n R) as l. induction l as [|x l IH]; intros Hl; [done|]. simpl.
    destruct (Z.ltb_spec (rid r) (rid x)); [specialize (Hl x ltac:(left)); lia|].
    apply IH. intros y Hy. apply Hl. by right. }
  rewrite E1. simpl.
  assert (Hd : forall y, y ∈ drop n R -> rid r < rid y).
  { intros y Hy. rewrite <- (take_drop n R) in HR. by apply (sorted_app _ _ HR). }
  revert Hd. generalize (drop n R) as l. induction l as [|x l IH]; intros Hl; [done|]. simpl.
  destruct (Z.ltb_spec (rid r) (rid x)); [|specialize (Hl x ltac:(left)); lia].
  f_equal. apply IH. intros y Hy. apply Hl. by right.
Qed.

(** Reading page after page, each from the database as it is by then. *)
Fixpoint read_pages (st : Store) (limit : Z) (cursorText : string) (dbs : list database)
    : result error (list Event * bool) :=
  match dbs with
  | [] => Ok ([], false)
  | d :: ds =>
    match outcome (QueryPage st cursorText limit) d [] with
    | Err e => Err e
    | Ok p => if String.eqb (pg_NextCursor p) "" then Ok (pg_Events p, true)
              else rmap (fun '(es, fin) => (pg_Events p ++ es, fin)) (read_pages st limit (pg_NextCursor p) ds)
    end
  end.

Definition page_of (limit last snapshot : Z) (d : database) : Page :=
  let R := rows_between last snapshot (raw_events d) in
  if limit <? Z.of_nat (length R) then
    let es := map event_of_row (take (Z.to_nat limit) R) in
    MkPage snapshot es (encodeCursor (PageCursor 1 snapshot (last_event_id es)))
  else MkPage snapshot (map event_of_row R) "".

Lemma QueryPage_page st limit txt last snapshot d :
  1 <= limit <= maxPageSize st ->
  outcome (page_cursor txt) d [] = Ok (PageCursor 1 snapshot last) ->
  outcome (QueryPage st txt limit) d [] = Ok (page_of limit last snapshot d).
Proof.
  intros Hl Hc. unfold QueryPage, page_of.
  destruct (Z.ltb_spec limit 1), (Z.ltb_spec (maxPageSize st) limit); try lia. cbn [orb].
  assert (Hp : page_cursor txt d [] = (Ok (PageCursor 1 snapshot last), d, [])).
  { revert Hc. unfold outcome, page_cursor. case_match; cbn.
    - intros E. injection E as -> ->. done.
    - destruct (decodeCursor txt); cbn; [intros E; by injection E as ->|done]. }
  unfold outcome, transaction. cbn [stmt tail fst snd].
  unfold mbind at 1. rewrite Hp. cbn [pc_LastID pc_SnapshotID].
  unfold mbind at 1. cbn [query stmt tail].
  set (R := rows_between last snapshot (raw_events d)).
  rewrite length_take, length_map. unfold oracle.
  destruct (Z.ltb_spec limit (Z.of_nat (length R))).
  - destruct (Z.ltb_spec limit (Z.of_nat (Z.to_nat (limit + 1) `min` length R))); [|lia].
    cbn. rewrite take_take, Nat.min_l by lia. by rewrite fmap_take.
  - destruct (Z.ltb_spec limit (Z.of_nat (Z.to_nat (limit + 1) `min` length R))); [lia|].
    cbn. rewrite take_ge; [done|]. rewrite length_map. lia.
Qed.

Lemma encodeCursor_nonempty c : String.eqb (encodeCursor c) "" = false.
Proof.
  destruct (String.eqb_spec (encodeCursor c) "") as [E|]; [|done]. exfalso.
  assert (H : slen (encodeCursor c) = 0) by (by rewrite E). unfold encodeCursor in H.
  rewrite slen_EncodeToString in H. unfold marshal_struct in H. rewrite !slen_app in H. cbn [slen] in H.
  match type of H with context [slen ?x] => pose proof (slen_nonneg x) end.
  apply Z.div_small_iff in H; lia.
Qed.

Lemma max_id_attained {A} (t : list (row A)) : max_id t = 0 \/ exists r, r ∈ t /\ rid r = max_id t.
Proof.
  induction t as [|r t [IH|(x & Hx & IH)]]; simpl; [by left| |].
  - rewrite IH. destruct (Z.le_gt_cases (rid r) 0); [left; lia|right; exists r; split; [left|lia]].
  - destruct (Z.le_gt_cases (rid r) (max_id t)); right.
    + exists x. split; [by right|lia].
    + exists r. split; [left|lia].
Qed.

Section Pagination.
Context `{SqliteJson}.

Lemma rows_between_extends d0 d last :
  table_ok events_table d -> extends events_table d0 d ->
  rows_between last (max_id (raw_events d0)) (raw_events d)
    = rows_between last (max_id (raw_events d0)) (raw_events d0).
Proof.
  intros [_ [Hs Hp]] [rows ->]. cbn in *. unfold rows_between.
  rewrite List.filter_app. rewrite <- (app_nil_r (List.filter _ (raw_events d0))) at 2. f_equal.
  assert (Hnew : forall y, y ∈ rows -> max_id (raw_events d0) < rid y).
  { intros y Hy. destruct (max_id_attained (raw_events d0)) as [->|(x & Hx & <-)].
    - rewrite Forall_forall in Hp. apply Hp. apply elem_of_app. by right.
    - by apply (sorted_app _ _ Hs). }
  clear -Hnew. induction rows as [|r rows IH]; [done|]. simpl.
  destruct (Z.leb_spec (rid r) (max_id (raw_events d0))); [specialize (Hnew r ltac:(left)); lia|].
  rewrite andb_false_r. apply IH. intros y Hy. apply Hnew. by right.
Qed.

Lemma rows_between_all t : ids_sorted t -> rows_between 0 (max_id t) t = t.
Proof.
  intros [_ Hp]. pose proof (max_id_le t) as Hm. unfold rows_between.
  revert Hm. generalize (max_id t). intros m Hm. induction t as [|r t IH]; [done|].
  inversion Hp; inversion Hm; subst. simpl.
  destruct (Z.ltb_spec 0 (rid r)), (Z.leb_spec (rid r) m); try lia. simpl. f_equal. by apply IH.
Qed.

Lemma read_pages_rest st limit d0 (dbs : list database) :
  1 <= limit <= maxPageSize st -> max_id (raw_events d0) <= int64_max ->
  table_ok events_table d0 ->
  Forall (fun d => table_ok events_table d /\ extends events_table d0 d) dbs ->
  forall last txt, 0 <= last ->
  (forall d, outcome (page_cursor txt) d [] = Ok (PageCursor 1 (max_id (raw_events d0)) last)
             \/ d ∉ dbs) ->
  dbs <> [] ->
  Z.of_nat (length (rows_between last (max_id (raw_events d0)) (raw_events d0)))
    <= limit * Z.of_nat (length dbs) ->
  read_pages st limit txt dbs
    = Ok (map event_of_row (rows_between last (max_id (raw_events d0)) (raw_events d0)), true).
Proof.
  intros Hl Hmax Hok0 Hdbs. set (snap := max_id (raw_events d0)) in *.
  induction Hdbs as [|d dbs [Hok He] _ IH]; intros last txt Hlast Hc Hne Hlen; [done|].
  cbn [read_pages]. set (R := rows_between last snap (raw_events d0)) in *.
  destruct (Hc d) as [Hcd|Hcd]; [|destruct Hcd; left].
  rewrite (QueryPage_page _ _ _ _ _ _ Hl Hcd). unfold page_of.
  assert (rows_between last snap (raw_events d) = R) as -> by (by apply rows_between_extends).
  destruct (Z.ltb_spec limit (Z.of_nat (length R))) as [Hlt|Hge]; cbn [pg_NextCursor pg_Events]; [|done].
  rewrite encodeCursor_nonempty.
  assert (Hlast' : exists r, list.last (take (Z.to_nat limit) R) = Some r).
  { destruct (list.last (take (Z.to_nat limit) R)) as [r|] eqn:E; [eauto|].
    apply last_None in E. assert (Hx : length (take (Z.to_nat limit) R) = 0%nat) by (by rewrite E).
    rewrite length_take in Hx. lia. }
  destruct Hlast' as [r Hr].
  assert (Hid : last_event_id (map event_of_row (take (Z.to_nat limit) R)) = rid r).
  { unfold last_event_id. pose proof (fmap_last event_of_row (take (Z.to_nat limit) R)) as Hf.
    rewrite Hr in Hf. change (map event_of_row ?l) with (event_of_row <$> l). by rewrite Hf. }
  rewrite Hid.
  assert (Hrr : last < rid r <= snap).
  { apply last_Some_elem_of in Hr. apply elem_of_take in Hr as (i & Hi & _).
    apply list_elem_of_lookup_2 in Hi. unfold R, rows_between in Hi. rewrite list_elem_of_In in Hi.
    apply filter_In in Hi as [_ Hi]. to_prop. lia. }
  assert (Hrest : rows_between (rid r) snap (raw_events d0) = drop (Z.to_nat limit) R).
  { apply rows_after_page; [apply Hok0| |done]. fold R. lia. }
  rewrite (IH (rid r)); [| lia | | |].
  - rewrite Hrest. cbn. f_equal. f_equal. rewrite <- map_app. by rewrite take_drop.
  - intros d'. left. unfold page_cursor. rewrite encodeCursor_nonempty.
    rewrite decode_encode; [done|done|cbn; lia|done].
  - intros ->. cbn in Hlen. lia.
  - rewrite Hrest, length_drop. cbn [length] in Hlen. lia.
Qed.

(** C20: reading page after page while other batches append between the requests
    returns, once each and in order, exactly the rows that were in the table at
    the first page; the number of rows divided by the limit bounds the number of
    requests. *)
Theorem read_pages_complete st limit d0 (later : list database)
    (Hlimit : 1 <= limit <= maxPageSize st) (Hids : max_id (raw_events d0) <= int64_max)
    (Hok : table_ok events_table d0)
    (Hlater : Forall (fun d => table_ok events_table d /\ extends events_table d0 d) later)
    (Henough : Z.of_nat (length (raw_events d0)) <= limit * Z.of_nat (length (d0 :: later))) :
  read_pages st limit "" (d0 :: later) = Ok (map event_of_row (raw_events d0), true).
Proof.
  pose proof (rows_between_all (raw_events d0) (proj2 Hok)) as Hall.
  cbn [read_pages].
  rewrite (QueryPage_page st limit "" 0 (max_id (raw_events d0)) d0 Hlimit eq_refl).
  unfold page_of. rewrite Hall.
  destruct (Z.ltb_spec limit (Z.of_nat (length (raw_events d0)))) as [Hlt|]; cbn [pg_NextCursor pg_Events]; [|done].
  rewrite encodeCursor_nonempty. set (R := raw_events d0) in *.
  assert (Hlast' : exists r, list.last (take (Z.to_nat limit) R) = Some r).
  { destruct (list.last (take (Z.to_nat limit) R)) as [r|] eqn:E; [eauto|].
    apply last_None in E. assert (Hx : length (take (Z.to_nat limit) R) = 0%nat) by (by rewrite E).
    rewrite length_take in Hx. lia. }
  destruct Hlast' as [r Hr].
  assert (Hid : last_event_id (map event_of_row (take (Z.to_nat limit) R)) = rid r).
  { unfold last_event_id. pose proof (fmap_last event_of_row (take (Z.to_nat limit) R)) as Hf.
    rewrite Hr in Hf. change (map event_of_row ?l) with (event_of_row <$> l). by rewrite Hf. }
  rewrite Hid.
  assert (Hrr : 0 < rid r <= max_id R).
  { pose proof (max_id_le R) as Hm. rewrite Forall_forall in Hm.
    destruct Hok as [_ [_ Hp]]. cbn in Hp. rewrite Forall_forall in Hp.
    apply last_Some_elem_of in Hr. apply elem_of_take in Hr as (i & Hi & _).
    apply list_elem_of_lookup_2 in Hi. split; [by apply Hp|by apply Hm]. }
  assert (Hrest : rows_between (rid r) (max_id R) R = drop (Z.to_nat limit) R).
  { rewrite <- Hall at 3. apply rows_after_page; [apply Hok| |by rewrite Hall]. rewrite Hall. lia. }
  cbn [length] in Henough. rewrite (read_pages_rest st limit d0 later Hlimit Hids Hok Hlater (rid r)); fold R; [|lia|..].
  - rewrite Hrest. cbn. f_equal. f_equal. rewrite <- map_app. by rewrite take_drop.
  - intros d'. left. unfold page_cursor. rewrite encodeCursor_nonempty.
    rewrite decode_encode; [done|done|cbn; lia|done].
  - intros ->. cbn in Henough. lia.
  - rewrite Hrest, length_drop. lia.
Qed.
End Pagination.

Definition small_event (key : string) : preparedEvent :=
  PreparedEvent 1 "phone" "note" "t" "t" "t" 0 0 key "{}" "" "".
Definition three_events : database :=
  with_raw_events empty_database [Row 1 (small_event "a"); Row 2 (small_event "b"); Row 3 (small_event "c")].
Definition four_events : database :=
  with_raw_events three_events (raw_events three_events ++ [Row 4 (small_event "d")]).

Lemma small_table_ok d n :
  map rid (raw_events d) = take n [1; 2; 3; 4] ->
  NoDup (map (fun r => k_key events_table (rval r)) (raw_events d)) -> table_ok events_table d.
Proof.
  intros Hid HN. split; [exact HN|]. change (k_rows events_table d) with (raw_events d). split.
  - rewrite Hid. do 5 (destruct n as [|n]; [repeat constructor|]). repeat constructor.
  - enough (Forall (fun z => 0 < z) (map rid (raw_events d))) as Hp.
    { apply Forall_forall. intros r Hr. apply (proj1 (Forall_forall _ _) Hp (rid r)).
      apply list_elem_of_fmap. by exists r. }
    rewrite Hid. apply Forall_take. repeat constructor.
Qed.

Lemma read_pages_complete_witness :
  read_pages sample_store 2 "" [three_events; four_events]
    = Ok (map event_of_row (raw_events three_events), true).
Proof.
  apply (read_pages_complete sample_store 2 three_events [four_events]).
  - cbn. lia.
  - cbn. unfold int64_max. lia.
  - apply (small_table_ok three_events 3); [reflexivity|]. apply (bool_decide_eq_true_1 _). vm_compute. reflexivity.
  - constructor; [|constructor]. split.
    + apply (small_table_ok four_events 4); [reflexivity|]. apply (bool_decide_eq_true_1 _). vm_compute. reflexivity.
    + exists [Row 4 (small_event "d")]. reflexivity.
  - cbn. lia.
Defined.
