(* ===== verification/Platform.v ===== *)
(** * What the recorder takes from the platform

    File paths, time zones, network addresses, URLs and floating-point scaling
    belong to the operating system and to data outside the repository; they are
    interfaces here.  Parsing of durations, host:port pairs, booleans and clock
    minutes is modelled. *)

From Stdlib Require Import ZArith Lia String Ascii.
From S2P Require Import Prelude GoStrings GoTime GoJson.
Open Scope string_scope.
Open Scope list_scope.
Open Scope Z_scope.

(** ** [path/filepath] *)
Class Paths := {
  is_abs : string -> bool;
  clean : string -> string;
  is_local : string -> bool;
  path_join : list string -> string;
  path_rel : string -> string -> option string;   (* [None] is an error *)
  path_separator : string }.

(** ** Time zones: [time.LoadLocation]

    A location is its offset from UTC at each instant, which the zone database
    gives.  [time.Date] looks the offset up twice, so that the civil time it is
    given is right on either side of a transition. *)
Record location := Location { loc_offset : time -> duration }.
Class Zones := { load_location : string -> option location }.

Definition utc_location : location := Location (fun _ => 0).

(** The civil time of an instant, and the instant of a civil time, both in
    nanoseconds since the civil 0001-01-01 00:00. *)
Definition local_of (loc : location) (t : time) : Z := t + loc_offset loc t.
Definition Date (loc : location) (l : Z) : time := l - loc_offset loc (l - loc_offset loc l).
Definition local_day (loc : location) (t : time) : Z := local_of loc t / day_ns.
(** [t.AddDate(0, 0, n)]. *)
Definition AddDays (loc : location) (t : time) (n : Z) : time := Date loc (local_of loc t + n * day_ns).

(** ** [net.ParseIP] and [url.Parse] *)
Record url := Url {
  u_Scheme : string; u_HasUser : bool; u_RawQuery : string; u_Fragment : string;
  u_Path : string; u_Hostname : string; u_Port : string }.
Class Network := {
  parse_ip : string -> option string;     (* [None]: not an IP literal *)
  ip_is_loopback : string -> bool;
  url_parse : string -> option url }.

(** ** [time.ParseDuration]

    The fraction of a component, [f] digits scaled by [10^n] of a unit, is a
    product of floating-point numbers. *)
Class Floats := { scale_fraction : Z -> nat -> Z -> Z }.

Section Durations.
Context `{Floats}.

Definition two63 : Z := 9223372036854775808.

(** [leadingInt]: [None] on overflow. *)
Fixpoint leading_int (acc : Z) (s : string) : option (Z * string) :=
  match s with
  | String a t =>
    if is_digit a then
      if two63 / 10 <? acc then None
      else let v := acc * 10 + digit_val a in
           if two63 <? v then None else leading_int v t
    else Some (acc, s)
  | EmptyString => Some (acc, s)
  end.

(** [leadingFraction]: digits after an overflow are dropped. *)
Fixpoint leading_fraction (acc : Z) (n : nat) (full : bool) (s : string) : Z * nat * string :=
  match s with
  | String a t =>
    if is_digit a then
      if full then leading_fraction acc n true t
      else if (two63 - 1) / 10 <? acc then leading_fraction acc n true t
      else let v := acc * 10 + digit_val a in
           if two63 <? v then leading_fraction acc n true t
           else leading_fraction v (S n) false t
    else (acc, n, s)
  | EmptyString => (acc, n, s)
  end.

Definition duration_units : list (string * Z) :=
  [("ns", 1); ("us", 1000); (of_bytes [194; 181; 115], 1000); (of_bytes [206; 188; 115], 1000);
   ("ms", 1000000); ("s", second); ("m", minute); ("h", hour)].

Fixpoint span_unit (s : string) : string * string :=
  match s with
  | String a t => if Ascii.eqb a "." || is_digit a then (EmptyString, s)
                  else let '(u, r) := span_unit t in (String a u, r)
  | EmptyString => (EmptyString, EmptyString)
  end.

(** One component: the value it adds and the rest. *)
Definition duration_component (s : string) : option (Z * string) :=
  oguard (match s with String a _ => Ascii.eqb a "." || is_digit a | _ => false end)
  (let! (v, r) := leading_int 0 s in
   let pre := negb (String.length r =? String.length s)%nat in
   let '(f, n, r', post) :=
     match r with
     | String "." t => let '(f, n, r') := leading_fraction 0 0 false t in
                       (f, n, r', negb (String.length r' =? String.length t)%nat)
     | _ => (0, 0%nat, r, false)
     end in
   oguard (pre || post)
   (let '(u, rest) := span_unit r' in
    oguard (negb (String.eqb u ""))
    (let! unit := member u duration_units in
     oguard (v <=? two63 / unit)
     (let total := v * unit + (if 0 <? f then scale_fraction f n unit else 0) in
      oguard (total <=? two63) (Some (total, rest)))))).

Fixpoint duration_sum (fuel : nat) (acc : Z) (s : string) : option Z :=
  match fuel, s with
  | _, EmptyString => Some acc
  | O, _ => None
  | S f, _ => let! (v, r) := duration_component s in
              oguard (acc + v <=? two63) (duration_sum f (acc + v) r)
  end.

Definition ParseDuration (s : string) : option duration :=
  let '(neg, t) := match s with
                   | String "-" t => (true, t) | String "+" t => (false, t) | _ => (false, s) end in
  if String.eqb t "0" then Some 0
  else oguard (negb (String.eqb t ""))
    (let! d := duration_sum (String.length t) 0 t in
     if neg : bool then Some (- d) else oguard (d <=? two63 - 1) (Some d)).

(** The accessors [duration, _ := time.ParseDuration(...)]. *)
Definition duration_of (s : string) : duration := default 0 (ParseDuration s).
End Durations.

(** ** [strconv.ParseBool] *)
Definition ParseBool (s : string) : option bool :=
  if existsb (String.eqb s) ["1"; "t"; "T"; "true"; "TRUE"; "True"] then Some true
  else if existsb (String.eqb s) ["0"; "f"; "F"; "false"; "FALSE"; "False"] then Some false
  else None.

(** ** [net.SplitHostPort] *)
Fixpoint last_index (c : ascii) (i : nat) (found : option nat) (s : string) : option nat :=
  match s with
  | String a t => last_index c (S i) (if Ascii.eqb a c then Some i else found) t
  | EmptyString => found
  end.
Definition contains_char (c : ascii) (s : string) : bool :=
  match last_index c 0 None s with Some _ => true | None => false end.
Fixpoint first_index (c : ascii) (i : nat) (s : string) : option nat :=
  match s with
  | String a t => if Ascii.eqb a c then Some i else first_index c (S i) t
  | EmptyString => None
  end.

Definition SplitHostPort (hostport : string) : option (string * string) :=
  let! i := last_index ":" 0 None hostport in
  let port := sdrop (S i) hostport in
  match hostport with
  | String "[" _ =>
    let! e := first_index "]" 0 hostport in
    oguard (S e =? i)%nat
    (let host := stake (e - 1) (sdrop 1 hostport) in
     oguard (negb (contains_char "[" (sdrop 1 hostport))
             && negb (contains_char "]" (sdrop (S e) hostport)))
     (Some (host, port)))
  | _ =>
    let host := stake i hostport in
    oguard (negb (contains_char ":" host) && negb (contains_char "[" hostport)
            && negb (contains_char "]" hostport))
    (Some (host, port))
  end.

(** ** [time.Parse("15:04", value)]: the hour and the minute *)
Definition parse_clock (value : string) : option (Z * Z) :=
  let! (h, s) := getnum false value in
  oguard (h <? 24)
  (let! s := expect ":" s in
   let! (m, s) := getnum true s in
   oguard ((m <? 60) && String.eqb s "") (Some (h, m))).
Definition format_clock (h m : Z) : string := digits_pad 2 h +:+ ":" +:+ digits_pad 2 m.

(** ** Concrete platforms for examples

    Slash-separated paths, the UTC zone, IPv4 and IPv6 loopback literals, and
    fractions without rounding. *)
Fixpoint split_on (c : ascii) (s : string) : list string :=
  match s with
  | EmptyString => [""]
  | String a t => if Ascii.eqb a c then "" :: split_on c t
                  else match split_on c t with w :: l => String a w :: l | [] => [String a ""] end
  end.

(** Lexical cleaning: drops empty and [.] elements, resolves [..]. *)
Fixpoint clean_elements (rooted : bool) (acc l : list string) : list string :=
  match l with
  | [] => rev acc
  | e :: r =>
    if String.eqb e "" || String.eqb e "." then clean_elements rooted acc r
    else if String.eqb e ".." then
      match acc with
      | [] => clean_elements rooted (if rooted then [] else [".."]) r
      | x :: a => if String.eqb x ".." then clean_elements rooted (".." :: acc) r
                  else clean_elements rooted a r
      end
    else clean_elements rooted (e :: acc) r
  end.
Definition slash_clean (s : string) : string :=
  let rooted := has_prefix s "/" in
  let body := join "/" (clean_elements rooted [] (split_on "/" s)) in
  if rooted then "/" +:+ body else if String.eqb body "" then "." else body.
Definition slash_elements (s : string) : list string := clean_elements (has_prefix s "/") [] (split_on "/" s).
Fixpoint strip_common (a b : list string) : list string * list string :=
  match a, b with
  | x :: a', y :: b' => if String.eqb x y then strip_common a' b' else (a, b)
  | _, _ => (a, b)
  end.
#[export] Instance slash_paths : Paths := {|
  is_abs s := has_prefix s "/";
  clean := slash_clean;
  is_local s := negb (has_prefix s "/") && negb (String.eqb s "")
                && match slash_elements s with ".." :: _ => false | _ => true end;
  path_join l := slash_clean (join "/" (List.filter (fun s => negb (String.eqb s "")) l));
  path_rel root s :=
    if Bool.eqb (has_prefix root "/") (has_prefix s "/") then
      let '(up, down) := strip_common (slash_elements root) (slash_elements s) in
      Some (slash_clean (join "/" (map (fun _ => "..") up ++ down)))
    else None;
  path_separator := "/" |}.
#[export] Instance utc_zones : Zones :=
  {| load_location name := if String.eqb name "UTC" then Some utc_location else None |}.
#[export] Instance loopback_network : Network := {|
  parse_ip s := if existsb (String.eqb s) ["127.0.0.1"; "::1"; "192.0.2.1"] then Some s else None;
  ip_is_loopback s := existsb (String.eqb s) ["127.0.0.1"; "::1"];
  url_parse s := if String.eqb s "http://127.0.0.1:5600" then Some (Url "http" false "" "" "" "127.0.0.1" "5600") else None |}.
#[export] Instance exact_floats : Floats := {| scale_fraction f n unit := f * unit / 10 ^ Z.of_nat n |}.

Example clean_example : map slash_clean ["/a//b/./c/.."; "../x"; ""; "a/../.."] = ["/a/b"; "../x"; "."; ".."].
Proof. reflexivity. Qed.
Example rel_example : map (path_rel "/a/b") ["/a/b"; "/a/b/c"; "/a"; "c"] = [Some "."; Some "c"; Some ".."; None].
Proof. reflexivity. Qed.
