(* ===== verification/Config.v ===== *)
(** * Configuration ([internal/config])

    The configuration contract, its defaults, the strict decoding of the file,
    environment overrides, the resolution of directories and validation. *)

From Stdlib Require Import ZArith Lia String Ascii.
From S2P Require Import Prelude GoStrings GoTime GoJson StrictJson Platform.
Open Scope string_scope.
Open Scope list_scope.
Open Scope result_scope.
Open Scope Z_scope.

Definition CurrentSchemaVersion : Z := 1.
Definition CodeReadFailed : string := "CONFIG_READ_FAILED".
Definition CodeDecodeFailed : string := "CONFIG_DECODE_FAILED".
Definition CodeMissingSchema : string := "CONFIG_SCHEMA_REQUIRED".
Definition CodeUnsupportedSchema : string := "CONFIG_SCHEMA_UNSUPPORTED".
Definition CodeInvalidEnv : string := "CONFIG_ENV_INVALID".
Definition CodeInvalidAddress : string := "CONFIG_ADDRESS_INVALID".
Definition CodeNonLoopback : string := "CONFIG_NON_LOOPBACK_DISABLED".
Definition CodeInvalidDataDir : string := "CONFIG_DATA_DIRECTORY_INVALID".
Definition CodeInvalidStorage : string := "CONFIG_STORAGE_INVALID".
Definition CodeInvalidAPILimit : string := "CONFIG_API_LIMIT_INVALID".
Definition CodeInvalidMedia : string := "CONFIG_MEDIA_INGEST_INVALID".
Definition CodeInvalidRuntime : string := "CONFIG_RUNTIME_INVALID".
Definition CodeInvalidCollector : string := "CONFIG_COLLECTOR_INVALID".
Definition CodeInvalidTimeline : string := "CONFIG_TIMELINE_INVALID".
Definition CodeInvalidOperations : string := "CONFIG_OPERATIONS_INVALID".
Definition CodeInvalidRetention : string := "CONFIG_RETENTION_INVALID".
Definition CodeInvalidLogLevel : string := "CONFIG_LOG_LEVEL_INVALID".
Definition CodeInvalidTimeout : string := "CONFIG_TIMEOUT_INVALID".

Definition ModeRecordOnly : string := "record-only".
Definition ModeMinimum : string := "minimum".
Definition CollectorActivityWatch : string := "activitywatch".
Definition CollectorGenericJSON : string := "generic_json".
Definition CollectorMedia : string := "media".

(** ** The contract *)
Record RuntimeConfig := MkRuntime { ru_Mode : string; ru_BackupInterfaceEnabled : bool }.
Record ScheduleWindowConfig := MkWindow { w_Days : list string; w_StartLocal : string; w_EndLocal : string }.
Record PlannedScheduleConfig := MkSchedule { sc_Timezone : string; sc_Windows : list ScheduleWindowConfig }.
Record ActivityWatchConfig := MkActivityWatch {
  aw_BaseURL : string; aw_BucketID : string; aw_PollInterval : string; aw_RequestTimeout : string;
  aw_InitialLookback : string; aw_RescanWindow : string; aw_PageSize : Z; aw_MaxPagesPerPoll : Z;
  aw_MaxResponseBytes : Z; aw_ClockErrorMS : Z }.
Record CollectorConfig := MkCollector {
  co_ID : string; co_Kind : string; co_Enabled : bool; co_HeartbeatPeriod : string;
  co_AllowedLateness : string; co_OfflineAfter : string; co_PlannedSchedule : PlannedScheduleConfig;
  co_ActivityWatch : option ActivityWatchConfig }.
Record TimelineConfig := MkTimeline {
  tl_ClockUncertainAfter : string; tl_MaxQueryRange : string; tl_MaxProjectionFacts : Z }.
Record ServerConfig := MkServer {
  sv_ListenAddress : string; sv_AllowNonLoopback : bool; sv_ReadHeader : string; sv_Read : string;
  sv_Write : string; sv_Idle : string; sv_Shutdown : string }.
Record LoggingConfig := MkLogging {
  lg_Level : string; lg_FileEnabled : bool; lg_MaxFileBytes : Z; lg_MaxFiles : Z }.
Record PathsConfig := MkPaths { pt_DataDirectory : string }.
Record StorageConfig := MkStorage {
  so_BusyTimeout : string; so_MaxOpenConnections : Z; so_WarningFreeBytes : Z;
  so_CriticalFreeBytes : Z; so_DatabaseReserveBytes : Z }.
Record OperationsConfig := MkOperations {
  op_DiskCheckInterval : string; op_WALCheckpointInterval : string; op_WALMaxBytes : Z;
  op_TempCleanupInterval : string; op_TempMaxAge : string; op_TempMaxFiles : Z }.
Record RetentionConfig := MkRetention {
  re_Enabled : bool; re_ScanInterval : string; re_MinimumAge : string;
  re_RequireFullBackup : bool; re_MaxDeletesPerRun : Z }.
Record APIConfig := MkAPI {
  ap_MaxRequestBytes : Z; ap_MaxBatchEvents : Z; ap_MaxEventBytes : Z; ap_MaxPayloadDepth : Z;
  ap_MaxConcurrentWrites : Z; ap_DefaultPageSize : Z; ap_MaxPageSize : Z }.
Record MediaIngestConfig := MkMediaIngest {
  me_Enabled : bool; me_InboxDirectory : string; me_ScanInterval : string; me_SettleInterval : string;
  me_MaxSegmentBytes : Z; me_MaxSegmentDuration : string; me_MaxSidecarBytes : Z;
  me_MaxScanEntries : Z; me_FFprobePath : string; me_FFprobeTimeout : string }.

Record Config := MkConfig {
  SchemaVersion : Z; Runtime : RuntimeConfig; Server : ServerConfig; PathsOf : PathsConfig;
  Storage : StorageConfig; API : APIConfig; MediaIngest : MediaIngestConfig;
  Collectors : list CollectorConfig; Timeline : TimelineConfig; Operations : OperationsConfig;
  Retention : RetentionConfig; Logging : LoggingConfig; DashboardEnabled : bool }.

Definition defaultConfig : Config := {|
  SchemaVersion := CurrentSchemaVersion;
  Runtime := MkRuntime ModeRecordOnly true;
  Server := MkServer "127.0.0.1:47831" false "5s" "10s" "10s" "30s" "10s";
  PathsOf := MkPaths "data";
  Storage := MkStorage "5s" 8 (Z.shiftl 10 30) (Z.shiftl 5 30) (Z.shiftl 1 30);
  API := MkAPI (Z.shiftl 1 20) 100 (Z.shiftl 64 10) 16 4 100 500;
  MediaIngest := MkMediaIngest false "media-inbox" "1s" "1s" (Z.shiftl 2 30) "10m" (Z.shiftl 64 10) 1000 "" "30s";
  Collectors := [];
  Timeline := MkTimeline "1s" "744h" 100000;
  Operations := MkOperations "30s" "5m" (Z.shiftl 64 20) "1h" "24h" 1000;
  Retention := MkRetention false "1h" "168h" true 100;
  Logging := MkLogging "info" true (Z.shiftl 10 20) 5;
  DashboardEnabled := true |}.

(** ** Replacing fields *)
Definition with_Runtime c x := MkConfig (SchemaVersion c) x (Server c) (PathsOf c) (Storage c) (API c)
  (MediaIngest c) (Collectors c) (Timeline c) (Operations c) (Retention c) (Logging c) (DashboardEnabled c).
Definition with_Server c x := MkConfig (SchemaVersion c) (Runtime c) x (PathsOf c) (Storage c) (API c)
  (MediaIngest c) (Collectors c) (Timeline c) (Operations c) (Retention c) (Logging c) (DashboardEnabled c).
Definition with_Paths c x := MkConfig (SchemaVersion c) (Runtime c) (Server c) x (Storage c) (API c)
  (MediaIngest c) (Collectors c) (Timeline c) (Operations c) (Retention c) (Logging c) (DashboardEnabled c).
Definition with_Storage c x := MkConfig (SchemaVersion c) (Runtime c) (Server c) (PathsOf c) x (API c)
  (MediaIngest c) (Collectors c) (Timeline c) (Operations c) (Retention c) (Logging c) (DashboardEnabled c).
Definition with_API c x := MkConfig (SchemaVersion c) (Runtime c) (Server c) (PathsOf c) (Storage c) x
  (MediaIngest c) (Collectors c) (Timeline c) (Operations c) (Retention c) (Logging c) (DashboardEnabled c).
Definition with_MediaIngest c x := MkConfig (SchemaVersion c) (Runtime c) (Server c) (PathsOf c) (Storage c)
  (API c) x (Collectors c) (Timeline c) (Operations c) (Retention c) (Logging c) (DashboardEnabled c).
Definition with_Retention c x := MkConfig (SchemaVersion c) (Runtime c) (Server c) (PathsOf c) (Storage c)
  (API c) (MediaIngest c) (Collectors c) (Timeline c) (Operations c) x (Logging c) (DashboardEnabled c).
Definition with_Logging c x := MkConfig (SchemaVersion c) (Runtime c) (Server c) (PathsOf c) (Storage c)
  (API c) (MediaIngest c) (Collectors c) (Timeline c) (Operations c) (Retention c) x (DashboardEnabled c).
Definition with_Dashboard c x := MkConfig (SchemaVersion c) (Runtime c) (Server c) (PathsOf c) (Storage c)
  (API c) (MediaIngest c) (Collectors c) (Timeline c) (Operations c) (Retention c) (Logging c) x.

(** ** The file *)
Definition dint (zero : Z) (v : option json) : option Z :=
  match v with None | Some JNull => Some zero | Some (JNum t) => parse_int t | _ => None end.
Definition dstr (zero : string) (v : option json) : option string :=
  match v with None | Some JNull => Some zero | Some (JStr s) => Some s | _ => None end.
Definition dbool (zero : bool) (v : option json) : option bool :=
  match v with None | Some JNull => Some zero | Some (JBool b) => Some b | _ => None end.
Definition dobj (v : option json) : option (list (string * json)) :=
  match v with None | Some JNull => Some [] | Some (JObj ms) => Some ms | _ => None end.
Definition darr (v : option json) : option (list json) :=
  match v with None | Some JNull => Some [] | Some (JArr l) => Some l | _ => None end.

Definition rootFields : list string :=
  ["schema_version"; "runtime"; "server"; "paths"; "storage"; "api"; "media_ingest"; "collectors";
   "timeline"; "operations"; "retention"; "logging"].
Definition sections : list (string * list string) :=
  [("runtime", ["mode"; "backup_interface_enabled"]);
   ("server", ["listen_address"; "allow_non_loopback"; "read_header_timeout"; "read_timeout";
               "write_timeout"; "idle_timeout"; "shutdown_timeout"]);
   ("paths", ["data_directory"]);
   ("storage", ["busy_timeout"; "max_open_connections"; "warning_free_bytes"; "critical_free_bytes";
                "database_reserve_bytes"]);
   ("api", ["max_request_bytes"; "max_batch_events"; "max_event_bytes"; "max_payload_depth";
            "max_concurrent_writes"; "default_page_size"; "max_page_size"]);
   ("media_ingest", ["enabled"; "inbox_directory"; "scan_interval"; "settle_interval";
                     "max_segment_bytes"; "max_segment_duration"; "max_sidecar_bytes";
                     "max_scan_entries"; "ffprobe_path"; "ffprobe_timeout"]);
   ("timeline", ["clock_uncertain_after"; "max_query_range"; "max_projection_facts"]);
   ("operations", ["disk_check_interval"; "wal_checkpoint_interval"; "wal_max_bytes";
                   "temp_cleanup_interval"; "temp_max_age"; "temp_max_files"]);
   ("retention", ["enabled"; "scan_interval"; "minimum_age"; "require_full_backup"; "max_deletes_per_run"]);
   ("logging", ["level"; "file_enabled"; "max_file_bytes"; "max_files"])].
Definition collectorFields : list string :=
  ["id"; "kind"; "enabled"; "heartbeat_period"; "allowed_lateness"; "offline_after";
   "planned_schedule"; "activitywatch"].
Definition activityWatchFields : list string :=
  ["base_url"; "bucket_id"; "poll_interval"; "request_timeout"; "initial_lookback"; "rescan_window";
   "page_size"; "max_pages_per_poll"; "max_response_bytes"; "clock_error_ms"].

Definition exact_root (raw : string) (allowed : list string) : bool :=
  is_ok (ValidateExactRootObject raw 1 allowed).

(** One element of [collectors] in [validateCollectorJSON]. *)
Definition validate_collector_raw (raw : string) : bool :=
  exact_root raw collectorFields &&
  match unmarshal raw, raw_object raw with
  | Some (JObj _), Some collector =>
    match dstr "" (option_map snd (member "kind" collector)), dbool false (option_map snd (member "enabled" collector)) with
    | Some kind, Some enabled =>
      match member "planned_schedule" collector with
      | None => true
      | Some (text, _) =>
        exact_root text ["timezone"; "windows"] &&
        match raw_object text with
        | Some schedule =>
          match member "windows" schedule with
          | None | Some (_, JNull) => true
          | Some (windows, JArr _) =>
            match raw_array windows with
            | Some items => forallb (fun it => exact_root (fst it) ["days"; "start_local"; "end_local"]) items
            | None => false
            end
          | _ => false
          end
        | None => false
        end
      end &&
      match member "activitywatch" collector with
      | None => true
      | Some (text, v) =>
        exact_root text activityWatchFields &&
        (negb (enabled && String.eqb kind CollectorActivityWatch) ||
         match v with
         | JObj ms => forallb (fun f => match member f ms with Some _ => true | None => false end) activityWatchFields
         | _ => false
         end)
      end
    | _, _ => false
    end
  | _, _ => false
  end.

Definition validateCollectorJSON (raw : string) : bool :=
  match unmarshal raw with
  | Some JNull => true
  | Some (JArr _) =>
    match raw_array raw with
    | Some items => forallb (fun it => validate_collector_raw (fst it)) items
    | None => false
    end
  | _ => false
  end.

Definition decode_window (v : json) : option ScheduleWindowConfig :=
  let! ms := dobj (Some v) in
  let! days := strings_field (member "days" ms) in
  let! s := dstr "" (member "start_local" ms) in
  let! e := dstr "" (member "end_local" ms) in
  Some (MkWindow days s e).

Definition decode_activitywatch (v : option json) : option (option ActivityWatchConfig) :=
  match v with
  | None | Some JNull => Some None
  | Some (JObj ms) =>
    let! a := dstr "" (member "base_url" ms) in let! b := dstr "" (member "bucket_id" ms) in
    let! c := dstr "" (member "poll_interval" ms) in let! d := dstr "" (member "request_timeout" ms) in
    let! e := dstr "" (member "initial_lookback" ms) in let! f := dstr "" (member "rescan_window" ms) in
    let! g := dint 0 (member "page_size" ms) in let! h := dint 0 (member "max_pages_per_poll" ms) in
    let! i := dint 0 (member "max_response_bytes" ms) in let! j := dint 0 (member "clock_error_ms" ms) in
    Some (Some (MkActivityWatch a b c d e f g h i j))
  | _ => None
  end.

Definition decode_collector (v : json) : option CollectorConfig :=
  let! ms := dobj (Some v) in
  let! id := dstr "" (member "id" ms) in let! kind := dstr "" (member "kind" ms) in
  let! enabled := dbool false (member "enabled" ms) in
  let! period := dstr "" (member "heartbeat_period" ms) in
  let! late := dstr "" (member "allowed_lateness" ms) in
  let! off := dstr "" (member "offline_after" ms) in
  let! sched := dobj (member "planned_schedule" ms) in
  let! tz := dstr "" (member "timezone" sched) in
  let! ws := darr (member "windows" sched) in
  let! windows := mapM decode_window ws in
  let! aw := decode_activitywatch (member "activitywatch" ms) in
  Some (MkCollector id kind enabled period late off (MkSchedule tz windows) aw).

(** [decoder.Decode(cfg)]: absent keys and [null] keep what [cfg] has. *)
Definition decode_config (cfg : Config) (root : list (string * json)) : option Config :=
  let! version := dint (SchemaVersion cfg) (member "schema_version" root) in
  let! ru := dobj (member "runtime" root) in
  let! mode := dstr (ru_Mode (Runtime cfg)) (member "mode" ru) in
  let! backup := dbool (ru_BackupInterfaceEnabled (Runtime cfg)) (member "backup_interface_enabled" ru) in
  let! sv := dobj (member "server" root) in
  let s := Server cfg in
  let! addr := dstr (sv_ListenAddress s) (member "listen_address" sv) in
  let! nonloop := dbool (sv_AllowNonLoopback s) (member "allow_non_loopback" sv) in
  let! rh := dstr (sv_ReadHeader s) (member "read_header_timeout" sv) in
  let! rd := dstr (sv_Read s) (member "read_timeout" sv) in
  let! wr := dstr (sv_Write s) (member "write_timeout" sv) in
  let! idl := dstr (sv_Idle s) (member "idle_timeout" sv) in
  let! sh := dstr (sv_Shutdown s) (member "shutdown_timeout" sv) in
  let! pt := dobj (member "paths" root) in
  let! dir := dstr (pt_DataDirectory (PathsOf cfg)) (member "data_directory" pt) in
  let! so := dobj (member "storage" root) in
  let st := Storage cfg in
  let! busy := dstr (so_BusyTimeout st) (member "busy_timeout" so) in
  let! conns := dint (so_MaxOpenConnections st) (member "max_open_connections" so) in
  let! warn := dint (so_WarningFreeBytes st) (member "warning_free_bytes" so) in
  let! crit := dint (so_CriticalFreeBytes st) (member "critical_free_bytes" so) in
  let! resv := dint (so_DatabaseReserveBytes st) (member "database_reserve_bytes" so) in
  let! ap := dobj (member "api" root) in
  let a := API cfg in
  let! a1 := dint (ap_MaxRequestBytes a) (member "max_request_bytes" ap) in
  let! a2 := dint (ap_MaxBatchEvents a) (member "max_batch_events" ap) in
  let! a3 := dint (ap_MaxEventBytes a) (member "max_event_bytes" ap) in
  let! a4 := dint (ap_MaxPayloadDepth a) (member "max_payload_depth" ap) in
  let! a5 := dint (ap_MaxConcurrentWrites a) (member "max_concurrent_writes" ap) in
  let! a6 := dint (ap_DefaultPageSize a) (member "default_page_size" ap) in
  let! a7 := dint (ap_MaxPageSize a) (member "max_page_size" ap) in
  let! me := dobj (member "media_ingest" root) in
  let m := MediaIngest cfg in
  let! m1 := dbool (me_Enabled m) (member "enabled" me) in
  let! m2 := dstr (me_InboxDirectory m) (member "inbox_directory" me) in
  let! m3 := dstr (me_ScanInterval m) (member "scan_interval" me) in
  let! m4 := dstr (me_SettleInterval m) (member "settle_interval" me) in
  let! m5 := dint (me_MaxSegmentBytes m) (member "max_segment_bytes" me) in
  let! m6 := dstr (me_MaxSegmentDuration m) (member "max_segment_duration" me) in
  let! m7 := dint (me_MaxSidecarBytes m) (member "max_sidecar_bytes" me) in
  let! m8 := dint (me_MaxScanEntries m) (member "max_scan_entries" me) in
  let! m9 := dstr (me_FFprobePath m) (member "ffprobe_path" me) in
  let! m10 := dstr (me_FFprobeTimeout m) (member "ffprobe_timeout" me) in
  let! cs := match member "collectors" root with None => Some (Collectors cfg)
             | v => let! l := darr v in mapM decode_collector l end in
  let! ti := dobj (member "timeline" root) in
  let t := Timeline cfg in
  let! t1 := dstr (tl_ClockUncertainAfter t) (member "clock_uncertain_after" ti) in
  let! t2 := dstr (tl_MaxQueryRange t) (member "max_query_range" ti) in
  let! t3 := dint (tl_MaxProjectionFacts t) (member "max_projection_facts" ti) in
  let! oo := dobj (member "operations" root) in
  let o := Operations cfg in
  let! o1 := dstr (op_DiskCheckInterval o) (member "disk_check_interval" oo) in
  let! o2 := dstr (op_WALCheckpointInterval o) (member "wal_checkpoint_interval" oo) in
  let! o3 := dint (op_WALMaxBytes o) (member "wal_max_bytes" oo) in
  let! o4 := dstr (op_TempCleanupInterval o) (member "temp_cleanup_interval" oo) in
  let! o5 := dstr (op_TempMaxAge o) (member "temp_max_age" oo) in
  let! o6 := dint (op_TempMaxFiles o) (member "temp_max_files" oo) in
  let! rr := dobj (member "retention" root) in
  let r := Retention cfg in
  let! r1 := dbool (re_Enabled r) (member "enabled" rr) in
  let! r2 := dstr (re_ScanInterval r) (member "scan_interval" rr) in
  let! r3 := dstr (re_MinimumAge r) (member "minimum_age" rr) in
  let! r4 := dbool (re_RequireFullBackup r) (member "require_full_backup" rr) in
  let! r5 := dint (re_MaxDeletesPerRun r) (member "max_deletes_per_run" rr) in
  let! ll := dobj (member "logging" root) in
  let l := Logging cfg in
  let! l1 := dstr (lg_Level l) (member "level" ll) in
  let! l2 := dbool (lg_FileEnabled l) (member "file_enabled" ll) in
  let! l3 := dint (lg_MaxFileBytes l) (member "max_file_bytes" ll) in
  let! l4 := dint (lg_MaxFiles l) (member "max_files" ll) in
  Some (MkConfig version (MkRuntime mode backup) (MkServer addr nonloop rh rd wr idl sh) (MkPaths dir)
          (MkStorage busy conns warn crit resv) (MkAPI a1 a2 a3 a4 a5 a6 a7)
          (MkMediaIngest m1 m2 m3 m4 m5 m6 m7 m8 m9 m10) cs (MkTimeline t1 t2 t3)
          (MkOperations o1 o2 o3 o4 o5 o6) (MkRetention r1 r2 r3 r4 r5) (MkLogging l1 l2 l3 l4)
          (DashboardEnabled cfg)).

Definition utf8_bom : string := of_bytes [239; 187; 191].

Definition decodeFile (raw : string) (cfg : Config) : result string Config :=
  let raw := if has_prefix raw utf8_bom then sdrop 3 raw else raw in
  guard? valid_utf8 raw else CodeDecodeFailed in
  guard? is_ok (ValidateObjectKeys raw 0) else CodeDecodeFailed in
  guard? exact_root raw rootFields else CodeDecodeFailed in
  match unmarshal raw, raw_object raw with
  | Some (JObj root), Some fields =>
    guard? (match member "schema_version" fields with Some _ => true | None => false end)
      else CodeMissingSchema in
    guard? forallb (fun sec => match member (fst sec) fields with
                               | Some (text, _) => exact_root text (snd sec)
                               | None => true
                               end) sections else CodeDecodeFailed in
    guard? (match member "collectors" fields with
            | Some (text, _) => validateCollectorJSON text
            | None => true
            end) else CodeDecodeFailed in
    match decode_config cfg root with Some c => Ok c | None => Err CodeDecodeFailed end
  | _, _ => Err CodeDecodeFailed
  end.

(** ** Environment overrides *)
Definition LookupEnv := string -> option string.

Definition env (name : string) : string := "EXAM_MONITOR_" +:+ name.

Definition over {A} (lookup : LookupEnv) (name : string) (parse : string -> option A)
    (set : Config -> A -> Config) (c : Config) : result string Config :=
  match lookup (env name) with
  | None => Ok c
  | Some v => match parse v with Some x => Ok (set c x) | None => Err CodeInvalidEnv end
  end.
Definition over_string lookup name set c := over lookup name (fun v : string => Some v) set c.

Definition set_mode c v := with_Runtime c (MkRuntime v (ru_BackupInterfaceEnabled (Runtime c))).
Definition set_listen c v := let s := Server c in
  with_Server c (MkServer v (sv_AllowNonLoopback s) (sv_ReadHeader s) (sv_Read s) (sv_Write s) (sv_Idle s) (sv_Shutdown s)).
Definition set_nonloop c v := let s := Server c in
  with_Server c (MkServer (sv_ListenAddress s) v (sv_ReadHeader s) (sv_Read s) (sv_Write s) (sv_Idle s) (sv_Shutdown s)).
Definition set_read_header c v := let s := Server c in
  with_Server c (MkServer (sv_ListenAddress s) (sv_AllowNonLoopback s) v (sv_Read s) (sv_Write s) (sv_Idle s) (sv_Shutdown s)).
Definition set_read c v := let s := Server c in
  with_Server c (MkServer (sv_ListenAddress s) (sv_AllowNonLoopback s) (sv_ReadHeader s) v (sv_Write s) (sv_Idle s) (sv_Shutdown s)).
Definition set_write c v := let s := Server c in
  with_Server c (MkServer (sv_ListenAddress s) (sv_AllowNonLoopback s) (sv_ReadHeader s) (sv_Read s) v (sv_Idle s) (sv_Shutdown s)).
Definition set_idle c v := let s := Server c in
  with_Server c (MkServer (sv_ListenAddress s) (sv_AllowNonLoopback s) (sv_ReadHeader s) (sv_Read s) (sv_Write s) v (sv_Shutdown s)).
Definition set_shutdown c v := let s := Server c in
  with_Server c (MkServer (sv_ListenAddress s) (sv_AllowNonLoopback s) (sv_ReadHeader s) (sv_Read s) (sv_Write s) (sv_Idle s) v).
Definition set_data_directory c v := with_Paths c (MkPaths v).
Definition set_level c v := let l := Logging c in
  with_Logging c (MkLogging v (lg_FileEnabled l) (lg_MaxFileBytes l) (lg_MaxFiles l)).
Definition set_busy c v := let s := Storage c in
  with_Storage c (MkStorage v (so_MaxOpenConnections s) (so_WarningFreeBytes s) (so_CriticalFreeBytes s) (so_DatabaseReserveBytes s)).
Definition set_conns c v := let s := Storage c in
  with_Storage c (MkStorage (so_BusyTimeout s) v (so_WarningFreeBytes s) (so_CriticalFreeBytes s) (so_DatabaseReserveBytes s)).
(** The fields of [api] and [media_ingest] in the order of their declaration. *)
Definition set_api (i : nat) c v := let a := API c in
  let f k old := if (k =? i)%nat then v else old in
  with_API c (MkAPI (f 0%nat (ap_MaxRequestBytes a)) (f 1%nat (ap_MaxBatchEvents a))
    (f 2%nat (ap_MaxEventBytes a)) (f 3%nat (ap_MaxPayloadDepth a)) (f 4%nat (ap_MaxConcurrentWrites a))
    (f 5%nat (ap_DefaultPageSize a)) (f 6%nat (ap_MaxPageSize a))).
Definition set_media_string (i : nat) c v := let m := MediaIngest c in
  let f k old := if (k =? i)%nat then v else old in
  with_MediaIngest c (MkMediaIngest (me_Enabled m) (f 0%nat (me_InboxDirectory m)) (f 1%nat (me_ScanInterval m))
    (f 2%nat (me_SettleInterval m)) (me_MaxSegmentBytes m) (f 3%nat (me_MaxSegmentDuration m))
    (me_MaxSidecarBytes m) (me_MaxScanEntries m) (f 4%nat (me_FFprobePath m)) (f 5%nat (me_FFprobeTimeout m))).
Definition set_media_int (i : nat) c v := let m := MediaIngest c in
  let f k old := if (k =? i)%nat then v else old in
  with_MediaIngest c (MkMediaIngest (me_Enabled m) (me_InboxDirectory m) (me_ScanInterval m)
    (me_SettleInterval m) (f 0%nat (me_MaxSegmentBytes m)) (me_MaxSegmentDuration m)
    (f 1%nat (me_MaxSidecarBytes m)) (f 2%nat (me_MaxScanEntries m)) (me_FFprobePath m) (me_FFprobeTimeout m)).
Definition set_media_enabled c v := let m := MediaIngest c in
  with_MediaIngest c (MkMediaIngest v (me_InboxDirectory m) (me_ScanInterval m)
    (me_SettleInterval m) (me_MaxSegmentBytes m) (me_MaxSegmentDuration m)
    (me_MaxSidecarBytes m) (me_MaxScanEntries m) (me_FFprobePath m) (me_FFprobeTimeout m)).

Definition applyEnvironment (cfg : Config) (lookup : LookupEnv) : result string Config :=
  let? cfg := over_string lookup "MODE" set_mode cfg in
  let? cfg := over lookup "DASHBOARD_ENABLED" ParseBool with_Dashboard cfg in
  let? cfg := over_string lookup "LISTEN_ADDRESS" set_listen cfg in
  let? cfg := over lookup "ALLOW_NON_LOOPBACK" ParseBool set_nonloop cfg in
  let? cfg := over_string lookup "DATA_DIRECTORY" set_data_directory cfg in
  let? cfg := over_string lookup "LOG_LEVEL" set_level cfg in
  let? cfg := over lookup "MEDIA_INGEST_ENABLED" ParseBool set_media_enabled cfg in
  let? cfg := over_string lookup "MEDIA_INBOX_DIRECTORY" (set_media_string 0) cfg in
  let? cfg := over_string lookup "MEDIA_SCAN_INTERVAL" (set_media_string 1) cfg in
  let? cfg := over_string lookup "MEDIA_SETTLE_INTERVAL" (set_media_string 2) cfg in
  let? cfg := over_string lookup "MEDIA_MAX_SEGMENT_DURATION" (set_media_string 3) cfg in
  let? cfg := over_string lookup "FFPROBE_PATH" (set_media_string 4) cfg in
  let? cfg := over_string lookup "FFPROBE_TIMEOUT" (set_media_string 5) cfg in
  let? cfg := over_string lookup "READ_HEADER_TIMEOUT" set_read_header cfg in
  let? cfg := over_string lookup "READ_TIMEOUT" set_read cfg in
  let? cfg := over_string lookup "WRITE_TIMEOUT" set_write cfg in
  let? cfg := over_string lookup "IDLE_TIMEOUT" set_idle cfg in
  let? cfg := over_string lookup "SHUTDOWN_TIMEOUT" set_shutdown cfg in
  let? cfg := over_string lookup "BUSY_TIMEOUT" set_busy cfg in
  let? cfg := over lookup "MAX_OPEN_CONNECTIONS" parse_int set_conns cfg in
  let? cfg := over lookup "MAX_BATCH_EVENTS" parse_int (set_api 1) cfg in
  let? cfg := over lookup "MAX_EVENT_BYTES" parse_int (set_api 2) cfg in
  let? cfg := over lookup "MAX_PAYLOAD_DEPTH" parse_int (set_api 3) cfg in
  let? cfg := over lookup "MAX_CONCURRENT_WRITES" parse_int (set_api 4) cfg in
  let? cfg := over lookup "DEFAULT_PAGE_SIZE" parse_int (set_api 5) cfg in
  let? cfg := over lookup "MAX_PAGE_SIZE" parse_int (set_api 6) cfg in
  let? cfg := over lookup "MEDIA_MAX_SCAN_ENTRIES" parse_int (set_media_int 2) cfg in
  let? cfg := over lookup "MAX_REQUEST_BYTES" parse_int (set_api 0) cfg in
  let? cfg := over lookup "MEDIA_MAX_SEGMENT_BYTES" parse_int (set_media_int 0) cfg in
  over lookup "MEDIA_MAX_SIDECAR_BYTES" parse_int (set_media_int 1) cfg.

Definition DashboardIsEnabled (cfg : Config) : bool :=
  DashboardEnabled cfg && String.eqb (ru_Mode (Runtime cfg)) ModeRecordOnly.

(** ** Directories and validation *)
Section Validation.
Context `{Paths} `{Zones} `{Network} `{Floats}.

Definition pathContains (root candidate : string) : bool :=
  match path_rel (clean root) (clean candidate) with
  | None => false
  | Some relative =>
    String.eqb relative "."
    || (negb (String.eqb relative "..") && negb (has_prefix relative (".." +:+ path_separator)))
  end.
Definition pathsOverlap (first second : string) : bool :=
  pathContains first second || pathContains second first.

Definition MediaStorageDirectory (cfg : Config) : string :=
  path_join [pt_DataDirectory (PathsOf cfg); "media"].
Definition DatabasePath (cfg : Config) : string :=
  path_join [pt_DataDirectory (PathsOf cfg); "exam-monitor.db"].
Definition LogDirectory (cfg : Config) : string := path_join [pt_DataDirectory (PathsOf cfg); "logs"].

Definition bad_path (value : string) : bool :=
  negb (String.eqb (trim_space value) value) || String.eqb value "" || contains_char (chr 0) value.

Definition resolveMediaInbox (cfg : Config) : result string Config :=
  let value := me_InboxDirectory (MediaIngest cfg) in
  guard? negb (bad_path value) else CodeInvalidMedia in
  let cleaned := clean value in
  guard? is_abs cleaned || is_local cleaned else CodeInvalidMedia in
  let cleaned := if is_abs cleaned then cleaned
                 else path_join [pt_DataDirectory (PathsOf cfg); cleaned] in
  let cfg := set_media_string 0 cfg (clean cleaned) in
  guard? negb (pathsOverlap (me_InboxDirectory (MediaIngest cfg)) (MediaStorageDirectory cfg))
    else CodeInvalidMedia in
  Ok cfg.

Definition resolveDataDirectory (cfg : Config) (lookup : LookupEnv) : result string Config :=
  let value := pt_DataDirectory (PathsOf cfg) in
  guard? negb (bad_path value) else CodeInvalidDataDir in
  let cleaned := clean value in
  if is_abs cleaned then resolveMediaInbox (set_data_directory cfg cleaned)
  else
    guard? is_local cleaned else CodeInvalidDataDir in
    match lookup "LOCALAPPDATA" with
    | None => Err CodeInvalidDataDir
    | Some root =>
      guard? String.eqb (trim_space root) root && is_abs root else CodeInvalidDataDir in
      let applicationRoot := path_join [clean root; "ExamMonitor"] in
      let resolved := clean (path_join [applicationRoot; cleaned]) in
      match path_rel applicationRoot resolved with
      | None => Err CodeInvalidDataDir
      | Some relative =>
        guard? negb (String.eqb relative ".." || has_prefix relative (".." +:+ path_separator))
          else CodeInvalidDataDir in
        resolveMediaInbox (set_data_directory cfg resolved)
      end
    end.

(** A duration within bounds, or the code of the section. *)
Definition bounded_duration (code value : string) (minimum maximum : duration) : result string duration :=
  match ParseDuration value with
  | Some d => guard? in_range minimum maximum d else code in Ok d
  | None => Err code
  end.
Definition validateDuration (value : string) := bounded_duration CodeInvalidTimeout value (100 * millisecond) (2 * minute).
Definition validateMediaDuration := bounded_duration CodeInvalidMedia.
Definition validateOperationsDuration := bounded_duration CodeInvalidOperations.
Definition validateRetentionDuration := bounded_duration CodeInvalidRetention.
Definition parseCollectorDuration := bounded_duration CodeInvalidCollector.

Definition validConfigIdentifier (value : string) (maximum : Z) : bool :=
  negb (String.eqb value "" || (maximum <? slen value) || negb (String.eqb (trim_space value) value)
        || negb (valid_utf8 value))
  && forallb (fun r => negb (is_control r)) (runes value).

Definition parseClockMinute (value : string) (allowEndOfDay : bool) : option Z :=
  if allowEndOfDay && String.eqb value "24:00" then Some (24 * 60)
  else let! (h, m) := parse_clock value in
       oguard (String.eqb (format_clock h m) value) (Some (h * 60 + m)).

Definition validDays : list string :=
  ["monday"; "tuesday"; "wednesday"; "thursday"; "friday"; "saturday"; "sunday"].

Fixpoint days_ok (seen days : list string) : bool :=
  match days with
  | [] => true
  | d :: rest => bool_decide (d ∈ validDays) && negb (bool_decide (d ∈ seen)) && days_ok (d :: seen) rest
  end.

Definition window_ok (w : ScheduleWindowConfig) : bool :=
  (0 <? Z.of_nat (length (w_Days w))) && (Z.of_nat (length (w_Days w)) <=? 7)
  && days_ok [] (w_Days w)
  && match parseClockMinute (w_StartLocal w) false, parseClockMinute (w_EndLocal w) true with
     | Some start, Some finish => start <? finish
     | _, _ => false
     end.

Definition validateSchedule (s : PlannedScheduleConfig) : result string unit :=
  guard? negb (String.eqb (sc_Timezone s) "" || String.eqb (sc_Timezone s) "Local") else CodeInvalidCollector in
  guard? (match load_location (sc_Timezone s) with Some _ => true | None => false end) else CodeInvalidCollector in
  guard? (0 <? Z.of_nat (length (sc_Windows s))) && (Z.of_nat (length (sc_Windows s)) <=? 64)
    else CodeInvalidCollector in
  guard? forallb window_ok (sc_Windows s) else CodeInvalidCollector in
  Ok tt.

Definition validateActivityWatch (aw : option ActivityWatchConfig) (maxBatch : Z)
    (heartbeatPeriod : duration) : result string unit :=
  match aw with
  | None => Err CodeInvalidCollector
  | Some a =>
    match url_parse (aw_BaseURL a) with
    | None => Err CodeInvalidCollector
    | Some u =>
      guard? String.eqb (u_Scheme u) "http" && negb (u_HasUser u) && String.eqb (u_RawQuery u) ""
             && String.eqb (u_Fragment u) "" && (String.eqb (u_Path u) "" || String.eqb (u_Path u) "/")
        else CodeInvalidCollector in
      guard? (match parse_ip (u_Hostname u), parse_int (u_Port u) with
              | Some ip, Some port => ip_is_loopback ip && in_range 1 65535 port
              | _, _ => false
              end) else CodeInvalidCollector in
      guard? validConfigIdentifier (aw_BucketID a) 256
             && negb (existsb (fun c => contains_char c (aw_BucketID a)) ["/"; "\"; "?"; "#"]%char)
        else CodeInvalidCollector in
      guard? forallb (fun v => match ParseDuration v with
                               | Some d => (0 <? d) && (d <=? 366 * 24 * hour)
                               | None => false
                               end)
               [aw_PollInterval a; aw_RequestTimeout a; aw_InitialLookback a; aw_RescanWindow a]
        else CodeInvalidCollector in
      let poll := duration_of (aw_PollInterval a) in
      guard? in_range second (10 * minute) poll else CodeInvalidCollector in
      guard? poll <=? heartbeatPeriod else CodeInvalidCollector in
      guard? in_range (100 * millisecond) minute (duration_of (aw_RequestTimeout a)) else CodeInvalidCollector in
      guard? in_range 1 maxBatch (aw_PageSize a) && in_range 1 100 (aw_MaxPagesPerPoll a)
             && in_range 1024 (Z.shiftl 8 20) (aw_MaxResponseBytes a)
             && in_range 0 (24 * 60 * 60 * 1000) (aw_ClockErrorMS a)
        else CodeInvalidCollector in
      Ok tt
    end
  end.

(** The checks of one enabled collector. *)
Definition validateCollector (cfg : Config) (c : CollectorConfig) : result string unit :=
  let? heartbeat := parseCollectorDuration (co_HeartbeatPeriod c) second (10 * minute) in
  let? lateness := parseCollectorDuration (co_AllowedLateness c) 0 hour in
  let? offline := parseCollectorDuration (co_OfflineAfter c) second (24 * hour) in
  guard? heartbeat + lateness <=? offline else CodeInvalidCollector in
  let? _ := validateSchedule (co_PlannedSchedule c) in
  if String.eqb (co_Kind c) CollectorActivityWatch then
    guard? offline <=? 5 * minute else CodeInvalidCollector in
    validateActivityWatch (co_ActivityWatch c) (ap_MaxBatchEvents (API cfg)) heartbeat
  else if String.eqb (co_Kind c) CollectorMedia then
    guard? offline <=? 15 * minute else CodeInvalidCollector in
    guard? (match co_ActivityWatch c with None => true | Some _ => false end) else CodeInvalidCollector in
    Ok tt
  else
    guard? (match co_ActivityWatch c with None => true | Some _ => false end) else CodeInvalidCollector in
    Ok tt.

Definition kinds : list string := [CollectorActivityWatch; CollectorGenericJSON; CollectorMedia].

(** The loop over the collectors. *)
Fixpoint validateCollectorList (cfg : Config) (seen : list string) (l : list CollectorConfig)
    : result string unit :=
  match l with
  | [] => Ok tt
  | c :: rest =>
    guard? validConfigIdentifier (co_ID c) 128 else CodeInvalidCollector in
    guard? negb (bool_decide (co_ID c ∈ seen)) else CodeInvalidCollector in
    guard? bool_decide (co_Kind c ∈ kinds) else CodeInvalidCollector in
    let? _ := (if co_Enabled c then validateCollector cfg c else Ok tt) in
    validateCollectorList cfg (co_ID c :: seen) rest
  end.

Definition enabled_of (kind : string) (l : list CollectorConfig) : Z :=
  Z.of_nat (length (List.filter (fun c => co_Enabled c && String.eqb (co_Kind c) kind) l)).

Definition validateCollectors (cfg : Config) : result string unit :=
  guard? Z.of_nat (length (Collectors cfg)) <=? 64 else CodeInvalidCollector in
  let? _ := validateCollectorList cfg [] (Collectors cfg) in
  let? _ :=
    (if String.eqb (ru_Mode (Runtime cfg)) ModeMinimum then
       guard? ru_BackupInterfaceEnabled (Runtime cfg) else CodeInvalidRuntime in
       guard? negb ((enabled_of CollectorActivityWatch (Collectors cfg) =? 0)
                    || (enabled_of CollectorMedia (Collectors cfg) =? 0)
                    || negb (me_Enabled (MediaIngest cfg))) else CodeInvalidRuntime in
       guard? forallb (fun c => negb (co_Enabled c)
                                || String.eqb (co_Kind c) CollectorActivityWatch
                                || String.eqb (co_Kind c) CollectorMedia) (Collectors cfg)
         else CodeInvalidRuntime in
       Ok tt
     else Ok tt) in
  guard? enabled_of CollectorActivityWatch (Collectors cfg) <=? 4 else CodeInvalidCollector in
  Ok tt.

Definition validateTimeline (cfg : Config) : result string unit :=
  let t := Timeline cfg in
  let? _ := bounded_duration CodeInvalidTimeline (tl_ClockUncertainAfter t) millisecond (24 * hour) in
  let? _ := bounded_duration CodeInvalidTimeline (tl_MaxQueryRange t) minute (366 * 24 * hour) in
  guard? in_range 100 1000000 (tl_MaxProjectionFacts t) else CodeInvalidTimeline in
  Ok tt.

Definition validateServer (cfg : Config) : result string unit :=
  let s := Server cfg in
  match SplitHostPort (sv_ListenAddress s) with
  | None => Err CodeInvalidAddress
  | Some (host, port) =>
    guard? String.eqb (trim_space host) host && String.eqb (trim_space port) port else CodeInvalidAddress in
    match parse_ip host, parse_int port with
    | Some ip, Some portNumber =>
      guard? in_range 1 65535 portNumber else CodeInvalidAddress in
      guard? ip_is_loopback ip || sv_AllowNonLoopback s else CodeNonLoopback in
      Ok tt
    | _, _ => Err CodeInvalidAddress
    end
  end.

Definition validateStorage (cfg : Config) : result string unit :=
  let s := Storage cfg in
  let? _ := bounded_duration CodeInvalidStorage (so_BusyTimeout s) (100 * millisecond) (30 * second) in
  guard? in_range 1 32 (so_MaxOpenConnections s) else CodeInvalidStorage in
  guard? negb ((so_DatabaseReserveBytes s <? Z.shiftl 64 20)
               || (so_CriticalFreeBytes s <=? so_DatabaseReserveBytes s)
               || (so_WarningFreeBytes s <=? so_CriticalFreeBytes s)) else CodeInvalidStorage in
  guard? so_WarningFreeBytes s <=? Z.shiftl 1 50 else CodeInvalidStorage in
  Ok tt.

Definition validateOperations (cfg : Config) : result string unit :=
  let o := Operations cfg in let r := Retention cfg in
  let? _ := validateOperationsDuration (op_DiskCheckInterval o) second (10 * minute) in
  let? _ := validateOperationsDuration (op_WALCheckpointInterval o) second (24 * hour) in
  let? _ := validateOperationsDuration (op_TempCleanupInterval o) minute (24 * hour) in
  let? _ := validateOperationsDuration (op_TempMaxAge o) hour (30 * 24 * hour) in
  guard? in_range (Z.shiftl 1 20) (Z.shiftl 4 30) (op_WALMaxBytes o)
         && in_range 1 100000 (op_TempMaxFiles o) else CodeInvalidOperations in
  let? _ := validateRetentionDuration (re_ScanInterval r) minute (24 * hour) in
  let? _ := validateRetentionDuration (re_MinimumAge r) (24 * hour) (10 * 365 * 24 * hour) in
  guard? in_range 1 10000 (re_MaxDeletesPerRun r) else CodeInvalidRetention in
  guard? negb (re_Enabled r && negb (re_RequireFullBackup r)) else CodeInvalidRetention in
  Ok tt.

Definition validateAPI (cfg : Config) : result string unit :=
  let a := API cfg in
  guard? in_range (Z.shiftl 64 10) (Z.shiftl 16 20) (ap_MaxRequestBytes a) else CodeInvalidAPILimit in
  guard? in_range 1 1000 (ap_MaxBatchEvents a) else CodeInvalidAPILimit in
  guard? in_range 1024 (Z.shiftl 1 20) (ap_MaxEventBytes a)
         && (ap_MaxEventBytes a <? ap_MaxRequestBytes a) else CodeInvalidAPILimit in
  guard? in_range 1 64 (ap_MaxPayloadDepth a) else CodeInvalidAPILimit in
  guard? in_range 1 32 (ap_MaxConcurrentWrites a) else CodeInvalidAPILimit in
  guard? (1 <=? ap_DefaultPageSize a) && (ap_DefaultPageSize a <=? ap_MaxPageSize a)
         && (ap_MaxPageSize a <=? 1000) else CodeInvalidAPILimit in
  Ok tt.

Definition validateMedia (cfg : Config) : result string unit :=
  let m := MediaIngest cfg in
  guard? is_abs (me_InboxDirectory m)
         && negb (pathsOverlap (me_InboxDirectory m) (MediaStorageDirectory cfg)) else CodeInvalidMedia in
  let? _ := validateMediaDuration (me_ScanInterval m) (100 * millisecond) minute in
  let? _ := validateMediaDuration (me_SettleInterval m) (100 * millisecond) minute in
  let? _ := validateMediaDuration (me_MaxSegmentDuration m) second (10 * minute) in
  let? _ := validateMediaDuration (me_FFprobeTimeout m) second (2 * minute) in
  guard? in_range 1024 (Z.shiftl 64 30) (me_MaxSegmentBytes m) else CodeInvalidMedia in
  guard? in_range 1024 (Z.shiftl 1 20) (me_MaxSidecarBytes m) else CodeInvalidMedia in
  guard? in_range 1 10000 (me_MaxScanEntries m) else CodeInvalidMedia in
  guard? negb (me_Enabled m && negb (is_abs (me_FFprobePath m))) else CodeInvalidMedia in
  Ok tt.

Definition validateTimeouts (cfg : Config) : result string unit :=
  let s := Server cfg in
  let? readHeaderTimeout := validateDuration (sv_ReadHeader s) in
  let? readTimeout := validateDuration (sv_Read s) in
  guard? readHeaderTimeout <=? readTimeout else CodeInvalidTimeout in
  let? _ := validateDuration (sv_Write s) in
  let? _ := validateDuration (sv_Idle s) in
  let? _ := validateDuration (sv_Shutdown s) in
  Ok tt.

Definition Validate (cfg : Config) : result string unit :=
  guard? SchemaVersion cfg =? CurrentSchemaVersion else CodeUnsupportedSchema in
  let? _ := validateServer cfg in
  guard? is_abs (pt_DataDirectory (PathsOf cfg)) else CodeInvalidDataDir in
  guard? String.eqb (ru_Mode (Runtime cfg)) ModeRecordOnly
         || String.eqb (ru_Mode (Runtime cfg)) ModeMinimum else CodeInvalidRuntime in
  guard? existsb (String.eqb (to_lower (lg_Level (Logging cfg)))) ["debug"; "info"; "warn"; "error"]
    else CodeInvalidLogLevel in
  guard? in_range (Z.shiftl 1 20) (Z.shiftl 1 30) (lg_MaxFileBytes (Logging cfg))
         && in_range 2 100 (lg_MaxFiles (Logging cfg)) else CodeInvalidLogLevel in
  let? _ := validateTimeouts cfg in
  let? _ := validateStorage cfg in
  let? _ := validateOperations cfg in
  let? _ := validateAPI cfg in
  let? _ := validateMedia cfg in
  let? _ := validateTimeline cfg in
  validateCollectors cfg.

(** [file] is what [os.ReadFile] returns: [None] for an error. *)
Definition Load (path : string) (file : option string) (lookup : LookupEnv) : result string Config :=
  let? cfg :=
    (if String.eqb path "" then Ok defaultConfig
     else match file with
          | None => Err CodeReadFailed
          | Some raw => decodeFile raw defaultConfig
          end) in
  let? cfg := applyEnvironment cfg lookup in
  let? cfg := resolveDataDirectory cfg lookup in
  let? _ := Validate cfg in
  Ok cfg.

(** Accessors. *)
Definition HeartbeatPeriodDuration (c : CollectorConfig) : duration := duration_of (co_HeartbeatPeriod c).
Definition AllowedLatenessDuration (c : CollectorConfig) : duration := duration_of (co_AllowedLateness c).
Definition OfflineAfterDuration (c : CollectorConfig) : duration := duration_of (co_OfflineAfter c).
Definition ReadHeaderTimeout (cfg : Config) : duration := duration_of (sv_ReadHeader (Server cfg)).
Definition ReadTimeout (cfg : Config) : duration := duration_of (sv_Read (Server cfg)).
Definition WriteTimeout (cfg : Config) : duration := duration_of (sv_Write (Server cfg)).
Definition IdleTimeout (cfg : Config) : duration := duration_of (sv_Idle (Server cfg)).
Definition ShutdownTimeout (cfg : Config) : duration := duration_of (sv_Shutdown (Server cfg)).
Definition DiskCheckInterval (cfg : Config) : duration := duration_of (op_DiskCheckInterval (Operations cfg)).
Definition WALCheckpointInterval (cfg : Config) : duration := duration_of (op_WALCheckpointInterval (Operations cfg)).
Definition TempCleanupInterval (cfg : Config) : duration := duration_of (op_TempCleanupInterval (Operations cfg)).
Definition RetentionScanInterval (cfg : Config) : duration := duration_of (re_ScanInterval (Retention cfg)).
Definition MediaScanInterval (cfg : Config) : duration := duration_of (me_ScanInterval (MediaIngest cfg)).
Definition FFprobeTimeout (cfg : Config) : duration := duration_of (me_FFprobeTimeout (MediaIngest cfg)).
Definition PollIntervalDuration (a : ActivityWatchConfig) : duration := duration_of (aw_PollInterval a).
Definition RequestTimeoutDuration (a : ActivityWatchConfig) : duration := duration_of (aw_RequestTimeout a).
Definition BusyTimeout (cfg : Config) : duration := duration_of (so_BusyTimeout (Storage cfg)).
Definition RetentionMinimumAge (cfg : Config) : duration := duration_of (re_MinimumAge (Retention cfg)).
Definition TempMaxAge (cfg : Config) : duration := duration_of (op_TempMaxAge (Operations cfg)).
Definition RescanWindowDuration (a : ActivityWatchConfig) : duration := duration_of (aw_RescanWindow a).
Definition InitialLookbackDuration (a : ActivityWatchConfig) : duration := duration_of (aw_InitialLookback a).
Definition ClockUncertainAfter (cfg : Config) : duration := duration_of (tl_ClockUncertainAfter (Timeline cfg)).
Definition TimelineMaxQueryRange (cfg : Config) : duration := duration_of (tl_MaxQueryRange (Timeline cfg)).
Definition MediaSettleInterval (cfg : Config) : duration := duration_of (me_SettleInterval (MediaIngest cfg)).
Definition MediaMaxSegmentDuration (cfg : Config) : duration := duration_of (me_MaxSegmentDuration (MediaIngest cfg)).
End Validation.

(** ** What a loaded configuration guarantees *)
Section Guarantees.
Context `{Paths} `{Zones} `{Network} `{Floats}.

Lemma bounded_duration_Ok code v lo hi d :
  bounded_duration code v lo hi = Ok d <-> ParseDuration v = Some d /\ lo <= d <= hi.
Proof.
  unfold bounded_duration, in_range. destruct (ParseDuration v) as [x|]; [|split; [done|by intros [? _]]].
  destruct (Z.leb_spec lo x), (Z.leb_spec x hi); simpl; split; intros; try destruct_and?; simplify_eq; try done; lia.
Qed.
Lemma bounded_duration_of code v lo hi d :
  bounded_duration code v lo hi = Ok d -> duration_of v = d /\ lo <= d <= hi.
Proof. intros E. apply bounded_duration_Ok in E as [E ?]. unfold duration_of. by rewrite E. Qed.

Lemma in_range_true lo hi z : in_range lo hi z = true -> lo <= z <= hi.
Proof. unfold in_range. intros; to_prop; lia. Qed.

(** The listener: an IP literal and a port, loopback unless allowed otherwise. *)
Definition listener_ok (s : ServerConfig) : Prop :=
  exists host port ip n, SplitHostPort (sv_ListenAddress s) = Some (host, port) /\
    parse_ip host = Some ip /\ parse_int port = Some n /\ 1 <= n <= 65535 /\
    (ip_is_loopback ip = true \/ sv_AllowNonLoopback s = true).

(** A collector's schedule: a named zone, and windows that are distinct days
    from a start before an end. *)
Definition window_operable (w : ScheduleWindowConfig) : Prop :=
  w_Days w <> [] /\ (length (w_Days w) <= 7)%nat /\ NoDup (w_Days w) /\
  (forall d, d ∈ w_Days w -> d ∈ validDays) /\
  exists start finish, parseClockMinute (w_StartLocal w) false = Some start /\
    parseClockMinute (w_EndLocal w) true = Some finish /\ start < finish.
Definition schedule_operable (s : PlannedScheduleConfig) : Prop :=
  sc_Timezone s <> "" /\ sc_Timezone s <> "Local" /\ is_Some (load_location (sc_Timezone s)) /\
  sc_Windows s <> [] /\ (length (sc_Windows s) <= 64)%nat /\ Forall window_operable (sc_Windows s).

(** An ActivityWatch collector: plain HTTP to a loopback address, a bucket that
    is one path segment, and a poll that fits the heartbeat and the batch. *)
Definition server_operable (u : url) : Prop :=
  u_Scheme u = "http" /\ u_HasUser u = false /\ u_RawQuery u = "" /\ u_Fragment u = "" /\
  (u_Path u = "" \/ u_Path u = "/") /\
  exists ip port, parse_ip (u_Hostname u) = Some ip /\ ip_is_loopback ip = true /\
    parse_int (u_Port u) = Some port /\ 1 <= port <= 65535.
Definition bucket_operable (b : string) : Prop :=
  validConfigIdentifier b 256 = true /\
  Forall (fun c => contains_char c b = false) ["/"; "\"; "?"; "#"]%char.
Definition activitywatch_operable (maxBatch period : Z) (a : ActivityWatchConfig) : Prop :=
  (exists u, url_parse (aw_BaseURL a) = Some u /\ server_operable u) /\
  bucket_operable (aw_BucketID a) /\
  second <= PollIntervalDuration a <= 10 * minute /\ PollIntervalDuration a <= period /\
  100 * millisecond <= RequestTimeoutDuration a <= minute /\
  0 < InitialLookbackDuration a <= 366 * 24 * hour /\ 0 < RescanWindowDuration a <= 366 * 24 * hour /\
  1 <= aw_PageSize a <= maxBatch /\ 1 <= aw_MaxPagesPerPoll a <= 100 /\
  1024 <= aw_MaxResponseBytes a <= Z.shiftl 8 20 /\ 0 <= aw_ClockErrorMS a <= 24 * 60 * 60 * 1000.

(** An enabled collector: it goes offline no earlier than a heartbeat may be
    late, and within the time its kind allows. *)
Definition collector_operable (maxBatch : Z) (c : CollectorConfig) : Prop :=
  second <= HeartbeatPeriodDuration c <= 10 * minute /\ 0 <= AllowedLatenessDuration c <= hour /\
  is_Some (ParseDuration (co_AllowedLateness c)) /\ second <= OfflineAfterDuration c <= 24 * hour /\
  HeartbeatPeriodDuration c + AllowedLatenessDuration c <= OfflineAfterDuration c /\
  (co_Kind c = CollectorActivityWatch -> OfflineAfterDuration c <= 5 * minute) /\
  (co_Kind c = CollectorMedia -> OfflineAfterDuration c <= 15 * minute) /\
  schedule_operable (co_PlannedSchedule c) /\
  (is_Some (co_ActivityWatch c) <-> co_Kind c = CollectorActivityWatch) /\
  (forall a, co_ActivityWatch c = Some a -> activitywatch_operable maxBatch (HeartbeatPeriodDuration c) a).

(** In minimum mode the backup interface and media ingest are on, an
    ActivityWatch and a media collector are enabled and no other kind is. *)
Definition minimum_operable (cfg : Config) : Prop :=
  ru_BackupInterfaceEnabled (Runtime cfg) = true /\ me_Enabled (MediaIngest cfg) = true /\
  (exists c, c ∈ Collectors cfg /\ co_Enabled c = true /\ co_Kind c = CollectorActivityWatch) /\
  (exists c, c ∈ Collectors cfg /\ co_Enabled c = true /\ co_Kind c = CollectorMedia) /\
  (forall c, c ∈ Collectors cfg -> co_Enabled c = true ->
     co_Kind c = CollectorActivityWatch \/ co_Kind c = CollectorMedia).

(** What the running recorder relies on. The accessors ignore parse errors, so
    that a duration is stated of the accessor: one that is in bounds was read. *)
Record operable (cfg : Config) : Prop := {
  o_schema : SchemaVersion cfg = 1;
  o_listener : listener_ok (Server cfg);
  o_mode : ru_Mode (Runtime cfg) = ModeRecordOnly \/ ru_Mode (Runtime cfg) = ModeMinimum;
  o_data : is_abs (pt_DataDirectory (PathsOf cfg)) = true;
  o_level : to_lower (lg_Level (Logging cfg)) ∈ ["debug"; "info"; "warn"; "error"];
  o_log_files : Z.shiftl 1 20 <= lg_MaxFileBytes (Logging cfg) <= Z.shiftl 1 30 /\
                2 <= lg_MaxFiles (Logging cfg) <= 100;
  o_headers : ReadHeaderTimeout cfg <= ReadTimeout cfg;
  o_timeouts : Forall (fun d => 100 * millisecond <= d <= 2 * minute)
    [ReadHeaderTimeout cfg; ReadTimeout cfg; WriteTimeout cfg; IdleTimeout cfg; ShutdownTimeout cfg];
  o_busy : 100 * millisecond <= BusyTimeout cfg <= 30 * second;
  o_connections : 1 <= so_MaxOpenConnections (Storage cfg) <= 32;
  o_storage : Z.shiftl 64 20 <= so_DatabaseReserveBytes (Storage cfg)
                < so_CriticalFreeBytes (Storage cfg) /\
              so_CriticalFreeBytes (Storage cfg) < so_WarningFreeBytes (Storage cfg) <= Z.shiftl 1 50;
  o_disk : second <= DiskCheckInterval cfg <= 10 * minute;
  o_wal : second <= WALCheckpointInterval cfg <= 24 * hour /\
          Z.shiftl 1 20 <= op_WALMaxBytes (Operations cfg) <= Z.shiftl 4 30;
  o_temp : minute <= TempCleanupInterval cfg <= 24 * hour /\ hour <= TempMaxAge cfg <= 30 * 24 * hour /\
           1 <= op_TempMaxFiles (Operations cfg) <= 100000;
  o_retention : minute <= RetentionScanInterval cfg <= 24 * hour /\
                24 * hour <= RetentionMinimumAge cfg <= 10 * 365 * 24 * hour /\
                1 <= re_MaxDeletesPerRun (Retention cfg) <= 10000;
  o_backup : re_Enabled (Retention cfg) = true -> re_RequireFullBackup (Retention cfg) = true;
  o_requests : Z.shiftl 64 10 <= ap_MaxRequestBytes (API cfg) <= Z.shiftl 16 20 /\
               1 <= ap_MaxBatchEvents (API cfg) <= 1000 /\
               1024 <= ap_MaxEventBytes (API cfg) <= Z.shiftl 1 20 /\
               ap_MaxEventBytes (API cfg) < ap_MaxRequestBytes (API cfg) /\
               1 <= ap_MaxPayloadDepth (API cfg) <= 64 /\ 1 <= ap_MaxConcurrentWrites (API cfg) <= 32;
  o_pages : 1 <= ap_DefaultPageSize (API cfg) <= ap_MaxPageSize (API cfg) /\
            ap_MaxPageSize (API cfg) <= 1000;
  o_inbox : is_abs (me_InboxDirectory (MediaIngest cfg)) = true /\
            pathsOverlap (me_InboxDirectory (MediaIngest cfg)) (MediaStorageDirectory cfg) = false;
  o_media : 100 * millisecond <= MediaScanInterval cfg <= minute /\
            100 * millisecond <= MediaSettleInterval cfg <= minute /\
            second <= MediaMaxSegmentDuration cfg <= 10 * minute /\
            second <= FFprobeTimeout cfg <= 2 * minute /\
            1024 <= me_MaxSegmentBytes (MediaIngest cfg) <= Z.shiftl 64 30 /\
            1024 <= me_MaxSidecarBytes (MediaIngest cfg) <= Z.shiftl 1 20 /\
            1 <= me_MaxScanEntries (MediaIngest cfg) <= 10000;
  o_ffprobe : me_Enabled (MediaIngest cfg) = true -> is_abs (me_FFprobePath (MediaIngest cfg)) = true;
  o_timeline : millisecond <= ClockUncertainAfter cfg <= 24 * hour /\
               minute <= TimelineMaxQueryRange cfg <= 366 * 24 * hour /\
               100 <= tl_MaxProjectionFacts (Timeline cfg) <= 1000000;
  o_identities : (length (Collectors cfg) <= 64)%nat /\ NoDup (map co_ID (Collectors cfg));
  o_collectors : Forall (fun c => validConfigIdentifier (co_ID c) 128 = true /\ co_Kind c ∈ kinds /\
    (co_Enabled c = true -> collector_operable (ap_MaxBatchEvents (API cfg)) c)) (Collectors cfg);
  o_minimum : ru_Mode (Runtime cfg) = ModeMinimum -> minimum_operable cfg;
  o_watchers : enabled_of CollectorActivityWatch (Collectors cfg) <= 4 }.

Lemma validateServer_ok cfg x : validateServer cfg = Ok x -> listener_ok (Server cfg).
Proof.
  unfold validateServer, listener_ok. intros E.
  destruct (SplitHostPort _) as [[host port]|]; [|done]. inv_ok E.
  destruct (parse_ip host) as [ip|] eqn:Ei; [|done]. destruct (parse_int port) as [n|] eqn:En; [|done].
  inv_oks E. exists host, port, ip, n. split; [done|]. split; [done|]. split; [done|].
  split; [by apply in_range_true|]. by apply orb_true_iff.
Qed.

Lemma days_ok_spec : forall days seen, days_ok seen days = true ->
  NoDup days /\ forall d, d ∈ days -> d ∈ validDays /\ (d ∉ seen).
Proof.
  induction days as [|d days IH]; intros seen E; cbn [days_ok] in E.
  { split; [constructor|]. intros d Hd. by apply elem_of_nil in Hd. }
  to_prop. match goal with H : days_ok _ _ = true |- _ => destruct (IH _ H) as [HN Hd] end. split.
  - constructor; [|done]. intros Hin. apply (Hd d Hin). left.
  - intros x Hx. apply elem_of_cons in Hx as [->|Hx]; [done|]. destruct (Hd x Hx) as [? Hs].
    split; [done|]. intros Hin. apply Hs. by right.
Qed.

Lemma window_ok_operable w : window_ok w = true -> window_operable w.
Proof.
  unfold window_ok, window_operable. intros E.
  destruct (parseClockMinute (w_StartLocal w) false) as [start|] eqn:Es; [|by to_prop].
  destruct (parseClockMinute (w_EndLocal w) true) as [finish|] eqn:Ef; [|by to_prop].
  to_prop. match goal with H : days_ok _ _ = true |- _ => apply days_ok_spec in H as [HN Hd] end.
  split; [by destruct (w_Days w)|]. split; [lia|]. split; [done|]. split; [by intros d Hin; apply (Hd d Hin)|].
  eauto.
Qed.

Lemma validateSchedule_operable s : validateSchedule s = Ok tt -> schedule_operable s.
Proof.
  unfold validateSchedule, schedule_operable. intros E.
  destruct (load_location (sc_Timezone s)) as [z|]; inv_oks E; [|done]. to_prop.
  split; [done|]. split; [done|]. split; [by eexists|].
  split; [by destruct (sc_Windows s)|]. split; [lia|].
  rewrite Forall_forall. intros w Hw. rewrite list_elem_of_In in Hw. apply window_ok_operable.
  match goal with H : forallb _ _ = true |- _ => rewrite forallb_forall in H; auto end.
Qed.

Lemma validateActivityWatch_operable aw n period : validateActivityWatch aw n period = Ok tt ->
  exists a, aw = Some a /\ activitywatch_operable n period a.
Proof.
  unfold validateActivityWatch. destruct aw as [a|]; [|done]. intros E. exists a. split; [done|].
  destruct (url_parse _) as [u|] eqn:Eu; [|done].
  destruct (parse_ip (u_Hostname u)) as [ip|] eqn:Ei; [|by inv_oks E].
  destruct (parse_int (u_Port u)) as [port|] eqn:Ep; [|by inv_oks E]. inv_oks E.
  repeat match goal with H : context [forallb _ [_; _; _; _]] |- _ => cbn [forallb] in H end.
  unfold activitywatch_operable, PollIntervalDuration, RequestTimeoutDuration, InitialLookbackDuration,
    RescanWindowDuration, duration_of in *.
  repeat match goal with H : context [ParseDuration ?v] |- _ => destruct (ParseDuration v); [|by to_prop] end.
  unfold default, id in *. unfold in_range in *. to_prop.
  split; [exists u; split; [done|]; unfold server_operable|].
  { match goal with H : (_ || _)%bool = true |- _ => apply orb_true_iff in H end.
    split; [done|]. split; [done|]. split; [done|]. split; [done|]. split; [destruct_or?; to_prop; auto|].
    exists ip, port. repeat split; try done; lia. }
  split; [split; [done|]|].
  { match goal with H : existsb _ _ = false |- _ => rename H into Hb end.
    rewrite Forall_forall. intros c Hc. rewrite list_elem_of_In in Hc.
    destruct (contains_char c (aw_BucketID a)) eqn:Ec; [|done].
    rewrite <- Hb. symmetry. apply existsb_exists. by exists c. }
  repeat split; lia.
Qed.

Lemma validateCollector_operable cfg c :
  validateCollector cfg c = Ok tt -> collector_operable (ap_MaxBatchEvents (API cfg)) c.
Proof.
  unfold validateCollector, parseCollectorDuration. intros E.
  inv_ok E. inv_ok E. inv_ok E. inv_ok E. inv_ok E. cbv beta in E. to_prop.
  match goal with H : validateSchedule _ = Ok ?x |- _ => destruct x; apply validateSchedule_operable in H end.
  assert (is_Some (ParseDuration (co_AllowedLateness c))).
  { match goal with H : bounded_duration _ (co_AllowedLateness c) _ _ = Ok _ |- _ =>
      apply bounded_duration_Ok in H as [H _]; by rewrite H end. }
  repeat match goal with H : bounded_duration _ _ _ _ = Ok _ |- _ => apply bounded_duration_of in H as [? ?] end.
  unfold collector_operable, HeartbeatPeriodDuration, AllowedLatenessDuration, OfflineAfterDuration. subst.
  do 5 (split; [done || lia|]).
  destruct (String.eqb_spec (co_Kind c) CollectorActivityWatch) as [Hk|Hk].
  - inv_ok E. to_prop. rewrite Hk. split; [lia|]. split; [discriminate|]. split; [done|].
    apply validateActivityWatch_operable in E as (a & -> & Hp). split; [done|]. by intros ? [= <-].
  - split; [done|]. destruct (String.eqb_spec (co_Kind c) CollectorMedia) as [Hm|Hm]; inv_oks E; to_prop.
    + split; [lia|]. split; [done|]. split; [split; [|done]; intros [? Hsome]|intros ? Hsome]; by rewrite Hsome in *.
    + split; [done|]. split; [done|]. split; [split; [|done]; intros [? Hsome]|intros ? Hsome]; by rewrite Hsome in *.
Qed.

Lemma validateCollectorList_operable cfg : forall l seen,
  validateCollectorList cfg seen l = Ok tt ->
  NoDup (map co_ID l) /\ (forall c, c ∈ l -> (co_ID c ∉ seen)) /\
  Forall (fun c => validConfigIdentifier (co_ID c) 128 = true /\ co_Kind c ∈ kinds /\
    (co_Enabled c = true -> collector_operable (ap_MaxBatchEvents (API cfg)) c)) l.
Proof.
  induction l as [|c l IH]; intros seen E; cbn [validateCollectorList map] in *.
  { split; [constructor|]. split; [|constructor]. intros c Hc. by apply elem_of_nil in Hc. }
  inv_oks E. to_prop. destruct (IH _ E) as (HN & Hs & Hall). split; [|split].
  - constructor; [|done]. intros Hin. apply list_elem_of_fmap in Hin as (x & Ex & Hx).
    apply (Hs x Hx). rewrite <- Ex. left.
  - intros x Hx. apply elem_of_cons in Hx as [->|Hx]; [done|].
    intros Hin. apply (Hs x Hx). by right.
  - constructor; [|done]. split; [done|]. split; [done|]. intros Hen. rewrite Hen in *. destruct a.
    by apply validateCollector_operable.
Qed.

Lemma enabled_of_pos kind l :
  enabled_of kind l <> 0 -> exists c, c ∈ l /\ co_Enabled c = true /\ co_Kind c = kind.
Proof.
  unfold enabled_of. intros Hn. destruct (List.filter _ l) as [|c t] eqn:E; [done|].
  assert (Hc : c ∈ c :: t) by left. rewrite <- E, list_elem_of_In in Hc.
  apply filter_In in Hc as [Hc Hb]. exists c. rewrite list_elem_of_In. to_prop. done.
Qed.

Lemma validateCollectors_operable cfg : validateCollectors cfg = Ok tt ->
  (length (Collectors cfg) <= 64)%nat /\ validateCollectorList cfg [] (Collectors cfg) = Ok tt /\
  (ru_Mode (Runtime cfg) = ModeMinimum -> minimum_operable cfg) /\
  enabled_of CollectorActivityWatch (Collectors cfg) <= 4.
Proof.
  unfold validateCollectors. intros E. inv_oks E. to_prop.
  match goal with H : validateCollectorList _ _ _ = Ok ?x |- _ => destruct x end.
  split; [lia|]. split; [done|]. split; [|done]. intros Hmode.
  match goal with H : (if String.eqb _ ModeMinimum then _ else _) = Ok _ |- _ =>
    rewrite Hmode in H; change (String.eqb ModeMinimum ModeMinimum) with true in H; cbv iota in H; inv_oks H end.
  to_prop. split; [done|]. split; [done|]. split; [by apply enabled_of_pos|].
  split; [by apply enabled_of_pos|].
  intros c Hc Hen. match goal with H : forallb _ _ = true |- _ => rewrite forallb_forall in H; specialize (H c) end.
  rewrite list_elem_of_In in Hc. match goal with H : _ -> _ = true |- _ => specialize (H Hc) end.
  rewrite Hen in *. simpl in *. rewrite orb_true_iff in *. destruct_or?; to_prop; auto.
Qed.

Lemma existsb_eqb_elem x l : existsb (String.eqb x) l = true -> x ∈ l.
Proof. rewrite existsb_exists. intros (y & Hy & E). to_prop. subst. by apply list_elem_of_In. Qed.

Lemma Validate_operable cfg : Validate cfg = Ok tt -> operable cfg.
Proof.
  unfold Validate. intros E. inv_oks E. apply validateCollectors_operable in E as (? & Hl & Hm & ?).
  apply validateCollectorList_operable in Hl as (? & _ & ?).
  unfold validateTimeouts in *. unfold validateDuration in *.
  unfold validateStorage, validateOperations, validateAPI, validateMedia, validateTimeline in *.
  repeat match goal with
  | H : rbind _ _ = Ok _ |- _ => inv_ok H; cbv beta in H
  | H : (if _ then _ else Err _) = Ok _ |- _ => inv_ok H
  end.
  unfold validateOperationsDuration, validateRetentionDuration, validateMediaDuration in *.
  repeat match goal with H : bounded_duration _ _ _ _ = Ok _ |- _ => apply bounded_duration_of in H as [? ?] end.
  match goal with H : existsb _ _ = true |- _ => apply existsb_eqb_elem in H end.
  to_prop. unfold in_range in *. to_prop. subst.
  repeat match goal with H : (_ || _)%bool = true |- _ => apply orb_true_iff in H end.
  split; unfold RetentionMinimumAge, TempMaxAge, MediaMaxSegmentDuration, ClockUncertainAfter, TimelineMaxQueryRange,
    ReadHeaderTimeout, ReadTimeout, WriteTimeout, IdleTimeout, ShutdownTimeout, FFprobeTimeout, DiskCheckInterval,
    WALCheckpointInterval, TempCleanupInterval, RetentionScanInterval, MediaScanInterval, MediaSettleInterval,
    BusyTimeout; try done.
  all: try (repeat split; done || lia).
  all: try match goal with |- Forall _ [_; _; _; _; _] => repeat (constructor; [lia|]); constructor end.
  - by eapply validateServer_ok.
  - match goal with H : _ \/ _ |- _ => destruct H; to_prop; auto end.
  - intros Hr. match goal with H : (re_Enabled _ && _)%bool = false |- _ => rewrite Hr in H; simpl in H end.
    by to_prop.
  - intros Hr. match goal with H : (me_Enabled _ && _)%bool = false |- _ => rewrite Hr in H; simpl in H end.
    by to_prop.
Qed.

Lemma Load_Validate path file lookup cfg :
  Load path file lookup = Ok cfg -> Validate cfg = Ok tt.
Proof. unfold Load. intros E. inv_oks E. injection E as <-. by destruct a2. Qed.

(** C24: a configuration that loads, from whatever file and environment, meets
    every bound of [operable]: the listener, the paths, each limit and duration
    of each section, the collectors and what minimum mode asks for. *)
Theorem Load_operable path file lookup cfg
    (Hload : Load path file lookup = Ok cfg) : operable cfg.
Proof. by eapply Validate_operable, Load_Validate. Qed.

End Guarantees.

(** ** A configuration that loads *)
Definition sample_lookup : LookupEnv := fun name =>
  if String.eqb name "EXAM_MONITOR_DATA_DIRECTORY" then Some "/srv/recorder" else None.
Definition sample_minimum : string := quoted
  "{'schema_version':1,'runtime':{'mode':'minimum'},'media_ingest':{'enabled':true,'ffprobe_path':'/usr/bin/ffprobe'},'collectors':[{'id':'aw','kind':'activitywatch','enabled':true,'heartbeat_period':'1m','allowed_lateness':'30s','offline_after':'3m','planned_schedule':{'timezone':'UTC','windows':[{'days':['monday'],'start_local':'09:00','end_local':'24:00'}]},'activitywatch':{'base_url':'http://127.0.0.1:5600','bucket_id':'window','poll_interval':'10s','request_timeout':'5s','initial_lookback':'1h','rescan_window':'10m','page_size':100,'max_pages_per_poll':10,'max_response_bytes':1048576,'clock_error_ms':1000}},{'id':'camera','kind':'media','enabled':true,'heartbeat_period':'1m','allowed_lateness':'30s','offline_after':'10m','planned_schedule':{'timezone':'UTC','windows':[{'days':['monday'],'start_local':'09:00','end_local':'12:30'}]}}]}".

Lemma Load_operable_witness :
  exists cfg, Load "" None sample_lookup = Ok cfg /\ operable cfg.
Proof.
  destruct (Load "" None sample_lookup) as [cfg|e] eqn:E; [|exfalso; vm_compute in E; discriminate].
  exists cfg. split; [reflexivity|]. exact (Load_operable _ _ _ _ E).
Defined.

(** A minimum-mode file loads as well, with the dashboard off. *)
Example minimum_loads :
  match Load "config.json" (Some sample_minimum) sample_lookup with
  | Ok cfg => (length (Collectors cfg), DashboardIsEnabled cfg)
  | Err _ => (0%nat, true)
  end = (2%nat, false).
Proof. vm_compute. reflexivity. Qed.
