(* ===== verification/Coverage.v ===== *)
(** * Coverage of planned recording time ([internal/coverage])

    Splits the planned windows of a collector into intervals and gives each an
    availability from the evidence, the heartbeat deadlines and the current
    time. *)

From Stdlib Require Import ZArith Lia String Ascii.
From S2P Require Import Prelude GoStrings GoTime GoJson Platform Config.
Open Scope string_scope.
Open Scope list_scope.
Open Scope result_scope.
Open Scope Z_scope.

Definition Covered : string := "covered".
Definition ConfirmedIdle : string := "confirmed_idle".
Definition Pending : string := "pending".
Definition Delayed : string := "delayed".
Definition Offline : string := "offline".
Definition Unknown : string := "unknown".

Record Fact := MkFact {
  fa_Start : time; fa_End : time; fa_Availability : string; fa_QualityFlags : list string;
  fa_ReasonCode : string; fa_Priority : Z; fa_StableID : string }.

Record Interval := MkInterval {
  iv_Start : time; iv_End : time; iv_ScheduleStart : time; iv_Availability : string;
  iv_QualityFlags : list string; iv_ReasonCode : string }.

(** What [Build] may fail with.  [Endless] stands for a run of the loop over the
    dates that has not reached the last date after a step for every hour. *)
Inductive build_error : Type := RangeInvalid | ZoneUnknown | FactInvalid | Endless.

(** ** Helpers *)
Definition minTime (a b : time) : time := if a <? b then a else b.
Definition maxTime (a b : time) : time := if b <? a then a else b.
Definition contains (values : list string) (target : string) : bool := existsb (String.eqb target) values.

Definition parseMinute (value : string) : option Z :=
  if String.eqb value "24:00" then Some (24 * 60)
  else let! (h, m) := parse_clock value in Some (h * 60 + m).

Definition normalizeFlags (values : list string) : list string := sort_by String.ltb (remove_dups values).
Definition equalFlags (first second : list string) : bool := bool_decide (first = second).

Fixpoint dedup (l : list time) : list time :=
  match l with
  | x :: (y :: _) as t => if x =? y then dedup t else x :: dedup t
  | _ => l
  end.
Definition uniqueTimes (values : list time) : list time := dedup (sort_by Z.ltb values).

Definition same_status (a b : Interval) : bool :=
  String.eqb (iv_Availability a) (iv_Availability b) && String.eqb (iv_ReasonCode a) (iv_ReasonCode b)
  && equalFlags (iv_QualityFlags a) (iv_QualityFlags b).
Definition with_end (i : Interval) (e : time) : Interval :=
  MkInterval (iv_Start i) e (iv_ScheduleStart i) (iv_Availability i) (iv_QualityFlags i) (iv_ReasonCode i).

(** The result list is kept in reverse: its head is the last interval. *)
Definition appendMerged (acc : list Interval) (next : Interval) : list Interval :=
  match acc with
  | lst :: rest => if (iv_End lst =? iv_Start next) && same_status lst next
                   then with_end lst (iv_End next) :: rest else next :: acc
  | [] => [next]
  end.

(** ** The planned windows *)
Definition weekday (day : Z) : string := nth (Z.to_nat (day mod 7)) validDays "".
Definition start_minute (w : ScheduleWindowConfig) : Z := default 0 (parseMinute (w_StartLocal w)).
Definition end_minute (w : ScheduleWindowConfig) : Z := default 0 (parseMinute (w_EndLocal w)).

Definition window_start (loc : location) (date : time) (w : ScheduleWindowConfig) : time :=
  Date loc (local_day loc date * day_ns + start_minute w * minute).
Definition window_end (loc : location) (date : time) (w : ScheduleWindowConfig) : time :=
  let midnight := local_day loc date * day_ns in
  if end_minute w =? 24 * 60 then AddDays loc (Date loc midnight) 1
  else Date loc (midnight + end_minute w * minute).

Definition window_interval (loc : location) (rangeStart rangeEnd date : time) (w : ScheduleWindowConfig)
    : list Interval :=
  if contains (w_Days w) (weekday (local_day loc date)) then
    let scheduleStart := window_start loc date w in
    let s := maxTime scheduleStart rangeStart in
    let e := minTime (window_end loc date w) rangeEnd in
    if s <? e then [MkInterval s e scheduleStart "" [] ""] else []
  else [].

(** The loop over the dates: [None] when the fuel ends before the last date. *)
Fixpoint plan_dates (fuel : nat) (loc : location) (date lastDate : time) : option (list time) :=
  if lastDate <? date then Some []
  else match fuel with
       | O => None
       | S f => let! l := plan_dates f loc (AddDays loc date 1) lastDate in Some (date :: l)
       end.

Definition merge_plan (acc : list Interval) (i : Interval) : list Interval :=
  match acc with
  | lst :: rest =>
    if iv_End lst <? iv_Start i then i :: acc
    else MkInterval (iv_Start lst) (if iv_End lst <? iv_End i then iv_End i else iv_End lst)
           (if iv_ScheduleStart i <? iv_ScheduleStart lst then iv_ScheduleStart i else iv_ScheduleStart lst)
           (iv_Availability lst) (iv_QualityFlags lst) (iv_ReasonCode lst) :: rest
  | [] => [i]
  end.
Definition start_lt (a b : Interval) : bool := iv_Start a <? iv_Start b.
Definition merge_plans (l : list Interval) : list Interval :=
  rev (foldl merge_plan [] (sort_by start_lt l)).

Definition first_date (loc : location) (rangeStart : time) : time :=
  AddDays loc (Date loc (local_day loc rangeStart * day_ns)) (-1).
Definition last_date (loc : location) (rangeEnd : time) : time :=
  AddDays loc (Date loc (local_day loc rangeEnd * day_ns)) 1.
Definition date_fuel (firstDate lastDate : time) : nat := Z.to_nat ((lastDate - firstDate) / hour + 1).

Definition plannedIntervals `{Zones} (schedule : PlannedScheduleConfig) (rangeStart rangeEnd : time)
    : result build_error (list Interval) :=
  match load_location (sc_Timezone schedule) with
  | None => Err ZoneUnknown
  | Some loc =>
    let firstDate := first_date loc rangeStart in
    let lastDate := last_date loc rangeEnd in
    match plan_dates (date_fuel firstDate lastDate) loc firstDate lastDate with
    | None => Err Endless
    | Some dates =>
      Ok (merge_plans (flat_map (fun date =>
            flat_map (window_interval loc rangeStart rangeEnd date) (sc_Windows schedule)) dates))
    end
  end.

(** ** Classification *)
Section Build.
Context `{Zones} `{Floats}.

Definition priority_lt (a b : Fact) : bool :=
  if fa_Priority a =? fa_Priority b then String.ltb (fa_StableID a) (fa_StableID b)
  else fa_Priority b <? fa_Priority a.

Definition last_evidence (upto : time) (facts : list Fact) : time :=
  foldl (fun m f => if (fa_End f <=? upto) && (m <? fa_End f) then fa_End f else m) 0 facts.

Definition without_evidence (c : CollectorConfig) (planStart start now : time) (facts : list Fact)
    : string * list string * string :=
  if now <=? start then (Pending, [], "SCHEDULED_FUTURE")
  else
    let lastEvidenceEnd := last_evidence start facts in
    let reference := if is_zero lastEvidenceEnd then planStart else lastEvidenceEnd in
    let expected := reference + HeartbeatPeriodDuration c in
    let lateDeadline := expected + AllowedLatenessDuration c in
    let offlineDeadline := reference + OfflineAfterDuration c in
    if now <? lateDeadline then (Pending, [], "AWAITING_HEARTBEAT")
    else if start <? expected then (Unknown, [], "HEARTBEAT_MISSING")
    else if start <? offlineDeadline then (Delayed, [], "HEARTBEAT_LATE")
    else (Offline, [], "HEARTBEAT_OFFLINE").

Definition with_evidence (covering : list Fact) : option (string * list string * string) :=
  match sort_by priority_lt covering with
  | [] => None
  | best :: _ => Some (fa_Availability best,
                       normalizeFlags (flat_map fa_QualityFlags (sort_by priority_lt covering)),
                       fa_ReasonCode best)
  end.

Definition classifySegment (c : CollectorConfig) (planStart start finish now : time) (facts : list Fact)
    : string * list string * string :=
  let covering := List.filter (fun f => (fa_Start f <=? start) && (finish <=? fa_End f)) facts in
  match with_evidence covering with
  | Some r => r
  | None => without_evidence c planStart start now facts
  end.

Definition fact_lt (a b : Fact) : bool :=
  if fa_Start a =? fa_Start b then priority_lt a b else fa_Start a <? fa_Start b.
Definition fact_ok (f : Fact) : bool :=
  (fa_Start f <? fa_End f)
  && (String.eqb (fa_Availability f) Covered || String.eqb (fa_Availability f) ConfirmedIdle).
Definition with_flags (f : Fact) (flags : list string) : Fact :=
  MkFact (fa_Start f) (fa_End f) (fa_Availability f) flags (fa_ReasonCode f) (fa_Priority f) (fa_StableID f).

Definition inside (plan : Interval) (t : time) : bool := (iv_Start plan <? t) && (t <? iv_End plan).

(** The three deadlines after a reference time. *)
Definition deadlines (c : CollectorConfig) (reference : time) : list time :=
  [reference + HeartbeatPeriodDuration c;
   reference + (HeartbeatPeriodDuration c + AllowedLatenessDuration c);
   reference + OfflineAfterDuration c].

Definition fact_points (c : CollectorConfig) (plan : Interval) (f : Fact) : list time :=
  (if (iv_Start plan <? fa_End f) && (fa_Start f <? iv_End plan)
   then [maxTime (iv_Start plan) (fa_Start f); minTime (iv_End plan) (fa_End f)] else [])
  ++ List.filter (inside plan) (deadlines c (fa_End f)).

Definition plan_points (c : CollectorConfig) (plan : Interval) (now : time) (facts : list Fact) : list time :=
  uniqueTimes ([iv_Start plan; iv_End plan] ++ flat_map (fact_points c plan) facts
               ++ List.filter (inside plan) (deadlines c (iv_ScheduleStart plan) ++ [now])).

Fixpoint segments (c : CollectorConfig) (plan : Interval) (now : time) (facts : list Fact)
    (points : list time) (acc : list Interval) : list Interval :=
  match points with
  | start :: (finish :: _) as rest =>
    let acc := if start <? finish then
                 let '(availability, flags, reason) :=
                   classifySegment c (iv_ScheduleStart plan) start finish now facts in
                 appendMerged acc (MkInterval start finish 0 availability flags reason)
               else acc in
    segments c plan now facts rest acc
  | _ => acc
  end.

Definition prepare_facts (facts : list Fact) : list Fact :=
  sort_by fact_lt (map (fun f => with_flags f (normalizeFlags (fa_QualityFlags f))) facts).

Definition Build (c : CollectorConfig) (rangeStart rangeEnd now : time) (facts : list Fact)
    : result build_error (list Interval) :=
  guard? rangeStart <? rangeEnd else RangeInvalid in
  let? planned := plannedIntervals (co_PlannedSchedule c) rangeStart rangeEnd in
  guard? forallb fact_ok facts else FactInvalid in
  let facts := prepare_facts facts in
  Ok (rev (foldl (fun acc plan => segments c plan now facts (plan_points c plan now facts) acc) [] planned)).
End Build.

(** ** Lemmas on the lists *)
Definition covers (i : Interval) (t : time) : Prop := iv_Start i <= t < iv_End i.
Definition covered (l : list Interval) (t : time) : Prop := exists i, i ∈ l /\ covers i t.

Lemma covered_nil t : covered [] t <-> False.
Proof. split; [|done]. intros (i & Hi & _). by apply elem_of_nil in Hi. Qed.
Lemma covered_cons i l t : covered (i :: l) t <-> covers i t \/ covered l t.
Proof.
  unfold covered. split.
  - intros (j & Hj & Hc). apply elem_of_cons in Hj as [->|Hj]; [by left|right; eauto].
  - intros [Hc|(j & Hj & Hc)]; [exists i|exists j]; rewrite elem_of_cons; auto.
Qed.
Lemma covered_app l1 l2 t : covered (l1 ++ l2) t <-> covered l1 t \/ covered l2 t.
Proof. induction l1 as [|i l IH]; simpl; rewrite ?covered_nil, ?covered_cons, ?IH; tauto. Qed.
Lemma covered_perm l1 l2 t : l1 ≡ₚ l2 -> covered l1 t <-> covered l2 t.
Proof. intros E. unfold covered. split; intros (i & Hi & Hc); exists i; split; by rewrite ?E || rewrite <- ?E. Qed.

(** In reverse order, each interval ends before the one above it starts. *)
Definition chain (R : Z -> Z -> Prop) (acc : list Interval) : Prop :=
  StronglySorted (fun a b => R (iv_End b) (iv_Start a)) acc.
Definition nonempty (i : Interval) : Prop := iv_Start i < iv_End i.

Lemma chain_rev (R : Z -> Z -> Prop) l :
  chain R l -> StronglySorted (fun a b => R (iv_End a) (iv_Start b)) (rev l).
Proof.
  induction 1 as [|a l Hl IH Ha]; simpl; [constructor|].
  apply StronglySorted_app. split; [|split; [done|repeat constructor]].
  intros x y Hx Hy. apply list_elem_of_singleton in Hy as ->.
  rewrite Forall_forall in Ha. apply Ha. by rewrite list_elem_of_In, in_rev, <- list_elem_of_In.
Qed.

Lemma rev_covered l t : covered (rev l) t <-> covered l t.
Proof. apply covered_perm. symmetry. apply Permutation_rev. Qed.

(** *** Merging the planned windows *)
Lemma merge_plan_ok acc i :
  chain Z.lt acc -> Forall nonempty acc -> nonempty i ->
  (forall x, x ∈ acc -> iv_Start x <= iv_Start i) ->
  chain Z.lt (merge_plan acc i) /\ Forall nonempty (merge_plan acc i) /\
  (forall x, x ∈ merge_plan acc i -> iv_Start x <= iv_Start i) /\
  (forall t, covered (merge_plan acc i) t <-> covered acc t \/ covers i t).
Proof.
  intros Hc Hn Hi Hs. destruct acc as [|lst rest]; simpl.
  { repeat split; try (repeat constructor; done).
    - intros x Hx. apply list_elem_of_singleton in Hx as ->. lia.
    - rewrite covered_cons. tauto.
    - rewrite covered_cons. tauto. }
  pose proof (StronglySorted_inv Hc) as [Hr Hl]. inversion Hn as [|? ? Hn1 Hn2]; subst.
  assert (Hls := Hs lst ltac:(left)). unfold nonempty, covers in *. rewrite Forall_forall in Hl.
  destruct (Z.ltb_spec (iv_End lst) (iv_Start i)) as [Hlt|Hge].
  - repeat split.
    + constructor; [done|]. apply Forall_forall. intros x Hx. apply elem_of_cons in Hx as [->|Hx]; [lia|].
      specialize (Hl x Hx). simpl in Hl. lia.
    + by constructor.
    + intros x Hx. apply elem_of_cons in Hx as [->|Hx]; [lia|auto].
    + rewrite !covered_cons. unfold covers. tauto.
    + rewrite !covered_cons. unfold covers. tauto.
  - set (e := if iv_End lst <? iv_End i then iv_End i else iv_End lst).
    assert (He : e = Z.max (iv_End lst) (iv_End i)) by (unfold e; destruct (Z.ltb_spec (iv_End lst) (iv_End i)); lia).
    repeat split.
    + constructor; [done|]. apply Forall_forall. intros x Hx. simpl. by apply Hl.
    + constructor; [unfold nonempty; simpl; lia|done].
    + intros x Hx. apply elem_of_cons in Hx as [->|Hx]; [done|]. apply Hs. by right.
    + rewrite !covered_cons. unfold covers. simpl. intros [?|?]; [|tauto].
      destruct (Z.lt_ge_cases t (iv_End lst)); [left; left; lia|right; lia].
    + rewrite !covered_cons. unfold covers. simpl. intros [[?|?]|?]; [left; lia|tauto|left; lia].
Qed.

Lemma foldl_merge_plan l : forall acc,
  chain Z.lt acc -> Forall nonempty acc -> Forall nonempty l ->
  StronglySorted (le_by start_lt) l ->
  (forall x y, x ∈ acc -> y ∈ l -> iv_Start x <= iv_Start y) ->
  chain Z.lt (foldl merge_plan acc l) /\ Forall nonempty (foldl merge_plan acc l) /\
  (forall t, covered (foldl merge_plan acc l) t <-> covered acc t \/ covered l t).
Proof.
  induction l as [|i l IH]; intros acc Hc Hn Hl Hs Ha; simpl.
  { repeat split; auto; rewrite covered_nil; tauto. }
  apply StronglySorted_inv in Hs as [Hs Hi]. inversion Hl as [|? ? Hi0 Hl0]; subst.
  destruct (merge_plan_ok acc i Hc Hn Hi0) as (Hc' & Hn' & Hle & Hcov).
  { intros x Hx. apply Ha; [done|left]. }
  destruct (IH (merge_plan acc i) Hc' Hn' Hl0 Hs) as (H1 & H2 & H3).
  { intros x y Hx Hy. specialize (Hle x Hx). rewrite Forall_forall in Hi. specialize (Hi y Hy).
    unfold le_by, start_lt in Hi. to_prop. lia. }
  split; [done|]. split; [done|]. intros t. rewrite H3, Hcov, covered_cons. tauto.
Qed.

Lemma start_sorted l : StronglySorted (le_by start_lt) (sort_by start_lt l).
Proof.
  apply sort_by_sorted; unfold le_by, start_lt.
  - intros x y E. to_prop. apply Z.ltb_ge. lia.
  - intros x y z E1 E2. to_prop. apply Z.ltb_ge. lia.
Qed.

Lemma merge_plans_ok l : Forall nonempty l ->
  StronglySorted (fun a b => iv_End a < iv_Start b) (merge_plans l) /\
  Forall nonempty (merge_plans l) /\ (forall t, covered (merge_plans l) t <-> covered l t).
Proof.
  intros Hl. unfold merge_plans.
  destruct (foldl_merge_plan (sort_by start_lt l) []) as (H1 & H2 & H3).
  - constructor.
  - constructor.
  - by rewrite sort_by_perm.
  - apply start_sorted.
  - intros x y Hx. by apply elem_of_nil in Hx.
  - split; [by apply chain_rev|]. split; [by apply Forall_rev|].
    intros t. rewrite rev_covered, H3, covered_nil, (covered_perm (sort_by start_lt l) l); [tauto|apply sort_by_perm].
Qed.

(** ** The planned windows *)
Lemma maxTime_eq a b : maxTime a b = Z.max a b.
Proof. unfold maxTime. destruct (Z.ltb_spec b a); lia. Qed.
Lemma minTime_eq a b : minTime a b = Z.min a b.
Proof. unfold minTime. destruct (Z.ltb_spec a b); lia. Qed.

(** A window planned on a date contains an instant. *)
Definition planned_at (loc : location) (date : time) (w : ScheduleWindowConfig) (t : time) : Prop :=
  contains (w_Days w) (weekday (local_day loc date)) = true /\
  window_start loc date w <= t < window_end loc date w.

Lemma window_interval_covered loc rs re date w t :
  covered (window_interval loc rs re date w) t <-> planned_at loc date w t /\ rs <= t < re.
Proof.
  unfold window_interval, planned_at. destruct (contains _ _); [|rewrite covered_nil; intuition discriminate].
  rewrite maxTime_eq, minTime_eq. destruct (Z.ltb_spec (Z.max (window_start loc date w) rs) (Z.min (window_end loc date w) re)).
  - rewrite covered_cons, covered_nil. unfold covers. simpl. intuition lia.
  - rewrite covered_nil. intuition lia.
Qed.

Lemma window_interval_ok loc rs re date w :
  Forall (fun i => nonempty i /\ rs <= iv_Start i /\ iv_End i <= re) (window_interval loc rs re date w).
Proof.
  unfold window_interval. destruct (contains _ _); [|constructor]. rewrite maxTime_eq, minTime_eq.
  destruct (Z.ltb_spec (Z.max (window_start loc date w) rs) (Z.min (window_end loc date w) re)); repeat constructor;
    unfold nonempty; simpl; lia.
Qed.

Lemma covered_flat_map {A} (f : A -> list Interval) l t :
  covered (flat_map f l) t <-> exists x, x ∈ l /\ covered (f x) t.
Proof.
  induction l as [|a l IH]; simpl.
  - rewrite covered_nil. split; [done|]. intros (x & Hx & _). by apply elem_of_nil in Hx.
  - rewrite covered_app, IH. split.
    + intros [Ha|(x & Hx & Hc)]; [exists a|exists x]; rewrite elem_of_cons; auto.
    + intros (x & Hx & Hc). apply elem_of_cons in Hx as [->|Hx]; [by left|right; eauto].
Qed.

Lemma Forall_flat_map {A B} (P : B -> Prop) (f : A -> list B) l :
  (forall x, Forall P (f x)) -> Forall P (flat_map f l).
Proof. intros Hf. induction l; simpl; [constructor|]. apply Forall_app. auto. Qed.

(** The loop over the dates ends when the zone's offsets differ by less than a
    day: each step then advances by an hour at least. *)
Lemma plan_dates_total loc lastDate :
  (forall s t, loc_offset loc s - loc_offset loc t <= 23 * hour) ->
  forall fuel d, lastDate - d < Z.of_nat fuel * hour -> exists l, plan_dates fuel loc d lastDate = Some l.
Proof.
  intros Hspan. unfold hour, minute, second in *. induction fuel as [|f IH]; intros d Hd; simpl.
  - destruct (Z.ltb_spec lastDate d); [eauto|lia].
  - destruct (Z.ltb_spec lastDate d); [eauto|].
    destruct (IH (AddDays loc d 1)) as [l ->]; [|simpl; eauto].
    unfold AddDays, Date, local_of, day_ns, hour, minute, second.
    match goal with |- context [loc_offset loc (?x - ?y)] => pose proof (Hspan (x - y) d) end. lia.
Qed.

#[local] Ltac Zify.zify_post_hook ::= Z.div_mod_to_equations.

Lemma date_fuel_enough d lastDate : lastDate - d < Z.of_nat (date_fuel d lastDate) * hour.
Proof. unfold date_fuel, hour, minute, second. lia. Qed.

Lemma plannedIntervals_inv `{Zones} schedule rs re plans :
  plannedIntervals schedule rs re = Ok plans ->
  exists loc dates, load_location (sc_Timezone schedule) = Some loc /\
    plan_dates (date_fuel (first_date loc rs) (last_date loc re)) loc (first_date loc rs) (last_date loc re)
      = Some dates /\
    StronglySorted (fun a b => iv_End a < iv_Start b) plans /\
    Forall (fun i => nonempty i /\ rs <= iv_Start i /\ iv_End i <= re) plans /\
    (forall t, covered plans t <-> rs <= t < re /\
       exists date w, date ∈ dates /\ w ∈ sc_Windows schedule /\ planned_at loc date w t).
Proof.
  unfold plannedIntervals. intros E. destruct (load_location _) as [loc|]; [|done].
  destruct (plan_dates _ _ _ _) as [dates|] eqn:Ed; [|done]. injection E as <-.
  exists loc, dates. split; [done|]. split; [done|].
  set (all := flat_map _ dates).
  assert (Hall : Forall (fun i => nonempty i /\ rs <= iv_Start i /\ iv_End i <= re) all).
  { apply Forall_flat_map. intros d. apply Forall_flat_map. intros w. apply window_interval_ok. }
  destruct (merge_plans_ok all) as (Hs & Hn & Hcov).
  { eapply Forall_impl; [exact Hall|]. by intros i [? _]. }
  assert (Hcov' : forall t, covered (merge_plans all) t <-> rs <= t < re /\
       exists date w, date ∈ dates /\ w ∈ sc_Windows schedule /\ planned_at loc date w t).
  { intros t. rewrite Hcov. unfold all. rewrite covered_flat_map. split.
    - intros (d & Hd & Hc). apply covered_flat_map in Hc as (w & Hw & Hc).
      apply window_interval_covered in Hc as [Hp Ht]. eauto 8.
    - intros (Ht & d & w & Hd & Hw & Hp). exists d. split; [done|]. apply covered_flat_map.
      exists w. split; [done|]. by apply window_interval_covered. }
  split; [done|]. split; [|done].
  rewrite Forall_forall in Hn |- *. intros i Hi. specialize (Hn i Hi). unfold nonempty in *.
  assert (H1 : covered (merge_plans all) (iv_Start i)) by (exists i; unfold covers; split; [done|lia]).
  assert (H2 : covered (merge_plans all) (iv_End i - 1)) by (exists i; unfold covers; split; [done|lia]).
  apply Hcov' in H1 as [H1 _]. apply Hcov' in H2 as [H2 _]. lia.
Qed.

Lemma utc_local t : local_of utc_location t = t.
Proof. unfold local_of. simpl. lia. Qed.
Lemma utc_Date l : Date utc_location l = l.
Proof. unfold Date. simpl. lia. Qed.
Lemma utc_AddDays t n : AddDays utc_location t n = t + n * day_ns.
Proof. unfold AddDays. by rewrite utc_Date, utc_local. Qed.
Lemma utc_day t : local_day utc_location t = t / day_ns.
Proof. unfold local_day. by rewrite utc_local. Qed.

Lemma plan_dates_utc lastDate : forall fuel k0 l,
  plan_dates fuel utc_location (k0 * day_ns) lastDate = Some l ->
  (forall d, d ∈ l -> exists k, d = k * day_ns /\ k0 <= k) /\
  (forall k, k0 <= k -> k * day_ns <= lastDate -> k * day_ns ∈ l).
Proof.
  induction fuel as [|f IH]; intros k0 l E; simpl in E.
  - destruct (Z.ltb_spec lastDate (k0 * day_ns)); [|done]. injection E as <-.
    split; [intros d Hd; by apply elem_of_nil in Hd|]. intros k Hk Hl. exfalso.
    unfold day_ns, hour, minute, second in *. lia.
  - destruct (Z.ltb_spec lastDate (k0 * day_ns)).
    { injection E as <-. split; [intros d Hd; by apply elem_of_nil in Hd|]. intros k Hk Hl. exfalso.
      unfold day_ns, hour, minute, second in *. lia. }
    rewrite utc_AddDays in E. replace (k0 * day_ns + 1 * day_ns) with ((k0 + 1) * day_ns) in E by lia.
    destruct (plan_dates f _ _ _) as [l'|] eqn:El; [|done]. injection E as <-.
    destruct (IH _ _ El) as [H1 H2]. split.
    + intros d Hd. apply elem_of_cons in Hd as [->|Hd]; [exists k0; lia|].
      destruct (H1 d Hd) as (k & -> & Hk). exists k. lia.
    + intros k Hk Hl. destruct (Z.eq_dec k k0) as [->|]; [left|]. right. apply H2; [lia|done].
Qed.

Lemma parse_clock_range s h m : parse_clock s = Some (h, m) -> 0 <= h < 24 /\ 0 <= m < 60.
Proof.
  unfold parse_clock. intros E. apply obind_Some in E as ([h0 r] & E1 & E).
  apply oguard_Some in E as [Hh E]. apply obind_Some in E as (r' & _ & E).
  apply obind_Some in E as ([m0 r''] & E2 & E). apply oguard_Some in E as [Hm E]. injection E as <- <-.
  to_prop.
  assert (Hd : forall a, is_digit a = true -> 0 <= digit_val a <= 9) by (unfold is_digit, digit_val; intros; to_prop; lia).
  assert (Hg : forall b x v y, getnum b x = Some (v, y) -> 0 <= v).
  { intros b x v y. unfold getnum. repeat case_match; intros; simplify_eq; to_prop;
      repeat match goal with H : is_digit _ = true |- _ => apply Hd in H end; lia. }
  apply Hg in E1, E2. lia.
Qed.

Lemma minute_range w : 0 <= start_minute w <= 24 * 60 /\ 0 <= end_minute w <= 24 * 60.
Proof.
  assert (Hp : forall s, 0 <= default 0 (parseMinute s) <= 24 * 60).
  { intros s. unfold parseMinute. destruct (String.eqb s "24:00"); simpl; [lia|].
    destruct (parse_clock s) as [[h m]|] eqn:E; simpl; [|lia]. apply parse_clock_range in E. lia. }
  split; apply Hp.
Qed.

(** In UTC an instant is planned exactly when it is in the range and the
    minute of its day lies in a window of its weekday; the planned intervals are
    nonempty, in order and separated. *)
Theorem plannedIntervals_utc `{Zones} schedule rs re plans
    (Hloc : load_location (sc_Timezone schedule) = Some utc_location)
    (Hrun : plannedIntervals schedule rs re = Ok plans) :
  StronglySorted (fun a b => iv_End a < iv_Start b) plans /\ Forall nonempty plans /\
  forall t, covered plans t <-> rs <= t < re /\
    exists w, w ∈ sc_Windows schedule /\ contains (w_Days w) (weekday (t / day_ns)) = true /\
      start_minute w <= t mod day_ns / minute < end_minute w.
Proof.
  apply plannedIntervals_inv in Hrun as (loc & dates & Hl & Hd & Hs & Hf & Hcov).
  rewrite Hloc in Hl. injection Hl as <-. split; [done|].
  split; [eapply Forall_impl; [exact Hf|]; by intros i [? _]|].
  assert (Hfirst : first_date utc_location rs = (rs / day_ns - 1) * day_ns).
  { unfold first_date. rewrite utc_AddDays, utc_Date, utc_day. lia. }
  assert (Hlast : last_date utc_location re = (re / day_ns + 1) * day_ns).
  { unfold last_date. rewrite utc_AddDays, utc_Date, utc_day. lia. }
  rewrite Hfirst, Hlast in Hd. apply plan_dates_utc in Hd as [H1 H2].
  assert (Hpl : forall k w t, planned_at utc_location (k * day_ns) w t <->
    contains (w_Days w) (weekday k) = true /\
    k * day_ns + start_minute w * minute <= t < k * day_ns + end_minute w * minute).
  { intros k w t. unfold planned_at, window_start, window_end.
    rewrite !utc_AddDays, !utc_Date, utc_day, Z.div_mul by done.
    destruct (Z.eqb_spec (end_minute w) (24 * 60)) as [->|]; [|done].
    change day_ns with (24 * 60 * minute). intuition lia. }
  intros t. rewrite Hcov. split.
  - intros (Ht & d & w & Hd & Hw & Hp). split; [done|]. exists w. split; [done|].
    destruct (H1 d Hd) as (k & -> & _). apply Hpl in Hp as [Hc Hp].
    pose proof (minute_range w). unfold day_ns, hour, minute, second in *.
    replace (t / (24 * (60 * (60 * 1000000000)))) with k by lia. split; [done|lia].
  - intros (Ht & w & Hw & Hc & Hp). split; [done|]. exists (t / day_ns * day_ns), w.
    pose proof (minute_range w). split; [|split; [done|]].
    + apply H2; unfold day_ns, hour, minute, second in *; lia.
    + apply Hpl. split; [done|]. unfold day_ns, hour, minute, second in *. lia.
Qed.

(** C27: the loop over the dates ends in every zone whose offsets differ by less
    than a day, so that the planned intervals exist for every range. *)
Theorem plannedIntervals_total `{Zones} schedule rs re loc
    (Hloc : load_location (sc_Timezone schedule) = Some loc)
    (Hspan : forall s t, loc_offset loc s - loc_offset loc t <= 23 * hour) :
  exists plans, plannedIntervals schedule rs re = Ok plans.
Proof.
  unfold plannedIntervals. rewrite Hloc.
  destruct (plan_dates_total loc (last_date loc re) Hspan _ (first_date loc rs) (date_fuel_enough _ _)) as [l ->].
  eauto.
Qed.

Definition weekday_schedule : PlannedScheduleConfig :=
  MkSchedule "UTC" [MkWindow ["monday"; "tuesday"; "thursday"] "09:00" "12:30";
                    MkWindow ["thursday"] "12:00" "24:00"].
Definition leap_day : time := days_of 2024 2 29 * day_ns.

Lemma plannedIntervals_utc_witness :
  exists plans, plannedIntervals weekday_schedule leap_day (leap_day + day_ns) = Ok plans /\
    (covered plans (leap_day + 10 * hour) <-> leap_day <= leap_day + 10 * hour < leap_day + day_ns /\
     exists w, w ∈ sc_Windows weekday_schedule /\
       contains (w_Days w) (weekday ((leap_day + 10 * hour) / day_ns)) = true /\
       start_minute w <= (leap_day + 10 * hour) mod day_ns / minute < end_minute w).
Proof.
  destruct (plannedIntervals weekday_schedule leap_day (leap_day + day_ns)) as [plans|e] eqn:E;
    [|exfalso; vm_compute in E; discriminate].
  exists plans. split; [reflexivity|]. refine (proj2 (proj2 (plannedIntervals_utc weekday_schedule _ _ _ _ E)) _). reflexivity.
Defined.

Lemma plannedIntervals_total_witness :
  exists plans, plannedIntervals weekday_schedule leap_day (leap_day + day_ns) = Ok plans.
Proof.
  apply (plannedIntervals_total weekday_schedule _ _ utc_location); [reflexivity|].
  intros s t. cbn [loc_offset utc_location]. unfold hour, minute, second. lia.
Defined.

(** *** A zone that skipped a day *)

(** Pacific/Apia around the end of 2011: ten hours behind UTC until 10:00 UTC on
    30 December, fourteen hours ahead from then on. *)
Definition apia_shift : time := days_of 2011 12 30 * day_ns + 10 * hour.
Definition apia : location := Location (fun t => if t <? apia_shift then - 10 * hour else 14 * hour).
Definition apia_day : time := days_of 2011 12 30 * day_ns.

(** In a zone that skipped a whole day the next date of the day before is that
    day itself, and the loop over the dates of a range around it never ends. *)
Theorem plan_dates_endless (fuel : nat) :
  plan_dates fuel apia (first_date apia apia_day) (last_date apia (apia_day + day_ns)) = None.
Proof.
  set (last := last_date apia (apia_day + day_ns)). vm_compute in last.
  assert (Hstuck : forall f, plan_dates f apia (apia_shift - day_ns) last = None).
  { induction f as [|f IH]; [reflexivity|]. cbn [plan_dates].
    change (last <? apia_shift - day_ns) with false. cbv iota.
    replace (AddDays apia (apia_shift - day_ns) 1) with (apia_shift - day_ns) by reflexivity.
    by rewrite IH. }
  destruct fuel as [|f]; [reflexivity|]. cbn [plan_dates].
  change (last <? first_date apia apia_day) with false. cbv iota.
  replace (AddDays apia (first_date apia apia_day) 1) with (apia_shift - day_ns) by (vm_compute; reflexivity).
  by rewrite Hstuck.
Qed.

(** ** Classification *)
Section Pointwise.
Context `{Zones} `{Floats}.
Variable c : CollectorConfig.
Variable now : time.
Variable facts : list Fact.
Hypothesis Hfacts : Forall (fun f => fa_Start f < fa_End f) facts.

(** The status of one instant: the best evidence there, or the deadlines after
    the last evidence that ended by then. *)
Definition status_at (planStart t : time) : string * list string * string :=
  match with_evidence (List.filter (fun f => (fa_Start f <=? t) && (t <? fa_End f)) facts) with
  | Some r => r
  | None => without_evidence c planStart t now facts
  end.

Definition status_of (i : Interval) : string * list string * string :=
  (iv_Availability i, iv_QualityFlags i, iv_ReasonCode i).

Lemma last_evidence_ext a b :
  (forall f, f ∈ facts -> (fa_End f <=? a) = (fa_End f <=? b)) ->
  last_evidence a facts = last_evidence b facts.
Proof.
  unfold last_evidence. generalize 0. clear Hfacts. induction facts as [|f l IH]; intros m Hf; [done|].
  simpl. rewrite (Hf f) by left. apply IH. intros g Hg. apply Hf. by right.
Qed.

Lemma last_evidence_end a :
  last_evidence a facts = 0 \/ exists f, f ∈ facts /\ last_evidence a facts = fa_End f.
Proof.
  unfold last_evidence. enough (Hm : forall m, foldl (fun m f => if (fa_End f <=? a) && (m <? fa_End f) then fa_End f else m) m facts = m \/
    exists f, f ∈ facts /\ foldl (fun m f => if (fa_End f <=? a) && (m <? fa_End f) then fa_End f else m) m facts = fa_End f)
    by apply Hm.
  clear Hfacts. induction facts as [|f l IH]; intros m; [by left|]. simpl.
  destruct (_ && _).
  - destruct (IH (fa_End f)) as [->|(g & Hg & ->)]; right; [exists f|exists g]; rewrite elem_of_cons; auto.
  - destruct (IH m) as [->|(g & Hg & ->)]; [by left|right; exists g; rewrite elem_of_cons; auto].
Qed.

(** *** The critical points of a plan *)
Variable plan : Interval.
Hypothesis Hplan : nonempty plan.

Definition point (x : time) : Prop := x ∈ plan_points c plan now facts.

Lemma dedup_elem l x : StronglySorted (le_by Z.ltb) l -> x ∈ dedup l <-> x ∈ l.
Proof.
  induction l as [|a l IH]; intros Hs; [done|]. apply StronglySorted_inv in Hs as [Hs Ha]. specialize (IH Hs).
  destruct l as [|b l']; [done|]. change (dedup (a :: b :: l')) with (if a =? b then dedup (b :: l') else a :: dedup (b :: l')).
  destruct (Z.eqb_spec a b) as [->|Hne]; rewrite ?elem_of_cons, IH, ?elem_of_cons; clear;
    intuition congruence.
Qed.

Lemma dedup_sorted l : StronglySorted (le_by Z.ltb) l -> StronglySorted Z.lt (dedup l).
Proof.
  induction l as [|a l IH]; intros Hs; [constructor|]. pose proof Hs as Hs0.
  apply StronglySorted_inv in Hs as [Hs Ha]. specialize (IH Hs).
  destruct l as [|b l']; [repeat constructor|].
  change (dedup (a :: b :: l')) with (if a =? b then dedup (b :: l') else a :: dedup (b :: l')).
  destruct (Z.eqb_spec a b) as [->|Hne]; [done|]. constructor; [done|].
  apply Forall_forall. intros x Hx. rewrite dedup_elem in Hx by done.
  assert (Hab : a < b).
  { inversion Ha as [|? ? Hb _]; subst. unfold le_by in Hb. to_prop. lia. }
  apply elem_of_cons in Hx as [->|Hx]; [done|]. apply StronglySorted_inv in Hs as [_ Hb].
  rewrite Forall_forall in Hb. specialize (Hb x Hx). unfold le_by in Hb. to_prop. lia.
Qed.

Lemma zlt_sorted l : StronglySorted (le_by Z.ltb) (sort_by Z.ltb l).
Proof.
  apply sort_by_sorted; unfold le_by; intros; to_prop; apply Z.ltb_ge; lia.
Qed.

Lemma uniqueTimes_elem l x : x ∈ uniqueTimes l <-> x ∈ l.
Proof. unfold uniqueTimes. rewrite dedup_elem by apply zlt_sorted. apply elem_of_sort_by. Qed.
Lemma uniqueTimes_sorted l : StronglySorted Z.lt (uniqueTimes l).
Proof. apply dedup_sorted, zlt_sorted. Qed.

Lemma in_filter {A} (f : A -> bool) l x : x ∈ List.filter f l <-> x ∈ l /\ f x = true.
Proof. rewrite !list_elem_of_In. apply filter_In. Qed.

Lemma point_plan x : In x [iv_Start plan; iv_End plan] -> point x.
Proof. intros Hx. unfold point, plan_points. rewrite uniqueTimes_elem, elem_of_app. left. by rewrite list_elem_of_In. Qed.
Lemma point_fact f x : f ∈ facts -> x ∈ fact_points c plan f -> point x.
Proof.
  intros Hf Hx. unfold point, plan_points. rewrite uniqueTimes_elem, !elem_of_app. right. left.
  apply list_elem_of_In, in_flat_map. exists f. by rewrite <- !list_elem_of_In.
Qed.
Lemma point_deadline x :
  inside plan x = true -> x ∈ deadlines c (iv_ScheduleStart plan) ++ [now] -> point x.
Proof.
  intros Hi Hx. unfold point, plan_points. rewrite uniqueTimes_elem, !elem_of_app. right. right. by apply in_filter.
Qed.

Lemma point_range x : point x -> iv_Start plan <= x <= iv_End plan.
Proof.
  unfold nonempty in Hplan. unfold point, plan_points. rewrite uniqueTimes_elem, !elem_of_app.
  intros [Hx|[Hx|Hx]].
  - apply elem_of_cons in Hx as [->|Hx]; [lia|]. apply list_elem_of_singleton in Hx as ->. lia.
  - rewrite list_elem_of_In in Hx. apply in_flat_map in Hx as (f & Hf & Hx).
    rewrite <- list_elem_of_In in Hf. rewrite <- list_elem_of_In in Hx.
    unfold fact_points in Hx. rewrite elem_of_app in Hx. destruct Hx as [Hx|Hx].
    + destruct (_ && _) eqn:E; [|by apply elem_of_nil in Hx]. to_prop.
      rewrite maxTime_eq, minTime_eq in Hx.
      rewrite Forall_forall in Hfacts. specialize (Hfacts f Hf).
      apply elem_of_cons in Hx as [->|Hx]; [lia|]. apply list_elem_of_singleton in Hx as ->. lia.
    + apply in_filter in Hx as [_ Hx]. unfold inside in Hx. to_prop. lia.
  - apply in_filter in Hx as [_ Hx]. unfold inside in Hx. to_prop. lia.
Qed.

(** Between two consecutive points nothing changes. *)
Lemma classify_between start finish t :
  iv_Start plan <= start -> finish <= iv_End plan -> start <= t < finish ->
  (forall x, point x -> ~ (start < x < finish)) ->
  classifySegment c (iv_ScheduleStart plan) start finish now facts = status_at (iv_ScheduleStart plan) t.
Proof.
  intros Hs He Ht Hgap. unfold classifySegment, status_at.
  assert (Hin : forall x, inside plan x = true -> point x -> (x <=? start) = (x <=? t)).
  { intros x Hx Hp. specialize (Hgap x Hp). destruct (Z.leb_spec x start), (Z.leb_spec x t); try done; lia. }
  assert (Hfp : forall f, f ∈ facts -> iv_Start plan < fa_End f -> fa_Start f < iv_End plan ->
    point (Z.max (iv_Start plan) (fa_Start f)) /\ point (Z.min (iv_End plan) (fa_End f))).
  { intros f Hf H1 H2. split; (eapply point_fact; [exact Hf|]); unfold fact_points; rewrite elem_of_app; left;
      rewrite (proj2 (Z.ltb_lt _ _) H1), (proj2 (Z.ltb_lt _ _) H2), maxTime_eq, minTime_eq;
      rewrite list_elem_of_In; simpl; auto. }
  replace (List.filter (fun f => (fa_Start f <=? start) && (finish <=? fa_End f)) facts)
    with (List.filter (fun f => (fa_Start f <=? t) && (t <? fa_End f)) facts).
  2: { apply filter_ext_in. intros f Hf. specialize (Hfp f Hf).
       destruct (Z.leb_spec (fa_Start f) t), (Z.ltb_spec t (fa_End f)), (Z.leb_spec (fa_Start f) start),
         (Z.leb_spec finish (fa_End f)); try done; simpl; try lia;
         destruct Hfp as [P1 P2]; try lia; apply Hgap in P1, P2; lia. }
  destruct (with_evidence _) as [r|]; [done|].
  assert (Hend : forall f, f ∈ facts -> (fa_End f <=? start) = (fa_End f <=? t)).
  { intros f Hf. specialize (Hfp f Hf). rewrite Forall_forall in Hfacts. specialize (Hfacts f Hf).
    destruct (Z.leb_spec (fa_End f) start), (Z.leb_spec (fa_End f) t); try done; try lia.
    destruct Hfp as [_ P2]; [lia..|]. apply Hgap in P2. lia. }
  unfold without_evidence. rewrite (last_evidence_ext start t Hend).
  assert (Hd : forall x, point x \/ inside plan x = false -> (start <? x) = (t <? x)).
  { intros x [Hp|Hp].
    - specialize (Hgap x Hp). destruct (Z.ltb_spec start x), (Z.ltb_spec t x); try done; lia.
    - unfold inside in Hp. destruct (Z.ltb_spec (iv_Start plan) x), (Z.ltb_spec x (iv_End plan)); try done;
        destruct (Z.ltb_spec start x), (Z.ltb_spec t x); try done; lia. }
  assert (Hnow : (now <=? start) = (now <=? t)).
  { rewrite !Z.leb_antisym. f_equal. apply Hd. destruct (inside plan now) eqn:Ei; [|auto].
    left. apply point_deadline; [done|]. rewrite elem_of_app. right. by apply list_elem_of_singleton. }
  rewrite Hnow. destruct (now <=? t); [done|].
  set (reference := if is_zero (last_evidence t facts) then _ else _).
  assert (Hr : forall x, x ∈ deadlines c reference -> point x \/ inside plan x = false).
  { intros x Hx. destruct (inside plan x) eqn:Ei; [left|by right].
    unfold reference in Hx. destruct (is_zero (last_evidence t facts)) eqn:Ez.
    - apply point_deadline; [done|]. rewrite elem_of_app. by left.
    - destruct (last_evidence_end t) as [E|(f & Hf & E)]; [unfold is_zero in Ez; to_prop; done|].
      rewrite E in Hx. eapply point_fact; [exact Hf|]. unfold fact_points. rewrite elem_of_app. right.
      by apply in_filter. }
  rewrite (Hd (reference + HeartbeatPeriodDuration c)) by (apply Hr; left).
  rewrite (Hd (reference + OfflineAfterDuration c)) by (apply Hr; right; right; left). done.
Qed.
End Pointwise.

(** ** The list of intervals *)
Section Assemble.
Variable Q : time -> string * list string * string -> Prop.

Record good (acc : list Interval) (upto : time) : Prop := {
  g_chain : chain Z.le acc;
  g_nonempty : Forall nonempty acc;
  g_upto : forall i, i ∈ acc -> iv_End i <= upto;
  g_status : forall i t, i ∈ acc -> covers i t -> Q t (status_of i) }.

Lemma same_status_eq a b : same_status a b = true -> status_of a = status_of b.
Proof.
  unfold same_status, equalFlags, status_of. intros E. to_prop. congruence.
Qed.

Lemma appendMerged_ok acc n :
  good acc (iv_Start n) -> nonempty n -> (forall t, covers n t -> Q t (status_of n)) ->
  good (appendMerged acc n) (iv_End n) /\
  (forall t, covered (appendMerged acc n) t <-> covered acc t \/ covers n t).
Proof.
  intros [Hc Hn Hu Hs] Hne Hq. unfold nonempty in Hne.
  assert (Hadd : good (n :: acc) (iv_End n) /\ (forall t, covered (n :: acc) t <-> covered acc t \/ covers n t)).
  { split; [split|].
    - constructor; [done|]. apply Forall_forall. exact Hu.
    - by constructor.
    - intros i Hi. apply elem_of_cons in Hi as [->|Hi]; [lia|]. specialize (Hu i Hi). lia.
    - intros i t Hi. apply elem_of_cons in Hi as [->|Hi]; [apply Hq|by apply Hs].
    - intros t. rewrite covered_cons. tauto. }
  destruct acc as [|lst rest]; [done|]. unfold appendMerged.
  destruct ((iv_End lst =? iv_Start n) && same_status lst n) eqn:E; [|done]. clear Hadd. to_prop.
  match goal with H : same_status _ _ = true |- _ => apply same_status_eq in H as Est end.
  assert (Hlst : nonempty lst) by (by inversion Hn). unfold nonempty in Hlst. split; [split|].
  - apply StronglySorted_inv in Hc as [Hr Hl]. by constructor.
  - inversion Hn; subst. constructor; [unfold nonempty; simpl; lia|done].
  - intros i Hi. apply elem_of_cons in Hi as [->|Hi]; [simpl; lia|].
    specialize (Hu i ltac:(by right)). lia.
  - intros i t Hi Ht. apply elem_of_cons in Hi as [->|Hi]; [|apply Hs; [by right|done]].
    change (status_of (with_end lst (iv_End n))) with (status_of lst). unfold covers in Ht. simpl in Ht.
    destruct (Z.lt_ge_cases t (iv_End lst)); [apply Hs; [left|unfold covers; lia]|].
    rewrite Est. apply Hq. unfold covers. lia.
  - intros t. rewrite !covered_cons. unfold covers. simpl. split; [|intuition lia].
    intros [Ht|?]; [|tauto]. destruct (Z.lt_ge_cases t (iv_End lst)); [left; left; lia|right; lia].
Qed.

Lemma good_weaken acc a b : good acc a -> a <= b -> good acc b.
Proof. intros [? ? Hu ?] Hab. split; try done. intros i Hi. specialize (Hu i Hi). lia. Qed.
End Assemble.

Lemma last_cons {A} (l : list A) : forall a d, List.last (a :: l) d = List.last l a.
Proof. induction l as [|b l IH]; intros a d; [done|].
  change (List.last (b :: l) d = List.last (b :: l) a). by rewrite !IH.
Qed.
Lemma last_elem {A} (l : list A) : forall d, List.last l d ∈ d :: l.
Proof. induction l as [|b l IH]; intros d; [left|]. rewrite last_cons. right. apply IH. Qed.
Lemma sorted_last l d : StronglySorted Z.lt (d :: l) -> d <= List.last l d.
Proof.
  intros Hs. apply StronglySorted_inv in Hs as [_ Hd]. rewrite Forall_forall in Hd.
  pose proof (last_elem l d) as Hl. apply elem_of_cons in Hl as [->|Hl]; [lia|]. specialize (Hd _ Hl). lia.
Qed.

Section Segments.
Context `{Zones} `{Floats}.
Variable c : CollectorConfig.
Variable now : time.
Variable facts : list Fact.
Hypothesis Hfacts : Forall (fun f => fa_Start f < fa_End f) facts.
Variable Q : time -> string * list string * string -> Prop.

Lemma segments_ok plan : nonempty plan ->
  (forall t, covers plan t -> Q t (status_at c now facts (iv_ScheduleStart plan) t)) ->
  forall pts s, StronglySorted Z.lt (s :: pts) ->
  (forall x, x ∈ s :: pts -> point c now facts plan x) ->
  (forall x, point c now facts plan x -> s <= x -> x ∈ s :: pts) ->
  forall acc, good Q acc s ->
  good Q (segments c plan now facts (s :: pts) acc) (List.last pts s) /\
  (forall t, covered (segments c plan now facts (s :: pts) acc) t <->
     covered acc t \/ s <= t < List.last pts s).
Proof.
  intros Hne Hq. induction pts as [|q pts IH]; intros s Hs Hin Hall acc Hg.
  { simpl. split; [done|]. intros t. intuition lia. }
  pose proof Hs as Hs0. apply StronglySorted_inv in Hs as [Hs Hlt].
  assert (Hsq : s < q) by (by inversion Hlt).
  assert (Hp : point c now facts plan s /\ point c now facts plan q) by (split; apply Hin; [left|right; left]).
  destruct Hp as [Hps Hpq]. apply point_range in Hps, Hpq; [|done..].
  change (segments c plan now facts (s :: q :: pts) acc) with
    (segments c plan now facts (q :: pts) (if s <? q then
       let '(availability, flags, reason) := classifySegment c (iv_ScheduleStart plan) s q now facts in
       appendMerged acc (MkInterval s q 0 availability flags reason) else acc)).
  rewrite (proj2 (Z.ltb_lt _ _) Hsq).
  destruct (classifySegment c (iv_ScheduleStart plan) s q now facts) as [[av fl] re] eqn:Ec.
  assert (Hgap : forall x, point c now facts plan x -> ~ (s < x < q)).
  { intros x Hx Hb. specialize (Hall x Hx ltac:(lia)).
    apply elem_of_cons in Hall as [?|Hx']; [lia|]. apply elem_of_cons in Hx' as [?|Hx']; [lia|].
    apply StronglySorted_inv in Hs as [_ Hq']. rewrite Forall_forall in Hq'. specialize (Hq' x Hx'). lia. }
  destruct (appendMerged_ok Q acc (MkInterval s q 0 av fl re)) as [Hg' Hc']; [done|done| |].
  { intros t Ht. unfold covers in Ht. simpl in Ht. unfold status_of. simpl. rewrite <- Ec.
    rewrite (classify_between c now facts Hfacts plan s q t); try done; try lia.
    apply Hq. unfold covers. lia. }
  destruct (IH q Hs) with (acc := appendMerged acc (MkInterval s q 0 av fl re)) as [H1 H2].
  - intros x Hx. apply Hin. by right.
  - intros x Hx Hqx. specialize (Hall x Hx ltac:(lia)). apply elem_of_cons in Hall as [?|?]; [lia|done].
  - exact Hg'.
  - rewrite last_cons. split; [done|]. intros t. rewrite H2, Hc'. unfold covers. simpl.
    pose proof (sorted_last pts q Hs).
    intuition lia.
Qed.

Lemma plan_points_ends plan : nonempty plan -> exists pts,
  plan_points c plan now facts = iv_Start plan :: pts /\ List.last pts (iv_Start plan) = iv_End plan /\
  StronglySorted Z.lt (iv_Start plan :: pts).
Proof.
  intros Hne. pose proof (point_range c now facts Hfacts plan Hne) as Hr.
  assert (Ha : point c now facts plan (iv_Start plan)) by (apply point_plan; simpl; auto).
  assert (Hb : point c now facts plan (iv_End plan)) by (apply point_plan; simpl; auto).
  assert (Hs : StronglySorted Z.lt (plan_points c plan now facts)) by apply uniqueTimes_sorted.
  unfold point in *. destruct (plan_points c plan now facts) as [|s pts]; [by apply elem_of_nil in Ha|].
  assert (Es : s = iv_Start plan).
  { specialize (Hr s ltac:(left)). apply elem_of_cons in Ha as [?|Ha]; [done|].
    apply StronglySorted_inv in Hs as [_ Hl]. rewrite Forall_forall in Hl. specialize (Hl _ Ha). lia. }
  subst s. exists pts. split; [done|]. split; [|done].
  specialize (Hr _ (last_elem pts (iv_Start plan))).
  destruct (list_elem_of_split _ _ Hb) as (l1 & l2 & E).
  assert (El : List.last pts (iv_Start plan) = List.last l2 (iv_End plan)).
  { rewrite <- (last_cons pts _ 0), E. clear. induction l1 as [|a l1 IH]; simpl app; [apply last_cons|].
    destruct (l1 ++ iv_End plan :: l2) eqn:Ex; [by destruct l1|]. exact IH. }
  assert (Hs2 : StronglySorted Z.lt (iv_End plan :: l2)) by (rewrite E in Hs; by apply StronglySorted_app in Hs as (_ & _ & ?)).
  pose proof (sorted_last _ _ Hs2). change time with Z in *. lia.
Qed.

Lemma build_plans_ok plans : Forall nonempty plans ->
  StronglySorted (fun a b => iv_End a < iv_Start b) plans ->
  (forall plan t, plan ∈ plans -> covers plan t -> Q t (status_at c now facts (iv_ScheduleStart plan) t)) ->
  forall acc upto, good Q acc upto -> (forall plan, plan ∈ plans -> upto <= iv_Start plan) ->
  let ivs := foldl (fun acc plan => segments c plan now facts (plan_points c plan now facts) acc) acc plans in
  (exists e, good Q ivs e) /\ (forall t, covered ivs t <-> covered acc t \/ covered plans t).
Proof.
  induction plans as [|plan plans IH]; intros Hn Hs Hq acc upto Hg Hu; simpl.
  { split; [eauto|]. intros t. rewrite covered_nil. tauto. }
  inversion Hn as [|? ? Hn1 Hn2]; subst. apply StronglySorted_inv in Hs as [Hs Hl].
  destruct (plan_points_ends plan Hn1) as (pts & Ep & Elast & Hsort). rewrite Ep.
  destruct (segments_ok plan Hn1 (fun t => Hq plan t ltac:(left)) pts (iv_Start plan) Hsort) with (acc := acc) as [H1 H2].
  - intros x Hx. unfold point. by rewrite Ep.
  - intros x Hx _. unfold point in Hx. by rewrite Ep in Hx.
  - eapply good_weaken; [exact Hg|]. apply Hu. left.
  - change time with Z in Elast, H1, H2. rewrite Elast in H1, H2.
    destruct (IH Hn2 Hs) with (acc := segments c plan now facts (iv_Start plan :: pts) acc) (upto := iv_End plan) as [H3 H4].
    + intros p t Hp. apply Hq. by right.
    + exact H1.
    + intros p Hp. rewrite Forall_forall in Hl. specialize (Hl p Hp). lia.
    + split; [exact H3|]. intros t. rewrite H4, H2, covered_cons. unfold covers. tauto.
Qed.
End Segments.

(** What [Build] returns, instant by instant. *)
Lemma Build_ok `{Zones} `{Floats} c rangeStart rangeEnd now facts ivs
    (Hrun : Build c rangeStart rangeEnd now facts = Ok ivs) :
  exists plans, plannedIntervals (co_PlannedSchedule c) rangeStart rangeEnd = Ok plans /\
    Forall nonempty ivs /\ StronglySorted (fun a b => iv_End a <= iv_Start b) ivs /\
    (forall t, covered ivs t <-> covered plans t) /\
    forall i t, i ∈ ivs -> covers i t ->
      exists plan, plan ∈ plans /\ covers plan t /\
        status_of i = status_at c now (prepare_facts facts) (iv_ScheduleStart plan) t.
Proof.
  unfold Build in Hrun. inv_oks Hrun. injection Hrun as <-. rename a into plans. exists plans. split; [done|].
  match goal with H : plannedIntervals _ _ _ = Ok _ |- _ =>
    apply plannedIntervals_inv in H as (_ & _ & _ & _ & Hs & Hf & _) end.
  assert (Hpf : Forall (fun f => fa_Start f < fa_End f) (prepare_facts facts)).
  { unfold prepare_facts. rewrite sort_by_perm. apply Forall_map, Forall_forall. intros f Hin.
    match goal with H : forallb _ _ = true |- _ => rewrite forallb_forall in H; specialize (H f) end.
    rewrite list_elem_of_In in Hin. match goal with H : _ -> fact_ok f = true |- _ => specialize (H Hin) end.
    unfold fact_ok in *. to_prop. done. }
  set (Q t st := exists plan, plan ∈ plans /\ covers plan t /\
        st = status_at c now (prepare_facts facts) (iv_ScheduleStart plan) t).
  assert (Hn : Forall nonempty plans) by (eapply Forall_impl; [exact Hf|]; by intros i [? _]).
  destruct (build_plans_ok c now (prepare_facts facts) Hpf Q plans Hn Hs) with (acc := @nil Interval) (upto := rangeStart)
    as [[e [Hc Hne _ Hst]] Hcov].
  - intros plan t Hp Ht. by exists plan.
  - split; [constructor|constructor|intros i Hi; by apply elem_of_nil in Hi|intros i t Hi; by apply elem_of_nil in Hi].
  - intros p Hp. rewrite Forall_forall in Hf. by apply Hf in Hp as (_ & ? & _).
  - split; [by apply Forall_rev|]. split; [by apply chain_rev|]. split.
    + intros t. rewrite rev_covered, Hcov, covered_nil. tauto.
    + intros i t Hi Ht. rewrite list_elem_of_In, <- in_rev, <- list_elem_of_In in Hi. by apply Hst.
Qed.

(** C13: the intervals [Build] returns are nonempty, in order and disjoint; together
    they cover exactly the planned time; and at every instant of an interval its
    availability, flags and reason are the status of that instant in the planned
    window that contains it. *)
Theorem Build_pointwise `{Zones} `{Floats} c rangeStart rangeEnd now facts ivs
    (Hrun : Build c rangeStart rangeEnd now facts = Ok ivs) :
  exists plans, plannedIntervals (co_PlannedSchedule c) rangeStart rangeEnd = Ok plans /\
    Forall nonempty ivs /\ StronglySorted (fun a b => iv_End a <= iv_Start b) ivs /\
    (forall t, covered ivs t <-> covered plans t) /\
    forall i t, i ∈ ivs -> covers i t ->
      exists plan, plan ∈ plans /\ covers plan t /\
        status_of i = status_at c now (prepare_facts facts) (iv_ScheduleStart plan) t.
Proof. by apply Build_ok. Qed.

(** *** A morning with one heartbeat *)
Definition morning_collector : CollectorConfig :=
  MkCollector "phone" CollectorGenericJSON true "1m" "30s" "5m" weekday_schedule None.
Definition morning_fact : Fact :=
  MkFact (leap_day + 9 * hour) (leap_day + 9 * hour + 10 * minute) Covered ["obscured"; "corrupt"]
    "HEARTBEAT_ACTIVE" 30 "heartbeat:1".
Definition morning : result build_error (list Interval) :=
  Build morning_collector leap_day (leap_day + 9 * hour + 40 * minute) (leap_day + 9 * hour + 20 * minute) [morning_fact].

Example morning_intervals :
  rmap (map (fun i => ((iv_Start i - leap_day) / minute, (iv_End i - leap_day) / minute, iv_Availability i, iv_QualityFlags i))) morning
  = Ok [(540, 550, Covered, ["corrupt"; "obscured"]); (550, 551, Unknown, []); (551, 555, Delayed, []);
        (555, 560, Offline, []); (560, 580, Pending, [])].
Proof. vm_compute. reflexivity. Qed.

Lemma Build_pointwise_witness :
  exists ivs, morning = Ok ivs /\ Forall nonempty ivs.
Proof.
  destruct morning as [ivs|e] eqn:E; [|exfalso; vm_compute in E; discriminate].
  exists ivs. split; [reflexivity|]. unfold morning in E.
  destruct (Build_pointwise _ _ _ _ _ _ E) as (plans & _ & Hn & _). exact Hn.
Defined.
