(* ===== verification/MediaStore.v ===== *)
(** * Media segments and their ingest log ([eventstore/media.go])

    The append-only log of ingest events and segment states, the claims that make
    accepting a file idempotent, and the status projections kept beside the
    logs. *)

From Stdlib Require Import ZArith Lia String Ascii.
From S2P Require Import Prelude GoStrings GoTime GoJson Sha256 Sql Schema.
Open Scope string_scope.
Open Scope list_scope.
Open Scope result_scope.
Open Scope db_scope.
Open Scope Z_scope.

Definition MediaWriteAccepted : string := "accepted".
Definition MediaWriteDuplicate : string := "duplicate".
Definition MediaWriteConflict : string := "conflict".

Record MediaClaim := MkMediaClaim {
  mc_Status : string; mc_SegmentID : Z; mc_ManagedRelativePath : string; mc_SHA256 : string;
  mc_MetadataHash : string; mc_SidecarFingerprint : string }.
Definition no_claim : MediaClaim := MkMediaClaim "" 0 "" "" "" "".

Record MediaIngestSummaryT := MkMediaIngestSummary {
  su_Backlog : Z; su_Discovered : Z; su_Pending : Z; su_Validated : Z; su_Quarantined : Z;
  su_Accepted : Z; su_Failed : Z; su_TotalSegments : Z; su_LastErrorCode : string }.

(** ** Claims *)

(** [queryMediaClaim] on the selected row: the claim with the fingerprint of the
    sidecar the segment was accepted with. *)
Definition sidecar_json (m : MediaMetadata) (collectorID sourceKey : string) : string :=
  marshal_struct
    [("schema_version", JNum (format_int (mm_SidecarSchemaVersion m))); ("complete", JBool true);
     ("collector_id", JStr collectorID); ("source_idempotency_key", JStr sourceKey);
     ("device_start_raw", JStr (mm_DeviceStartRaw m)); ("device_end_raw", JStr (mm_DeviceEndRaw m));
     ("clock_offset_ms", JNum (format_int (mm_ClockOffsetMS m)));
     ("clock_error_ms", JNum (format_int (mm_ClockErrorMS m)));
     ("size_bytes", JNum (format_int (mm_SizeBytes m))); ("sha256", JStr (mm_SHA256 m));
     ("media_type", JStr (mm_MediaType m))].

Definition queryMediaClaim (r : row MediaMetadata) (collectorID sourceKey status : string) : MediaClaim :=
  let m := rval r in
  MkMediaClaim status (rid r) (mm_ManagedRelativePath m) (mm_SHA256 m) (mm_MetadataHash m)
    (sha256_hex (sidecar_json m collectorID sourceKey)).

(** A NULL column, stored as an empty string, equals nothing. *)
Definition sql_eq (column value : string) : bool := negb (String.eqb column "") && String.eqb column value.

(** The first query: a segment with the source key, or one an ingest event with
    the source key refers to; the smallest id first. *)
Definition claims_source (collectorID sourceKey : string) (events : list (row MediaIngestEvent))
    (r : row MediaMetadata) : bool :=
  (String.eqb (mm_CollectorID (rval r)) collectorID && String.eqb (mm_SourceIdempotencyKey (rval r)) sourceKey)
  || existsb (fun e => sql_eq (mi_CollectorID (rval e)) collectorID
                       && sql_eq (mi_SourceIdempotencyKey (rval e)) sourceKey
                       && negb (mi_MediaSegmentID (rval e) =? 0)
                       && (mi_MediaSegmentID (rval e) =? rid r)) events.
Definition source_claim (collectorID sourceKey : string) (d : database) : option (row MediaMetadata) :=
  find_first (claims_source collectorID sourceKey (media_ingest_events d)) (media_segments d).
Definition content_claim (sha256Value : string) (d : database) : option (row MediaMetadata) :=
  select1 (fun m => String.eqb (mm_SHA256 m) sha256Value) (media_segments d).

Definition resolveMediaClaim (collectorID sourceKey sha256Value metadataHash : string) : M database MediaClaim :=
  let* bySource := query CodeQueryFailed (source_claim collectorID sourceKey) in
  match bySource with
  | Some r =>
    let status := if String.eqb (mm_SHA256 (rval r)) sha256Value
                     && String.eqb (mm_MetadataHash (rval r)) metadataHash
                  then MediaWriteDuplicate else MediaWriteConflict in
    mret (queryMediaClaim r collectorID sourceKey status)
  | None =>
    let* byContent := query CodeQueryFailed (content_claim sha256Value) in
    match byContent with
    | None => mret no_claim
    | Some r =>
      let m := rval r in
      let status := if String.eqb (mm_MetadataHash m) metadataHash
                    then MediaWriteDuplicate else MediaWriteConflict in
      mret (queryMediaClaim r (mm_CollectorID m) (mm_SourceIdempotencyKey m) status)
    end
  end.
Definition ResolveMediaClaim := resolveMediaClaim.

(** ** The ingest log *)
Definition with_event_key (e : MediaIngestEvent) (key : string) : MediaIngestEvent :=
  MkMediaIngestEvent key (mi_IngestKey e) (mi_CollectorID e) (mi_SourceIdempotencyKey e) (mi_SourceName e)
    (mi_SourceFingerprint e) (mi_Status e) (mi_TemporaryRelativePath e) (mi_MediaSegmentID e)
    (mi_ErrorCode e) (mi_OccurredAtUTC e).
Definition with_acceptance (e : MediaIngestEvent) (segmentID : Z) : MediaIngestEvent :=
  MkMediaIngestEvent (mi_EventKey e) (mi_IngestKey e) (mi_CollectorID e) (mi_SourceIdempotencyKey e)
    (mi_SourceName e) (mi_SourceFingerprint e) "accepted" (mi_TemporaryRelativePath e) segmentID
    (mi_ErrorCode e) (mi_OccurredAtUTC e).

Definition same_ingest (p e : MediaIngestEvent) : bool :=
  String.eqb (mi_CollectorID p) (mi_CollectorID e)
  && String.eqb (mi_SourceIdempotencyKey p) (mi_SourceIdempotencyKey e)
  && String.eqb (mi_SourceName p) (mi_SourceName e)
  && String.eqb (mi_SourceFingerprint p) (mi_SourceFingerprint e)
  && String.eqb (mi_Status p) (mi_Status e)
  && String.eqb (mi_TemporaryRelativePath p) (mi_TemporaryRelativePath e)
  && (mi_MediaSegmentID p =? mi_MediaSegmentID e)
  && String.eqb (mi_ErrorCode p) (mi_ErrorCode e).

Definition previous_event (key : string) (d : database) : option (row MediaIngestEvent) :=
  select_last (fun e => String.eqb (mi_IngestKey e) key) (media_ingest_events d).
Definition has_segment (id : Z) (d : database) : bool := existsb (fun r => rid r =? id) (media_segments d).

(** [transitionDigest] of the event key and the id of the predecessor. *)
Definition transition_key (eventKey : string) (predecessorID : Z) : string :=
  sha256_hex (eventKey +:+ String zero (format_int predecessorID)).

(** [INSERT ... ON CONFLICT(event_key) DO NOTHING]. *)
Definition insert_ingest (e : MediaIngestEvent) (d : database) : result fault (unit * database) :=
  if negb (check_media_ingest_event e) then Err constraint_fault
  else match select1 (fun x => String.eqb (mi_EventKey x) (mi_EventKey e)) (media_ingest_events d) with
       | Some _ => Ok (tt, d)
       | None =>
         if (mi_MediaSegmentID e =? 0) || has_segment (mi_MediaSegmentID e) d
         then Ok (tt, with_media_ingest_events d (insert_row e (media_ingest_events d)))
         else Err constraint_fault   (* the foreign key *)
       end.

(** The insert and the query for the id of the row with the key. *)
Definition append_transition (event : MediaIngestEvent) : M database Z :=
  let* _ := stmt CodeWriteFailed (insert_ingest event) in
  stmt CodeQueryFailed (fun d =>
    match select1 (fun x => String.eqb (mi_EventKey x) (mi_EventKey event)) (media_ingest_events d) with
    | Some r => Ok (rid r, d)
    | None => Err OtherFault
    end).

Definition insertMediaIngestEvent (event : MediaIngestEvent) : M database Z :=
  let* previous := query CodeQueryFailed (previous_event (mi_IngestKey event)) in
  let unchanged := match previous with
                   | Some p => String.eqb (mi_Status event) "discovered" || same_ingest (rval p) event
                   | None => false
                   end in
  let predecessorID := match previous with Some p => rid p | None => 0 end in
  if unchanged then mret predecessorID
  else append_transition (with_event_key event (transition_key (mi_EventKey event) predecessorID)).

(** ** Projections *)
Definition ingest_status (r : row MediaIngestEvent) : MediaIngestStatus :=
  let e := rval r in
  MkMediaIngestStatus (mi_IngestKey e) (rid r) (mi_Status e) (mi_ErrorCode e) (mi_MediaSegmentID e)
    (mi_OccurredAtUTC e).
Definition segment_status (r : row MediaStateEvent) : MediaSegmentStatus :=
  let e := rval r in
  MkMediaSegmentStatus (ms_MediaSegmentID e) (rid r) (ms_Status e) (ms_ReasonCode e) (ms_OccurredAtUTC e).

(** [INSERT ... ON CONFLICT(key) DO UPDATE ... WHERE excluded.id > id]. *)
Fixpoint upsert {A K} `{EqDecision K} (key : A -> K) (newer : A -> A -> bool) (x : A) (l : list A) : list A :=
  match l with
  | [] => [x]
  | y :: t => if bool_decide (key y = key x) then (if newer x y then x else y) :: t
              else y :: upsert key newer x t
  end.
Definition newer_ingest (x y : MediaIngestStatus) : bool := is_LastEventID y <? is_LastEventID x.
Definition newer_segment (x y : MediaSegmentStatus) : bool := ss_LastStateEventID y <? ss_LastStateEventID x.

Definition applyMediaIngestProjection (eventID : Z) : M database unit :=
  stmt CodeWriteFailed (fun d => Ok (tt,
    match find_first (fun r => rid r =? eventID) (media_ingest_events d) with
    | None => d
    | Some r => with_media_ingest_status d
                  (upsert is_IngestKey newer_ingest (ingest_status r) (media_ingest_status d))
    end)).

Definition applyMediaSegmentProjection (stateEventID : Z) : M database unit :=
  stmt CodeWriteFailed (fun d => Ok (tt,
    match find_first (fun r => rid r =? stateEventID) (media_segment_state_events d) with
    | None => d
    | Some r => with_media_segment_status d
                  (upsert ss_MediaSegmentID newer_segment (segment_status r) (media_segment_status d))
    end)).

(** The rows of a log whose id is the largest of their key. *)
Fixpoint latest {A K} `{EqDecision K} (key : A -> K) (t : list (row A)) : list (row A) :=
  match t with
  | [] => []
  | r :: rest => if existsb (fun x => bool_decide (key (rval x) = key (rval r))) rest
                 then latest key rest else r :: latest key rest
  end.

Definition RebuildMediaProjections : M database unit :=
  transaction CodeWriteFailed CodeWriteFailed
    (let* _ := stmt CodeWriteFailed (fun d => Ok (tt, with_media_ingest_status d [])) in
     let* _ := stmt CodeWriteFailed (fun d => Ok (tt, with_media_ingest_status d
       (media_ingest_status d ++ map ingest_status (latest mi_IngestKey (media_ingest_events d))))) in
     let* _ := stmt CodeWriteFailed (fun d => Ok (tt, with_media_segment_status d [])) in
     stmt CodeWriteFailed (fun d => Ok (tt, with_media_segment_status d
       (media_segment_status d ++ map segment_status (latest ms_MediaSegmentID (media_segment_state_events d)))))).

Definition AppendMediaIngestEvent (event : MediaIngestEvent) : M database unit :=
  let* eventID := transaction CodeWriteFailed CodeWriteFailed (insertMediaIngestEvent event) in
  applyMediaIngestProjection eventID.

(** ** Acceptance *)
Definition insert_segment (m : MediaMetadata) (d : database) : result fault (Z * database) :=
  if negb (check_media_segment m)
     || existsb (fun r => String.eqb (mm_CollectorID (rval r)) (mm_CollectorID m)
                          && String.eqb (mm_SourceIdempotencyKey (rval r)) (mm_SourceIdempotencyKey m))
          (media_segments d)
  then Err constraint_fault
  else Ok (next_id (media_segments d), with_media_segments d (insert_row m (media_segments d))).

Definition insert_state (e : MediaStateEvent) (d : database) : result fault (Z * database) :=
  if negb (check_media_state e && has_segment (ms_MediaSegmentID e) d)
     || existsb (fun r => String.eqb (ms_EventKey (rval r)) (ms_EventKey e)) (media_segment_state_events d)
  then Err constraint_fault
  else Ok (next_id (media_segment_state_events d),
           with_media_segment_state_events d (insert_row e (media_segment_state_events d))).

Definition state_of_segment (id : Z) (e : MediaStateEvent) : bool := ms_MediaSegmentID e =? id.

(** The claim, the id of its state event and of its ingest event. *)
Definition accept_body (metadata : MediaMetadata) (event : MediaIngestEvent) (stateEventKey : string)
    : M database ((MediaClaim * option (Z * Z)) * bool) :=
  let* claim := resolveMediaClaim (mm_CollectorID metadata) (mm_SourceIdempotencyKey metadata)
                  (mm_SHA256 metadata) (mm_MetadataHash metadata) in
  if String.eqb (mc_Status claim) MediaWriteConflict then mret ((claim, None), false)
  else
    let* (claim, stateEventID) :=
      (if negb (String.eqb (mc_Status claim) MediaWriteDuplicate) then
         let* segmentID := stmt CodeWriteFailed (insert_segment metadata) in
         let* stateEventID := stmt CodeWriteFailed (insert_state
           (MkMediaStateEvent stateEventKey segmentID "accepted" "" "recorder-core" (mm_ReceivedAtUTC metadata))) in
         mret (MkMediaClaim MediaWriteAccepted segmentID (mm_ManagedRelativePath metadata)
                 (mm_SHA256 metadata) (mm_MetadataHash metadata) "", stateEventID)
       else
         let* stateEventID := stmt CodeQueryFailed (fun d =>
           match select_last (state_of_segment (mc_SegmentID claim)) (media_segment_state_events d) with
           | Some r => Ok (rid r, d)
           | None => Err OtherFault   (* MAX(id) is NULL *)
           end) in
         mret (claim, stateEventID)) in
    let* ingestEventID := insertMediaIngestEvent (with_acceptance event (mc_SegmentID claim)) in
    mret ((claim, Some (stateEventID, ingestEventID)), true).

(** Where the projections fail the code returns the claim with the error. *)
Definition AcceptMedia (metadata : MediaMetadata) (event : MediaIngestEvent) (stateEventKey : string)
    : M database MediaClaim :=
  let* (claim, ids) := transaction_if CodeWriteFailed CodeWriteFailed
    (accept_body metadata event stateEventKey) in
  match ids with
  | None => mret claim
  | Some (stateEventID, ingestEventID) =>
    let* _ := applyMediaIngestProjection ingestEventID in
    let* _ := applyMediaSegmentProjection stateEventID in
    mret claim
  end.

(** ** Summary and file checks *)
Definition count_status (status : string) (l : list MediaIngestStatus) : Z :=
  Z.of_nat (length (List.filter (fun s => String.eqb (is_Status s) status) l)).
Definition latest_error (l : list MediaIngestStatus) : option MediaIngestStatus :=
  foldl (fun m s => if String.eqb (is_ErrorCode s) "" then m
                    else match m with
                         | None => Some s
                         | Some b => if newer_ingest s b then Some s else m
                         end) None l.

Definition MediaIngestSummary : M database MediaIngestSummaryT :=
  let* counts := query CodeQueryFailed (fun d => fun status => count_status status (media_ingest_status d)) in
  let* total := query CodeQueryFailed (fun d => Z.of_nat (length (media_segments d))) in
  let* lastError := query CodeQueryFailed (fun d => latest_error (media_ingest_status d)) in
  mret (MkMediaIngestSummary (counts "discovered" + counts "pending" + counts "validated")
          (counts "discovered") (counts "pending") (counts "validated") (counts "quarantined")
          (counts "accepted") (counts "failed") total
          (match lastError with Some s => is_ErrorCode s | None => "" end)).

Definition MediaFileCheckMatches (ingestKey checkKind signature : string) : M database bool :=
  let* found := query CodeQueryFailed (fun d =>
    find_first (fun c => String.eqb (fc_IngestKey c) ingestKey) (media_file_checks d)) in
  mret (match found with
        | Some c => String.eqb (fc_CheckKind c) checkKind && String.eqb (fc_Signature c) signature
        | None => false
        end).

Definition SaveMediaFileCheck (ingestKey checkKind signature checkedAtUTC : string) : M database unit :=
  stmt CodeWriteFailed (fun d =>
    let c := MkMediaFileCheck ingestKey checkKind signature checkedAtUTC in
    if check_media_file_check c
    then Ok (tt, with_media_file_checks d (upsert fc_IngestKey (fun _ _ => true) c (media_file_checks d)))
    else Err constraint_fault).

(** ** Projections of a log *)
Section Projection.
Context {A B K : Type} `{EqDecision K} (key : A -> K) (st : row A -> B) (kb : B -> K) (idb : B -> Z).
Hypothesis Hkey : forall r, kb (st r) = key (rval r).
Hypothesis Hid : forall r, idb (st r) = rid r.

Definition for_key (k : K) (t : list (row A)) : option (row A) :=
  find_last (fun r => bool_decide (key (rval r) = k)) t.
Definition status_for (k : K) (l : list B) : option B := find_first (fun b => bool_decide (kb b = k)) l.

(** The status of every key is that of its last event. *)
Definition exact (t : list (row A)) (l : list B) : Prop :=
  forall k, status_for k l = option_map st (for_key k t).

Definition newer (x y : B) : bool := idb y <? idb x.

Lemma upsert_status x l k :
  status_for k (upsert kb newer x l) =
    if bool_decide (kb x = k)
    then match status_for k l with Some y => if newer x y then Some x else Some y | None => Some x end
    else status_for k l.
Proof.
  unfold status_for. induction l as [|y l IH]; simpl.
  - by destruct (bool_decide (kb x = k)).
  - destruct (bool_decide (kb y = kb x)) eqn:E; to_prop; simpl.
    + rewrite E. destruct (bool_decide (kb x = k)) eqn:Ek.
      * destruct (newer x y); simpl; [by rewrite Ek|by rewrite E, Ek].
      * destruct (newer x y); simpl; [by rewrite Ek|by rewrite E, Ek].
    + destruct (bool_decide (kb y = k)) eqn:Ek; [|exact IH].
      destruct (bool_decide (kb x = k)) eqn:Ex; [|done]. to_prop. congruence.
Qed.

Lemma upsert_stale x y l :
  status_for (kb x) l = Some y -> newer x y = false -> upsert kb newer x l = l.
Proof.
  unfold status_for. induction l as [|z l IH]; simpl; [done|].
  destruct (bool_decide (kb z = kb x)).
  - by intros [= ->] ->.
  - intros E1 E2. by rewrite IH.
Qed.

Lemma for_key_max k t r : ids_sorted t -> r ∈ t -> key (rval r) = k ->
  exists r', for_key k t = Some r' /\ rid r <= rid r'.
Proof.
  unfold for_key. intros [Hs _] Hr Hk. induction t as [|x t IH] using rev_ind; [by apply elem_of_nil in Hr|].
  rewrite find_last_snoc. rewrite map_app in Hs. apply StronglySorted_app in Hs as (H1 & H2 & H3).
  assert (Hlt : forall y, y ∈ t -> rid y < rid x).
  { intros y Hy. apply H1; [apply list_elem_of_fmap; by exists y|left]. }
  destruct (bool_decide (key (rval x) = k)) eqn:E.
  - exists x. split; [done|]. apply elem_of_app in Hr as [Hr|Hr]; [specialize (Hlt r Hr); lia|].
    apply list_elem_of_singleton in Hr as ->. lia.
  - to_prop. apply elem_of_app in Hr as [Hr|Hr]; [by apply IH|].
    apply list_elem_of_singleton in Hr as ->. done.
Qed.

(** Projecting an event of the log again changes nothing. *)
Lemma exact_again t l r : ids_sorted t -> exact t l -> r ∈ t -> upsert kb newer (st r) l = l.
Proof.
  intros Hs He Hr. destruct (for_key_max (key (rval r)) t r Hs Hr eq_refl) as (r' & Er & Hle).
  apply (upsert_stale _ (st r')).
  - by rewrite Hkey, He, Er.
  - unfold newer. rewrite !Hid. by apply Z.ltb_ge.
Qed.

(** Projecting an event just appended keeps the projection exact. *)
Lemma exact_append t l x : exact t l -> exact (insert_row x t) (upsert kb newer (st (Row (next_id t) x)) l).
Proof.
  intros He k. rewrite upsert_status, Hkey. unfold insert_row, for_key. rewrite find_last_snoc. simpl.
  destruct (bool_decide (key x = k)) eqn:E; [|apply He]. rewrite (He k).
  unfold for_key. destruct (find_last _ t) as [r|] eqn:Er; simpl; [|done].
  apply find_last_Some in Er as [Hr _]. unfold newer. rewrite !Hid. simpl.
  pose proof (max_id_le t) as Hm. rewrite Forall_forall in Hm. specialize (Hm r Hr).
  unfold next_id. by rewrite (proj2 (Z.ltb_lt _ _)) by lia.
Qed.

Lemma latest_find k t :
  find_first (fun r => bool_decide (key (rval r) = k)) (latest key t) = for_key k t.
Proof.
  unfold for_key. induction t as [|r t IH]; [done|].
  change (r :: t) with ([r] ++ t) at 2. rewrite find_last_app, <- IH. cbn [latest].
  assert (Hex : forall k', existsb (fun x => bool_decide (key (rval x) = k')) t = false ->
    find_first (fun r => bool_decide (key (rval r) = k')) (latest key t) = None).
  { intros k' Hf. apply find_first_None. intros x Hx. apply not_true_iff_false. intros Hb.
    rewrite <- not_true_iff_false in Hf. apply Hf, existsb_exists. exists x. split; [|done].
    rewrite <- list_elem_of_In. clear -Hx. induction t as [|y t IH]; [done|]. cbn [latest] in Hx.
    destruct (existsb _ t); [right; auto|]. apply elem_of_cons in Hx as [->|Hx]; [left|right; auto]. }
  destruct (existsb (fun x => bool_decide (key (rval x) = key (rval r))) t) eqn:E.
  - destruct (find_first _ (latest key t)) eqn:Ef; [done|]. unfold find_last. simpl.
    destruct (bool_decide (key (rval r) = k)) eqn:Ek; [|done]. exfalso. to_prop. subst k.
    apply existsb_exists in E as (x & Hx & Hb). rewrite <- list_elem_of_In in Hx.
    unfold find_last in IH.
    pose proof (proj1 (find_first_None _ _) (eq_sym IH)) as Hnone. rewrite (Hnone x) in Hb; [done|]. by rewrite list_elem_of_In, <- in_rev, <- list_elem_of_In.
  - simpl. unfold find_last. simpl. destruct (bool_decide (key (rval r) = k)) eqn:Ek; [|by destruct (find_first _ (latest key t))].
    to_prop. subst k. by rewrite (Hex _ E).
Qed.

Lemma exact_latest t : exact t (map st (latest key t)).
Proof.
  intros k. rewrite <- latest_find. unfold status_for. induction (latest key t) as [|r l IH]; [done|].
  simpl. rewrite Hkey. by destruct (bool_decide (key (rval r) = k)).
Qed.
End Projection.

(** ** The media projections *)
Definition ingest_exact (d : database) : Prop :=
  exact mi_IngestKey ingest_status is_IngestKey (media_ingest_events d) (media_ingest_status d).
Definition segment_exact (d : database) : Prop :=
  exact ms_MediaSegmentID segment_status ss_MediaSegmentID (media_segment_state_events d) (media_segment_status d).

Lemma find_first_ext {A} (f g : A -> bool) l : (forall x, f x = g x) -> find_first f l = find_first g l.
Proof. intros E. induction l as [|x l IH]; simpl; [done|]. by rewrite E, IH. Qed.

Lemma previous_for_key k d : previous_event k d = for_key mi_IngestKey k (media_ingest_events d).
Proof.
  unfold previous_event, select_last, for_key, find_last. apply find_first_ext. intros r.
  destruct (String.eqb_spec (mi_IngestKey (rval r)) k), (bool_decide_reflect (mi_IngestKey (rval r) = k)); done.
Qed.

Lemma find_rid {A} (t : list (row A)) r :
  ids_sorted t -> r ∈ t -> find_first (fun x => rid x =? rid r) t = Some r.
Proof.
  intros [Hs _] Hr. induction t as [|x t IH]; [by apply elem_of_nil in Hr|]. simpl in *.
  apply StronglySorted_inv in Hs as [Hs Hx]. apply elem_of_cons in Hr as [->|Hr]; [by rewrite Z.eqb_refl|].
  rewrite Forall_forall in Hx. specialize (Hx (rid r)).
  destruct (Z.eqb_spec (rid x) (rid r)) as [E|]; [|by apply IH].
  exfalso. assert (rid x < rid r); [|lia]. apply Hx. apply list_elem_of_fmap. by exists r.
Qed.

Lemma find_rid_last {A} (t : list (row A)) (x : A) :
  find_first (fun r => rid r =? next_id t) (insert_row x t) = Some (Row (next_id t) x).
Proof.
  unfold insert_row. rewrite find_first_app.
  assert (E : find_first (fun r => rid r =? next_id t) t = None).
  { apply find_first_None. intros r Hr. pose proof (max_id_le t) as Hm. rewrite Forall_forall in Hm.
    specialize (Hm r Hr). apply Z.eqb_neq. unfold next_id. lia. }
  rewrite E. simpl. by rewrite Z.eqb_refl.
Qed.

(** A row that makes an event no news: the last of its ingest key where the event
    says the same or only that the file was discovered, or one that has its key. *)
Definition logged_before (event : MediaIngestEvent) (t : list (row MediaIngestEvent)) (r : row MediaIngestEvent) : Prop :=
  (for_key mi_IngestKey (mi_IngestKey event) t = Some r /\
   (mi_Status event = "discovered" \/ same_ingest (rval r) event = true)) \/
  (exists p, mi_EventKey (rval r) = transition_key (mi_EventKey event) p).

(** What [insertMediaIngestEvent] does: the log is as it was and the id is that of
    a row that has the event, or the event is appended under a new key. *)
Definition logged (event : MediaIngestEvent) (d : database) (id : Z) (d' : database) : Prop :=
  (d' = d /\ exists r, r ∈ media_ingest_events d /\ rid r = id /\ logged_before event (media_ingest_events d) r) \/
  (exists k, let e := with_event_key event k in
     id = next_id (media_ingest_events d) /\
     d' = with_media_ingest_events d (insert_row e (media_ingest_events d)) /\
     (mi_MediaSegmentID event = 0 \/ has_segment (mi_MediaSegmentID event) d = true)).

Lemma append_transition_ok event p d o id d' o' :
  append_transition (with_event_key event (transition_key (mi_EventKey event) p)) d o = (Ok id, d', o') ->
  logged event d id d'.
Proof.
  unfold append_transition. set (k := transition_key (mi_EventKey event) p). set (e := with_event_key event k). intros Hr.
  inv_m Hr. apply stmt_inv in Hm. unfold insert_ingest in Hm. cbv beta in Hr.
  destruct (negb (check_media_ingest_event e)); [done|].
  destruct (select1 _ (media_ingest_events d)) as [x|] eqn:Es.
  - injection Hm as <- <-. rewrite Es in Hr. injection Hr as <- <-. left. split; [done|]. exists x.
    unfold select1 in Es. apply find_first_Some in Es as [Hx Ek]. split; [done|]. split; [done|].
    right. exists p. by apply String.eqb_eq in Ek.
  - destruct (_ || _) eqn:Eseg; [|done]. injection Hm as <- <-.
    cbn [media_ingest_events with_media_ingest_events] in Hr.
    unfold select1, insert_row in Hr, Es. rewrite find_first_app, Es in Hr. simpl in Hr.
    rewrite String.eqb_refl in Hr. injection Hr as <- <-. right. exists k. split; [done|]. split; [done|].
    apply orb_true_iff in Eseg as [Eseg|Eseg]; [left; by apply Z.eqb_eq in Eseg|by right].
Qed.

Lemma insertMediaIngestEvent_ok event d o id d' o' :
  insertMediaIngestEvent event d o = (Ok id, d', o') -> logged event d id d'.
Proof.
  unfold insertMediaIngestEvent. intros Hr. inv_m Hr. apply query_inv in Hm as [-> ->].
  destruct (previous_event (mi_IngestKey event) d) as [p|] eqn:Ep; [|by eapply append_transition_ok].
  destruct (_ || _) eqn:Eu; [|by eapply append_transition_ok].
  inv_m Hr. left. split; [done|]. exists p. split; [|split; [done|left]].
  - unfold previous_event, select_last in Ep. by apply find_last_Some in Ep as [? _].
  - rewrite <- previous_for_key. split; [done|]. apply orb_true_iff in Eu as [Eu|Eu]; [left|by right].
    by apply String.eqb_eq in Eu.
Qed.

(** Projecting what was logged makes the projection exact again. *)
Lemma project_logged event d id d1 o u d2 o' :
  ids_sorted (media_ingest_events d) -> ingest_exact d -> logged event d id d1 ->
  applyMediaIngestProjection id d1 o = (Ok u, d2, o') ->
  ids_sorted (media_ingest_events d2) /\ ingest_exact d2 /\ media_ingest_events d2 = media_ingest_events d1 /\
  (d1 = d -> d2 = d) /\
  d2 = with_media_ingest_status d1 (media_ingest_status d2).
Proof.
  intros Hs He Hl Hp. unfold applyMediaIngestProjection in Hp. apply stmt_inv in Hp. injection Hp as _ <-.
  destruct Hl as [[-> (r & Hr & <- & _)]|(k & -> & -> & _)].
  - rewrite (find_rid _ _ Hs Hr).
    pose proof (exact_again mi_IngestKey ingest_status is_IngestKey is_LastEventID ltac:(done) ltac:(done)
                  _ _ r Hs He Hr) as Hu.
    change (newer is_LastEventID) with newer_ingest in Hu. rewrite Hu.
    assert (Hd : with_media_ingest_status d (media_ingest_status d) = d) by (by destruct d).
    rewrite Hd. split; [done|]. split; [done|]. split; [done|]. split; [done|]. done.
  - cbn [media_ingest_events with_media_ingest_events]. rewrite find_rid_last. cbn.
    split; [by apply insert_row_sorted|]. split.
    { exact (exact_append mi_IngestKey ingest_status is_IngestKey is_LastEventID ltac:(done) ltac:(done) _ _ _ He). }
    split; [done|]. split; [|done]. intros E. exfalso.
    apply (f_equal (fun d => length (media_ingest_events d))) in E. cbn in E. unfold insert_row in E.
    rewrite length_app in E. simpl in E. lia.
Qed.

Lemma append_event_ok event d o u d' o' :
  ids_sorted (media_ingest_events d) -> ingest_exact d -> AppendMediaIngestEvent event d o = (Ok u, d', o') ->
  ids_sorted (media_ingest_events d') /\ ingest_exact d' /\
  (d' = d \/ exists k, media_ingest_events d' = insert_row (with_event_key event k) (media_ingest_events d)).
Proof.
  intros Hids Hexact Hrun. unfold AppendMediaIngestEvent in Hrun. inv_m Hrun.
  apply transaction_inv in Hm as (o1 & o2 & Hm). apply insertMediaIngestEvent_ok in Hm.
  destruct (project_logged _ _ _ _ _ _ _ _ Hids Hexact Hm Hrun) as (H1 & H2 & H3 & H4 & H5).
  split; [done|]. split; [done|]. destruct Hm as [[-> _]|(k & _ & -> & _)]; [left; auto|].
  right. exists k. by rewrite H3.
Qed.

(** Appending an ingest event keeps the log append-only with ids in order, adds
    at most one row, and leaves the status of every ingest key that of its last
    event. *)
Theorem AppendMediaIngestEvent_projects event d o u d' o'
    (Hids : ids_sorted (media_ingest_events d)) (Hexact : ingest_exact d)
    (Hrun : AppendMediaIngestEvent event d o = (Ok u, d', o')) :
  ids_sorted (media_ingest_events d') /\ ingest_exact d' /\
  (d' = d \/ exists k, media_ingest_events d' = insert_row (with_event_key event k) (media_ingest_events d)).
Proof. by eapply append_event_ok. Qed.

(** Rebuilding makes both projections exact, whatever they held before, and
    changes neither log. *)
Theorem RebuildMediaProjections_exact d o u d' o'
    (Hrun : RebuildMediaProjections d o = (Ok u, d', o')) :
  ingest_exact d' /\ segment_exact d' /\ media_ingest_events d' = media_ingest_events d /\
  media_segment_state_events d' = media_segment_state_events d /\ media_segments d' = media_segments d.
Proof.
  unfold RebuildMediaProjections in Hrun. apply transaction_inv in Hrun as (o1 & o2 & Hr). inv_m Hr.
  repeat match goal with H : stmt _ _ _ _ = _ |- _ => apply stmt_inv in H; injection H as <- <- end.
  injection Hr as _ <-. cbn. split; [by apply exact_latest|]. split; [by apply exact_latest|]. done.
Qed.

(** *** Appending an event again *)
Lemma insertMediaIngestEvent_determined event : determined (insertMediaIngestEvent event).
Proof.
  unfold insertMediaIngestEvent, append_transition. apply determined_mbind; [apply determined_stmt|].
  intros previous. destruct (match previous with Some _ => _ | None => _ end); eauto with monitor.
Qed.

Lemma same_ingest_refl event k : same_ingest (with_event_key event k) event = true.
Proof. unfold same_ingest. cbn. by rewrite !String.eqb_refl, Z.eqb_refl. Qed.

Lemma AppendMediaIngestEvent_determined event : determined (AppendMediaIngestEvent event).
Proof.
  apply determined_mbind; [apply determined_transaction, insertMediaIngestEvent_determined|].
  intros id. apply determined_stmt.
Qed.

(** An ingest event reported twice in a row is logged once: the second call
    changes nothing. *)
Theorem AppendMediaIngestEvent_again event d o1 u1 d1 o1' o2 u2 d2 o2'
    (Hids : ids_sorted (media_ingest_events d)) (Hexact : ingest_exact d)
    (Hfirst : AppendMediaIngestEvent event d o1 = (Ok u1, d1, o1'))
    (Hagain : AppendMediaIngestEvent event d1 o2 = (Ok u2, d2, o2')) : d2 = d1.
Proof.
  destruct (append_event_ok _ _ _ _ _ _ Hids Hexact Hfirst) as (Hids1 & Hexact1 & [->|[k Hlog]]).
  - by destruct (AppendMediaIngestEvent_determined event _ _ _ _ _ _ _ _ _ Hfirst Hagain).
  - unfold AppendMediaIngestEvent in Hagain. inv_m Hagain. apply transaction_inv in Hm as (q1 & q2 & Hm).
    pose proof Hm as Hl. apply insertMediaIngestEvent_ok in Hl.
    destruct (project_logged _ _ _ _ _ _ _ _ Hids1 Hexact1 Hl Hagain) as (_ & _ & _ & Hsame & _).
    apply Hsame. unfold insertMediaIngestEvent in Hm. inv_m Hm. apply query_inv in Hm0 as [-> ->].
    assert (Hp : previous_event (mi_IngestKey event) d1
                 = Some (Row (next_id (media_ingest_events d)) (with_event_key event k))).
    { unfold previous_event, select_last. rewrite Hlog. unfold insert_row. rewrite find_last_snoc. cbn.
      by rewrite String.eqb_refl. }
    rewrite Hp in Hm. cbn [rval] in Hm. rewrite same_ingest_refl, orb_true_r in Hm. by inv_m Hm.
Qed.

(** ** Accepting media *)

(** The claim as a function of the database. *)
Definition claim_in (collectorID sourceKey sha256Value metadataHash : string) (d : database) : MediaClaim :=
  match source_claim collectorID sourceKey d with
  | Some r => queryMediaClaim r collectorID sourceKey
                (if String.eqb (mm_SHA256 (rval r)) sha256Value
                    && String.eqb (mm_MetadataHash (rval r)) metadataHash
                 then MediaWriteDuplicate else MediaWriteConflict)
  | None =>
    match content_claim sha256Value d with
    | None => no_claim
    | Some r => queryMediaClaim r (mm_CollectorID (rval r)) (mm_SourceIdempotencyKey (rval r))
                  (if String.eqb (mm_MetadataHash (rval r)) metadataHash
                   then MediaWriteDuplicate else MediaWriteConflict)
    end
  end.

Lemma resolve_claim_in c k s h d o a d' o' :
  resolveMediaClaim c k s h d o = (Ok a, d', o') -> a = claim_in c k s h d /\ d' = d.
Proof.
  unfold resolveMediaClaim, claim_in. intros Hr. inv_m Hr. apply query_inv in Hm as [-> ->].
  destruct (source_claim c k d) as [r|]; [by inv_m Hr|].
  inv_m Hr. apply query_inv in Hm as [-> ->]. destruct (content_claim s d) as [r|]; by inv_m Hr.
Qed.

(** What a claim says of the segments. *)
Lemma claim_in_spec c k s h d :
  (claim_in c k s h d = no_claim /\ source_claim c k d = None /\ content_claim s d = None) \/
  exists r, r ∈ media_segments d /\ mc_SegmentID (claim_in c k s h d) = rid r /\
    (source_claim c k d = Some r \/ source_claim c k d = None /\ content_claim s d = Some r) /\
    ((mc_Status (claim_in c k s h d) = MediaWriteDuplicate /\
      mm_SHA256 (rval r) = s /\ mm_MetadataHash (rval r) = h) \/
     (mc_Status (claim_in c k s h d) = MediaWriteConflict /\
      ~ (mm_SHA256 (rval r) = s /\ mm_MetadataHash (rval r) = h))).
Proof.
  unfold claim_in. destruct (source_claim c k d) as [r|] eqn:Es.
  - right. exists r. unfold source_claim in Es. pose proof (find_first_Some _ _ _ Es) as [Hr _].
    split; [done|]. split; [done|]. split; [by left|]. cbn.
    destruct (String.eqb_spec (mm_SHA256 (rval r)) s), (String.eqb_spec (mm_MetadataHash (rval r)) h);
      cbn; intuition congruence.
  - destruct (content_claim s d) as [r|] eqn:Ec; [right|by left].
    exists r. unfold content_claim, select1 in Ec. pose proof (find_first_Some _ _ _ Ec) as [Hr Hs].
    apply String.eqb_eq in Hs. split; [done|]. split; [done|]. split; [by right|]. cbn.
    destruct (String.eqb_spec (mm_MetadataHash (rval r)) h); cbn; intuition congruence.
Qed.

Definition accepted_state (stateEventKey : string) (segmentID : Z) (m : MediaMetadata) : MediaStateEvent :=
  MkMediaStateEvent stateEventKey segmentID "accepted" "" "recorder-core" (mm_ReceivedAtUTC m).

(** The segments and the state log after an acceptance. *)
Definition accepted_in (m : MediaMetadata) (stateEventKey : string) (d : database) (claim : MediaClaim)
    (d' : database) : Prop :=
  (mc_Status claim = MediaWriteDuplicate /\
   media_segments d' = media_segments d /\ media_segment_state_events d' = media_segment_state_events d /\
   exists r, r ∈ media_segments d /\ rid r = mc_SegmentID claim /\
     mm_SHA256 (rval r) = mm_SHA256 m /\ mm_MetadataHash (rval r) = mm_MetadataHash m) \/
  (mc_Status claim = MediaWriteAccepted /\
   mc_SegmentID claim = next_id (media_segments d) /\
   media_segments d' = insert_row m (media_segments d) /\
   media_segment_state_events d' =
     insert_row (accepted_state stateEventKey (next_id (media_segments d)) m) (media_segment_state_events d) /\
   forall r, r ∈ media_segments d -> mm_SHA256 (rval r) <> mm_SHA256 m /\
     (mm_CollectorID (rval r), mm_SourceIdempotencyKey (rval r))
       <> (mm_CollectorID m, mm_SourceIdempotencyKey m)).

Lemma logged_segments event d id d' : logged event d id d' ->
  media_segments d' = media_segments d /\ media_segment_state_events d' = media_segment_state_events d.
Proof. intros [[-> _]|(k & _ & -> & _)]; done. Qed.

Lemma no_source_claim c k d r : source_claim c k d = None -> r ∈ media_segments d ->
  (mm_CollectorID (rval r), mm_SourceIdempotencyKey (rval r)) <> (c, k).
Proof.
  unfold source_claim. rewrite find_first_None. intros Hn Hr [= E1 E2]. specialize (Hn r Hr).
  unfold claims_source in Hn. rewrite E1, E2, !String.eqb_refl in Hn. done.
Qed.
Lemma no_content_claim s d r : content_claim s d = None -> r ∈ media_segments d -> mm_SHA256 (rval r) <> s.
Proof.
  unfold content_claim, select1. rewrite find_first_None. intros Hn Hr E. specialize (Hn r Hr).
  rewrite E, String.eqb_refl in Hn. done.
Qed.

(** How the claim was found. *)
Definition resolved (m : MediaMetadata) (d : database) (claim : MediaClaim) : Prop :=
  let found := claim_in (mm_CollectorID m) (mm_SourceIdempotencyKey m) (mm_SHA256 m) (mm_MetadataHash m) d in
  found = no_claim /\ mc_Status claim = MediaWriteAccepted /\
    mc_SegmentID claim = next_id (media_segments d) /\ source_claim (mm_CollectorID m) (mm_SourceIdempotencyKey m) d = None \/
  found = claim /\ mc_Status claim = MediaWriteDuplicate.

(** The state event an acceptance projects: the one it appends, or one logged. *)
Definition state_row (d : database) (sid : Z) (d' : database) : Prop :=
  (media_segment_state_events d' = media_segment_state_events d /\
   exists r, r ∈ media_segment_state_events d /\ rid r = sid) \/
  (sid = next_id (media_segment_state_events d) /\
   exists e, media_segment_state_events d' = insert_row e (media_segment_state_events d)).

Lemma accept_body_ok m event key d o claim ids commit d' o' :
  accept_body m event key d o = (Ok ((claim, ids), commit), d', o') ->
  (ids = None /\ commit = false /\ d' = d /\ mc_Status claim = MediaWriteConflict /\
   claim = claim_in (mm_CollectorID m) (mm_SourceIdempotencyKey m) (mm_SHA256 m) (mm_MetadataHash m) d) \/
  (exists sid iid d1, ids = Some (sid, iid) /\ commit = true /\ accepted_in m key d claim d1 /\
     resolved m d claim /\ media_ingest_events d1 = media_ingest_events d /\
     logged (with_acceptance event (mc_SegmentID claim)) d1 iid d' /\ state_row d sid d1 /\
     media_ingest_status d1 = media_ingest_status d /\ media_segment_status d1 = media_segment_status d).
Proof.
  unfold accept_body. intros Hr. inv_m Hr. apply resolve_claim_in in Hm as [-> ->].
  destruct (claim_in_spec (mm_CollectorID m) (mm_SourceIdempotencyKey m) (mm_SHA256 m) (mm_MetadataHash m) d)
    as [(E & Hs & Hc)|(r & Hr0 & Hid & _ & [(E & Esha & Emh)|(E & Hne)])].
  - rewrite E in Hr. cbn in Hr. inv_m Hr. destruct a as [claim1 sid]. inv_m Hm. simplify_eq.
    apply stmt_inv in Hm0, Hm1. inv_m Hr. simplify_eq. apply insertMediaIngestEvent_ok in Hm. right.
    unfold insert_segment in Hm0. destruct (_ || _); [done|]. injection Hm0 as <- <-.
    unfold insert_state in Hm1. destruct (_ || _); [done|]. injection Hm1 as <- <-.
    eexists _, _, _. split; [done|]. split; [done|]. split; [|split; [by left|split; [|split; [exact Hm|split; [|done]]]]]; [|done|].
    2: { right. split; [done|]. by eexists. }
    right. cbn. split; [done|]. split; [done|]. split; [done|]. split; [done|]. intros r Hr.
    split; [by eapply no_content_claim|by eapply no_source_claim].
  - set (claim0 := claim_in _ _ _ _ d) in *. rewrite E in Hr. cbn in Hr. inv_m Hr. destruct a as [claim1 sid].
    inv_m Hm. simplify_eq. apply stmt_inv in Hm0. inv_m Hr. simplify_eq. apply insertMediaIngestEvent_ok in Hm. right.
    destruct (select_last _ (media_segment_state_events d)) as [x|] eqn:Ex; [|done]. injection Hm0 as <- <-.
    eexists _, _, d. split; [done|]. split; [done|]. split; [|split; [by right|split; [done|split; [exact Hm|split; [|done]]]]].
    2: { left. split; [done|]. exists x. split; [|done]. unfold select_last in Ex. by apply find_last_Some in Ex as [? _]. }
    left. split; [done|]. split; [done|]. split; [done|]. by exists r.
  - set (claim0 := claim_in _ _ _ _ d) in *. rewrite E in Hr. cbn in Hr. inv_m Hr. simplify_eq. left. done.
Qed.

Lemma projections_segments iid sid d o u v d1 o1 d2 o2 :
  applyMediaIngestProjection iid d o = (Ok u, d1, o1) -> applyMediaSegmentProjection sid d1 o1 = (Ok v, d2, o2) ->
  media_segments d2 = media_segments d /\ media_segment_state_events d2 = media_segment_state_events d /\
  media_ingest_events d2 = media_ingest_events d.
Proof.
  intros H1 H2. apply stmt_inv in H1, H2. injection H1 as <- <-. injection H2 as <- <-.
  repeat case_match; done.
Qed.

Lemma AcceptMedia_inv m event key d o claim d' o' :
  AcceptMedia m event key d o = (Ok claim, d', o') ->
  (d' = d /\ mc_Status claim = MediaWriteConflict /\
   claim = claim_in (mm_CollectorID m) (mm_SourceIdempotencyKey m) (mm_SHA256 m) (mm_MetadataHash m) d) \/
  (accepted_in m key d claim d' /\ resolved m d claim /\
   (media_ingest_events d' = media_ingest_events d \/
    exists k, media_ingest_events d' =
      insert_row (with_event_key (with_acceptance event (mc_SegmentID claim)) k) (media_ingest_events d))).
Proof.
  unfold AcceptMedia. intros Hr. inv_m Hr. destruct a as [claim1 ids].
  apply transaction_if_inv in Hm as (b & s1 & q1 & q2 & Hm & ->). apply accept_body_ok in Hm.
  destruct Hm as [(-> & -> & -> & Hc & ->)|(sid & iid & s2 & -> & -> & Ha & Hres & Hev & Hl & _)].
  - inv_m Hr. left. done.
  - inv_m Hr. right. destruct (projections_segments _ _ _ _ _ _ _ _ _ _ Hm Hm0) as (E1 & E2 & E3).
    destruct (logged_segments _ _ _ _ Hl) as [E4 E5]. split.
    + unfold accepted_in in *. by rewrite E1, E2, E4, E5.
    + split; [done|]. rewrite E3. destruct Hl as [[-> _]|(k & _ & -> & _)]; [left; done|right; exists k].
      cbn. by rewrite Hev.
Qed.

(** Projecting a state event that was appended, or again one that was logged,
    keeps the projection exact. *)
Lemma project_state d sid d1 d2 o u d' o' :
  ids_sorted (media_segment_state_events d) -> segment_exact d -> state_row d sid d1 ->
  media_segment_status d1 = media_segment_status d ->
  media_segment_state_events d2 = media_segment_state_events d1 ->
  media_segment_status d2 = media_segment_status d1 ->
  applyMediaSegmentProjection sid d2 o = (Ok u, d', o') ->
  ids_sorted (media_segment_state_events d') /\ segment_exact d' /\
  media_ingest_events d' = media_ingest_events d2 /\ media_ingest_status d' = media_ingest_status d2.
Proof.
  intros Hs He Hl E1 E2 E3 Hp. unfold applyMediaSegmentProjection in Hp. apply stmt_inv in Hp. injection Hp as _ <-.
  rewrite E2. unfold segment_exact. destruct Hl as [[E (r & Hr & <-)]|(-> & e & E)]; rewrite E.
  - rewrite (find_rid _ _ Hs Hr). cbn. rewrite E2, E, E3, E1.
    pose proof (exact_again ms_MediaSegmentID segment_status ss_MediaSegmentID ss_LastStateEventID ltac:(done)
                  ltac:(done) _ _ r Hs He Hr) as Hu.
    change (newer ss_LastStateEventID) with newer_segment in Hu. by rewrite Hu.
  - rewrite find_rid_last. cbn. rewrite E2, E, E3, E1. split; [by apply insert_row_sorted|]. split; [|done].
    exact (exact_append ms_MediaSegmentID segment_status ss_MediaSegmentID ss_LastStateEventID ltac:(done)
             ltac:(done) _ _ _ He).
Qed.

(** What the acceptance says of the file is in the ingest log. *)
Definition ingest_in (event : MediaIngestEvent) (d : database) (claim : MediaClaim) (d' : database) : Prop :=
  let e := with_acceptance event (mc_SegmentID claim) in
  (media_ingest_events d' = media_ingest_events d /\
   exists r, r ∈ media_ingest_events d /\ logged_before e (media_ingest_events d) r) \/
  (exists k, media_ingest_events d' = insert_row (with_event_key e k) (media_ingest_events d)).

Lemma AcceptMedia_projected m event key d o claim d' o' :
  ids_sorted (media_ingest_events d) -> ids_sorted (media_segment_state_events d) ->
  ingest_exact d -> segment_exact d -> AcceptMedia m event key d o = (Ok claim, d', o') ->
  mc_Status claim = MediaWriteConflict \/ (ingest_in event d claim d' /\ ingest_exact d' /\ segment_exact d').
Proof.
  intros Hs1 Hs2 He1 He2. unfold AcceptMedia. intros Hr. inv_m Hr. destruct a as [claim1 ids].
  apply transaction_if_inv in Hm as (b & s1 & q1 & q2 & Hm & ->). apply accept_body_ok in Hm.
  destruct Hm as [(-> & -> & -> & Hc & ->)|(sid & iid & s2 & -> & -> & Ha & Hres & Hev & Hl & Hst & Ei & Es)].
  { inv_m Hr. by left. }
  inv_m Hr. right.
  assert (He1' : ingest_exact s2) by (unfold ingest_exact; by rewrite Hev, Ei).
  assert (Hs1' : ids_sorted (media_ingest_events s2)) by by rewrite Hev.
  pose proof (project_logged _ _ _ _ _ _ _ _ Hs1' He1' Hl Hm) as (_ & Hi & Hlog & _ & Hd).
  assert (E1 : media_segment_state_events s1 = media_segment_state_events s2 /\
               media_segment_status s1 = media_segment_status s2).
  { destruct Hl as [[-> _]|(k & _ & -> & _)]; done. }
  destruct E1 as [E1 E2].
  apply (f_equal media_segment_state_events) in Hd as F1. apply (f_equal media_segment_status) in Hd as F2.
  pose proof (project_state d sid s2 _ _ _ _ _ Hs2 He2 Hst Es (eq_trans F1 E1) (eq_trans F2 E2) Hm0)
    as (_ & Hseg & E3 & E4).
  split; [|split; [|done]].
  - unfold ingest_in. rewrite E3, Hlog, <- Hev. destruct Hl as [[-> (r & ? & _ & ?)]|(k & _ & -> & _)]; [left|right].
    + split; [done|]. by exists r.
    + by exists k.
  - unfold ingest_exact. by rewrite E3, E4.
Qed.

(** C25: accepting a file has one of three outcomes.  A conflict changes nothing and
    names a segment with the same source or content but other content or
    metadata.  A duplicate names a segment with the same content and metadata and
    adds none.  An acceptance adds one segment, whose source key and content no
    segment had, and one state event "accepted" for it.  Of a duplicate and of an
    acceptance the ingest log has the event "accepted" for the file and the segment;
    and both projections are as exact after as before: the status of each ingest
    key and of each segment is that of its last event, the ones just logged
    included. *)
Theorem AcceptMedia_correct m event key d o claim d' o'
    (Hids : ids_sorted (media_ingest_events d)) (Hstates : ids_sorted (media_segment_state_events d))
    (Hexact : ingest_exact d) (Hsegments : segment_exact d)
    (Hrun : AcceptMedia m event key d o = (Ok claim, d', o')) :
  (mc_Status claim = MediaWriteConflict /\ d' = d /\
   exists r, r ∈ media_segments d /\ rid r = mc_SegmentID claim /\
     ~ (mm_SHA256 (rval r) = mm_SHA256 m /\ mm_MetadataHash (rval r) = mm_MetadataHash m)) \/
  (accepted_in m key d claim d' /\ ingest_in event d claim d' /\ ingest_exact d' /\ segment_exact d').
Proof.
  pose proof (AcceptMedia_projected _ _ _ _ _ _ _ _ Hids Hstates Hexact Hsegments Hrun) as Hp.
  apply AcceptMedia_inv in Hrun as [(-> & Hc & ->)|[Ha _]]; [left|right].
  - split; [done|]. split; [done|].
    destruct (claim_in_spec (mm_CollectorID m) (mm_SourceIdempotencyKey m) (mm_SHA256 m) (mm_MetadataHash m) d)
      as [(E & _)|(r & Hr & Hid & _ & [(E & _)|(E & Hne)])].
    + by rewrite E in Hc.
    + by rewrite E in Hc.
    + exists r. by rewrite Hid.
  - split; [done|]. destruct Hp as [Hc|Hp]; [|done].
    destruct Ha as [[Ha _]|[Ha _]]; by rewrite Hc in Ha.
Qed.

(** *** Accepting a file again *)

(** The ingest event of an acceptance refers to its segment only. *)
Lemma claims_logged c k events events' id r :
  (events' = events \/ exists e, events' = insert_row e events /\ mi_MediaSegmentID e = id) ->
  rid r <> id -> claims_source c k events' r = claims_source c k events r.
Proof.
  intros [->|(e & -> & <-)] Hr; [done|]. unfold claims_source, insert_row. rewrite existsb_app. cbn [existsb rval].
  destruct (Z.eqb_spec (mi_MediaSegmentID e) (rid r)); [done|]. by rewrite andb_false_r, !orb_false_r.
Qed.
Lemma claims_mono c k events events' r :
  (events' = events \/ exists e : MediaIngestEvent, events' = insert_row e events) ->
  claims_source c k events r = true -> claims_source c k events' r = true.
Proof.
  intros [->|(e & ->)] H; [done|]. unfold claims_source, insert_row in *. rewrite existsb_app.
  apply orb_true_iff in H as [->| ->]; [done|]. by rewrite orb_true_r.
Qed.

Lemma row_unique {A} (t : list (row A)) r1 r2 :
  ids_sorted t -> r1 ∈ t -> r2 ∈ t -> rid r1 = rid r2 -> r1 = r2.
Proof.
  intros Hs H1 H2 E. pose proof (find_rid t r1 Hs H1) as F1. rewrite E, (find_rid t r2 Hs H2) in F1. congruence.
Qed.

Lemma find_first_ext_in {A} (f g : A -> bool) l :
  (forall x, x ∈ l -> f x = g x) -> find_first f l = find_first g l.
Proof.
  induction l as [|x l IH]; intros E; simpl; [done|]. rewrite (E x) by left.
  rewrite IH; [done|]. intros y Hy. apply E. by right.
Qed.

(** After an acceptance or a duplicate the source resolves to the same segment. *)
Lemma resolve_after m event key d o claim d1 o' :
  ids_sorted (media_segments d) -> AcceptMedia m event key d o = (Ok claim, d1, o') ->
  mc_Status claim <> MediaWriteConflict ->
  let again := claim_in (mm_CollectorID m) (mm_SourceIdempotencyKey m) (mm_SHA256 m) (mm_MetadataHash m) d1 in
  mc_Status again = MediaWriteDuplicate /\ mc_SegmentID again = mc_SegmentID claim.
Proof.
  intros Hids Hrun Hnc. apply AcceptMedia_inv in Hrun as [(_ & ? & _)|(Ha & Hres & Hev)]; [done|].
  set (c := mm_CollectorID m) in *. set (k := mm_SourceIdempotencyKey m) in *.
  set (id := mc_SegmentID claim) in *.
  assert (Hev' : media_ingest_events d1 = media_ingest_events d \/
    exists e, media_ingest_events d1 = insert_row e (media_ingest_events d) /\ mi_MediaSegmentID e = id)
    by (destruct Hev as [?|[kk ?]]; [by left|right; by eexists]).
  assert (Hother : forall r, rid r <> id ->
    claims_source c k (media_ingest_events d1) r = claims_source c k (media_ingest_events d) r)
    by (intros r Hr; by eapply claims_logged).
  cbv zeta. unfold resolved in Hres. cbv zeta in Hres. fold c k in Hres. destruct Hres as [(_ & Hst & Hid & Hnone)|[Efound Hst]].
  - (* the new segment *)
    destruct Ha as [(Hst' & _)|(_ & _ & Hseg & _ & _)]; [by rewrite Hst in Hst'|].
    assert (Es : source_claim c k d1 = Some (Row id m)).
    { unfold source_claim in *. rewrite Hseg. unfold insert_row. rewrite <- Hid, find_first_app.
      rewrite (find_first_ext_in _ (claims_source c k (media_ingest_events d))), Hnone.
      - simpl. unfold claims_source, c, k. cbn. by rewrite !String.eqb_refl.
      - intros r Hr. apply Hother. pose proof (max_id_le (media_segments d)) as Hm. rewrite Forall_forall in Hm.
        specialize (Hm r Hr). unfold next_id in Hid. lia. }
    unfold claim_in. rewrite Es. cbn. by rewrite !String.eqb_refl.
  - (* the segment found before *)
    destruct Ha as [(_ & Hseg & _ & _)|(Hst' & _)]; [|by rewrite Hst in Hst'].
    destruct (claim_in_spec c k (mm_SHA256 m) (mm_MetadataHash m) d)
      as [(E & _)|(r0 & Hr0 & Hid & Hfrom & [(_ & Hsha & Hmh)|(E & _)])];
      [by rewrite <- Efound, E in Hst| |by rewrite <- Efound, E in Hst].
    rewrite Efound in Hid. fold id in Hid.
    assert (Hs1 : source_claim c k d1 = Some r0 \/ source_claim c k d1 = None /\ content_claim (mm_SHA256 m) d1 = Some r0).
    { unfold source_claim, content_claim in *. rewrite Hseg. destruct Hfrom as [Es|[Es Ec]].
      - left. rewrite <- Es. apply find_first_ext_in. intros r Hr.
        destruct (Z.eq_dec (rid r) id) as [E|]; [|by apply Hother].
        assert (r = r0) as -> by (eapply row_unique; eauto; congruence).
        apply find_first_Some in Es as [_ Ep]. rewrite Ep.
        apply (claims_mono _ _ (media_ingest_events d)); [|done].
        destruct Hev' as [?|(e & ? & _)]; eauto.
      - destruct (find_first (claims_source c k (media_ingest_events d1)) (media_segments d)) as [r|] eqn:Ef; [left|right; done].
        apply find_first_Some in Ef as [Hr Hp]. f_equal. eapply row_unique; eauto.
        destruct (Z.eq_dec (rid r) id) as [E|Hne]; [congruence|]. rewrite (Hother r Hne) in Hp.
        pose proof (proj1 (find_first_None _ _) Es r Hr) as Hf. congruence. }
    unfold claim_in. destruct Hs1 as [->|[-> ->]]; cbn; rewrite ?Hsha, ?Hmh, !String.eqb_refl; done.
Qed.

(** A file accepted once, or found to be a duplicate, is a duplicate of the
    same segment when it is accepted again, and no segment is added. *)
Theorem AcceptMedia_retry m event1 key1 event2 key2 d o1 claim1 d1 o1' o2 claim2 d2 o2'
    (Hids : ids_sorted (media_segments d))
    (Hfirst : AcceptMedia m event1 key1 d o1 = (Ok claim1, d1, o1'))
    (Hclaim : mc_Status claim1 <> MediaWriteConflict)
    (Hagain : AcceptMedia m event2 key2 d1 o2 = (Ok claim2, d2, o2')) :
  mc_Status claim2 = MediaWriteDuplicate /\ mc_SegmentID claim2 = mc_SegmentID claim1 /\
  media_segments d2 = media_segments d1.
Proof.
  destruct (resolve_after _ _ _ _ _ _ _ _ Hids Hfirst Hclaim) as [Hst Hid].
  apply AcceptMedia_inv in Hagain as [(_ & Hc & ->)|(Ha & Hres & _)]; [by rewrite Hst in Hc|].
  destruct Hres as [(E & _)|[E _]]; [by rewrite E in Hst|].
  rewrite E in Hst, Hid. split; [done|]. split; [done|].
  destruct Ha as [(_ & ? & _)|(Hst' & _)]; [done|by rewrite Hst in Hst'].
Qed.

(** *** Concrete runs *)
Definition sample_hash (s : string) : string := sha256_hex s.
Definition sample_media : MediaMetadata :=
  MkMediaMetadata "camera" "clip-1" "segments/clip-1.mp4" "2024-02-29T20:34:56+08:00" "2024-02-29T20:35:56+08:00"
    "2024-02-29T12:34:56Z" "2024-02-29T12:35:56Z" "2024-02-29T12:40:00Z" 0 5 1048576 60000 "h264" "mp4" "video"
    (sample_hash "bytes") (sample_hash "metadata") 1.
Definition sample_ingest (status : string) : MediaIngestEvent :=
  MkMediaIngestEvent "ready" (sample_hash "clip-1") "camera" "clip-1" "clip-1.mp4" (sample_hash "sidecar")
    status "" 0 "" "2024-02-29T12:40:00Z".
Definition one_segment : database :=
  state_after (AcceptMedia sample_media (sample_ingest "validated") (sample_hash "state")) empty_database [].

Lemma empty_events_ids : ids_sorted (media_ingest_events empty_database).
Proof. repeat constructor. Qed.
Lemma empty_segments_ids : ids_sorted (media_segments empty_database).
Proof. repeat constructor. Qed.
Lemma empty_ingest_exact : ingest_exact empty_database.
Proof. intros k. reflexivity. Qed.

Lemma AppendMediaIngestEvent_projects_witness :
  exists u d' o', AppendMediaIngestEvent (sample_ingest "pending") empty_database [] = (Ok u, d', o') /\ ingest_exact d'.
Proof.
  destruct (AppendMediaIngestEvent (sample_ingest "pending") empty_database []) as [[[u|e] d'] o'] eqn:E;
    [|exfalso; vm_compute in E; discriminate].
  exists u, d', o'. split; [reflexivity|].
  apply (AppendMediaIngestEvent_projects _ _ _ _ _ _ empty_events_ids empty_ingest_exact E).
Defined.

Definition pending_logged : database :=
  state_after (AppendMediaIngestEvent (sample_ingest "pending")) empty_database [].

Lemma AppendMediaIngestEvent_again_witness :
  outcome (AppendMediaIngestEvent (sample_ingest "pending")) pending_logged [] = Ok tt /\
  state_after (AppendMediaIngestEvent (sample_ingest "pending")) pending_logged [] = pending_logged.
Proof.
  unfold outcome, state_after.
  destruct (AppendMediaIngestEvent (sample_ingest "pending") empty_database []) as [[[u1|e] d1] o1] eqn:E1;
    [|exfalso; vm_compute in E1; discriminate].
  assert (Hd : pending_logged = d1) by (unfold pending_logged, state_after; rewrite E1; reflexivity).
  destruct (AppendMediaIngestEvent (sample_ingest "pending") pending_logged []) as [[[[]|e] d2] o2] eqn:E2;
    [|exfalso; vm_compute in E2; discriminate].
  split; [reflexivity|]. cbn. rewrite Hd in *.
  apply (AppendMediaIngestEvent_again _ _ _ _ _ _ _ _ _ _ empty_events_ids empty_ingest_exact E1 E2).
Defined.

Lemma RebuildMediaProjections_exact_witness :
  exists u d' o', RebuildMediaProjections one_segment [] = (Ok u, d', o') /\ ingest_exact d'.
Proof.
  destruct (RebuildMediaProjections one_segment []) as [[[u|e] d'] o'] eqn:E; [|exfalso; vm_compute in E; discriminate].
  exists u, d', o'. split; [reflexivity|]. apply (RebuildMediaProjections_exact _ _ _ _ _ E).
Defined.

Lemma empty_states_ids : ids_sorted (media_segment_state_events empty_database).
Proof. split; constructor. Qed.
Lemma empty_segment_exact : segment_exact empty_database.
Proof. intros k. reflexivity. Qed.

Lemma AcceptMedia_correct_witness :
  exists claim d' o', AcceptMedia sample_media (sample_ingest "validated") (sample_hash "state") empty_database []
      = (Ok claim, d', o') /\ mc_Status claim = MediaWriteAccepted /\
    accepted_in sample_media (sample_hash "state") empty_database claim d' /\ ingest_exact d' /\ segment_exact d' /\
    length (media_ingest_status d') = 1%nat /\ length (media_segment_status d') = 1%nat.
Proof.
  destruct (AcceptMedia sample_media (sample_ingest "validated") (sample_hash "state") empty_database [])
    as [[[claim|e] d'] o'] eqn:E; [|exfalso; vm_compute in E; discriminate].
  pose proof (AcceptMedia_correct _ _ _ _ _ _ _ _ empty_events_ids empty_states_ids empty_ingest_exact
                empty_segment_exact E) as Hc.
  assert (Hs : (mc_Status claim, length (media_ingest_status d'), length (media_segment_status d'))
               = (MediaWriteAccepted, 1%nat, 1%nat)).
  { transitivity (match AcceptMedia sample_media (sample_ingest "validated") (sample_hash "state") empty_database [] with
      | (Ok claim, d', _) => (mc_Status claim, length (media_ingest_status d'), length (media_segment_status d'))
      | _ => ("", 0%nat, 0%nat) end); [by rewrite E|vm_compute; reflexivity]. }
  injection Hs as H1 H2 H3. exists claim, d', o'. split; [reflexivity|]. split; [exact H1|].
  destruct Hc as [[Hc _]|(Ha & _ & Hi & Hg)]; [rewrite H1 in Hc; discriminate|].
  split; [exact Ha|]. split; [exact Hi|]. split; [exact Hg|]. split; [exact H2|exact H3].
Defined.

Lemma AcceptMedia_retry_witness :
  exists claim1 claim2,
    outcome (AcceptMedia sample_media (sample_ingest "validated") (sample_hash "state")) empty_database [] = Ok claim1 /\
    outcome (AcceptMedia sample_media (sample_ingest "pending") (sample_hash "again")) one_segment [] = Ok claim2 /\
    mc_Status claim2 = MediaWriteDuplicate /\ mc_SegmentID claim2 = mc_SegmentID claim1.
Proof.
  unfold outcome.
  destruct (AcceptMedia sample_media (sample_ingest "validated") (sample_hash "state") empty_database [])
    as [[[claim1|e] d1] o1] eqn:E1; [|exfalso; vm_compute in E1; discriminate].
  assert (Hd : one_segment = d1) by (unfold one_segment, state_after; rewrite E1; reflexivity).
  assert (Hc : mc_Status claim1 <> MediaWriteConflict).
  { vm_compute in E1. injection E1 as <- _ _. discriminate. }
  destruct (AcceptMedia sample_media (sample_ingest "pending") (sample_hash "again") one_segment [])
    as [[[claim2|e] d2] o2] eqn:E2; [|exfalso; vm_compute in E2; discriminate].
  exists claim1, claim2. split; [reflexivity|]. split; [reflexivity|]. rewrite Hd in E2.
  destruct (AcceptMedia_retry _ _ _ _ _ _ _ _ _ _ _ _ _ _ empty_segments_ids E1 Hc E2) as (H1 & H2 & _).
  split; [exact H1|exact H2].
Defined.
