(* ===== verification/OpsStore.v ===== *)
(** * Operational logs, retention and checkpoints of the store
    ([eventstore/operations.go], [activitywatch.go], [readiness.go])

    Fault, module and mode logs, the retention log and the deletion commit, the
    ActivityWatch checkpoint and the readiness probe. *)

From Stdlib Require Import ZArith Lia String Ascii.
From S2P Require Import Prelude GoStrings GoTime GoJson Sha256 Sql Schema Events Heartbeats Query MediaStore.
Open Scope string_scope.
Open Scope list_scope.
Open Scope result_scope.
Open Scope db_scope.
Open Scope Z_scope.

Definition eventKey (parts : list string) : string := sha256_hex (join (String zero "") parts).

(** ** Append-only logs with a unique key *)

(** [INSERT ... ON CONFLICT(event_key) DO NOTHING]. *)
Definition log_keyed {A} (ok : bool) (key : string) (x : A) (t : list (row (string * A)))
    : result fault (list (row (string * A))) :=
  if negb ok then Err constraint_fault
  else if existsb (fun r => String.eqb (fst (rval r)) key) t then Ok t
  else Ok (insert_row (key, x) t).

Definition log_stmt {A} (get : database -> list (row (string * A)))
    (put : database -> list (row (string * A)) -> database) (ok : database -> bool) (key : string) (x : A)
    : M database unit :=
  stmt CodeWriteFailed (fun d =>
    match log_keyed (ok d) key x (get d) with
    | Ok t => Ok (tt, put d t)
    | Err e => Err e
    end).

Definition AppendFaultEvent (e : FaultEvent) : M database unit :=
  let key := eventKey [fe_Module e; fe_Severity e; fe_Status e; fe_ErrorCode e; fe_Detail e; fe_OccurredAtUTC e] in
  log_stmt fault_events with_fault_events (fun _ => check_fault_event key e) key e.

Definition AppendModuleStateEvent (e : ModuleStateEvent) : M database unit :=
  let key := eventKey [mo_Module e; mo_Status e; mo_ReasonCode e; mo_OccurredAtUTC e] in
  log_stmt module_state_events with_module_state_events (fun _ => check_module_state key e) key e.

(** The newest row of the mode log. *)
Definition current_mode (d : database) : string :=
  match select_last (fun _ => true) (mode_transition_events d) with
  | Some r => mt_NewMode (snd (rval r))
  | None => "unknown"
  end.

Definition AppendModeTransition (newMode operator trigger reason occurredAtUTC : string) : M database unit :=
  transaction_if CodeWriteFailed CodeWriteFailed
    (let* oldMode := query CodeQueryFailed current_mode in
     if String.eqb oldMode newMode then mret (tt, false)
     else
       let key := eventKey [oldMode; newMode; operator; trigger; reason; occurredAtUTC] in
       let e := MkModeTransitionEvent oldMode newMode operator trigger reason occurredAtUTC in
       let* _ := log_stmt mode_transition_events with_mode_transition_events
                   (fun _ => check_mode_transition key e) key e in
       mret (tt, true)).

Definition AppendRetentionEvent (e : RetentionEvent) : M database unit :=
  let key := eventKey [format_int (rt_MediaSegmentID e); rt_Status e; rt_ReasonCode e;
                       rt_ManagedRelativePath e; rt_OccurredAtUTC e] in
  log_stmt retention_events with_retention_events
    (fun d => check_retention_event key e && has_segment (rt_MediaSegmentID e) d) key e.

Definition RetentionDeletionPlanned (segmentID : Z) (relativePath : string) : M database bool :=
  let* found := query CodeQueryFailed (fun d =>
    select_last (fun e => (rt_MediaSegmentID (snd e) =? segmentID)
                          && String.eqb (rt_ManagedRelativePath (snd e)) relativePath) (retention_events d)) in
  mret (match found with Some r => String.eqb (rt_Status (snd (rval r))) "planned" | None => false end).

(** ** The dashboard *)
Record DashboardFault := MkDashboardFault {
  df_Module : string; df_Severity : string; df_Status : string; df_ErrorCode : string; df_OccurredAtUTC : string }.
Record DashboardModuleState := MkDashboardModuleState {
  dm_Module : string; dm_Status : string; dm_ReasonCode : string; dm_OccurredAtUTC : string }.
Record DashboardModeTransition := MkDashboardModeTransition {
  dt_OldMode : string; dt_NewMode : string; dt_ReasonCode : string; dt_OccurredAtUTC : string }.
Record DashboardHistory := MkDashboardHistory {
  dh_RecentFaults : list DashboardFault; dh_Modules : list DashboardModuleState;
  dh_Mode : option DashboardModeTransition }.

(** [DashboardFault] has no field for the detail. *)
Definition dashboard_fault (r : row (string * FaultEvent)) : DashboardFault :=
  let e := snd (rval r) in
  MkDashboardFault (fe_Module e) (fe_Severity e) (fe_Status e) (fe_ErrorCode e) (fe_OccurredAtUTC e).
Definition dashboard_module (r : row (string * ModuleStateEvent)) : DashboardModuleState :=
  let e := snd (rval r) in
  MkDashboardModuleState (mo_Module e) (mo_Status e) (mo_ReasonCode e) (mo_OccurredAtUTC e).

(** [DashboardModeTransition] has no field for the operator and the trigger. *)
Definition dashboard_mode (r : row (string * ModeTransitionEvent)) : DashboardModeTransition :=
  let e := snd (rval r) in
  MkDashboardModeTransition (mt_OldMode e) (mt_NewMode e) (mt_ReasonCode e) (mt_OccurredAtUTC e).

Definition QueryDashboardHistory (faultLimit : Z) : M database DashboardHistory :=
  if (faultLimit <? 1) || (100 <? faultLimit) then mfail (StoreError CodePageLimitInvalid)
  else
    let* faults := query CodeQueryFailed (fun d =>
      map dashboard_fault (take (Z.to_nat faultLimit) (rev (fault_events d)))) in
    let* modules := query CodeQueryFailed (fun d =>
      take 64 (sort_by (fun a b => String.ltb (dm_Module a) (dm_Module b))
        (map dashboard_module (latest (fun e => mo_Module (snd e)) (module_state_events d))))) in
    let* mode := query CodeQueryFailed (fun d => select_last (fun _ => true) (mode_transition_events d)) in
    mret (MkDashboardHistory faults modules (option_map dashboard_mode mode)).

(** ** Retention *)
Record RetentionCandidate := MkRetentionCandidate {
  rc_MediaSegmentID : Z; rc_ManagedRelativePath : string; rc_SHA256 : string; rc_CreatedAtUTC : string;
  rc_SizeBytes : Z }.

(** [created_at_utc] is the reception time the segment was inserted with. *)
Definition candidate (r : row MediaMetadata) : RetentionCandidate :=
  let m := rval r in
  MkRetentionCandidate (rid r) (mm_ManagedRelativePath m) (mm_SHA256 m) (mm_ReceivedAtUTC m) (mm_SizeBytes m).

Definition status_of_segment (id : Z) (d : database) : option MediaSegmentStatus :=
  find_first (fun s => ss_MediaSegmentID s =? id) (media_segment_status d).
Definition kept (id : Z) (d : database) : bool :=
  match status_of_segment id d with
  | Some s => one_of ["accepted"; "restored"] (ss_Status s)
  | None => false
  end.

Definition created_lt (a b : row MediaMetadata) : bool :=
  let x := mm_ReceivedAtUTC (rval a) in let y := mm_ReceivedAtUTC (rval b) in
  String.ltb x y || (String.eqb x y && (rid a <? rid b)).

Definition candidate_rows (cutoffUTC : string) (d : database) : list (row MediaMetadata) :=
  sort_by created_lt (List.filter (fun r => kept (rid r) d && String.ltb (mm_ReceivedAtUTC (rval r)) cutoffUTC)
                        (media_segments d)).
(** A negative LIMIT is no limit. *)
Definition sql_limit {A} (limit : Z) (l : list A) : list A :=
  if limit <? 0 then l else take (Z.to_nat limit) l.

Definition RetentionCandidates (cutoffUTC : string) (limit : Z) : M database (list RetentionCandidate) :=
  query CodeQueryFailed (fun d => sql_limit limit (map candidate (candidate_rows cutoffUTC d))).

Definition TemporaryPathReferenced (relativePath : string) : M database bool :=
  query CodeQueryFailed (fun d =>
    existsb (fun r => sql_eq (mi_TemporaryRelativePath (rval r)) relativePath
                      && one_of ["discovered"; "pending"; "validated"; "failed"] (mi_Status (rval r)))
      (latest mi_IngestKey (media_ingest_events d))).

(** The state event is inserted under its key unless one has it. *)
Definition insert_state_keyed (e : MediaStateEvent) (d : database) : result fault (unit * database) :=
  if negb (check_media_state e) then Err constraint_fault
  else if existsb (fun r => String.eqb (ms_EventKey (rval r)) (ms_EventKey e)) (media_segment_state_events d)
  then Ok (tt, d)
  else if has_segment (ms_MediaSegmentID e) d
  then Ok (tt, with_media_segment_state_events d (insert_row e (media_segment_state_events d)))
  else Err constraint_fault.

Definition state_id (key : string) (d : database) : result fault (Z * database) :=
  match select1 (fun x => String.eqb (ms_EventKey x) key) (media_segment_state_events d) with
  | Some r => Ok (rid r, d)
  | None => Err OtherFault
  end.

Definition AppendMediaState (segmentID : Z) (status reason producer occurredAtUTC : string) : M database unit :=
  let key := eventKey [format_int segmentID; status; reason; producer; occurredAtUTC] in
  let* _ := stmt CodeWriteFailed (insert_state_keyed
              (MkMediaStateEvent key segmentID status reason producer occurredAtUTC)) in
  let* id := stmt CodeQueryFailed (state_id key) in
  applyMediaSegmentProjection id.

Definition deletion_key (e : RetentionEvent) : string :=
  eventKey [format_int (rt_MediaSegmentID e); "deleted"; rt_ReasonCode e; rt_ManagedRelativePath e].
Definition deleted_event (e : RetentionEvent) : RetentionEvent :=
  MkRetentionEvent (rt_MediaSegmentID e) "deleted" (rt_ReasonCode e) (rt_ManagedRelativePath e) (rt_OccurredAtUTC e).
Definition deleted_state_key (e : RetentionEvent) : string :=
  eventKey [format_int (rt_MediaSegmentID e); "retention_deleted"; rt_ReasonCode e; "recorder-core-retention"].
Definition deleted_state (e : RetentionEvent) : MediaStateEvent :=
  MkMediaStateEvent (deleted_state_key e) (rt_MediaSegmentID e) "retention_deleted" (rt_ReasonCode e)
    "recorder-core-retention" (rt_OccurredAtUTC e).

Definition CommitRetentionDeletion (event : RetentionEvent) : M database unit :=
  transaction CodeWriteFailed CodeWriteFailed
    (let key := deletion_key event in
     let* _ := log_stmt retention_events with_retention_events
       (fun d => check_retention_event key (deleted_event event) && has_segment (rt_MediaSegmentID event) d)
       key (deleted_event event) in
     let* _ := stmt CodeWriteFailed (insert_state_keyed (deleted_state event)) in
     let* stateEventID := stmt CodeQueryFailed (state_id (deleted_state_key event)) in
     applyMediaSegmentProjection stateEventID).

(** [PRAGMA wal_checkpoint], in either mode, changes no row. *)
Definition Checkpoint (truncate : bool) : M database unit := stmt CodeWriteFailed (fun d => Ok (tt, d)).

(** ** The media manifest of a backup *)
Record MediaManifestEntry := MkMediaManifestEntry {
  me_MediaSegmentID : Z; me_ManagedRelativePath : string; me_SHA256 : string; me_SizeBytes : Z; me_Status : string }.

Definition media_manifest (d : database) : list MediaManifestEntry :=
  flat_map (fun r =>
    match status_of_segment (rid r) d with
    | Some s => if one_of ["accepted"; "restored"] (ss_Status s)
                then [MkMediaManifestEntry (rid r) (mm_ManagedRelativePath (rval r)) (mm_SHA256 (rval r))
                        (mm_SizeBytes (rval r)) (ss_Status s)]
                else []
    | None => []
    end) (media_segments d).

(** ** The ActivityWatch checkpoint *)
Definition CodeCheckpointConflict : string := "ACTIVITYWATCH_CHECKPOINT_CONFLICT".

Definition find_checkpoint (collectorID : string) (d : database) : option ActivityWatchCheckpoint :=
  option_map snd (find_first (fun c => String.eqb (fst c) collectorID) (activitywatch_checkpoints d)).

Definition LoadActivityWatchCheckpoint (collectorID bucketID : string)
    : M database (option ActivityWatchCheckpoint) :=
  let* found := query CodeQueryFailed (find_checkpoint collectorID) in
  match found with
  | None => mret None
  | Some c => if String.eqb (ac_BucketID c) bucketID then mret (Some c)
              else mfail (StoreError CodeCheckpointConflict)
  end.

(** The order of the checkpoints: by time, then by event id. *)
Definition checkpoint_before (a b : ActivityWatchCheckpoint) : bool :=
  String.ltb (ac_SourceTimeUTC a) (ac_SourceTimeUTC b)
  || (String.eqb (ac_SourceTimeUTC a) (ac_SourceTimeUTC b) && (ac_SourceEventID a <? ac_SourceEventID b)).

(** The upsert: the table, and whether a row was affected. *)
Fixpoint upsert_checkpoint (id : string) (c : ActivityWatchCheckpoint) (l : list (string * ActivityWatchCheckpoint))
    : list (string * ActivityWatchCheckpoint) * bool :=
  match l with
  | [] => ([(id, c)], true)
  | (id', c') :: t =>
    if String.eqb id' id then
      if String.eqb (ac_BucketID c') (ac_BucketID c) && checkpoint_before c' c
      then ((id, MkActivityWatchCheckpoint (ac_BucketID c') (ac_SourceTimeUTC c) (ac_SourceEventID c) (ac_UpdatedAtUTC c)) :: t, true)
      else ((id', c') :: t, false)
    else let '(t', b) := upsert_checkpoint id c t in ((id', c') :: t', b)
  end.

Definition SaveActivityWatchCheckpoint (now : time) (collectorID : string) (c : ActivityWatchCheckpoint)
    : M database unit :=
  match parse_fixed (ac_SourceTimeUTC c) with
  | Some sourceTime =>
    if (ac_SourceEventID c <? 0) || negb (validIdentifier collectorID 128) || negb (validIdentifier (ac_BucketID c) 256)
    then mfail (StoreError CodeCheckpointConflict)
    else
      let c := MkActivityWatchCheckpoint (ac_BucketID c) (fixedUTC sourceTime) (ac_SourceEventID c) (fixedUTC now) in
      let* affected := stmt CodeWriteFailed (fun d =>
        if check_activitywatch_checkpoint collectorID c then
          let '(t, b) := upsert_checkpoint collectorID c (activitywatch_checkpoints d) in
          Ok (b, with_activitywatch_checkpoints d t)
        else Err constraint_fault) in
      if affected : bool then mret tt
      else
        let* existing := LoadActivityWatchCheckpoint collectorID (ac_BucketID c) in
        match existing with
        | None => mfail (StoreError CodeCheckpointConflict)
        | Some e => if negb (checkpoint_before e c) then mret tt else mfail (StoreError CodeCheckpointConflict)
        end
  | None => mfail (StoreError CodeCheckpointConflict)
  end.

(** ** Readiness *)
Definition ReadinessWritable : string := "writable".
Definition ReadinessBusy : string := "busy".
Definition ReadinessReadOnly : string := "read_only".
Definition ReadinessMigrationFailed : string := "migration_failed".
Definition ReadinessUnavailable : string := "unavailable".
Definition SchemaVersion : Z := 1.

Record Readiness := MkReadiness { rd_Status : string; rd_SchemaVersion : Z; rd_ErrorCode : string }.

Definition readinessFromError (e : error) : Readiness :=
  let code := ErrorCode e in
  if String.eqb code CodeBusy then MkReadiness ReadinessBusy SchemaVersion CodeBusy
  else if String.eqb code CodeReadOnly then MkReadiness ReadinessReadOnly SchemaVersion CodeReadOnly
  else MkReadiness ReadinessUnavailable SchemaVersion code.

(** What the connection answers: the connection itself, [PRAGMA query_only],
    [BEGIN IMMEDIATE], [PRAGMA user_version] and [ROLLBACK]. *)
Record probe := Probe {
  pr_conn : result fault unit; pr_query_only : result fault Z; pr_begin : result fault unit;
  pr_user_version : result fault Z; pr_rollback : result fault unit }.

Definition probe_step {A} (code : string) (r : result fault A) : result error A :=
  match r with Ok a => Ok a | Err e => Err (classifySQLiteError code e) end.

Definition readiness (p : probe) : Readiness :=
  let r :=
    let? _ := probe_step CodeQueryFailed (pr_conn p) in
    let? queryOnly := probe_step CodeQueryFailed (pr_query_only p) in
    if negb (queryOnly =? 0) then Ok (MkReadiness ReadinessReadOnly SchemaVersion CodeReadOnly)
    else
      let? _ := probe_step CodeWriteFailed (pr_begin p) in
      let? schemaVersion := probe_step CodeQueryFailed (pr_user_version p) in
      let? _ := probe_step CodeWriteFailed (pr_rollback p) in
      if negb (schemaVersion =? SchemaVersion)
      then Ok (MkReadiness ReadinessMigrationFailed schemaVersion CodeMigrationFailed)
      else Ok (MkReadiness ReadinessWritable schemaVersion "") in
  match r with Ok x => x | Err e => readinessFromError e end.

(** ** Retention *)
Lemma status_of_segment_for id d : status_of_segment id d = status_for ss_MediaSegmentID id (media_segment_status d).
Proof.
  unfold status_of_segment, status_for. apply find_first_ext. intros s.
  destruct (Z.eqb_spec (ss_MediaSegmentID s) id), (bool_decide_reflect (ss_MediaSegmentID s = id)); done.
Qed.

(** The projection of a state event that is in the log, or has just been appended. *)
Lemma project_state_again d r o u d' o' :
  ids_sorted (media_segment_state_events d) -> segment_exact d -> r ∈ media_segment_state_events d ->
  applyMediaSegmentProjection (rid r) d o = (Ok u, d', o') -> d' = d.
Proof.
  intros Hs He Hr Hp. apply stmt_inv in Hp. injection Hp as _ <-. rewrite (find_rid _ _ Hs Hr).
  pose proof (exact_again ms_MediaSegmentID segment_status ss_MediaSegmentID ss_LastStateEventID
    ltac:(done) ltac:(done) _ _ r Hs He Hr) as Hu.
  change (newer ss_LastStateEventID) with newer_segment in Hu. rewrite Hu. by destruct d.
Qed.

Lemma project_state_new d e o u d' o' :
  segment_exact d ->
  let d1 := with_media_segment_state_events d (insert_row e (media_segment_state_events d)) in
  applyMediaSegmentProjection (next_id (media_segment_state_events d)) d1 o = (Ok u, d', o') ->
  segment_exact d' /\ media_segment_state_events d' = insert_row e (media_segment_state_events d) /\
  retention_events d' = retention_events d /\ media_segments d' = media_segments d.
Proof.
  intros He d1 Hp. apply stmt_inv in Hp. injection Hp as _ <-. subst d1.
  cbn [media_segment_state_events with_media_segment_state_events]. rewrite find_rid_last. cbn. split; [|done].
  exact (exact_append ms_MediaSegmentID segment_status ss_MediaSegmentID ss_LastStateEventID
    ltac:(done) ltac:(done) _ _ _ He).
Qed.

Lemma log_stmt_inv {A} get put ok key (x : A) d o u d' o' :
  log_stmt get put ok key x d o = (Ok u, d', o') ->
  ok d = true /\ d' = put d (if existsb (fun r => String.eqb (fst (rval r)) key) (get d)
                             then get d else insert_row (key, x) (get d)).
Proof.
  intros H. apply stmt_inv in H. unfold log_keyed in H. destruct (ok d); simpl in H; [|done].
  destruct (existsb _ (get d)); by injection H as _ <-.
Qed.

Lemma logged_key {A} key (x : A) t :
  exists r, r ∈ (if existsb (fun r => String.eqb (fst (rval r)) key) t then t else insert_row (key, x) t)
            /\ fst (rval r) = key.
Proof.
  destruct (existsb _ t) eqn:E.
  - apply existsb_exists in E as (r & Hr & Hk). to_prop. exists r. by rewrite list_elem_of_In.
  - exists (Row (next_id t) (key, x)). split; [|done]. unfold insert_row. apply elem_of_app. right. left.
Qed.

(** The rows a deletion leaves, with the keys that make a retry find them. *)
Definition deletion_logged (e : RetentionEvent) (d d' : database) : Prop :=
  let id := rt_MediaSegmentID e in let reason := rt_ReasonCode e in let path := rt_ManagedRelativePath e in
  let key := eventKey [format_int id; "deleted"; reason; path] in
  (retention_events d' = retention_events d /\ exists r, r ∈ retention_events d /\ fst (rval r) = key) \/
  ((forall r, r ∈ retention_events d -> fst (rval r) <> key) /\
   retention_events d' =
     insert_row (key, MkRetentionEvent id "deleted" reason path (rt_OccurredAtUTC e)) (retention_events d)).

Definition deletion_stated (e : RetentionEvent) (d d' : database) : Prop :=
  let id := rt_MediaSegmentID e in let reason := rt_ReasonCode e in
  let key := eventKey [format_int id; "retention_deleted"; reason; "recorder-core-retention"] in
  (media_segment_state_events d' = media_segment_state_events d /\
   exists r, r ∈ media_segment_state_events d /\ ms_EventKey (rval r) = key /\
     for_key ms_MediaSegmentID id (media_segment_state_events d) = Some r) \/
  ((forall r, r ∈ media_segment_state_events d -> ms_EventKey (rval r) <> key) /\
   media_segment_state_events d' =
     insert_row (MkMediaStateEvent key id "retention_deleted" reason "recorder-core-retention" (rt_OccurredAtUTC e))
       (media_segment_state_events d)).

Lemma existsb_key_false {A} (f : A -> string) key t :
  existsb (fun r => String.eqb (f (rval r)) key) t = false -> forall r : row A, r ∈ t -> f (rval r) <> key.
Proof.
  intros E r Hr Hk. rewrite <- not_true_iff_false in E. apply E, existsb_exists. exists r.
  rewrite <- list_elem_of_In, Hk, String.eqb_refl. done.
Qed.

Lemma log_deletion e d t :
  t = (if existsb (fun r => String.eqb (fst (rval r)) (deletion_key e)) (retention_events d)
       then retention_events d else insert_row (deletion_key e, deleted_event e) (retention_events d)) ->
  forall d', retention_events d' = t -> deletion_logged e d d'.
Proof.
  intros -> d' E. unfold deletion_logged. rewrite E. destruct (existsb _ _) eqn:Ex.
  - left. split; [done|]. apply existsb_exists in Ex as (r & Hr & Hk). to_prop. exists r. by rewrite list_elem_of_In.
  - right. split; [|done]. intros r. by apply (existsb_key_false fst).
Qed.

(** C26: once the deletion of a segment is committed, the retention log has it as
    "deleted" with its reason, path and time, the segment's last state event says
    "retention_deleted", the projected status is that event's, and the segment is
    no longer a candidate for retention; no segment is removed. This holds for the
    first commit, which appends both rows, and for a retry whose state event is
    still the segment's last, which appends neither a second time. *)
Theorem CommitRetentionDeletion_final e d o u d' o'
    (Hids : ids_sorted (media_segment_state_events d)) (Hexact : segment_exact d)
    (Hlast : forall r, r ∈ media_segment_state_events d ->
       ms_EventKey (rval r) = eventKey [format_int (rt_MediaSegmentID e); "retention_deleted"; rt_ReasonCode e;
                                        "recorder-core-retention"] ->
       for_key ms_MediaSegmentID (rt_MediaSegmentID e) (media_segment_state_events d) = Some r /\
       ms_Status (rval r) = "retention_deleted")
    (Hrun : CommitRetentionDeletion e d o = (Ok u, d', o')) :
  deletion_logged e d d' /\ deletion_stated e d d' /\ media_segments d' = media_segments d /\ segment_exact d' /\
  (exists s, status_of_segment (rt_MediaSegmentID e) d' = Some s /\ ss_Status s = "retention_deleted") /\
  (forall cutoff r, r ∈ candidate_rows cutoff d' -> rid r <> rt_MediaSegmentID e).
Proof.
  unfold CommitRetentionDeletion in Hrun. apply transaction_inv in Hrun as (q1 & q2 & Hr). inv_m Hr.
  apply log_stmt_inv in Hm as [_ ->]. apply stmt_inv in Hm0, Hm1. unfold insert_state_keyed in Hm0.
  pose proof (log_deletion e d _ eq_refl) as Hlog.
  set (t := if existsb _ (retention_events d) then _ else _) in *.
  destruct (negb (check_media_state (deleted_state e))); [done|].
  assert (Hgoal : segment_exact d' /\ retention_events d' = t /\ media_segments d' = media_segments d /\
    deletion_stated e d d' /\
    exists r, for_key ms_MediaSegmentID (rt_MediaSegmentID e) (media_segment_state_events d') = Some r /\
      ms_Status (rval r) = "retention_deleted").
  { destruct (existsb _ (media_segment_state_events _)) eqn:Ex.
    - injection Hm0 as <- <-. unfold state_id in Hm1. destruct (select1 _ _) as [r|] eqn:Es; [|done].
      injection Hm1 as <- <-. unfold select1 in Es. apply find_first_Some in Es as [Hr0 Hk]. to_prop.
      apply project_state_again in Hr; [|done|done|done]. subst d'. destruct (Hlast r Hr0 Hk) as [Hf Hst].
      split; [done|]. split; [done|]. split; [done|]. split; [left; split; [done|]; by exists r|]. by exists r.
    - destruct (has_segment _ _); [|done]. injection Hm0 as <- <-.
      unfold state_id in Hm1. cbn [media_segment_state_events with_media_segment_state_events with_retention_events] in Hm1, Ex.
      pose proof (existsb_key_false ms_EventKey _ _ Ex) as Hnone.
      unfold insert_row in Hm1 at 1. unfold select1 in Hm1. rewrite find_first_app in Hm1.
      assert (En : find_first (fun r => String.eqb (ms_EventKey (rval r)) (deleted_state_key e)) (media_segment_state_events d) = None).
      { apply find_first_None. intros x Hx. apply String.eqb_neq. by apply Hnone. }
      rewrite En in Hm1. simpl in Hm1. rewrite String.eqb_refl in Hm1. injection Hm1 as <- <-.
      destruct (project_state_new (with_retention_events d t) (deleted_state e) _ _ _ _ Hexact Hr)
        as (H1 & H2 & H3 & H4).
      split; [done|]. split; [done|]. split; [done|]. split; [by right|].
      rewrite H2. unfold insert_row, for_key. rewrite find_last_snoc. cbn.
      rewrite bool_decide_true by done. by eexists. }
  destruct Hgoal as (H1 & H2 & H3 & H4 & r & H5 & H6). split; [by apply Hlog|]. split; [done|]. split; [done|].
  split; [done|].
  assert (Hs : status_of_segment (rt_MediaSegmentID e) d' = Some (segment_status r))
    by by rewrite status_of_segment_for, H1, H5.
  split; [by exists (segment_status r)|].
  intros cutoff x Hx E. unfold candidate_rows in Hx. apply elem_of_sort_by in Hx.
  rewrite list_elem_of_In in Hx. apply filter_In in Hx as [_ Hx]. unfold kept in Hx. rewrite E, Hs in Hx.
  cbn [ss_Status segment_status] in Hx. by rewrite H6 in Hx.
Qed.

Lemma elem_of_sql_limit {A} limit (l : list A) x : x ∈ sql_limit limit l -> x ∈ l.
Proof.
  unfold sql_limit. destruct (limit <? 0); [done|]. intros Hx. by apply elem_of_take in Hx as (i & Hi & _);
    apply list_elem_of_lookup_2 in Hi.
Qed.

Lemma sql_limit_all {A} limit (l : list A) :
  0 <= limit -> Z.of_nat (length (sql_limit limit l)) <= limit /\
  (Z.of_nat (length (sql_limit limit l)) < limit -> sql_limit limit l = l).
Proof.
  intros Hl. unfold sql_limit. rewrite (proj2 (Z.ltb_ge _ _) Hl), length_take. split; [lia|].
  intros Hlt. apply firstn_all2. lia.
Qed.

Lemma elem_of_candidate_rows cutoff d r :
  r ∈ candidate_rows cutoff d <->
  r ∈ media_segments d /\ kept (rid r) d = true /\ String.ltb (mm_ReceivedAtUTC (rval r)) cutoff = true.
Proof.
  unfold candidate_rows. rewrite elem_of_sort_by, list_elem_of_In, filter_In, andb_true_iff, list_elem_of_In. done.
Qed.

(** Retention candidates are segments whose current state is accepted or
    restored and whose creation text is below the cutoff text, no more than the
    limit, and all of them when the limit is not reached. *)
Theorem RetentionCandidates_sound cutoff limit d o cs d' o'
    (Hlimit : 0 <= limit) (Hrun : RetentionCandidates cutoff limit d o = (Ok cs, d', o')) :
  d' = d /\ Z.of_nat (length cs) <= limit /\
  (forall c, c ∈ cs -> exists r, r ∈ media_segments d /\ c = candidate r /\ kept (rid r) d = true /\
     String.ltb (mm_ReceivedAtUTC (rval r)) cutoff = true) /\
  (Z.of_nat (length cs) < limit -> forall r, r ∈ media_segments d -> kept (rid r) d = true ->
     String.ltb (mm_ReceivedAtUTC (rval r)) cutoff = true -> candidate r ∈ cs).
Proof.
  apply query_inv in Hrun as [-> ->]. destruct (sql_limit_all limit (map candidate (candidate_rows cutoff d)) Hlimit) as [H1 H2].
  split; [done|]. split; [done|]. split.
  - intros c Hc. apply elem_of_sql_limit in Hc. apply list_elem_of_fmap in Hc as (r & -> & Hr).
    apply elem_of_candidate_rows in Hr as (? & ? & ?). by exists r.
  - intros Hlt r Hr Hk Hs. rewrite H2 by done. apply list_elem_of_fmap. exists r. split; [done|].
    by apply elem_of_candidate_rows.
Qed.

(** *** The mode log *)
Fixpoint chained (mode : string) (t : list (row (string * ModeTransitionEvent))) : Prop :=
  match t with
  | [] => True
  | r :: rest => mt_OldMode (snd (rval r)) = mode /\ chained (mt_NewMode (snd (rval r))) rest
  end.
Definition mode_chain (d : database) : Prop := chained "unknown" (mode_transition_events d).

Lemma chained_snoc t : forall mode x,
  chained mode t ->
  mt_OldMode (snd (rval x)) = match find_last (fun _ => true) t with
                              | Some r => mt_NewMode (snd (rval r)) | None => mode end ->
  chained mode (t ++ [x]).
Proof.
  induction t as [|r t IH]; intros mode x Hc Hx; [by simpl in *|]. simpl in *. destruct Hc as [H1 H2].
  split; [done|]. apply IH; [done|]. rewrite Hx. change (r :: t) with ([r] ++ t). rewrite find_last_app.
  destruct (find_last _ t); [done|]. done.
Qed.

(** Every mode transition starts from the mode the log ends with; after a
    transition succeeds the log ends with the new mode, unless a transition with
    the same modes, operator, trigger, reason and time was logged before. *)
Theorem AppendModeTransition_chain newMode operator trigger reason at_ d o u d' o'
    (Hchain : mode_chain d) (Hrun : AppendModeTransition newMode operator trigger reason at_ d o = (Ok u, d', o')) :
  mode_chain d' /\
  (current_mode d' = newMode \/
   d' = d /\ exists r, r ∈ mode_transition_events d /\
     fst (rval r) = eventKey [current_mode d; newMode; operator; trigger; reason; at_]).
Proof.
  unfold AppendModeTransition in Hrun. apply transaction_if_inv in Hrun as (b & s1 & q1 & q2 & Hr & ->).
  inv_m Hr. apply query_inv in Hm as [-> ->].
  destruct (String.eqb_spec (current_mode d) newMode) as [E|E].
  - inv_m Hr. simplify_eq. by split; [|left].
  - inv_m Hr. simplify_eq. apply log_stmt_inv in Hm as [_ ->]. destruct (existsb _ _) eqn:Ex.
    + assert (Hd : with_mode_transition_events d (mode_transition_events d) = d) by (by destruct d).
      rewrite Hd. split; [done|]. right. split; [done|]. apply existsb_exists in Ex as (r & Hr & Hk). to_prop.
      exists r. by rewrite list_elem_of_In.
    + unfold mode_chain, current_mode, select_last, insert_row in *.
      cbn [mode_transition_events with_mode_transition_events]. rewrite find_last_snoc. split; [|by left].
      apply chained_snoc; [done|]. done.
Qed.

(** *** The checkpoint *)
Lemma upsert_checkpoint_find id c l :
  let found := option_map snd (find_first (fun x => String.eqb (fst x) id) l) in
  option_map snd (find_first (fun x => String.eqb (fst x) id) (fst (upsert_checkpoint id c l))) =
    match found with
    | None => Some c
    | Some e => if snd (upsert_checkpoint id c l)
                then Some (MkActivityWatchCheckpoint (ac_BucketID e) (ac_SourceTimeUTC c) (ac_SourceEventID c) (ac_UpdatedAtUTC c))
                else Some e
    end /\
  snd (upsert_checkpoint id c l) =
    match found with
    | None => true
    | Some e => String.eqb (ac_BucketID e) (ac_BucketID c) && checkpoint_before e c
    end.
Proof.
  cbv zeta. induction l as [|[id' c'] l IH]; simpl; [by rewrite String.eqb_refl|].
  destruct (String.eqb_spec id' id) as [->|Hne].
  - cbn [option_map snd]. destruct (_ && _); simpl; by rewrite String.eqb_refl.
  - destruct (upsert_checkpoint id c l) as [t b]. simpl in *. destruct (String.eqb_spec id' id); [done|]. exact IH.
Qed.

Lemma ltb_asym s t : String.ltb s t = true -> String.ltb t s = false.
Proof.
  unfold String.ltb. rewrite (String.compare_antisym t s). by destruct (String.compare s t).
Qed.
Lemma ltb_irrefl s : String.ltb s s = false.
Proof. destruct (String.ltb s s) eqn:E; [|done]. by rewrite (ltb_asym _ _ E) in E. Qed.

Lemma checkpoint_before_asym a b : checkpoint_before a b = true -> checkpoint_before b a = false.
Proof.
  unfold checkpoint_before. intros E. apply orb_true_iff in E as [E|E].
  - rewrite (ltb_asym _ _ E). destruct (String.eqb_spec (ac_SourceTimeUTC b) (ac_SourceTimeUTC a)) as [Eq|]; [|done].
    by rewrite Eq, ltb_irrefl in E.
  - to_prop. match goal with H : _ = _ |- _ => rewrite H end. rewrite ltb_irrefl. simpl.
    apply andb_false_iff. right. apply Z.ltb_ge. lia.
Qed.

(** A checkpoint never moves back.  After a save succeeds the collector has a
    checkpoint of the same bucket that is not before the one saved, nor before the
    one it had. *)
Theorem SaveActivityWatchCheckpoint_monotone now id c d o u d' o'
    (Hrun : SaveActivityWatchCheckpoint now id c d o = (Ok u, d', o')) :
  exists t s, parse_fixed (ac_SourceTimeUTC c) = Some t /\ find_checkpoint id d' = Some s /\
    ac_BucketID s = ac_BucketID c /\
    checkpoint_before s (MkActivityWatchCheckpoint (ac_BucketID c) (fixedUTC t) (ac_SourceEventID c) (fixedUTC now)) = false /\
    forall e, find_checkpoint id d = Some e -> ac_BucketID e = ac_BucketID s /\ checkpoint_before s e = false.
Proof.
  unfold SaveActivityWatchCheckpoint in Hrun. destruct (parse_fixed (ac_SourceTimeUTC c)) as [t|]; [|done].
  destruct (_ || _); [done|].
  set (n := MkActivityWatchCheckpoint (ac_BucketID c) (fixedUTC t) (ac_SourceEventID c) (fixedUTC now)) in *.
  inv_m Hrun. apply stmt_inv in Hm. destruct (check_activitywatch_checkpoint id n); [|done].
  pose proof (upsert_checkpoint_find id n (activitywatch_checkpoints d)) as [H1 H2]. cbv zeta in H1, H2.
  destruct (upsert_checkpoint id n (activitywatch_checkpoints d)) as [tab b] eqn:Eu. injection Hm as -> <-.
  cbn [fst snd] in H1, H2. exists t. fold (find_checkpoint id d) in H1, H2.
  assert (Hself : checkpoint_before n n = false).
  { destruct (checkpoint_before n n) eqn:E; [|done]. by rewrite (checkpoint_before_asym _ _ E) in E. }
  assert (Hd' : forall dd, activitywatch_checkpoints dd = tab ->
    find_checkpoint id dd = option_map snd (find_first (fun x => String.eqb (fst x) id) tab))
    by (intros dd <-; done).
  destruct a.
  - inv_m Hrun. rewrite (Hd' (with_activitywatch_checkpoints d tab) eq_refl), H1. destruct (find_checkpoint id d) as [e|].
    + symmetry in H2. to_prop. eexists. split; [done|]. split; [done|]. cbn. split; [done|].
      split; [done|]. intros e' [= <-]. split; [done|]. by apply (checkpoint_before_asym e n).
    + eexists. split; [done|]. split; [done|]. split; [done|]. split; [done|]. done.
  - inv_m Hrun. unfold LoadActivityWatchCheckpoint in Hm. inv_m Hm. apply query_inv in Hm0 as [-> ->].
    rewrite (Hd' (with_activitywatch_checkpoints d tab) eq_refl), H1 in Hm.
    destruct (find_checkpoint id d) as [e|]; [|inv_m Hm; done].
    destruct (String.eqb_spec (ac_BucketID e) (ac_BucketID n)) as [Eb|Eb]; [|done].
    inv_m Hm. cbv beta iota in Hrun. destruct (checkpoint_before e n) eqn:Ee; [done|]. cbn [negb] in Hrun. inv_m Hrun.
    exists e. split; [done|]. split; [by rewrite (Hd' (with_activitywatch_checkpoints d tab) eq_refl)|]. split; [done|]. split; [done|].
    intros e' [= <-]. split; [done|]. destruct (checkpoint_before e e) eqn:E; [|done].
    by rewrite (checkpoint_before_asym _ _ E) in E.
Qed.

(** *** Readiness *)

(** The store reports "writable" exactly when every step of the probe
    succeeds, the connection is not query-only and the schema version is the
    current one. *)
Theorem readiness_writable (p : probe) :
  rd_Status (readiness p) = ReadinessWritable <->
  pr_conn p = Ok tt /\ pr_query_only p = Ok 0 /\ pr_begin p = Ok tt /\
  pr_user_version p = Ok SchemaVersion /\ pr_rollback p = Ok tt.
Proof.
  assert (He : forall e, rd_Status (readinessFromError e) <> ReadinessWritable).
  { intros e. unfold readinessFromError. by repeat case_match. }
  destruct p as [c q b v r]. unfold readiness, probe_step. cbn.
  destruct c as [[]|]; cbn; [|split; [intros H; by apply He in H|intuition discriminate]].
  destruct q as [q|]; cbn; [|split; [intros H; by apply He in H|intuition discriminate]].
  destruct (Z.eqb_spec q 0) as [->|Hq]; cbn; [|split; [done|intros (_ & [= ->] & _); done]].
  destruct b as [[]|]; cbn; [|split; [intros H; by apply He in H|intuition discriminate]].
  destruct v as [v|]; cbn; [|split; [intros H; by apply He in H|intuition discriminate]].
  destruct r as [[]|]; cbn; [|split; [intros H; by apply He in H|intuition discriminate]].
  destruct (Z.eqb_spec v SchemaVersion) as [->|Hv]; cbn; [done|].
  split; [done|]. intros (_ & _ & _ & [= ->] & _). done.
Qed.

(** ** Concrete runs *)
Definition deletion : RetentionEvent :=
  MkRetentionEvent 1 "deleted" "RETENTION_EXPIRED" "segments/clip-1.mp4" "2024-03-10T00:00:00Z".
Definition after_deletion : database := state_after (CommitRetentionDeletion deletion) one_segment [].

Lemma one_segment_exact : segment_exact one_segment.
Proof.
  assert (E : media_segment_status one_segment
              = map segment_status (latest ms_MediaSegmentID (media_segment_state_events one_segment)))
    by (vm_compute; reflexivity).
  unfold segment_exact. rewrite E. apply exact_latest. done.
Qed.

Lemma CommitRetentionDeletion_final_witness :
  kept 1 one_segment = true /\ outcome (CommitRetentionDeletion deletion) one_segment [] = Ok tt /\
  deletion_logged deletion one_segment after_deletion /\
  exists s, status_of_segment 1 after_deletion = Some s /\ ss_Status s = "retention_deleted".
Proof.
  split; [vm_compute; reflexivity|].
  destruct (CommitRetentionDeletion deletion one_segment []) as [[[[]|e] d'] o'] eqn:E;
    [|exfalso; vm_compute in E; discriminate].
  assert (Hd : after_deletion = d') by (unfold after_deletion, state_after; rewrite E; reflexivity).
  unfold outcome. rewrite E, Hd. split; [reflexivity|].
  assert (Hids : ids_sorted (media_segment_state_events one_segment)) by (vm_compute; repeat constructor).
  refine (match CommitRetentionDeletion_final deletion one_segment [] tt d' o' Hids one_segment_exact _ E with
          | conj H1 (conj _ (conj _ (conj _ (conj H2 _)))) => conj H1 H2 end).
  intros r Hr Hk. exfalso. clear -Hr Hk. vm_compute in Hr. apply list_elem_of_singleton in Hr as ->.
  vm_compute in Hk. discriminate.
Defined.

Lemma RetentionCandidates_sound_witness :
  exists cs d' o', RetentionCandidates "2024-03-10T00:00:00Z" 5 one_segment [] = (Ok cs, d', o') /\
    Z.of_nat (length cs) <= 5 /\ length cs = 1%nat.
Proof.
  destruct (RetentionCandidates "2024-03-10T00:00:00Z" 5 one_segment []) as [[[cs|e] d'] o'] eqn:E;
    [|exfalso; vm_compute in E; discriminate].
  exists cs, d', o'. split; [reflexivity|]. split.
  - apply (RetentionCandidates_sound "2024-03-10T00:00:00Z" 5 one_segment [] cs d' o'); [lia|exact E].
  - vm_compute in E. injection E as <- _ _. reflexivity.
Defined.

Definition in_record_only : database :=
  state_after (AppendModeTransition "record-only" "operator" "startup" "STARTED" "2024-03-10T00:00:00Z") empty_database [].

Lemma AppendModeTransition_chain_witness :
  exists d' o', AppendModeTransition "minimum" "operator" "config" "RESTART" "2024-03-11T00:00:00Z" in_record_only []
    = (Ok tt, d', o') /\ mode_chain d' /\ current_mode d' = "minimum".
Proof.
  destruct (AppendModeTransition "minimum" "operator" "config" "RESTART" "2024-03-11T00:00:00Z" in_record_only [])
    as [[[[]|e] d'] o'] eqn:E; [|exfalso; vm_compute in E; discriminate].
  exists d', o'. split; [reflexivity|].
  assert (Hc : mode_chain in_record_only) by (vm_compute; auto).
  split; [apply (AppendModeTransition_chain _ _ _ _ _ _ _ _ _ _ Hc E)|].
  vm_compute in E. injection E as <- _. reflexivity.
Defined.

Definition first_checkpoint : ActivityWatchCheckpoint :=
  MkActivityWatchCheckpoint "window" "2024-03-10T00:00:00.000000000Z" 7 "".

Lemma SaveActivityWatchCheckpoint_monotone_witness :
  exists d' o' s, SaveActivityWatchCheckpoint sample_time "aw" first_checkpoint empty_database [] = (Ok tt, d', o') /\
    find_checkpoint "aw" d' = Some s /\ ac_BucketID s = "window".
Proof.
  destruct (SaveActivityWatchCheckpoint sample_time "aw" first_checkpoint empty_database [])
    as [[[[]|e] d'] o'] eqn:E; [|exfalso; vm_compute in E; discriminate].
  destruct (SaveActivityWatchCheckpoint_monotone _ _ _ _ _ _ _ _ E) as (t & s & _ & Hs & Hb & _).
  exists d', o', s. split; [reflexivity|]. split; [exact Hs|exact Hb].
Defined.

(** *** Times compared as text *)

(** The sample segment, received half a second after noon. *)
Definition received_at (t : string) : MediaMetadata :=
  MkMediaMetadata "camera" "clip-1" "segments/clip-1.mp4" "2024-02-29T20:34:56+08:00" "2024-02-29T20:35:56+08:00"
    "2024-02-29T12:34:56Z" "2024-02-29T12:35:56Z" t 0 5 1048576 60000 "h264" "mp4" "video"
    (sample_hash "bytes") (sample_hash "metadata") 1.
Definition noon : time := days_of 2024 2 29 * day_ns + 12 * hour.

(** RFC 3339 texts with trimmed fractions are not ordered as their times: a
    segment received half a second after the cutoff is a candidate for
    retention. *)
Theorem RetentionCandidates_early :
  let created := noon + 500 * millisecond in
  let d := state_after (AcceptMedia (received_at (format_rfc3339nano created)) (sample_ingest "validated")
             (sample_hash "state")) empty_database [] in
  noon < created /\
  rmap (map rc_CreatedAtUTC) (outcome (RetentionCandidates (format_rfc3339nano noon) 100) d [])
    = Ok [format_rfc3339nano created].
Proof. split; [vm_compute; reflexivity|vm_compute; reflexivity]. Qed.

(** The key of a deletion's state event has no time in it, so that a segment
    deleted, restored and deleted again stays "restored" after the second commit
    although it succeeds. *)
Theorem CommitRetentionDeletion_restored :
  let restored := state_after (AppendMediaState 1 "restored" "OPERATOR" "operator" "2024-03-11T00:00:00Z") after_deletion [] in
  let second := MkRetentionEvent 1 "deleted" "RETENTION_EXPIRED" "segments/clip-1.mp4" "2024-04-10T00:00:00Z" in
  kept 1 restored = true /\ outcome (CommitRetentionDeletion second) restored [] = Ok tt /\
  kept 1 (state_after (CommitRetentionDeletion second) restored []) = true.
Proof. repeat split; vm_compute; reflexivity. Qed.
