(* ===== verification/Timeline.v ===== *)
(** * The timeline projection ([eventstore/timeline.go])

    Collects raw events, heartbeats and media segments of a range into one
    projection table, within a budget of facts and bytes, and reads it back page
    by page. *)

From Stdlib Require Import ZArith Lia String Ascii.
From S2P Require Import Prelude GoStrings GoTime GoJson Sql Schema Keyed Events Heartbeats Base64 FlatJson Query MediaStore.
Open Scope string_scope.
Open Scope list_scope.
Open Scope result_scope.
Open Scope db_scope.
Open Scope Z_scope.

Definition CodeTimelineRangeInvalid : string := "TIMELINE_RANGE_INVALID".
Definition CodeTimelineFactLimit : string := "TIMELINE_FACT_LIMIT".
Definition CodeTimelineByteLimit : string := "TIMELINE_BYTE_LIMIT".
Definition CodeTimelineSyncBusy : string := "TIMELINE_SYNC_BUSY".
Definition CodeTimelineCursor : string := "TIMELINE_CURSOR_INVALID".
Definition timelineProjectionChunkSize : nat := 128.

(** ** Numbers of the platform

    Go's float64 numbers, and what the SQL prefilters compute with SQLite's REAL
    numbers: [julianday] of a time text moved by the clock offset, and by the
    duration in an ActivityWatch payload. *)
Class Float64 := {
  f64 : Type;
  parse_float : string -> option f64;          (* [None]: out of range *)
  float_lt : f64 -> f64 -> bool;
  float_of : Z -> f64;
  seconds_duration : f64 -> duration }.        (* [time.Duration(x * float64(time.Second))] *)
Class SqliteReal := {
  real : Type;
  real_lt : real -> real -> bool;
  julianday : string -> option real;           (* NULL for a text that is no time *)
  shift_ms : real -> Z -> real;
  add_payload_seconds : real -> string -> option real;
  activitywatch_interval : string -> bool }.   (* the conditions on the payload in [activityWatchIntervalSQL] *)

(** ** Text comparisons in SQL *)
Definition text_le (a b : string) : bool := negb (String.ltb b a).

(** ** Values *)
Record TimelineEntry := MkTimelineEntry { te_Row : row timelineProjection; te_QualityFlags : list string }.
Definition te_ID (e : TimelineEntry) : Z := rid (te_Row e).
Definition te_Value (e : TimelineEntry) : timelineProjection := rval (te_Row e).

Record TimelinePage := MkTimelinePage {
  tg_RangeStartUTC : string; tg_RangeEndUTC : string; tg_SnapshotID : Z;
  tg_Entries : list TimelineEntry; tg_NextCursor : string }.

Record timelineCursor := TimelineCursor {
  tc_Version : Z; tc_RangeStartUTC : string; tc_RangeEndUTC : string; tc_SnapshotID : Z;
  tc_CorrectedUTC : string; tc_ReceivedUTC : string; tc_SourceType : string; tc_SourceID : Z;
  tc_ProjectionID : Z }.

(** The CHECK constraints of [timeline_entries]. *)
Definition check_timeline `{SqliteJson} (p : timelineProjection) : bool :=
  text_between 3 160 (tp_StableID p) && one_of ["raw_event"; "heartbeat"; "media_segment"] (tp_SourceType p)
  && (0 <? tp_SourceID p) && text_between 1 128 (tp_CollectorID p) && text_between 1 128 (tp_EventType p)
  && text_between 1 128 (tp_DeviceStartRaw p) && null_or (text_between 1 128) (tp_DeviceEndRaw p)
  && text_between 20 35 (tp_DeviceStartUTC p) && null_or (text_between 20 35) (tp_DeviceEndUTC p)
  && text_between 20 35 (tp_ReceivedAtUTC p) && text_between 30 30 (tp_CorrectedStartUTC p)
  && null_or (text_between 30 30) (tp_CorrectedEndUTC p) && (0 <=? tp_ClockErrorMS p)
  && json_array (tp_QualityFlagsJSON p) && json_valid (tp_PayloadJSON p) && (0 <? tp_SourceSchemaVersion p).

(** ** Projections of the sources *)
Definition qualityJSON (flags : list string) (clockUncertain : bool) : string :=
  strings_json (sort_by String.ltb (remove_dups (flags ++ (if clockUncertain then ["clock_uncertain"] else [])))).

(** [time.Duration(n) * time.Millisecond]. *)
Definition of_milliseconds (n : Z) : duration := wrap64 (n * millisecond).
Definition clock_uncertain (errorMS : Z) (uncertainAfter : duration) : bool :=
  uncertainAfter <? of_milliseconds errorMS.

Definition pointer_of {A} (dec : json -> option A) (l : list json) : option (option A) :=
  let! vs := mapM (fun v => match v with JNull => Some None | _ => option_map Some (dec v) end) l in
  Some (default None (List.last (map Some vs) None)).

Section Projections.
Context `{Float64}.

Definition float_of_json (v : json) : option f64 := match v with JNum t => parse_float t | _ => None end.

(** The struct decoded from the payload; NaN and infinities have no JSON text. *)
Definition activityWatchProjectionDuration (payload : string) : option f64 :=
  let! root := unmarshal payload in
  let! ms := struct_members root in
  let! bucketID := decode_last string_of "" (field_values "bucket_id" ms) in
  let! bucketType := decode_last string_of "" (field_values "bucket_type" ms) in
  let! sourceEventID := pointer_of int_of (field_values "source_event_id" ms) in
  let! durationSeconds := pointer_of float_of_json (field_values "duration_seconds" ms) in
  oguard (validIdentifier bucketID 256 && validIdentifier bucketType 128)
  (let! id := sourceEventID in
   oguard (negb (id <? 0))
   (let! seconds := durationSeconds in
    oguard (negb (float_lt seconds (float_of 0) || float_lt (float_of (366 * 24 * 60 * 60)) seconds))
    (match List.last (map Some (field_values "data" ms)) None with
     | Some (JObj _) => Some seconds
     | _ => None
     end))).

Definition parse_stored (text : string) : result error time :=
  match parse_rfc3339nano text with Some t => Ok t | None => Err (StoreError CodeQueryFailed) end.

Definition rawEventProjection (r : row preparedEvent) (uncertainAfter : duration)
    : result error timelineProjection :=
  let e := rval r in
  let? deviceTime := parse_stored (pe_DeviceTimeUTC e) in
  let? received := parse_stored (pe_ReceivedAtUTC e) in
  let offset := of_milliseconds (pe_ClockOffsetMS e) in
  let uncertain := clock_uncertain (pe_ClockErrorMS e) uncertainAfter in
  let projection flags endRaw endUTC correctedEnd :=
    TimelineProjection ("event:" +:+ format_int (rid r)) "raw_event" (rid r) (pe_CollectorID e) (pe_EventType e)
      (pe_DeviceTimestampRaw e) endRaw (format_rfc3339nano deviceTime) endUTC (fixedUTC received)
      (fixedUTC (deviceTime + offset)) correctedEnd (pe_ClockOffsetMS e) (pe_ClockErrorMS e) uncertain
      flags (pe_PayloadJSON e) (pe_SchemaVersion e) in
  if String.eqb (pe_EventType e) "activitywatch.event" then
    match activityWatchProjectionDuration (pe_PayloadJSON e) with
    | None => Ok (projection (qualityJSON ["incomplete"] uncertain) "" "" "")
    | Some seconds =>
      let finish := deviceTime + seconds_duration seconds in
      Ok (projection (qualityJSON [] uncertain) (format_rfc3339nano finish) (format_rfc3339nano finish)
            (fixedUTC (finish + offset)))
    end
  else Ok (projection (qualityJSON [] uncertain) "" "" "").
End Projections.

(** [received_at_utc] of a heartbeat is copied as it is stored. *)
Definition heartbeatProjection (r : row preparedHeartbeat) (uncertainAfter : duration)
    : result error timelineProjection :=
  let h := rval r in
  let uncertain := clock_uncertain (ph_ClockErrorMS h) uncertainAfter in
  match (let! v := unmarshal (ph_QualityFlagsJSON h) in strings_field (Some v)) with
  | None => Err (StoreError CodeQueryFailed)
  | Some quality =>
    Ok (TimelineProjection ("heartbeat:" +:+ format_int (rid r)) "heartbeat" (rid r) (ph_CollectorID h)
          "collector.heartbeat" (ph_DeviceStartRaw h) (ph_DeviceEndRaw h) (ph_DeviceStartUTC h) (ph_DeviceEndUTC h)
          (ph_ReceivedAtUTC h) (ph_CorrectedStartUTC h) (ph_CorrectedEndUTC h) (ph_ClockOffsetMS h)
          (ph_ClockErrorMS h) uncertain (qualityJSON quality uncertain)
          (marshal (JObj [("state", JStr (ph_State h))])) (ph_SchemaVersion h))
  end.

Definition mediaProjection (r : row MediaMetadata) (uncertainAfter : duration)
    : result error timelineProjection :=
  let m := rval r in
  let? startTime := parse_stored (mm_DeviceStartUTC m) in
  let? endTime := parse_stored (mm_DeviceEndUTC m) in
  let? received := parse_stored (mm_ReceivedAtUTC m) in
  let offset := of_milliseconds (mm_ClockOffsetMS m) in
  let uncertain := clock_uncertain (mm_ClockErrorMS m) uncertainAfter in
  Ok (TimelineProjection ("media:" +:+ format_int (rid r)) "media_segment" (rid r) (mm_CollectorID m)
        "media.segment" (mm_DeviceStartRaw m) (mm_DeviceEndRaw m) (mm_DeviceStartUTC m) (mm_DeviceEndUTC m)
        (fixedUTC received) (fixedUTC (startTime + offset)) (fixedUTC (endTime + offset))
        (mm_ClockOffsetMS m) (mm_ClockErrorMS m) uncertain (qualityJSON [] uncertain)
        (marshal (JObj [("managed_relative_path", JStr (mm_ManagedRelativePath m));
                        ("size_bytes", JNum (format_int (mm_SizeBytes m)));
                        ("duration_ms", JNum (format_int (mm_DurationMS m)));
                        ("codec_name", JStr (mm_CodecName m)); ("format_name", JStr (mm_FormatName m));
                        ("media_type", JStr (mm_MediaType m)); ("sha256", JStr (mm_SHA256 m))]))
        (mm_SidecarSchemaVersion m)).

Definition projectionMatchesRange (item : timelineProjection) (start finish : time) (includeOverlapping : bool)
    : result error bool :=
  let? correctedStart := parse_stored (tp_CorrectedStartUTC item) in
  if negb (correctedStart <? finish) then Ok false
  else if negb (correctedStart <? start) then Ok true
  else if negb includeOverlapping || String.eqb (tp_CorrectedEndUTC item) "" then Ok false
  else let? correctedEnd := parse_stored (tp_CorrectedEndUTC item) in Ok (start <? correctedEnd).

Definition projectionHasPositiveInterval (item : timelineProjection) : bool :=
  if String.eqb (tp_CorrectedEndUTC item) "" then false
  else match parse_rfc3339nano (tp_CorrectedStartUTC item), parse_rfc3339nano (tp_CorrectedEndUTC item) with
       | Some s, Some e => s <? e
       | _, _ => false
       end.

(** ** The budget *)
Definition timelineProjectionSize (p : timelineProjection) : Z :=
  512 + slen (tp_StableID p) + slen (tp_SourceType p) + slen (tp_CollectorID p) + slen (tp_EventType p)
  + slen (tp_DeviceStartRaw p) + slen (tp_DeviceEndRaw p) + slen (tp_DeviceStartUTC p) + slen (tp_DeviceEndUTC p)
  + slen (tp_ReceivedAtUTC p) + slen (tp_CorrectedStartUTC p) + slen (tp_CorrectedEndUTC p)
  + slen (tp_QualityFlagsJSON p) + slen (tp_PayloadJSON p).

(** The projections collected so far and the bytes they use. *)
Definition collected : Type := list timelineProjection * Z.

Definition appendTimelineProjection (target : collected) (item : timelineProjection) (maxFacts maxBytes : Z)
    : result error collected :=
  let '(items, used) := target in
  guard? negb (maxFacts <=? Z.of_nat (length items)) else StoreError CodeTimelineFactLimit in
  let size := timelineProjectionSize item in
  guard? negb (maxBytes - used <? size) else StoreError CodeTimelineByteLimit in
  Ok (items ++ [item], used + size).

(** The loop over the rows of a query: a row is projected, kept or skipped, and
    appended within the budget. *)
Fixpoint collect_rows {A} (project : A -> result error timelineProjection)
    (keep : timelineProjection -> result error bool) (maxFacts maxBytes : Z) (rows : list A) (target : collected)
    : result error collected :=
  match rows with
  | [] => Ok target
  | r :: rest =>
    let? item := project r in
    let? matches := keep item in
    let? target := (if matches : bool then appendTimelineProjection target item maxFacts maxBytes else Ok target) in
    collect_rows project keep maxFacts maxBytes rest target
  end.

(** ** The queries *)
Section Collect.
Context `{SqliteJson} `{Float64} `{SqliteReal}.

Definition candidateStart (start : time) : string := format_rfc3339nano (start - second).
Definition candidateEnd (finish : time) : string := format_rfc3339nano (finish + second).

(** Comparisons with NULL are not true. *)
Definition sql_lt (a b : option real) : bool :=
  match a, b with Some x, Some y => real_lt x y | _, _ => false end.
Definition sql_ge (a b : option real) : bool :=
  match a, b with Some x, Some y => negb (real_lt x y) | _, _ => false end.
Definition corrected (text : string) (offset : Z) : option real := option_map (fun j => shift_ms j offset) (julianday text).
Definition rawEnd (e : preparedEvent) : option real :=
  let! j := corrected (pe_DeviceTimeUTC e) (pe_ClockOffsetMS e) in add_payload_seconds j (pe_PayloadJSON e).

(** The WHERE clauses, one per query. *)
Definition between (x : option real) (lo hi : string) : bool := sql_ge x (julianday lo) && sql_lt x (julianday hi).
Definition activityWatchIntervalSQL (e : preparedEvent) : bool :=
  String.eqb (pe_EventType e) "activitywatch.event" && activitywatch_interval (pe_PayloadJSON e).

Definition rawEventProjectionQueries (collectorID : string) (includeOverlapping : bool) (lo hi : string)
    : list (preparedEvent -> bool) :=
  let started e := between (corrected (pe_DeviceTimeUTC e) (pe_ClockOffsetMS e)) lo hi in
  let open e := activityWatchIntervalSQL e
                && sql_lt (corrected (pe_DeviceTimeUTC e) (pe_ClockOffsetMS e)) (julianday lo)
                && sql_lt (julianday lo) (rawEnd e) in
  let mine e := String.eqb (pe_CollectorID e) collectorID in
  if String.eqb collectorID "" then
    started :: (if includeOverlapping then [open] else [])
  else if includeOverlapping then
    [fun e => mine e && activityWatchIntervalSQL e && started e; fun e => mine e && open e]
  else [fun e => mine e && started e].

Definition heartbeatProjectionQueries (collectorID : string) (includeOverlapping : bool) (startText endText : string)
    : list (preparedHeartbeat -> bool) :=
  let mine h := String.eqb collectorID "" || String.eqb (ph_CollectorID h) collectorID in
  (fun h => mine h && text_le startText (ph_CorrectedStartUTC h) && String.ltb (ph_CorrectedStartUTC h) endText)
  :: (if includeOverlapping
      then [fun h => mine h && String.ltb (ph_CorrectedStartUTC h) startText && String.ltb startText (ph_CorrectedEndUTC h)]
      else []).

Definition mediaProjectionQueries (collectorID : string) (includeOverlapping : bool) (lo hi : string)
    : list (MediaMetadata -> bool) :=
  let mine m := String.eqb collectorID "" || String.eqb (mm_CollectorID m) collectorID in
  let started m := corrected (mm_DeviceStartUTC m) (mm_ClockOffsetMS m) in
  let ended m := corrected (mm_DeviceEndUTC m) (mm_ClockOffsetMS m) in
  (fun m => mine m && between (started m) lo hi)
  :: (if includeOverlapping
      then [fun m => mine m && sql_lt (started m) (julianday lo) && sql_lt (julianday lo) (ended m)]
      else []).

(** One query after the other; their rows are taken in id order. *)
Fixpoint collect_queries {A} (table : database -> list (row A)) (project : row A -> result error timelineProjection)
    (keep : timelineProjection -> result error bool) (maxFacts maxBytes : Z) (queries : list (A -> bool))
    (target : collected) : M database collected :=
  match queries with
  | [] => mret target
  | q :: rest =>
    let* rows := query CodeQueryFailed (fun d => List.filter (fun r => q (rval r)) (table d)) in
    let* target := mlift (collect_rows project keep maxFacts maxBytes rows target) in
    collect_queries table project keep maxFacts maxBytes rest target
  end.

Definition collectRawEventProjections (maxBytes : Z) (start finish : time) (uncertainAfter : duration) (maxFacts : Z)
    (collectorID : string) (includeOverlapping : bool) : collected -> M database collected :=
  collect_queries raw_events (fun r => rawEventProjection r uncertainAfter)
    (fun item => let? matches := projectionMatchesRange item start finish includeOverlapping in
                 Ok (matches && (negb includeOverlapping || projectionHasPositiveInterval item)))
    maxFacts maxBytes
    (rawEventProjectionQueries collectorID includeOverlapping (candidateStart start) (candidateEnd finish)).

Definition collectHeartbeatProjections (maxBytes : Z) (start finish : time) (uncertainAfter : duration) (maxFacts : Z)
    (collectorID : string) (includeOverlapping : bool) : collected -> M database collected :=
  collect_queries collector_heartbeats (fun r => heartbeatProjection r uncertainAfter) (fun _ => Ok true)
    maxFacts maxBytes
    (heartbeatProjectionQueries collectorID includeOverlapping (fixedUTC start) (fixedUTC finish)).

Definition collectMediaProjections (maxBytes : Z) (start finish : time) (uncertainAfter : duration) (maxFacts : Z)
    (collectorID : string) (includeOverlapping : bool) : collected -> M database collected :=
  collect_queries media_segments (fun r => mediaProjection r uncertainAfter)
    (fun item => projectionMatchesRange item start finish includeOverlapping)
    maxFacts maxBytes
    (mediaProjectionQueries collectorID includeOverlapping (candidateStart start) (candidateEnd finish)).

(** ** Writing the projections *)
Definition same_source (p q : timelineProjection) : bool :=
  String.eqb (tp_SourceType p) (tp_SourceType q) && (tp_SourceID p =? tp_SourceID q).

(** [INSERT ... ON CONFLICT(source_type, source_id) DO UPDATE ... WHERE] a column
    differs: the row of the source holds the new values either way. *)
Definition upsert_projection (p : timelineProjection) (d : database) : result fault (unit * database) :=
  let t := timeline_entries d in
  if negb (check_timeline p) then Err constraint_fault
  else if existsb (fun r => String.eqb (tp_StableID (rval r)) (tp_StableID p) && negb (same_source p (rval r))) t
  then Err constraint_fault
  else if existsb (fun r => same_source p (rval r)) t
  then Ok (tt, with_timeline_entries d
             (map (fun r => if same_source p (rval r) then Row (rid r) p else r) t))
  else Ok (tt, with_timeline_entries d (insert_row p t)).

Definition upsertTimelineProjectionChunk (projections : list timelineProjection) : M database unit :=
  transaction CodeWriteFailed CodeWriteFailed
    (miter (fun p => stmt CodeWriteFailed (upsert_projection p)) projections).

(** The semaphore of the sync: taken, given up by the context, or not free within
    the two seconds of [timelineProjectionWait]. *)
Inductive turn : Type := Acquired | GaveUp (f : fault) | TimedOut.

Definition syncTimelineProjection (maxBytes : Z) (wait : turn) (start finish : time) (uncertainAfter : duration)
    (maxFacts : Z) (collectorID : string) (includeOverlapping : bool) : M database unit :=
  match wait with
  | GaveUp f => mfail (classifySQLiteError CodeCanceled f)
  | TimedOut => mfail (StoreError CodeTimelineSyncBusy)
  | Acquired =>
    let* c := collectRawEventProjections maxBytes start finish uncertainAfter maxFacts collectorID includeOverlapping ([], 0) in
    let* c := collectHeartbeatProjections maxBytes start finish uncertainAfter maxFacts collectorID includeOverlapping c in
    let* c := collectMediaProjections maxBytes start finish uncertainAfter maxFacts collectorID includeOverlapping c in
    miter upsertTimelineProjectionChunk (chunks timelineProjectionChunkSize (fst c))
  end.

(** ** Cursors *)
Definition timeline_cursor_fields : list string :=
  ["v"; "range_start_utc"; "range_end_utc"; "snapshot_id"; "corrected_utc"; "received_utc"; "source_type";
   "source_id"; "projection_id"].

Definition encodeTimelineCursor (c : timelineCursor) : string :=
  EncodeToString (marshal_struct
    [("v", JNum (format_int (tc_Version c))); ("range_start_utc", JStr (tc_RangeStartUTC c));
     ("range_end_utc", JStr (tc_RangeEndUTC c)); ("snapshot_id", JNum (format_int (tc_SnapshotID c)));
     ("corrected_utc", JStr (tc_CorrectedUTC c)); ("received_utc", JStr (tc_ReceivedUTC c));
     ("source_type", JStr (tc_SourceType c)); ("source_id", JNum (format_int (tc_SourceID c)));
     ("projection_id", JNum (format_int (tc_ProjectionID c)))]).

Definition decode_timeline_cursor (raw : string) : option timelineCursor :=
  let! root := unmarshal raw in
  let! ms := struct_members root in
  oguard (known_fields timeline_cursor_fields ms)
  (let int k := decode_last int_of 0 (field_values k ms) in
   let str k := decode_last string_of "" (field_values k ms) in
   let! v := int "v" in let! rs := str "range_start_utc" in let! re := str "range_end_utc" in
   let! snapshot := int "snapshot_id" in let! corrected := str "corrected_utc" in
   let! received := str "received_utc" in let! sourceType := str "source_type" in
   let! sourceID := int "source_id" in let! projectionID := int "projection_id" in
   Some (TimelineCursor v rs re snapshot corrected received sourceType sourceID projectionID)).

Definition known_time (text : string) : bool := match parse_fixed text with Some _ => true | None => false end.

Definition decodeTimelineCursor (value : string) : result error timelineCursor :=
  let bad := StoreError CodeTimelineCursor in
  guard? negb (2048 <? slen value) else bad in
  match (let! raw := DecodeString value in decode_timeline_cursor raw) with
  | None => Err bad
  | Some c =>
    guard? (tc_Version c =? 1) && negb (tc_SnapshotID c <? 0) && negb (tc_SourceID c <? 0)
           && negb (tc_ProjectionID c <? 0) && negb (tc_SnapshotID c <? tc_ProjectionID c) else bad in
    match parse_fixed (tc_RangeStartUTC c), parse_fixed (tc_RangeEndUTC c) with
    | Some start, Some finish =>
      guard? start <? finish else bad in
      if 0 <? tc_ProjectionID c then
        guard? (0 <? tc_SourceID c) && one_of ["raw_event"; "heartbeat"; "media_segment"] (tc_SourceType c) else bad in
        guard? known_time (tc_CorrectedUTC c) && known_time (tc_ReceivedUTC c) else bad in
        Ok c
      else Ok c
    | _, _ => Err bad
    end
  end.

(** ** Reading *)

(** The columns of ORDER BY, and the order by them. *)
Definition order_key (r : row timelineProjection) : string * string * string * Z * Z :=
  let p := rval r in (tp_CorrectedStartUTC p, tp_ReceivedAtUTC p, tp_SourceType p, tp_SourceID p, rid r).
Definition key_before (a b : string * string * string * Z * Z) : bool :=
  let '(c1, r1, t1, s1, i1) := a in let '(c2, r2, t2, s2, i2) := b in
  String.ltb c1 c2
  || (String.eqb c1 c2 && String.ltb r1 r2)
  || (String.eqb c1 c2 && String.eqb r1 r2 && String.ltb t1 t2)
  || (String.eqb c1 c2 && String.eqb r1 r2 && String.eqb t1 t2 && (s1 <? s2))
  || (String.eqb c1 c2 && String.eqb r1 r2 && String.eqb t1 t2 && (s1 =? s2) && (i1 <? i2)).
Definition entry_before (a b : row timelineProjection) : bool := key_before (order_key a) (order_key b).
Definition cursor_key (c : timelineCursor) : string * string * string * Z * Z :=
  (tc_CorrectedUTC c, tc_ReceivedUTC c, tc_SourceType c, tc_SourceID c, tc_ProjectionID c).

Definition timeline_rows (c : timelineCursor) (startText endText : string) (limit : Z) (d : database)
    : list (row timelineProjection) :=
  take (Z.to_nat (limit + 1))
    (sort_by entry_before (List.filter (fun r =>
       (rid r <=? tc_SnapshotID c) && text_le startText (tp_CorrectedStartUTC (rval r))
       && String.ltb (tp_CorrectedStartUTC (rval r)) endText
       && (String.eqb (tc_CorrectedUTC c) "" || key_before (cursor_key c) (order_key r)))
     (timeline_entries d))).

Definition timeline_entry (r : row timelineProjection) : result error TimelineEntry :=
  match (let! v := unmarshal (tp_QualityFlagsJSON (rval r)) in strings_field (Some v)) with
  | Some flags => Ok (MkTimelineEntry r flags)
  | None => Err (StoreError CodeQueryFailed)
  end.
Fixpoint timeline_entries_of (rows : list (row timelineProjection)) : result error (list TimelineEntry) :=
  match rows with
  | [] => Ok []
  | r :: rest => let? e := timeline_entry r in let? es := timeline_entries_of rest in Ok (e :: es)
  end.

Definition next_cursor (startText endText : string) (snapshot : Z) (entries : list TimelineEntry) : string :=
  match list.last entries with
  | None => ""
  | Some e =>
    let p := te_Value e in
    encodeTimelineCursor (TimelineCursor 1 startText endText snapshot (tp_CorrectedStartUTC p)
      (tp_ReceivedAtUTC p) (tp_SourceType p) (tp_SourceID p) (te_ID e))
  end.

Definition QueryTimeline (store : Store) (wait : turn) (start finish : time) (cursorText : string) (limit : Z)
    (uncertainAfter : duration) (maxFacts : Z) : M database TimelinePage :=
  if negb (start <? finish) || (limit <? 1) || (maxPageSize store <? limit) || (uncertainAfter <? 0) || (maxFacts <? 1)
  then mfail (StoreError CodeTimelineRangeInvalid)
  else
    let startText := fixedUTC start in let endText := fixedUTC finish in
    let* cursor :=
      (if String.eqb cursorText "" then
         let* _ := syncTimelineProjection (maxTimelineProjectionBytes store) wait start finish uncertainAfter maxFacts "" false in
         let* snapshot := query CodeQueryFailed (fun d => max_id (timeline_entries d)) in
         mret (TimelineCursor 1 startText endText snapshot "" "" "" 0 0)
       else
         let* decoded := mlift (decodeTimelineCursor cursorText) in
         if String.eqb (tc_RangeStartUTC decoded) startText && String.eqb (tc_RangeEndUTC decoded) endText
         then mret decoded else mfail (StoreError CodeTimelineCursor)) in
    let* rows := query CodeQueryFailed (timeline_rows cursor startText endText limit) in
    let* entries := mlift (timeline_entries_of rows) in
    if limit <? Z.of_nat (length entries) then
      let entries := take (Z.to_nat limit) entries in
      mret (MkTimelinePage startText endText (tc_SnapshotID cursor) entries
              (next_cursor startText endText (tc_SnapshotID cursor) entries))
    else mret (MkTimelinePage startText endText (tc_SnapshotID cursor) entries "").
End Collect.
