(* ===== verification/TimelineSync.v ===== *)
(** * What a timeline sync promises

    The rows it writes are the projections of the source rows it selected, within
    the budget of facts and bytes; every other row of the timeline and every
    other table is as it was, and no source row of the range is missed. *)

From Stdlib Require Import ZArith Lia String Ascii.
From S2P Require Import Prelude GoStrings GoTime GoJson GoTimeFacts Order Sql Schema Keyed Events Heartbeats MediaStore Timeline.
Open Scope string_scope.
Open Scope list_scope.
Open Scope result_scope.
Open Scope db_scope.
Open Scope Z_scope.

(** ** The budget *)
Definition total_size (ps : list timelineProjection) : Z := foldr (fun p n => timelineProjectionSize p + n) 0 ps.
Definition within (maxFacts maxBytes : Z) (c : collected) : Prop :=
  snd c = total_size (fst c)
  /\ (fst c = [] \/ Z.of_nat (length (fst c)) <= maxFacts /\ snd c <= maxBytes).

Lemma total_size_app ps qs : total_size (ps ++ qs) = total_size ps + total_size qs.
Proof. induction ps; simpl; lia. Qed.

Lemma appendTimelineProjection_inv c p mf mb c' :
  appendTimelineProjection c p mf mb = Ok c' -> within mf mb c ->
  fst c' = fst c ++ [p] /\ within mf mb c'.
Proof.
  destruct c as [items used]. intros H [Hu Hw]. unfold appendTimelineProjection in H. inv_oks H.
  injection H as <-. to_prop. cbn [fst snd] in *. split; [done|]. split; cbn [fst snd].
  - rewrite total_size_app. simpl. lia.
  - right. rewrite length_app. simpl. lia.
Qed.

(** ** Collecting

    [gathered d table project keep selected new]: [new] holds the kept
    projections of the selected rows, and nothing else. *)
Definition gathered {A} (project : A -> result error timelineProjection)
    (keep : timelineProjection -> result error bool) (selected : A -> Prop) (new : list timelineProjection) : Prop :=
  (forall r, selected r -> exists p b, project r = Ok p /\ keep p = Ok b /\ (b = true -> p ∈ new))
  /\ (forall p, p ∈ new -> exists r, selected r /\ project r = Ok p /\ keep p = Ok true).

Lemma gathered_none {A} (project : A -> result error timelineProjection) keep (selected : A -> Prop) :
  (forall r, ~ selected r) -> gathered project keep selected [].
Proof. intros H. split; [intros r Hr; by destruct (H r)|]. intros p Hp. by apply elem_of_nil in Hp. Qed.

Lemma gathered_app {A} (project : A -> result error timelineProjection) keep (s1 s2 s : A -> Prop) n1 n2 :
  gathered project keep s1 n1 -> gathered project keep s2 n2 -> (forall r, s r <-> s1 r \/ s2 r) ->
  gathered project keep s (n1 ++ n2).
Proof.
  intros [A1 B1] [A2 B2] Hs. split.
  - intros r Hr. apply Hs in Hr as [Hr|Hr].
    + destruct (A1 r Hr) as (p & b & ? & ? & Hb). exists p, b. repeat split; [done..|].
      intros E. apply elem_of_app. left. by apply Hb.
    + destruct (A2 r Hr) as (p & b & ? & ? & Hb). exists p, b. repeat split; [done..|].
      intros E. apply elem_of_app. right. by apply Hb.
  - intros p Hp. apply elem_of_app in Hp as [Hp|Hp].
    + destruct (B1 p Hp) as (r & ? & ?). exists r. split; [|done]. apply Hs. by left.
    + destruct (B2 p Hp) as (r & ? & ?). exists r. split; [|done]. apply Hs. by right.
Qed.

Lemma collect_rows_inv {A} (project : A -> result error timelineProjection) keep mf mb rows : forall c c',
  collect_rows project keep mf mb rows c = Ok c' -> within mf mb c ->
  within mf mb c' /\ exists new, fst c' = fst c ++ new /\ gathered project keep (fun r => r ∈ rows) new.
Proof.
  induction rows as [|r rows IH]; intros c c' H Hw; cbn [collect_rows] in H.
  - injection H as <-. split; [done|]. exists []. split; [by rewrite app_nil_r|].
    apply gathered_none. intros x. apply not_elem_of_nil.
  - inv_oks H. rename a into p, a0 into b. assert (Hstep : within mf mb a1 /\ exists n1, fst a1 = fst c ++ n1
      /\ gathered project keep (fun x => x = r) n1).
    { destruct b.
      - apply appendTimelineProjection_inv in Ha1 as [E ?]; [|done]. split; [done|]. exists [p]. split; [done|].
        split; [intros x ->|intros q Hq; apply list_elem_of_singleton in Hq as ->; by exists r].
        exists p, true. repeat split; [done..|]. intros _. left.
      - injection Ha1 as <-. split; [done|]. exists []. split; [by rewrite app_nil_r|].
        split; [intros x ->; by exists p, false|]. intros q Hq. by apply elem_of_nil in Hq. }
    destruct Hstep as (Hw1 & n1 & E1 & G1). destruct (IH _ _ H Hw1) as (Hw' & n2 & E2 & G2).
    split; [done|]. exists (n1 ++ n2). split; [by rewrite E2, E1, app_assoc|].
    eapply gathered_app; [exact G1|exact G2|]. intros x. apply elem_of_cons.
Qed.

Definition selected_by {A} (table : list (row A)) (queries : list (A -> bool)) (r : row A) : Prop :=
  r ∈ table /\ existsb (fun q => q (rval r)) queries = true.

Lemma collect_queries_inv {A} (table : database -> list (row A)) project keep mf mb queries : forall c d o c' d' o',
  collect_queries table project keep mf mb queries c d o = (Ok c', d', o') -> within mf mb c ->
  d' = d /\ within mf mb c' /\ exists new, fst c' = fst c ++ new
    /\ gathered project keep (selected_by (table d) queries) new.
Proof.
  induction queries as [|q queries IH]; intros c d o c' d' o' H Hw; cbn [collect_queries] in H.
  - inv_m H. split; [done|]. split; [done|]. exists []. split; [by rewrite app_nil_r|].
    apply gathered_none. intros x [_ Hx]. discriminate.
  - inv_m H. apply query_inv in Hm as [-> ->]. apply mlift_inv in Hm0 as [Hrows ->].
    apply collect_rows_inv in Hrows as (Hw1 & n1 & E1 & G1); [|done].
    destruct (IH _ _ _ _ _ _ H Hw1) as (-> & Hw' & n2 & E2 & G2).
    split; [done|]. split; [done|]. exists (n1 ++ n2). split; [by rewrite E2, E1, app_assoc|].
    eapply gathered_app; [exact G1|exact G2|]. intros x. unfold selected_by. cbn [existsb].
    rewrite elem_of_filter_by, orb_true_iff. tauto.
Qed.

(** ** Writing *)
Section Write.
Context `{SJ : SqliteJson}.

Abbreviation timeline := (list (row timelineProjection)).
Definition source (p : timelineProjection) : string * Z := (tp_SourceType p, tp_SourceID p).
Definition stable (p : timelineProjection) : string := tp_StableID p.

(** The constraints of the table: ids in order, both keys unique, the CHECKs. *)
Record timeline_ok (t : timeline) : Prop := TimelineOk {
  t_ids : ids_sorted t;
  t_sources : NoDup (map (fun r => source (rval r)) t);
  t_stables : NoDup (map (fun r => stable (rval r)) t);
  t_checks : Forall (fun r => check_timeline (rval r) = true) t }.

(** From [t] to [t'] the projections [ps] were written: each is in [t'], under the
    id its source had if it had one; every row of [t'] is one of them or was there;
    and the rows of other sources are kept. *)
Record written (ps : list timelineProjection) (t t' : timeline) : Prop := Written {
  w_ok : timeline_ok t';
  w_stored : forall p, p ∈ ps -> exists r, r ∈ t' /\ rval r = p;
  w_only : forall r, r ∈ t' -> rval r ∈ ps \/ r ∈ t;
  w_kept : forall r, r ∈ t -> r ∈ t' \/ exists p, p ∈ ps /\ source p = source (rval r);
  w_ids : forall r, r ∈ t -> exists r', r' ∈ t' /\ rid r' = rid r /\ source (rval r') = source (rval r) }.

Lemma same_source_spec p q : same_source p q = true <-> source p = source q.
Proof.
  unfold same_source, source. rewrite andb_true_iff, String.eqb_eq, Z.eqb_eq. split; [intros [-> ->]|intros [= -> ->]]; done.
Qed.

Definition replace_source (p : timelineProjection) (r : row timelineProjection) : row timelineProjection :=
  if same_source p (rval r) then Row (rid r) p else r.

Lemma replace_source_id p r : rid (replace_source p r) = rid r.
Proof. unfold replace_source. by case_match. Qed.

Lemma replace_source_source p r : source (rval (replace_source p r)) = source (rval r).
Proof. unfold replace_source. case_match eqn:E; [|done]. by apply same_source_spec in E. Qed.

Lemma replace_stables p (t : timeline) :
  (forall r, r ∈ t -> same_source p (rval r) = false -> stable (rval r) <> stable p) ->
  NoDup (map (fun r => source (rval r)) t) -> NoDup (map (fun r => stable (rval r)) t) ->
  NoDup (map (fun r => stable (rval r)) (map (replace_source p) t)).
Proof.
  induction t as [|r t IH]; intros Hp Hs Hn; [constructor|]. simpl in *.
  apply NoDup_cons in Hs as [Hs1 Hs], Hn as [Hn1 Hn]. apply NoDup_cons. split.
  - intros Hin. apply list_elem_of_fmap in Hin as (y & Ey & Hy). apply list_elem_of_fmap in Hy as (x & -> & Hx).
    unfold replace_source in Ey. destruct (same_source p (rval r)) eqn:Er, (same_source p (rval x)) eqn:Ex; simpl in Ey.
    + apply same_source_spec in Er, Ex. apply Hs1. rewrite <- Er, Ex. apply list_elem_of_fmap. by exists x.
    + destruct (Hp x ltac:(by right) Ex). done.
    + destruct (Hp r ltac:(left) Er). done.
    + apply Hn1. rewrite Ey. apply list_elem_of_fmap. by exists x.
  - apply IH; [|done..]. intros x Hx. apply Hp. by right.
Qed.

(** A source that has a row keeps it. *)
Lemma replace_written p (t : timeline) r0 : timeline_ok t -> check_timeline p = true ->
  (forall r, r ∈ t -> same_source p (rval r) = false -> stable (rval r) <> stable p) ->
  r0 ∈ t -> same_source p (rval r0) = true -> written [p] t (map (replace_source p) t).
Proof.
  intros [[Hi Hp] Hs Hn Hc] Ec Hst Hr0 E0.
  assert (Hin : forall r, r ∈ t -> replace_source p r ∈ map (replace_source p) t).
  { intros r Hr. apply list_elem_of_fmap. by exists r. }
  split.
  - split; [split| | |].
    + rewrite map_map. erewrite map_ext; [exact Hi|]. apply replace_source_id.
    + apply Forall_map. eapply Forall_impl; [exact Hp|]. intros r. by rewrite replace_source_id.
    + rewrite map_map. erewrite map_ext; [exact Hs|]. intros. apply replace_source_source.
    + by apply replace_stables.
    + apply Forall_map. eapply Forall_impl; [exact Hc|]. intros r Hr. cbn beta. unfold replace_source. by case_match.
  - intros q Hq. apply list_elem_of_singleton in Hq as ->. exists (replace_source p r0).
    split; [by apply Hin|]. unfold replace_source. by rewrite E0.
  - intros r Hr. apply list_elem_of_fmap in Hr as (x & -> & Hx). unfold replace_source.
    case_match; [left; left|by right].
  - intros r Hr. destruct (same_source p (rval r)) eqn:E.
    + right. exists p. split; [left|]. by apply same_source_spec.
    + left. apply list_elem_of_fmap. exists r. unfold replace_source. by rewrite E.
  - intros r Hr. exists (replace_source p r). rewrite replace_source_id, replace_source_source. auto.
Qed.

(** A new source gets a new row. *)
Lemma insert_written p (t : timeline) : timeline_ok t -> check_timeline p = true ->
  (forall r, r ∈ t -> same_source p (rval r) = false /\ stable (rval r) <> stable p) ->
  written [p] t (insert_row p t).
Proof.
  intros [Hi Hs Hn Hc] Ec Hnew.
  assert (Hfresh : forall A (f : timelineProjection -> A), (forall r, r ∈ t -> f (rval r) <> f p) ->
    NoDup (map (fun r => f (rval r)) t) -> NoDup (map (fun r => f (rval r)) (insert_row p t))).
  { intros A f Hf HN. unfold insert_row. rewrite map_app. apply NoDup_app. split; [done|].
    split; [|apply NoDup_singleton]. intros x Hx Hy. apply list_elem_of_singleton in Hy as ->.
    apply list_elem_of_fmap in Hx as (r & E & Hr). by apply (Hf r Hr). }
  split.
  - split; [by apply insert_row_sorted| | |].
    + apply Hfresh; [|done]. intros r Hr E. destruct (Hnew r Hr) as [Hd _].
      symmetry in E. apply same_source_spec in E. congruence.
    + apply Hfresh; [|done]. intros r Hr. apply (Hnew r Hr).
    + apply Forall_app. split; [done|]. by constructor.
  - intros q Hq. apply list_elem_of_singleton in Hq as ->. exists (Row (next_id t) p). split; [|done].
    apply elem_of_app. right. left.
  - intros r Hr. apply elem_of_app in Hr as [Hr|Hr]; [by right|]. apply list_elem_of_singleton in Hr as ->. left. left.
  - intros r Hr. left. apply elem_of_app. by left.
  - intros r Hr. exists r. split; [|done]. apply elem_of_app. by left.
Qed.

Lemma existsb_false {A} (f : A -> bool) l : existsb f l = false -> forall x, x ∈ l -> f x = false.
Proof.
  intros H x Hx. destruct (f x) eqn:E; [|done]. rewrite <- H. symmetry. apply existsb_exists.
  exists x. by rewrite <- list_elem_of_In.
Qed.

Lemma upsert_projection_inv p d u d' :
  upsert_projection p d = Ok (u, d') -> timeline_ok (timeline_entries d) ->
  d' = with_timeline_entries d (timeline_entries d') /\ written [p] (timeline_entries d) (timeline_entries d').
Proof.
  intros Hu Hok. unfold upsert_projection in Hu. set (t := timeline_entries d) in *.
  destruct (check_timeline p) eqn:Ec; [|done]. cbn [negb] in Hu.
  match type of Hu with (if ?b then _ else _) = _ => destruct b eqn:Es end; [done|].
  assert (Hst : forall r, r ∈ t -> same_source p (rval r) = false -> stable (rval r) <> stable p).
  { intros r Hr Hd E. apply (existsb_false _ _ Es) in Hr. cbn beta in Hr. rewrite Hd, andb_true_r in Hr.
    by apply String.eqb_neq in Hr. }
  destruct (existsb (fun r => same_source p (rval r)) t) eqn:Ex; injection Hu as _ <-; (split; [done|]);
    cbn [timeline_entries with_timeline_entries].
  - apply existsb_exists in Ex as (r0 & Hr0 & E0). rewrite <- list_elem_of_In in Hr0. by eapply replace_written.
  - pose proof (existsb_false _ _ Ex) as Hd. apply insert_written; [done..|]. eauto.
Qed.

(** ** Runs of writes

    The projections are values of their sources, so that writing a source twice
    is writing it once. *)
Definition coherent (ps : list timelineProjection) : Prop :=
  forall p q, p ∈ ps -> q ∈ ps -> source p = source q -> p = q.

Lemma coherent_app ps qs : coherent (ps ++ qs) -> coherent ps /\ coherent qs.
Proof. intros H. split; intros p q Hp Hq; apply H; apply elem_of_app; auto. Qed.

Lemma written_none t : timeline_ok t -> written [] t t.
Proof.
  intros H. split; [done| |auto|auto|eauto]. intros p Hp. by apply elem_of_nil in Hp.
Qed.

Lemma written_app ps qs t t1 t2 : coherent (ps ++ qs) ->
  written ps t t1 -> written qs t1 t2 -> written (ps ++ qs) t t2.
Proof.
  intros Hc [O1 S1 N1 K1 I1] [O2 S2 N2 K2 I2]. split; [done|..].
  - intros p Hp. apply elem_of_app in Hp as [Hp|Hp]; [|by apply S2].
    destruct (S1 p Hp) as (r & Hr & <-). destruct (K2 r Hr) as [Hr2|(q & Hq & E)]; [by exists r|].
    rewrite <- (Hc q (rval r)); [by apply S2|..|done]; apply elem_of_app; auto.
  - intros r Hr. rewrite elem_of_app. destruct (N2 r Hr) as [H2|H2]; [auto|]. destruct (N1 r H2); auto.
  - intros r Hr. setoid_rewrite elem_of_app. destruct (K1 r Hr) as [H1|(p & ? & ?)]; [|eauto].
    destruct (K2 r H1) as [H2|(q & ? & ?)]; eauto.
  - intros r Hr. destruct (I1 r Hr) as (r1 & H1 & E1 & E1'). destruct (I2 r1 H1) as (r2 & H2 & E2 & E2').
    exists r2. rewrite E2, E2'. auto.
Qed.

(** A loop of operations each of which writes its part. *)
Lemma miter_written {B} (part : B -> list timelineProjection) (body : B -> M database unit) :
  (forall x d o d' o', body x d o = (Ok tt, d', o') -> coherent (part x) -> timeline_ok (timeline_entries d) ->
     d' = with_timeline_entries d (timeline_entries d') /\ written (part x) (timeline_entries d) (timeline_entries d')) ->
  forall l d o d' o', miter body l d o = (Ok tt, d', o') -> coherent (concat (map part l)) ->
    timeline_ok (timeline_entries d) ->
    d' = with_timeline_entries d (timeline_entries d')
    /\ written (concat (map part l)) (timeline_entries d) (timeline_entries d').
Proof.
  intros Hbody. induction l as [|x l IH]; intros d o d' o' H Hc Hok; cbn [miter] in H.
  - inv_m H. split; [by destruct d|by apply written_none].
  - inv_m H. destruct a. cbn in Hc |- *. destruct (coherent_app _ _ Hc) as [Hc1 Hc2].
    destruct (Hbody _ _ _ _ _ Hm Hc1 Hok) as [E1 W1]. destruct (IH _ _ _ _ H Hc2 (w_ok _ _ _ W1)) as [E2 W2].
    split; [by rewrite E2, E1|by eapply written_app].
Qed.

Lemma chunk_written ps d o d' o' :
  upsertTimelineProjectionChunk ps d o = (Ok tt, d', o') -> coherent ps -> timeline_ok (timeline_entries d) ->
  d' = with_timeline_entries d (timeline_entries d') /\ written ps (timeline_entries d) (timeline_entries d').
Proof.
  intros H Hc Hok. apply transaction_inv in H as (o1 & o2 & H).
  assert (E : concat (map (fun p => [p]) ps) = ps) by (clear; induction ps; simpl; congruence).
  rewrite <- E in Hc |- *. revert H Hc Hok. apply miter_written. clear.
  intros p d o d' o' H _ Hok. apply stmt_inv in H. by eapply upsert_projection_inv.
Qed.

Lemma chunks_written ps d o d' o' :
  miter upsertTimelineProjectionChunk (chunks timelineProjectionChunkSize ps) d o = (Ok tt, d', o') ->
  coherent ps -> timeline_ok (timeline_entries d) ->
  d' = with_timeline_entries d (timeline_entries d') /\ written ps (timeline_entries d) (timeline_entries d').
Proof.
  assert (E : concat (map id (chunks timelineProjectionChunkSize ps)) = ps).
  { rewrite map_id. apply chunks_concat. unfold timelineProjectionChunkSize. lia. }
  intros H Hc Hok. rewrite <- E in Hc |- *. revert H Hc Hok. apply miter_written.
  intros. by eapply chunk_written.
Qed.
End Write.

(** ** The sync *)
Section Sync.
Context `{SJ : SqliteJson} `{F : Float64} `{SR : SqliteReal}.

(** The source tables have their ids in order. *)
Record sources_ok (d : database) : Prop := SourcesOk {
  so_events : ids_sorted (raw_events d);
  so_heartbeats : ids_sorted (collector_heartbeats d);
  so_media : ids_sorted (media_segments d) }.

Lemma raw_source r ua p : rawEventProjection r ua = Ok p -> source p = ("raw_event", rid r).
Proof.
  unfold rawEventProjection. cbv zeta. intros H. inv_oks H. repeat case_match; by injection H as <-.
Qed.
Lemma heartbeat_source r ua p : heartbeatProjection r ua = Ok p -> source p = ("heartbeat", rid r).
Proof. unfold heartbeatProjection. intros H. case_match; [by injection H as <-|done]. Qed.
Lemma media_source r ua p : mediaProjection r ua = Ok p -> source p = ("media_segment", rid r).
Proof. unfold mediaProjection. cbv zeta. intros H. inv_oks H. by injection H as <-. Qed.

(** The projection of some row of the source tables. *)
Inductive projection_of (ua : duration) (d : database) (p : timelineProjection) : Prop :=
  | of_event r : r ∈ raw_events d -> rawEventProjection r ua = Ok p -> projection_of ua d p
  | of_heartbeat r : r ∈ collector_heartbeats d -> heartbeatProjection r ua = Ok p -> projection_of ua d p
  | of_media r : r ∈ media_segments d -> mediaProjection r ua = Ok p -> projection_of ua d p.

Lemma projections_coherent ua d ps : sources_ok d -> Forall (projection_of ua d) ps -> coherent ps.
Proof.
  intros [H1 H2 H3] Hps p q Hp Hq E. rewrite Forall_forall in Hps.
  destruct (Hps p Hp) as [r Hr Ep|r Hr Ep|r Hr Ep], (Hps q Hq) as [r' Hr' Eq|r' Hr' Eq|r' Hr' Eq];
    pose proof Ep as Sp; pose proof Eq as Sq; (apply raw_source in Sp || apply heartbeat_source in Sp || apply media_source in Sp);
    (apply raw_source in Sq || apply heartbeat_source in Sq || apply media_source in Sq);
    rewrite Sp, Sq in E; try discriminate E; injection E as E.
  - rewrite (row_unique _ _ _ H1 Hr Hr' E) in Ep. congruence.
  - rewrite (row_unique _ _ _ H2 Hr Hr' E) in Ep. congruence.
  - rewrite (row_unique _ _ _ H3 Hr Hr' E) in Ep. congruence.
Qed.

Lemma sync_inv mb start finish ua mf cid ov d o d' o' :
  syncTimelineProjection mb Acquired start finish ua mf cid ov d o = (Ok tt, d', o') ->
  sources_ok d -> timeline_ok (timeline_entries d) ->
  d' = with_timeline_entries d (timeline_entries d') /\ exists n1 n2 n3,
    written (n1 ++ n2 ++ n3) (timeline_entries d) (timeline_entries d')
    /\ within mf mb (n1 ++ n2 ++ n3, total_size (n1 ++ n2 ++ n3))
    /\ gathered (fun r => rawEventProjection r ua)
         (fun item => let? matches := projectionMatchesRange item start finish ov in
                      Ok (matches && (negb ov || projectionHasPositiveInterval item)))
         (selected_by (raw_events d) (rawEventProjectionQueries cid ov (candidateStart start) (candidateEnd finish))) n1
    /\ gathered (fun r => heartbeatProjection r ua) (fun _ => Ok true)
         (selected_by (collector_heartbeats d) (heartbeatProjectionQueries cid ov (fixedUTC start) (fixedUTC finish))) n2
    /\ gathered (fun r => mediaProjection r ua) (fun item => projectionMatchesRange item start finish ov)
         (selected_by (media_segments d) (mediaProjectionQueries cid ov (candidateStart start) (candidateEnd finish))) n3.
Proof.
  intros H Hs Hok. cbn [syncTimelineProjection] in H. inv_m H.
  apply collect_queries_inv in Hm as (-> & Hw1 & n1 & E1 & G1); [|split; [done|by left]].
  apply collect_queries_inv in Hm0 as (-> & Hw2 & n2 & E2 & G2); [|done].
  apply collect_queries_inv in Hm1 as (-> & Hw3 & n3 & E3 & G3); [|done].
  assert (E : fst a1 = n1 ++ n2 ++ n3) by (by rewrite E3, E2, E1, <- app_assoc).
  assert (Hall : Forall (projection_of ua d) (n1 ++ n2 ++ n3)).
  { rewrite !Forall_app. repeat split; rewrite Forall_forall; intros p Hp.
    - destruct (proj2 G1 p Hp) as (r & [Hr _] & Er & _). by eapply of_event.
    - destruct (proj2 G2 p Hp) as (r & [Hr _] & Er & _). by eapply of_heartbeat.
    - destruct (proj2 G3 p Hp) as (r & [Hr _] & Er & _). by eapply of_media. }
  pose proof (projections_coherent _ _ _ Hs Hall) as Hc. rewrite E in H.
  apply chunks_written in H as [Ed W]; [|done..]. split; [done|]. exists n1, n2, n3.
  split; [done|]. split; [|done]. destruct Hw3 as [Eu Hw]. rewrite E in *. rewrite Eu in Hw. by split.
Qed.

(** A sync that succeeds changes nothing but the timeline.  The rows it writes
    are projections of rows of the source tables, at most as many as the limit of
    facts and as large in all as the limit of bytes; each is in the timeline
    afterwards under the id its source had, rows of other sources are as they
    were, and the constraints of the table still hold. *)
Theorem syncTimelineProjection_correct mb start finish ua mf cid ov d o d' o'
    (Hsources : sources_ok d) (Hok : timeline_ok (timeline_entries d))
    (Hrun : syncTimelineProjection mb Acquired start finish ua mf cid ov d o = (Ok tt, d', o')) :
  d' = with_timeline_entries d (timeline_entries d')
  /\ exists ps, written ps (timeline_entries d) (timeline_entries d')
     /\ Forall (projection_of ua d) ps
     /\ (ps = [] \/ Z.of_nat (length ps) <= mf /\ total_size ps <= mb).
Proof.
  destruct (sync_inv _ _ _ _ _ _ _ _ _ _ _ Hrun Hsources Hok) as (E & n1 & n2 & n3 & W & [_ Hw] & G1 & G2 & G3).
  split; [done|]. exists (n1 ++ n2 ++ n3). split; [done|]. split; [|done].
  rewrite !Forall_app. repeat split; rewrite Forall_forall; intros p Hp.
  - destruct (proj2 G1 p Hp) as (r & [Hr _] & Er & _). by eapply of_event.
  - destruct (proj2 G2 p Hp) as (r & [Hr _] & Er & _). by eapply of_heartbeat.
  - destruct (proj2 G3 p Hp) as (r & [Hr _] & Er & _). by eapply of_media.
Qed.
End Sync.

(** ** Nothing is missed

    SQLite's REAL numbers need not be exact.  The laws are stated of the texts the
    recorder stores, [YYYY-MM-DDTHH:MM:SS], a fraction of up to nine digits without
    trailing zeros, and [Z], of the years 0 to 9999, which is one of SQLite's time
    strings in the range it documents: [julianday] is a number there, and a clock
    offset within a year keeps two of them in order when they are a second or more
    apart, which is what the prefilter of one second around the range relies on. *)
Definition year_ms : Z := 366 * 86400000.
Class RealLaws `{SqliteReal} := {
  julianday_defined : forall t, four_digit_year t -> exists j, julianday (format_rfc3339nano t) = Some j;
  real_order : forall x y o j k, four_digit_year x -> four_digit_year y -> - year_ms <= o <= year_ms ->
    julianday (format_rfc3339nano x) = Some j -> julianday (format_rfc3339nano y) = Some k ->
    (x + o * millisecond <= y - second -> real_lt (shift_ms j o) k = true)
    /\ (y + second <= x + o * millisecond -> real_lt (shift_ms j o) k = false) }.

(** The instant [t] of a text as the recorder stores it and a clock offset. *)
Definition corrected_at (text : string) (offset : Z) (t : time) : Prop :=
  exists x, text = format_rfc3339nano x /\ four_digit_year x /\ t = x + offset * millisecond
            /\ - year_ms <= offset <= year_ms /\ four_digit_year t.

Section Complete.
Context `{SJ : SqliteJson} `{F : Float64} `{SR : SqliteReal} `{RL : !RealLaws}.

Lemma of_milliseconds_small o : - year_ms <= o <= year_ms -> of_milliseconds o = o * millisecond.
Proof. unfold year_ms. intros Ho. unfold of_milliseconds. apply wrap64_id. unfold int64_min, int64_max, millisecond. lia. Qed.

Lemma between_candidates text offset t start finish :
  corrected_at text offset t -> start <= t < finish ->
  four_digit_year (start - second) -> four_digit_year (finish + second) ->
  between (corrected text offset) (candidateStart start) (candidateEnd finish) = true.
Proof.
  intros (x & -> & Hx & -> & Ho & _) Ht Hs Hf. unfold between, corrected, candidateStart, candidateEnd.
  destruct (julianday_defined _ Hx) as [j Hj], (julianday_defined _ Hs) as [k Hk], (julianday_defined _ Hf) as [l Hl].
  rewrite Hj, Hk, Hl. cbn [option_map sql_ge sql_lt].
  destruct (real_order _ _ offset _ _ Hx Hs Ho Hj Hk) as [_ ->]; [|lia].
  destruct (real_order _ _ offset _ _ Hx Hf Ho Hj Hl) as [-> _]; [done|lia].
Qed.

Lemma matches_range p t start finish :
  tp_CorrectedStartUTC p = fixedUTC t -> four_digit_year t -> start <= t < finish ->
  projectionMatchesRange p start finish false = Ok true.
Proof.
  intros E Hy Ht. unfold projectionMatchesRange, parse_stored. rewrite E. unfold fixedUTC.
  rewrite parse_rfc3339nano_fixed by done. cbn [rbind].
  destruct (Z.ltb_spec t finish); [|lia]. by destruct (Z.ltb_spec t start); [lia|].
Qed.

Lemma raw_corrected r ua p t : corrected_at (pe_DeviceTimeUTC (rval r)) (pe_ClockOffsetMS (rval r)) t ->
  rawEventProjection r ua = Ok p -> tp_CorrectedStartUTC p = fixedUTC t.
Proof.
  intros (x & Ex & Hx & -> & Ho & _) H. unfold rawEventProjection, parse_stored in H.
  rewrite Ex, parse_rfc3339nano_format in H by done. cbn [rbind] in H.
  inv_oks H. rewrite of_milliseconds_small in H by done. repeat case_match; by injection H as <-.
Qed.

Lemma media_corrected r ua p t : corrected_at (mm_DeviceStartUTC (rval r)) (mm_ClockOffsetMS (rval r)) t ->
  mediaProjection r ua = Ok p -> tp_CorrectedStartUTC p = fixedUTC t.
Proof.
  intros (x & Ex & Hx & -> & Ho & _) H. unfold mediaProjection, parse_stored in H.
  rewrite Ex, parse_rfc3339nano_format in H by done. cbn [rbind] in H.
  inv_oks H. rewrite of_milliseconds_small in H by done. by injection H as <-.
Qed.

Definition mine (collectorID id : string) : bool := String.eqb collectorID "" || String.eqb id collectorID.

Lemma text_range t start finish : four_digit_year t -> four_digit_year start -> four_digit_year finish ->
  start <= t < finish ->
  text_le (fixedUTC start) (fixedUTC t) = true /\ String.ltb (fixedUTC t) (fixedUTC finish) = true.
Proof.
  intros Hy Hs Hf Ht. unfold text_le, String.ltb, fixedUTC. rewrite !format_fixed_compare by done.
  split; [destruct (Z.compare_spec t start)|destruct (Z.compare_spec t finish)]; try done; lia.
Qed.

(** C28: after a sync of a range that succeeds, every event, heartbeat and media
    segment of the collector (of any collector, when none is named) whose corrected
    start lies in the range is on the timeline as its projection: the rows whose
    device time is a text the recorder stores, with a clock offset of at most a
    year.  Of SQLite's [julianday] only [RealLaws] is assumed. *)
Theorem syncTimelineProjection_complete mb start finish ua mf cid d o d' o'
    (Hsources : sources_ok d) (Hok : timeline_ok (timeline_entries d))
    (Hyears : four_digit_year (start - second) /\ four_digit_year start
              /\ four_digit_year finish /\ four_digit_year (finish + second))
    (Hrun : syncTimelineProjection mb Acquired start finish ua mf cid false d o = (Ok tt, d', o')) :
  (forall r t, r ∈ raw_events d -> mine cid (pe_CollectorID (rval r)) = true ->
     corrected_at (pe_DeviceTimeUTC (rval r)) (pe_ClockOffsetMS (rval r)) t -> start <= t < finish ->
     exists e, e ∈ timeline_entries d' /\ rawEventProjection r ua = Ok (rval e))
  /\ (forall r t, r ∈ collector_heartbeats d -> mine cid (ph_CollectorID (rval r)) = true ->
     ph_CorrectedStartUTC (rval r) = fixedUTC t -> four_digit_year t -> start <= t < finish ->
     exists e, e ∈ timeline_entries d' /\ heartbeatProjection r ua = Ok (rval e))
  /\ (forall r t, r ∈ media_segments d -> mine cid (mm_CollectorID (rval r)) = true ->
     corrected_at (mm_DeviceStartUTC (rval r)) (mm_ClockOffsetMS (rval r)) t -> start <= t < finish ->
     exists e, e ∈ timeline_entries d' /\ mediaProjection r ua = Ok (rval e)).
Proof.
  destruct Hyears as (Y1 & Y2 & Y3 & Y4).
  destruct (sync_inv _ _ _ _ _ _ _ _ _ _ _ Hrun Hsources Hok) as (_ & n1 & n2 & n3 & W & _ & G1 & G2 & G3).
  assert (Hst : forall p, p ∈ n1 \/ p ∈ n2 \/ p ∈ n3 -> exists e, e ∈ timeline_entries d' /\ rval e = p).
  { intros p Hp. apply (w_stored _ _ _ W). rewrite !elem_of_app. tauto. }
  unfold mine. split; [|split]; intros r t Hr Hm.
  - intros Hc Ht. destruct (proj1 G1 r) as (p & b & Ep & Eb & Hb).
    { split; [done|]. unfold rawEventProjectionQueries. destruct (String.eqb_spec cid ""); cbn in Hm |- *;
        rewrite ?Hm, (between_candidates _ _ t) by done; done. }
    rewrite (matches_range p t) in Eb; [|by eapply raw_corrected|by destruct Hc as (? & ? & ? & ? & ? & ?)|done].
    cbn in Eb. injection Eb as <-. destruct (Hst p) as (e & He & <-); [left; by apply Hb|]. eauto.
  - intros E Hy Ht. destruct (text_range t start finish) as [T1 T2]; [done..|].
    destruct (proj1 G2 r) as (p & b & Ep & [= <-] & Hb).
    { split; [done|]. unfold heartbeatProjectionQueries. cbn. by rewrite Hm, E, T1, T2. }
    destruct (Hst p) as (e & He & <-); [right; left; by apply Hb|]. eauto.
  - intros Hc Ht. destruct (proj1 G3 r) as (p & b & Ep & Eb & Hb).
    { split; [done|]. unfold mediaProjectionQueries. cbn. by rewrite Hm, (between_candidates _ _ t). }
    rewrite (matches_range p t) in Eb; [|by eapply media_corrected|by destruct Hc as (? & ? & ? & ? & ? & ?)|done].
    injection Eb as <-. destruct (Hst p) as (e & He & <-); [right; right; by apply Hb|]. eauto.
Qed.
End Complete.

(** ** A concrete run

    REAL numbers without rounding, payload durations in whole seconds, and one
    event, one heartbeat and one segment of half past twelve. *)
#[export] Instance whole_floats : Float64 := {|
  f64 := Z; parse_float := parse_int; float_lt := Z.ltb; float_of z := z; seconds_duration x := wrap64 (x * second) |}.
#[export] Instance exact_reals : SqliteReal := {|
  real := Z; real_lt := Z.ltb; julianday := parse_rfc3339nano; shift_ms j o := j + o * millisecond;
  add_payload_seconds j _ := Some j; activitywatch_interval _ := true |}.
#[export] Instance exact_reals_laws : RealLaws.
Proof.
  split.
  - intros t Ht. exists t. by apply parse_rfc3339nano_format.
  - intros x y o j k Hx Hy _ Hj Hk. cbn in *. rewrite parse_rfc3339nano_format in Hj, Hk by done. simplify_eq.
    unfold second. split; intros; [apply Z.ltb_lt|apply Z.ltb_ge]; lia.
Qed.

Definition recorded : database :=
  state_after (AppendHeartbeatBatch heartbeat_store sample_time [sample_heartbeat])
    (state_after (AppendBatch sample_store sample_time [sample_event]) one_segment []) [].
Definition noon : time := days_of 2024 2 29 * day_ns + 12 * hour.

Lemma one_row_ok {A} (x : A) : ids_sorted [Row 1 x].
Proof. repeat constructor. Qed.

Lemma recorded_sources : sources_ok recorded.
Proof. split; vm_compute; apply one_row_ok. Qed.
Lemma recorded_timeline : timeline_ok (timeline_entries recorded).
Proof. assert (timeline_entries recorded = []) as -> by (vm_compute; reflexivity). repeat constructor. Qed.

Lemma syncTimelineProjection_correct_witness :
  exists d' o', syncTimelineProjection 100000 Acquired noon (noon + hour) hour 10 "" false recorded [] = (Ok tt, d', o')
    /\ d' = with_timeline_entries recorded (timeline_entries d') /\ length (timeline_entries d') = 3%nat.
Proof.
  destruct (syncTimelineProjection 100000 Acquired noon (noon + hour) hour 10 "" false recorded [])
    as [[[[]|e] d'] o'] eqn:E; [|exfalso; vm_compute in E; discriminate].
  exists d', o'. split; [reflexivity|]. split.
  - apply (syncTimelineProjection_correct _ _ _ _ _ _ _ _ _ _ _ recorded_sources recorded_timeline E).
  - vm_compute in E. by injection E as <- _.
Defined.

Lemma syncTimelineProjection_complete_witness :
  exists d' o', syncTimelineProjection 100000 Acquired noon (noon + hour) hour 10 "" false recorded [] = (Ok tt, d', o')
    /\ forall r, r ∈ raw_events recorded ->
         exists e, e ∈ timeline_entries d' /\ rawEventProjection r hour = Ok (rval e).
Proof.
  destruct (syncTimelineProjection 100000 Acquired noon (noon + hour) hour 10 "" false recorded [])
    as [[[[]|e] d'] o'] eqn:E; [|exfalso; vm_compute in E; discriminate].
  exists d', o'. split; [reflexivity|]. intros r Hr.
  assert (Hy : four_digit_year (noon - second) /\ four_digit_year noon
    /\ four_digit_year (noon + hour) /\ four_digit_year (noon + hour + second)).
  { repeat split; vm_compute; discriminate. }
  apply (proj1 (syncTimelineProjection_complete _ _ _ _ _ _ _ _ _ _ recorded_sources recorded_timeline Hy E) r
    (noon + 34 * minute + 56 * second)); [exact Hr|reflexivity| |split; [vm_compute; discriminate|reflexivity]].
  assert (Hrow : raw_events recorded = [Row 1 (rval (hd r (raw_events recorded)))]) by (vm_compute; reflexivity).
  rewrite Hrow in Hr. apply list_elem_of_singleton in Hr as ->.
  exists (noon + 34 * minute + 56 * second). split; [vm_compute; reflexivity|]. split; [split; vm_compute; discriminate|].
  split; [vm_compute; reflexivity|]. split; [split; vm_compute; discriminate|]. split; vm_compute; discriminate.
Defined.
