(* ===== verification/TimelinePages.v ===== *)
(** * Reading the timeline page by page

    Cursors are read back as written, and a client that follows them gets every
    row of the snapshot once, in the order of the timeline. *)

From Stdlib Require Import ZArith Lia String Ascii.
From S2P Require Import Prelude GoStrings GoTime GoJson FlatJson GoTimeFacts Base64 Order Sql Schema Keyed Events Heartbeats Query MediaStore Timeline TimelineSync.
Open Scope string_scope.
Open Scope list_scope.
Open Scope result_scope.
Open Scope db_scope.
Open Scope Z_scope.

(** ** The order of the timeline *)
Definition timeline_compare : (string * string * string * Z * Z) -> (string * string * string * Z * Z) -> comparison :=
  lex_compare (lex_compare (lex_compare (lex_compare String.compare String.compare) String.compare) Z.compare) Z.compare.

#[export] Instance timeline_comparison : Comparison timeline_compare.
Proof. apply _. Qed.

Lemma compare_eqb s t : String.eqb s t = match String.compare s t with Eq => true | _ => false end.
Proof.
  destruct (String.eqb_spec s t) as [->|Hn].
  - by rewrite (proj2 (cmp_eq t t) eq_refl).
  - destruct (String.compare s t) eqn:E; [|done..]. apply cmp_eq in E. done.
Qed.

(** The WHERE clause of the query compares keys as ORDER BY does. *)
Lemma key_before_lex a b : key_before a b = before timeline_compare a b.
Proof.
  destruct a as [[[[c1 r1] t1] s1] i1], b as [[[[c2 r2] t2] s2] i2].
  unfold key_before, before, timeline_compare, lex_compare. cbn [fst snd]. unfold String.ltb.
  rewrite !compare_eqb, !Z.ltb_compare, !Z.eqb_compare.
  by destruct (String.compare c1 c2), (String.compare r1 r2), (String.compare t1 t2), (Z.compare s1 s2), (Z.compare i1 i2).
Qed.

(** ** Cursors *)

(** A cursor the service hands out: the texts are in the fixed format. *)
Definition fixed_text (s : string) : Prop := exists t, four_digit_year t /\ s = format_fixed t.

(** A received time as the tables hold it: in the fixed layout, or with the zeros at
    the end of its fraction trimmed, as the heartbeats have it. *)
Definition stored_time (s : string) : Prop :=
  exists t, four_digit_year t /\ (s = format_fixed t \/ s = format_rfc3339nano t).

Record cursor_ok (c : timelineCursor) : Prop := CursorOk {
  c_version : tc_Version c = 1;
  c_range : exists start finish, four_digit_year start /\ four_digit_year finish /\ start < finish
    /\ tc_RangeStartUTC c = format_fixed start /\ tc_RangeEndUTC c = format_fixed finish;
  c_times : fixed_text (tc_CorrectedUTC c) /\ stored_time (tc_ReceivedUTC c);
  c_type : one_of ["raw_event"; "heartbeat"; "media_segment"] (tc_SourceType c) = true;
  c_source : 0 < tc_SourceID c <= int64_max;
  c_ids : 0 < tc_ProjectionID c <= tc_SnapshotID c;
  c_snapshot : tc_SnapshotID c <= int64_max }.

Lemma fixed_text_facts s : fixed_text s -> plain s = true /\ slen s = 30 /\ known_time s = true.
Proof.
  intros (t & Hy & ->). split; [by apply plain_format_fixed|]. split; [by apply slen_format_fixed|].
  unfold known_time. by rewrite parse_fixed_format.
Qed.

Lemma stored_time_facts s : stored_time s -> plain s = true /\ slen s <= 30 /\ (known_time s = true <-> fixed_text s).
Proof.
  assert (Hfixed : forall s, fixed_text s -> plain s = true /\ slen s <= 30 /\ (known_time s = true <-> fixed_text s)).
  { intros x Hx. destruct (fixed_text_facts x Hx) as (? & ? & ?). split; [done|]. split; [lia|done]. }
  intros (t & Hy & [-> | ->]); [apply Hfixed; by exists t|].
  destruct (parse_fixed_trimmed t Hy) as [Hn|E]; [|apply Hfixed; exists t; by rewrite E].
  destruct (plain_format_rfc3339nano t Hy) as [? ?]. split; [done|]. split; [done|]. unfold known_time. rewrite Hn.
  split; [done|]. intros (u & Hu & Eu). rewrite Eu, parse_fixed_format in Hn by done. done.
Qed.

Lemma source_type_cases s : one_of ["raw_event"; "heartbeat"; "media_segment"] s = true ->
  s = "raw_event" \/ s = "heartbeat" \/ s = "media_segment".
Proof.
  cbn. rewrite !orb_true_iff, !String.eqb_eq. intuition discriminate.
Qed.

(** A cursor is read back as it was written where its received time is in the fixed
    layout, and refused otherwise. *)
Lemma decode_encode_timeline c : cursor_ok c -> decodeTimelineCursor (encodeTimelineCursor c)
  = if known_time (tc_ReceivedUTC c) then Ok c else Err (StoreError CodeTimelineCursor).
Proof.
  intros [Hv (start & finish & Ys & Yf & Hlt & Es & Ef) [Hc Hr] Ht Hsrc Hid Hsn].
  destruct (fixed_text_facts _ Hc) as (Pc & Lc & Kc), (stored_time_facts _ Hr) as (Pr & Lr & _).
  destruct (fixed_text_facts (tc_RangeStartUTC c)) as (Ps & Ls & _); [by exists start|].
  destruct (fixed_text_facts (tc_RangeEndUTC c)) as (Pf & Lf & _); [by exists finish|].
  assert (Pt : plain (tc_SourceType c) = true /\ slen (tc_SourceType c) <= 13)
    by (destruct (source_type_cases _ Ht) as [-> | [-> | ->]]; split; done || (cbn; lia)).
  destruct Pt as [Pt Lt]. destruct c as [v rs re sn co rc st si pid]. cbn [tc_Version tc_RangeStartUTC tc_RangeEndUTC tc_SnapshotID tc_CorrectedUTC
    tc_ReceivedUTC tc_SourceType tc_SourceID tc_ProjectionID] in * |-. subst v.
  unfold encodeTimelineCursor, decodeTimelineCursor.
  cbn [tc_Version tc_RangeStartUTC tc_RangeEndUTC tc_SnapshotID tc_CorrectedUTC tc_ReceivedUTC tc_SourceType tc_SourceID tc_ProjectionID].
  set (ms := [("v", _); _; _; _; _; _; _; _; _]).
  assert (Hlen : slen (marshal_struct ms) <= 500).
  { subst ms. unfold marshal_struct. cbn [map join fst snd marshal].
    rewrite !slen_app, !slen_quote_plain by done. cbn [slen]. rewrite Lc, Ls, Lf.
    pose proof (slen_format_int sn). pose proof (slen_format_int si). pose proof (slen_format_int pid).
    unfold int64_min in *. change (slen (format_int 1)) with 1. lia. }
  rewrite slen_EncodeToString.
  destruct (Z.ltb_spec 2048 ((4 * slen (marshal_struct ms) + 2) / 3)) as [H|_].
  { exfalso. assert ((4 * slen (marshal_struct ms) + 2) / 3 <= 668) by (apply Z.div_le_upper_bound; lia). lia. }
  cbn [negb]. rewrite DecodeString_EncodeToString. cbn [obind]. unfold decode_timeline_cursor.
  rewrite unmarshal_marshal_struct; [|repeat constructor; done]. cbn [obind struct_members].
  subst ms. change (known_fields timeline_cursor_fields _) with true. cbn [oguard].
  change (field_values "v" _) with [JNum (format_int 1)].
  change (field_values "range_start_utc" _) with [JStr rs]. change (field_values "range_end_utc" _) with [JStr re].
  change (field_values "snapshot_id" _) with [JNum (format_int sn)].
  change (field_values "corrected_utc" _) with [JStr co]. change (field_values "received_utc" _) with [JStr rc].
  change (field_values "source_type" _) with [JStr st]. change (field_values "source_id" _) with [JNum (format_int si)].
  change (field_values "projection_id" _) with [JNum (format_int pid)].
  cbn [decode_last int_of string_of]. rewrite !parse_int_format_int by (unfold int64_min, int64_max in *; lia).
  cbn [obind tc_Version tc_RangeStartUTC tc_RangeEndUTC tc_SnapshotID tc_CorrectedUTC tc_ReceivedUTC tc_SourceType
    tc_SourceID tc_ProjectionID].
  destruct (Z.ltb_spec sn 0), (Z.ltb_spec si 0), (Z.ltb_spec pid 0), (Z.ltb_spec sn pid); try lia. cbn [negb andb].
  change (1 =? 1) with true. cbn [andb]. rewrite Es, Ef, !parse_fixed_format by done.
  destruct (Z.ltb_spec start finish), (Z.ltb_spec 0 pid), (Z.ltb_spec 0 si); try lia. cbn [andb].
  rewrite Ht, Kc. cbn [andb]. by destruct (known_time rc).
Qed.

(** ** Pages *)
Abbreviation entry_row := (row timelineProjection).

(** The rows of a range in a snapshot, and all of them in order. *)
Definition in_snapshot (snap : Z) (startText endText : string) (r : entry_row) : bool :=
  (rid r <=? snap) && text_le startText (tp_CorrectedStartUTC (rval r)) && String.ltb (tp_CorrectedStartUTC (rval r)) endText.
Definition ordered_rows (snap : Z) (startText endText : string) (t : list entry_row) : list entry_row :=
  by_key timeline_compare order_key (List.filter (in_snapshot snap startText endText) t).

(** A row as the syncs write it: its flags decode, its start is in the fixed layout,
    its received time is one of the tables', its ids are in range. *)
Definition entry_of (r : entry_row) : TimelineEntry :=
  match timeline_entry r with Ok e => e | Err _ => MkTimelineEntry r [] end.
Record presentable (r : entry_row) : Prop := Presentable {
  p_flags : is_ok (timeline_entry r) = true;
  p_corrected : fixed_text (tp_CorrectedStartUTC (rval r));
  p_received : stored_time (tp_ReceivedAtUTC (rval r));
  p_type : one_of ["raw_event"; "heartbeat"; "media_segment"] (tp_SourceType (rval r)) = true;
  p_source : 0 < tp_SourceID (rval r) <= int64_max;
  p_id : 0 < rid r }.

Lemma order_keys_distinct (t : list entry_row) : ids_sorted t -> NoDup (map order_key t).
Proof.
  intros [Hs _]. induction t as [|r t IH]; [constructor|]. simpl in Hs |- *.
  apply StronglySorted_inv in Hs as [Hs Hr]. apply NoDup_cons. split; [|by apply IH].
  intros Hin. apply list_elem_of_fmap in Hin as (x & E & Hx). unfold order_key in E. injection E as _ _ _ _ E.
  rewrite Forall_forall in Hr. assert (rid r < rid x); [|lia]. apply Hr. apply list_elem_of_fmap. by exists x.
Qed.

Section Rows.
Context (t : list entry_row) (snap : Z) (startText endText : string).
Context (Hids : ids_sorted t).

Lemma timeline_rows_first limit c d : timeline_entries d = t -> tc_SnapshotID c = snap -> tc_CorrectedUTC c = "" ->
  timeline_rows c startText endText limit d = take (Z.to_nat (limit + 1)) (ordered_rows snap startText endText t).
Proof.
  intros Ed <- E. unfold timeline_rows, ordered_rows, by_key. rewrite Ed, E. f_equal.
  rewrite (sort_by_ext entry_before (fun x y => before timeline_compare (order_key x) (order_key y)))
    by (intros; apply key_before_lex).
  f_equal. apply filter_ext_in. intros r _. unfold in_snapshot. by rewrite andb_true_r.
Qed.

Lemma timeline_rows_next limit c d r : timeline_entries d = t -> tc_SnapshotID c = snap ->
  cursor_key c = order_key r -> String.eqb (tc_CorrectedUTC c) "" = false ->
  timeline_rows c startText endText limit d = take (Z.to_nat (limit + 1))
    (List.filter (fun x => before timeline_compare (order_key r) (order_key x)) (ordered_rows snap startText endText t)).
Proof.
  intros Ed <- Ek Ec. unfold timeline_rows, ordered_rows. rewrite Ed, Ek, Ec. f_equal.
  rewrite (sort_by_ext entry_before (fun x y => before timeline_compare (order_key x) (order_key y)))
    by (intros; apply key_before_lex).
  rewrite <- by_key_filter by (apply _ || by apply NoDup_map_filter, order_keys_distinct).
  unfold by_key. f_equal. rewrite filter_filter_and. apply filter_ext_in. intros x _.
  unfold in_snapshot. by rewrite key_before_lex.
Qed.
End Rows.

Lemma timeline_entries_of_ok rows : Forall presentable rows -> timeline_entries_of rows = Ok (map entry_of rows).
Proof.
  induction 1 as [|r rows [Hf _ _ _ _ _] _ IH]; [done|]. cbn [timeline_entries_of map]. unfold entry_of at 1.
  destruct (timeline_entry r); [|done]. cbn [rbind]. by rewrite IH.
Qed.

Lemma entry_of_row r : te_Row (entry_of r) = r.
Proof. unfold entry_of, timeline_entry. repeat case_match; simplify_eq; done. Qed.

Section Reading.
Context `{SJ : SqliteJson} `{F : Float64} `{SR : SqliteReal}.
Context (st : Store) (start finish : time) (limit : Z) (ua : duration) (mf : Z).

(** A client that follows the cursors, each request on the database as it is by
    then: the entries it got, and how its reading ended. *)
Inductive reading := Finished | Unfinished | Refused (e : error).
Fixpoint read_timeline (cursorText : string) (dbs : list database) : list TimelineEntry * reading :=
  match dbs with
  | [] => ([], Unfinished)
  | d :: ds =>
    match outcome (QueryTimeline st Acquired start finish cursorText limit ua mf) d [] with
    | Err e => ([], Refused e)
    | Ok p => if String.eqb (tg_NextCursor p) "" then (tg_Entries p, Finished)
              else let '(es, r) := read_timeline (tg_NextCursor p) ds in (tg_Entries p ++ es, r)
    end
  end.

(** The page that shows the rows [R] of the snapshot [snap] from its start. *)
Definition page_at (snap : Z) (R : list entry_row) : TimelinePage :=
  if limit <? Z.of_nat (length R) then
    let es := map entry_of (take (Z.to_nat limit) R) in
    MkTimelinePage (fixedUTC start) (fixedUTC finish) snap es (next_cursor (fixedUTC start) (fixedUTC finish) snap es)
  else MkTimelinePage (fixedUTC start) (fixedUTC finish) snap (map entry_of R) "".

Context (Hlimit : 1 <= limit <= maxPageSize st) (Hua : 0 <= ua) (Hmf : 1 <= mf).
Context (Hrange : start < finish) (Hys : four_digit_year start) (Hyf : four_digit_year finish).

(** The end of [QueryTimeline], from the rows it selected. *)
Lemma finish_page snap R : Forall presentable R ->
  forall (d : database), (let* rows := query CodeQueryFailed (fun _ => take (Z.to_nat (limit + 1)) R) in
    let* entries := mlift (timeline_entries_of rows) in
    if limit <? Z.of_nat (length entries) then
      let entries := take (Z.to_nat limit) entries in
      mret (MkTimelinePage (fixedUTC start) (fixedUTC finish) snap entries
              (next_cursor (fixedUTC start) (fixedUTC finish) snap entries))
    else mret (MkTimelinePage (fixedUTC start) (fixedUTC finish) snap entries "")) d [] = (Ok (page_at snap R), d, []).
Proof.
  intros HR d. unfold mbind at 1. cbn [query stmt tail]. unfold mbind at 1.
  rewrite timeline_entries_of_ok by (by apply Forall_take). cbn [mlift mret].
  rewrite length_map, length_take. unfold page_at.
  destruct (Z.ltb_spec limit (Z.of_nat (length R))), (Z.ltb_spec limit (Z.of_nat (Z.to_nat (limit + 1) `min` length R))); try lia.
  - cbn [mret]. rewrite <- fmap_take, take_take, Nat.min_l by lia. done.
  - cbn [mret]. by rewrite take_ge by lia.
Qed.

Lemma guards_pass : negb (start <? finish) || (limit <? 1) || (maxPageSize st <? limit) || (ua <? 0) || (mf <? 1) = false.
Proof.
  destruct (Z.ltb_spec start finish), (Z.ltb_spec limit 1), (Z.ltb_spec (maxPageSize st) limit), (Z.ltb_spec ua 0),
    (Z.ltb_spec mf 1); try lia; done.
Qed.

Lemma first_page d0 d1 (snap := max_id (timeline_entries d1)) :
  syncTimelineProjection (maxTimelineProjectionBytes st) Acquired start finish ua mf "" false d0 [] = (Ok tt, d1, []) ->
  ids_sorted (timeline_entries d1) ->
  Forall presentable (ordered_rows snap (fixedUTC start) (fixedUTC finish) (timeline_entries d1)) ->
  outcome (QueryTimeline st Acquired start finish "" limit ua mf) d0 []
    = Ok (page_at snap (ordered_rows snap (fixedUTC start) (fixedUTC finish) (timeline_entries d1))).
Proof.
  intros Hs Hids HR. unfold outcome, QueryTimeline. rewrite guards_pass. change (String.eqb "" "") with true. cbv zeta.
  unfold mbind at 1. unfold mbind at 1. rewrite Hs. unfold mbind at 1. cbn [query stmt tail mret].
  fold snap. set (c := TimelineCursor 1 _ _ snap _ _ _ _ _).
  pose proof (finish_page snap _ HR d1) as Hf. unfold mbind at 1 in Hf. cbn [query stmt tail] in Hf.
  unfold mbind at 1. cbn [query stmt tail].
  rewrite (timeline_rows_first (timeline_entries d1) snap _ _ limit c d1) by done. cbn [tc_SnapshotID c] in *. by rewrite Hf.
Qed.

Lemma next_page txt c r d t snap : ids_sorted (timeline_entries d) ->
  decodeTimelineCursor txt = Ok c -> String.eqb txt "" = false ->
  tc_RangeStartUTC c = fixedUTC start -> tc_RangeEndUTC c = fixedUTC finish -> tc_SnapshotID c = snap ->
  cursor_key c = order_key r -> String.eqb (tc_CorrectedUTC c) "" = false ->
  ordered_rows snap (fixedUTC start) (fixedUTC finish) (timeline_entries d) = t ->
  Forall presentable t ->
  outcome (QueryTimeline st Acquired start finish txt limit ua mf) d []
    = Ok (page_at snap (List.filter (fun x => before timeline_compare (order_key r) (order_key x)) t)).
Proof.
  intros Hids Hc He Es Ef En Ek Ecu <- HR. unfold outcome, QueryTimeline. rewrite guards_pass, He. cbv zeta.
  set (R := List.filter _ _). assert (HR' : Forall presentable R).
  { rewrite Forall_forall in HR |- *. intros x Hx. apply elem_of_filter_by in Hx as [Hx _]. by apply HR. }
  unfold mbind at 1. unfold mbind at 1. rewrite Hc. cbn [mlift mret]. rewrite Es, Ef, !String.eqb_refl. cbn [andb mret].
  pose proof (finish_page snap R HR' d) as Hf. unfold mbind at 1 in Hf. cbn [query stmt tail] in Hf.
  unfold mbind at 1. cbn [query stmt tail].
  rewrite (timeline_rows_next (timeline_entries d) snap _ _ Hids limit c d r) by done. fold R. rewrite En. by rewrite Hf.
Qed.

(** The cursor of a page that is not the last. *)
Lemma page_cursor_ok snap r : presentable r -> rid r <= snap <= int64_max ->
  cursor_ok (TimelineCursor 1 (fixedUTC start) (fixedUTC finish) snap (tp_CorrectedStartUTC (rval r))
    (tp_ReceivedAtUTC (rval r)) (tp_SourceType (rval r)) (tp_SourceID (rval r)) (rid r)).
Proof.
  intros [_ Hc Hr Ht Hs Hi] Hn. split; cbn; [done|..]; try done; try lia. by exists start, finish.
Qed.

Lemma fixed_text_nonempty s : fixed_text s -> String.eqb s "" = false.
Proof. intros H. destruct (fixed_text_facts s H) as (_ & Hl & _). destruct (String.eqb_spec s "") as [->|]; done. Qed.

Lemma encoded_nonempty c : String.eqb (encodeTimelineCursor c) "" = false.
Proof.
  destruct (String.eqb_spec (encodeTimelineCursor c) "") as [E|]; [exfalso|done].
  assert (Hl : slen (encodeTimelineCursor c) = 0) by (by rewrite E).
  unfold encodeTimelineCursor in Hl. rewrite slen_EncodeToString in Hl. unfold marshal_struct in Hl.
  cbn [map join fst snd] in Hl. rewrite !slen_app in Hl. cbn [slen] in Hl.
  repeat match type of Hl with context [slen ?x] =>
    lazymatch goal with H : 0 <= slen x |- _ => fail | _ => pose proof (slen_nonneg x) end end.
  match type of Hl with ?a / 3 = 0 => assert (1 <= a / 3) by (apply Z.div_le_lower_bound; lia) end. lia.
Qed.

(** A page that is not the last ends in a row whose cursor leads to the rest. *)
Lemma page_continues all snap n : Forall (fun r => presentable r /\ rid r <= snap) all ->
  limit < Z.of_nat (length (drop n all)) ->
  exists r, list.last (take (n + Z.to_nat limit) all) = Some r /\ presentable r /\ rid r <= snap
    /\ page_at snap (drop n all) = MkTimelinePage (fixedUTC start) (fixedUTC finish) snap
         (map entry_of (take (Z.to_nat limit) (drop n all)))
         (encodeTimelineCursor (TimelineCursor 1 (fixedUTC start) (fixedUTC finish) snap (tp_CorrectedStartUTC (rval r))
           (tp_ReceivedAtUTC (rval r)) (tp_SourceType (rval r)) (tp_SourceID (rval r)) (rid r))).
Proof.
  intros Hall Hlt. set (l := Z.to_nat limit).
  destruct (list.last (take l (drop n all))) as [r|] eqn:Hlast; cycle 1.
  { apply last_None in Hlast. assert (Hx : length (take l (drop n all)) = 0%nat) by (by rewrite Hlast).
    rewrite length_take in Hx. lia. }
  exists r. split; [by rewrite <- take_take_drop, last_app, Hlast|].
  assert (Hr : presentable r /\ rid r <= snap).
  { rewrite Forall_forall in Hall. apply Hall. apply last_Some_elem_of, elem_of_take in Hlast as (i & Hi & _).
    rewrite lookup_drop in Hi. by eapply list_elem_of_lookup_2. }
  split; [apply Hr|]. split; [apply Hr|]. unfold page_at. fold l.
  destruct (Z.ltb_spec limit (Z.of_nat (length (drop n all)))) as [_|Hge]; [|lia]. cbv zeta. f_equal.
  unfold next_cursor. change (map entry_of ?x) with (entry_of <$> x). rewrite fmap_last, Hlast.
  cbn [fmap option_fmap option_map]. unfold te_Value, te_ID. by rewrite entry_of_row.
Qed.

Lemma read_timeline_page txt d ds p : outcome (QueryTimeline st Acquired start finish txt limit ua mf) d [] = Ok p ->
  read_timeline txt (d :: ds) = if String.eqb (tg_NextCursor p) "" then (tg_Entries p, Finished)
    else let '(es, r) := read_timeline (tg_NextCursor p) ds in (tg_Entries p ++ es, r).
Proof. intros H. cbn [read_timeline]. by rewrite H. Qed.

(** A request with a cursor that cannot be read back. *)
Lemma refused_page txt d ds : String.eqb txt "" = false -> decodeTimelineCursor txt = Err (StoreError CodeTimelineCursor) ->
  read_timeline txt (d :: ds) = ([], Refused (StoreError CodeTimelineCursor)).
Proof.
  intros He Hd. cbn [read_timeline]. unfold outcome, QueryTimeline. rewrite guards_pass, He. cbv zeta.
  unfold mbind at 1. unfold mbind at 1. by rewrite Hd.
Qed.

(** The row that ends the first [n] rows has a received time in the fixed layout. *)
Definition ends_fixed (all : list entry_row) (n : nat) : Prop :=
  exists r, all !! (n - 1)%nat = Some r /\ fixed_text (tp_ReceivedAtUTC (rval r)).
Definition ends_trimmed (all : list entry_row) (n : nat) : Prop :=
  exists r, all !! (n - 1)%nat = Some r /\ ~ fixed_text (tp_ReceivedAtUTC (rval r)).

(** What the reading of [all] from row [n] on gives: all of them, when every page that
    is not the last ends in such a row; otherwise the pages up to the first that
    does not, whose cursor is refused. *)
Definition reads_from (all : list entry_row) (n : nat) (res : list TimelineEntry * reading) : Prop :=
  let l := Z.to_nat limit in
  ((forall k, (1 <= k)%nat -> (n + k * l < length all)%nat -> ends_fixed all (n + k * l)) /\
   res = (map entry_of (drop n all), Finished)) \/
  exists k, (1 <= k)%nat /\ (n + k * l < length all)%nat /\ ends_trimmed all (n + k * l) /\
    (forall j, (1 <= j < k)%nat -> ends_fixed all (n + j * l)) /\
    res = (map entry_of (take (k * l) (drop n all)), Refused (StoreError CodeTimelineCursor)).

(** One more page in front. *)
Lemma reads_page all n es r : let l := Z.to_nat limit in ends_fixed all (n + l) -> reads_from all (n + l) (es, r) ->
  reads_from all n (map entry_of (take l (drop n all)) ++ es, r).
Proof.
  unfold reads_from. cbv zeta. set (l := Z.to_nat limit). intros Hend [[Hall [= -> ->]]|(k & Hk & Hlt & Ht & Hj & [= -> ->])].
  - left. split.
    + intros k Hk Hlt. destruct k as [|[|k]]; [lia|by rewrite Nat.mul_1_l|].
      replace (n + S (S k) * l)%nat with (n + l + S k * l)%nat in * by lia. apply Hall; [lia|done].
    + rewrite <- map_app, <- drop_drop. by rewrite take_drop.
  - right. exists (S k). split; [lia|]. replace (n + S k * l)%nat with (n + l + k * l)%nat by lia.
    split; [done|]. split; [done|]. split.
    + intros j Hjk. destruct j as [|[|j]]; [lia|by rewrite Nat.mul_1_l|].
      replace (n + S (S j) * l)%nat with (n + l + S j * l)%nat by lia. apply Hj. lia.
    + by rewrite <- map_app, <- drop_drop, take_take_drop.
Qed.

(** Reading on, when the next request shows what follows the first [n] rows. *)
Lemma read_rest all snap : snap <= int64_max -> StronglySorted (key_lt timeline_compare order_key) all ->
  Forall (fun r => presentable r /\ rid r <= snap) all ->
  forall dbs, Forall (fun d => ids_sorted (timeline_entries d)
    /\ ordered_rows snap (fixedUTC start) (fixedUTC finish) (timeline_entries d) = all) dbs ->
  forall n txt d,
    outcome (QueryTimeline st Acquired start finish txt limit ua mf) d [] = Ok (page_at snap (drop n all)) ->
    Z.of_nat (length (drop n all)) <= limit * Z.of_nat (length (d :: dbs)) ->
    reads_from all n (read_timeline txt (d :: dbs)).
Proof.
  intros Hsnap Hsorted Hall dbs Hdbs. set (l := Z.to_nat limit).
  induction Hdbs as [|d2 dbs [Hids2 Hall2] Hdbs IH]; intros n txt d Hpage Hlen;
    rewrite (read_timeline_page _ _ _ _ Hpage);
    (destruct (Z.le_gt_cases (Z.of_nat (length (drop n all))) limit) as [Hle|Hlt];
      [left; split;
        [intros k Hk Hn; exfalso; rewrite length_drop in Hle; fold l in Hn; assert (l <= k * l)%nat by (destruct k; lia); lia
        |unfold page_at; destruct (Z.ltb_spec limit (Z.of_nat (length (drop n all)))); [lia|done]]|]);
    cbn [length] in Hlen; [lia|].
  destruct (page_continues all snap n Hall ltac:(lia)) as (r & Hlast & Hp & Hrs & ->).
  pose proof (decode_encode_timeline _ (page_cursor_ok snap r Hp ltac:(lia))) as Hdec.
  cbn [tg_NextCursor tg_Entries tc_ReceivedUTC] in *. rewrite encoded_nonempty.
  set (c := TimelineCursor _ _ _ _ _ _ _ _ _) in *.
  destruct (stored_time_facts _ (p_received _ Hp)) as (_ & _ & Hknown).
  assert (Hrow : all !! (n + l - 1)%nat = Some r).
  { rewrite last_lookup, length_take in Hlast. rewrite length_drop in Hlt. fold l in Hlast.
    rewrite Nat.min_l in Hlast by lia. rewrite lookup_take in Hlast. rewrite decide_True in Hlast by lia.
    by replace (n + l - 1)%nat with (pred (n + l)) by lia. }
  destruct (known_time (tp_ReceivedAtUTC (rval r))) eqn:Hk.
  - assert (Hnext : outcome (QueryTimeline st Acquired start finish (encodeTimelineCursor c) limit ua mf) d2 []
      = Ok (page_at snap (drop (n + l) all))).
    { rewrite <- (after_page timeline_compare order_key (n + l) r all Hsorted Hlast).
      apply (next_page _ c); [done|done|by apply encoded_nonempty|reflexivity..| |done|].
      - apply fixed_text_nonempty, Hp.
      - eapply Forall_impl; [exact Hall|]. intros x Hx. apply Hx. }
    pose proof (IH (n + l)%nat _ _ Hnext) as Hrest. destruct (read_timeline _ _) as [es x].
    apply reads_page; [exists r; split; [done|by apply Hknown]|]. apply Hrest.
    rewrite <- drop_drop, length_drop. cbn [length]. lia.
  - rewrite (refused_page _ d2 dbs (encoded_nonempty c) Hdec). rewrite app_nil_r. right. exists 1%nat.
    rewrite !Nat.mul_1_l. rewrite length_drop in Hlt. fold l. split; [lia|]. split; [lia|]. split.
    + exists r. split; [done|]. intros Hf. apply Hknown in Hf. congruence.
    + split; [lia|done].
Qed.

Lemma ordered_rows_snapshot snap a b (t1 t2 : list entry_row) :
  List.filter (fun r => rid r <=? snap) t1 = List.filter (fun r => rid r <=? snap) t2 ->
  ordered_rows snap a b t1 = ordered_rows snap a b t2.
Proof.
  intros E. unfold ordered_rows. f_equal.
  assert (H : forall t, List.filter (in_snapshot snap a b) t
    = List.filter (fun r => text_le a (tp_CorrectedStartUTC (rval r)) && String.ltb (tp_CorrectedStartUTC (rval r)) b)
        (List.filter (fun r => rid r <=? snap) t)).
  { intros t. rewrite filter_filter_and. apply filter_ext_in. intros r _. unfold in_snapshot. by rewrite andb_assoc. }
  by rewrite !H, E.
Qed.

End Reading.

(** ** Concrete runs *)
Definition event_and_segment : database := state_after (AppendBatch sample_store sample_time [sample_event]) one_segment [].
Definition synced : database :=
  state_after (syncTimelineProjection 33554432 Acquired noon (noon + hour) hour 10 "" false) event_and_segment [].

Lemma two_rows_ok {A} (x y : A) : ids_sorted [Row 1 x; Row 2 y].
Proof. split; repeat constructor. Qed.

Definition fixedb (s : string) : bool :=
  match parse_fixed s with
  | Some t => in_range 0 9999 (year_of (t / day_ns)) && String.eqb s (format_fixed t)
  | None => false
  end.
Definition storedb (s : string) : bool :=
  fixedb s || match parse_rfc3339nano s with
              | Some t => in_range 0 9999 (year_of (t / day_ns)) && String.eqb s (format_rfc3339nano t)
              | None => false
              end.
Definition presentableb (r : entry_row) : bool :=
  is_ok (timeline_entry r) && fixedb (tp_CorrectedStartUTC (rval r)) && storedb (tp_ReceivedAtUTC (rval r))
  && one_of ["raw_event"; "heartbeat"; "media_segment"] (tp_SourceType (rval r))
  && in_range 1 int64_max (tp_SourceID (rval r)) && (0 <? rid r).

Lemma fixedb_ok s : fixedb s = true -> fixed_text s.
Proof.
  unfold fixedb. destruct (parse_fixed s) as [t|]; [|done]. unfold in_range. intros H. to_prop. by exists t.
Qed.

Lemma storedb_ok s : storedb s = true -> stored_time s.
Proof.
  unfold storedb. intros H. apply orb_true_iff in H as [H|H].
  - apply fixedb_ok in H as (t & ? & ?). exists t. auto.
  - destruct (parse_rfc3339nano s) as [t|]; [|done]. unfold in_range in H. to_prop. exists t. split; [split; lia|auto].
Qed.

Lemma presentableb_ok l : forallb presentableb l = true -> Forall presentable l.
Proof.
  induction l as [|r l IH]; [constructor|]. cbn [forallb]. intros H. apply andb_true_iff in H as [Hr H].
  constructor; [|by apply IH]. unfold presentableb, in_range in Hr. to_prop.
  split; [done|by apply fixedb_ok|by apply storedb_ok|done|lia|done].
Qed.

Definition two_heartbeats : database :=
  state_after (AppendHeartbeatBatch heartbeat_store sample_time
    [sample_heartbeat; heartbeat_text "2024-02-29T20:40:00+08:00" "2024-02-29T12:41:00Z" "0" "h2"]) empty_database [].
Definition two_synced : database :=
  state_after (syncTimelineProjection 33554432 Acquired noon (noon + hour) hour 10 "" false) two_heartbeats [].
Definition heartbeats_query (txt : string) : M database TimelinePage :=
  QueryTimeline sample_store Acquired noon (noon + hour) txt 1 hour 10.

(** The received time of a heartbeat is copied with its fraction trimmed, while
    a cursor must hold it with nine digits: when a page ends in such a heartbeat and
    more rows follow, the cursor handed out is refused by the next request. *)
Theorem heartbeat_cursor_refused :
  exists p, outcome (heartbeats_query "") two_heartbeats [] = Ok p
    /\ tg_NextCursor p <> ""
    /\ outcome (heartbeats_query (tg_NextCursor p)) (state_after (heartbeats_query "") two_heartbeats []) []
       = Err (StoreError CodeTimelineCursor).
Proof.
  destruct (outcome (heartbeats_query "") two_heartbeats []) as [p|e] eqn:E; [|vm_compute in E; discriminate].
  exists p. split; [done|]. vm_compute in E. injection E as <-. split; [done|]. vm_compute. reflexivity.
Qed.

