(* ===== verification/CoverageStore.v ===== *)
(** * The coverage projection ([eventstore/coverage.go])

    Rebuilds, collector by collector, the stored coverage intervals from the
    timeline, and marks the projection of a collector stale when that fails. *)

From Stdlib Require Import ZArith Lia String Ascii.
From S2P Require Import Prelude GoStrings GoTime GoJson GoTimeFacts Order Base64 Sql Schema Keyed Events Heartbeats Platform Config Coverage MediaStore Timeline.
Open Scope string_scope.
Open Scope list_scope.
Open Scope result_scope.
Open Scope db_scope.
Open Scope Z_scope.

Definition CodeCoverageRangeInvalid : string := "COVERAGE_RANGE_INVALID".
Definition CodeCoverageBuildFailed : string := "COVERAGE_BUILD_FAILED".
(** Not a code of the service: stands for a call that does not return. *)
Definition NoReturn : string := "(no return)".

Record CoverageInterval := MkCoverageInterval {
  cv_ID : Z; cv_CollectorID : string; cv_StartUTC : string; cv_EndUTC : string; cv_Availability : string;
  cv_QualityFlags : list string; cv_ReasonCode : string; cv_Generation : Z; cv_BuiltAtUTC : string }.

Record CoverageProjectionStatus := MkCoverageProjectionStatus {
  cp_CollectorID : string; cp_RangeStartUTC : string; cp_RangeEndUTC : string; cp_Generation : Z;
  cp_Status : string; cp_ErrorCode : string; cp_FactWatermark : Z; cp_BuiltAtUTC : string }.

Record CoverageResult := MkCoverageResult {
  cr_RangeStartUTC : string; cr_RangeEndUTC : string;
  cr_Projections : list CoverageProjectionStatus; cr_Intervals : list CoverageInterval }.

(** ** Facts from the timeline *)

(** A field of type [map[string]json.RawMessage]: every object adds its members
    to the map, [null] empties it, any other value is an error. *)
Fixpoint decode_map (acc : list (string * json)) (l : list json) : option (list (string * json)) :=
  match l with
  | [] => Some acc
  | JNull :: l' => decode_map [] l'
  | JObj ms :: l' => decode_map (acc ++ ms) l'
  | _ :: _ => None
  end.
(** Decoding one value into a string; on an error the string stays empty. *)
Definition decoded_string (v : option json) : string :=
  match v with Some (JStr s) => s | _ => "" end.
Definition map_value (key : string) (ms : list (string * json)) : option json :=
  List.last (map Some (map snd (List.filter (fun kv => String.eqb (fst kv) key) ms))) None.

Definition evidence (start finish : time) (flags : list string) (stableID availability reason : string) (priority : Z)
    : option Fact := Some (MkFact start finish availability flags reason priority stableID).

Definition heartbeat_fact (start finish : time) (flags : list string) (p : timelineProjection)
    : result error (option Fact) :=
  match (let! root := unmarshal (tp_PayloadJSON p) in
         let! ms := struct_members root in decode_last string_of "" (field_values "state" ms)) with
  | None => Err (StoreError CodeCoverageBuildFailed)
  | Some state =>
    Ok (if String.eqb state HeartbeatStateIdle
        then evidence start finish flags (tp_StableID p) ConfirmedIdle "HEARTBEAT_IDLE" 30
        else evidence start finish flags (tp_StableID p) Covered "HEARTBEAT_ACTIVE" 30)
  end.

Definition activitywatch_fact (start finish : time) (flags : list string) (p : timelineProjection) : option Fact :=
  let! root := unmarshal (tp_PayloadJSON p) in
  let! ms := struct_members root in
  let! bucketType := decode_last string_of "" (field_values "bucket_type" ms) in
  let! data := decode_map [] (field_values "data" ms) in
  if String.eqb (decoded_string (map_value "status" data)) "afk"
     && one_of ["afkstatus"; "currentafkstatus"] bucketType
  then evidence start finish flags (tp_StableID p) ConfirmedIdle "ACTIVITYWATCH_AFK" 40
  else evidence start finish flags (tp_StableID p) Covered "ACTIVITYWATCH_EVENT" 20.

(** The second result of the code, whether the fact is usable, is the option. *)
Definition timelineCoverageFact (p : timelineProjection) : result error (option Fact) :=
  let failed := StoreError CodeCoverageBuildFailed in
  if String.eqb (tp_CorrectedEndUTC p) "" then Ok None
  else match parse_fixed (tp_CorrectedStartUTC p), parse_fixed (tp_CorrectedEndUTC p) with
  | Some start, Some finish =>
    guard? negb (finish <? start) else failed in
    if start =? finish then Ok None
    else match (let! v := unmarshal (tp_QualityFlagsJSON p) in strings_field (Some v)) with
    | None => Err failed
    | Some flags =>
      if String.eqb (tp_SourceType p) "heartbeat" then heartbeat_fact start finish flags p
      else if String.eqb (tp_SourceType p) "raw_event" then
        Ok (if String.eqb (tp_EventType p) "activitywatch.event" then activitywatch_fact start finish flags p else None)
      else if String.eqb (tp_SourceType p) "media_segment" then
        Ok (evidence start finish flags (tp_StableID p) Covered "MEDIA_ACCEPTED" 30)
      else Err failed
    end
  | _, _ => Err failed
  end.

(** The rows the query selects, in its order. *)
Definition fact_row (collectorID lo hi : string) (r : row timelineProjection) : bool :=
  let p := rval r in
  String.eqb (tp_CollectorID p) collectorID && String.ltb (tp_CorrectedStartUTC p) hi
  && negb (String.eqb (tp_CorrectedEndUTC p) "") && String.ltb lo (tp_CorrectedEndUTC p)
  && String.ltb (tp_CorrectedStartUTC p) (tp_CorrectedEndUTC p)
  && (one_of ["heartbeat"; "media_segment"] (tp_SourceType p)
      || (String.eqb (tp_SourceType p) "raw_event" && String.eqb (tp_EventType p) "activitywatch.event")).
Definition fact_row_before (a b : row timelineProjection) : bool :=
  String.ltb (tp_CorrectedStartUTC (rval a)) (tp_CorrectedStartUTC (rval b))
  || (String.eqb (tp_CorrectedStartUTC (rval a)) (tp_CorrectedStartUTC (rval b)) && (rid a <? rid b)).
Definition fact_rows (collectorID lo hi : string) (d : database) : list (row timelineProjection) :=
  sort_by fact_row_before (List.filter (fact_row collectorID lo hi) (timeline_entries d)).

(** The loop over the rows: the usable facts and the largest id among them. *)
Fixpoint read_facts (maxFacts : Z) (rows : list (row timelineProjection)) (facts : list Fact) (watermark : Z)
    : result error (list Fact * Z) :=
  match rows with
  | [] => Ok (facts, watermark)
  | r :: rest =>
    let? usable := timelineCoverageFact (rval r) in
    match usable with
    | None => read_facts maxFacts rest facts watermark
    | Some fact =>
      guard? negb (maxFacts <=? Z.of_nat (length facts)) else StoreError CodeTimelineFactLimit in
      read_facts maxFacts rest (facts ++ [fact]) (if watermark <? rid r then rid r else watermark)
    end
  end.

(** ** Storing the intervals *)
Section Store.
Context `{SqliteJson} `{Zones} `{Floats}.

(** The trigger [coverage_intervals_reject_insert_overlap]; the UNIQUE constraint
    of the table follows from it. *)
Definition overlaps (i j : CoverageIntervalRow) : bool :=
  String.eqb (ci_CollectorID j) (ci_CollectorID i) && String.ltb (ci_StartUTC j) (ci_EndUTC i)
  && String.ltb (ci_StartUTC i) (ci_EndUTC j).
Definition insert_interval (i : CoverageIntervalRow) (d : database) : result fault (Z * database) :=
  let t := coverage_intervals d in
  if existsb (fun r => overlaps i (rval r)) t || negb (check_coverage_interval i) then Err constraint_fault
  else Ok (next_id t, with_coverage_intervals d (insert_row i t)).

Definition coverage_generation (collectorID : string) (d : database) : Z :=
  match find_first (fun s => String.eqb (cs_CollectorID s) collectorID) (coverage_projection_state d) with
  | Some s => cs_Generation s
  | None => 0
  end.

(** [INSERT ... ON CONFLICT(collector_id) DO UPDATE]: [f] gives the row that
    replaces an existing one. *)
Fixpoint put_state (s : CoverageStateRow) (f : CoverageStateRow -> CoverageStateRow) (l : list CoverageStateRow)
    : list CoverageStateRow :=
  match l with
  | [] => [s]
  | x :: t => if String.eqb (cs_CollectorID x) (cs_CollectorID s) then f x :: t else x :: put_state s f t
  end.
Definition save_state (s : CoverageStateRow) (f : CoverageStateRow -> CoverageStateRow) (d : database)
    : result fault (unit * database) :=
  if check_coverage_state s
  then Ok (tt, with_coverage_projection_state d (put_state s f (coverage_projection_state d)))
  else Err constraint_fault.

Definition interval_row (collectorID : string) (generation : Z) (builtAt : string) (i : Interval) : CoverageIntervalRow :=
  MkCoverageIntervalRow collectorID (fixedUTC (iv_Start i)) (fixedUTC (iv_End i)) (iv_Availability i)
    (qualityJSON (iv_QualityFlags i) false) (iv_ReasonCode i) generation builtAt.
Definition stored_interval (collectorID : string) (generation : Z) (builtAt : string) (i : Interval) (id : Z) : CoverageInterval :=
  MkCoverageInterval id collectorID (fixedUTC (iv_Start i)) (fixedUTC (iv_End i)) (iv_Availability i)
    (iv_QualityFlags i) (iv_ReasonCode i) generation builtAt.

(** One insert of the loop. *)
Definition insert_one (collectorID : string) (generation : Z) (builtAt : string) (i : Interval) : M database CoverageInterval :=
  let* n := stmt CodeCoverageBuildFailed (insert_interval (interval_row collectorID generation builtAt i)) in
  mret (stored_interval collectorID generation builtAt i n).

(** The transaction of the rebuild. *)
Definition replace_coverage (c : CollectorConfig) (start finish : time) (builtAt : string) (intervals : list Interval)
    (watermark : Z) : M database (CoverageProjectionStatus * list CoverageInterval) :=
  transaction CodeCoverageBuildFailed CodeCoverageBuildFailed
    (let* generation := query CodeCoverageBuildFailed (coverage_generation (co_ID c)) in
     let generation := generation + 1 in
     let* _ := stmt CodeCoverageBuildFailed (fun d => Ok (tt, with_coverage_intervals d
       (List.filter (fun r => negb (String.eqb (ci_CollectorID (rval r)) (co_ID c))) (coverage_intervals d)))) in
     let* stored := mmap (insert_one (co_ID c) generation builtAt) intervals in
     let state := MkCoverageStateRow (co_ID c) (fixedUTC start) (fixedUTC finish) generation "fresh" None watermark builtAt in
     let* _ := stmt CodeCoverageBuildFailed (save_state state (fun _ => state)) in
     mret (MkCoverageProjectionStatus (co_ID c) (fixedUTC start) (fixedUTC finish) generation "fresh" "" watermark builtAt,
           stored)).

Definition build_intervals (c : CollectorConfig) (start finish now : time) (facts : list Fact)
    : result error (list Interval) :=
  match Build c start finish now facts with
  | Ok ivs => Ok ivs
  | Err Endless => Err (StoreError NoReturn)
  | Err _ => Err (StoreError CodeCoverageBuildFailed)
  end.

Definition rebuildCollectorCoverage (builtAt : string) (c : CollectorConfig) (start finish now : time) (maxFacts : Z)
    : M database (CoverageProjectionStatus * list CoverageInterval) :=
  let* rows := query CodeCoverageBuildFailed
    (fact_rows (co_ID c) (fixedUTC (start - OfflineAfterDuration c)) (fixedUTC finish)) in
  let* (facts, watermark) := mlift (read_facts maxFacts rows [] 0) in
  let* intervals := mlift (build_intervals c start finish now facts) in
  replace_coverage c start finish builtAt intervals watermark.

(** Its own failures are ignored. *)
Definition ignoring {A} (default : A) (m : M database A) : M database A := fun d o =>
  let '(r, d', o') := m d o in (Ok match r with Ok a => a | Err _ => default end, d', o').

Definition markCoverageStale (builtAt : string) (collectorID : string) (start finish : time) (e : error)
    : M database CoverageProjectionStatus :=
  let code := ErrorCode e in
  let code := if String.eqb code "" then CodeCoverageBuildFailed else code in
  let* generation := ignoring 0 (query CodeQueryFailed (coverage_generation collectorID)) in
  let generation := if generation <? 1 then 1 else generation in
  let state := MkCoverageStateRow collectorID (fixedUTC start) (fixedUTC finish) generation "stale" (Some code) 0 builtAt in
  let* _ := ignoring tt (stmt CodeWriteFailed (save_state state (fun x =>
    MkCoverageStateRow collectorID (fixedUTC start) (fixedUTC finish) (cs_Generation x) "stale" (Some code)
      (cs_FactWatermark x) builtAt))) in
  mret (MkCoverageProjectionStatus collectorID (fixedUTC start) (fixedUTC finish) generation "stale" code 0 builtAt).

(** [m], then [k] on what it returned or on its error. *)
Definition attempt {A B} (m : M database A) (k : result error A -> M database B) : M database B := fun d o =>
  let '(r, d', o') := m d o in k r d' o'.
End Store.

(** What the environment of a rebuild decides per collector: its turn of the
    timeline sync, whether the context is done when the build has failed, and the
    clock reading. *)
Record rebuild_env := RebuildEnv { re_turn : turn; re_cancelled : bool; re_builtAt : string }.

Section Rebuild.
Context `{SqliteJson} `{Zones} `{Floats} `{Float64} `{SqliteReal}.

Definition stops (codes : list string) (e : error) : bool := one_of (NoReturn :: codes) (ErrorCode e).

(** One enabled collector: its status and its intervals. *)
Definition rebuild_collector (maxBytes : Z) (env : rebuild_env) (c : CollectorConfig) (start finish now : time)
    (uncertainAfter : duration) (maxFacts : Z) : M database (CoverageProjectionStatus * list CoverageInterval) :=
  let stale e := let* status := markCoverageStale (re_builtAt env) (co_ID c) start finish e in mret (status, []) in
  attempt (syncTimelineProjection maxBytes (re_turn env) (start - OfflineAfterDuration c) finish uncertainAfter maxFacts
             (co_ID c) true)
    (fun r => match r with
     | Err e => if stops [CodeTimelineSyncBusy; CodeCanceled] e then mfail e else stale e
     | Ok _ =>
       attempt (rebuildCollectorCoverage (re_builtAt env) c start finish now maxFacts)
         (fun r => match r with
          | Err e => if stops [CodeCanceled] e || re_cancelled env then mfail e else stale e
          | Ok built => mret built
          end)
     end).

Definition RebuildCoverage (store : Store) (env : CollectorConfig -> rebuild_env) (collectors : list CollectorConfig)
    (start finish now : time) (uncertainAfter : duration) (maxFacts : Z) : M database CoverageResult :=
  if negb (start <? finish) || (maxFacts <? 1) then mfail (StoreError CodeCoverageRangeInvalid)
  else
    let* built := mmap (fun c => rebuild_collector (maxTimelineProjectionBytes store) (env c) c start finish now
                                   uncertainAfter maxFacts) (List.filter co_Enabled collectors) in
    mret (MkCoverageResult (fixedUTC start) (fixedUTC finish) (map fst built) (flat_map snd built)).
End Rebuild.
