(* ===== verification/CoverageRebuild.v ===== *)
(** * What a coverage rebuild promises

    The stored intervals of a collector are those [Build] computes from its
    timeline; the trigger against overlaps never rejects them; and a collector
    whose rebuild fails is marked stale without touching the others. *)

From Stdlib Require Import ZArith Lia String Ascii.
From S2P Require Import Prelude GoStrings GoTime GoJson FlatJson GoTimeFacts Order Base64 Sql Schema Keyed Events Heartbeats Platform Config Coverage MediaStore Timeline TimelineSync CoverageStore.
Open Scope string_scope.
Open Scope list_scope.
Open Scope result_scope.
Open Scope db_scope.
Open Scope Z_scope.

Section Table.
Context `{SJ : SqliteJson}.

Abbreviation table := (list (row CoverageIntervalRow)).
Definition owned (id : string) (r : row CoverageIntervalRow) : bool := String.eqb (ci_CollectorID (rval r)) id.
Definition others (id : string) (t : table) : table := List.filter (fun r => negb (owned id r)) t.
Definition of_collector (id : string) (t : table) : table := List.filter (owned id) t.

Record intervals_ok (t : table) : Prop := IntervalsOk {
  i_ids : ids_sorted t;
  i_disjoint : StronglySorted (fun a b => overlaps (rval a) (rval b) = false) t;
  i_checks : Forall (fun r => check_coverage_interval (rval r) = true) t }.

Lemma overlaps_sym i j : overlaps i j = overlaps j i.
Proof.
  unfold overlaps. rewrite (String.eqb_sym (ci_CollectorID j)). by rewrite <- !andb_assoc, (andb_comm (String.ltb (ci_StartUTC j) _)).
Qed.

Lemma ids_filter {A} (f : row A -> bool) (t : list (row A)) : ids_sorted t -> ids_sorted (List.filter f t).
Proof.
  intros [Hs Hp]. split.
  - clear Hp. induction t as [|r t IH]; [constructor|]. simpl in *. apply StronglySorted_inv in Hs as [Hs Hr].
    destruct (f r); [|by apply IH]. simpl. constructor; [by apply IH|]. rewrite Forall_forall in Hr |- *.
    intros x Hx. apply Hr. apply list_elem_of_fmap in Hx as (y & -> & Hy). apply elem_of_filter_by in Hy as [Hy _].
    apply list_elem_of_fmap. by exists y.
  - rewrite Forall_forall in Hp |- *. intros r Hr. apply elem_of_filter_by in Hr as [Hr _]. by apply Hp.
Qed.

Lemma intervals_ok_filter (f : row CoverageIntervalRow -> bool) t : intervals_ok t -> intervals_ok (List.filter f t).
Proof.
  intros [H1 H2 H3]. split; [by apply ids_filter|by apply filter_by_sorted|].
  rewrite Forall_forall in H3 |- *. intros r Hr. apply elem_of_filter_by in Hr as [Hr _]. by apply H3.
Qed.

Lemma sorted_snoc {A} (R : A -> A -> Prop) l x : StronglySorted R l -> (forall y, y ∈ l -> R y x) -> StronglySorted R (l ++ [x]).
Proof.
  intros Hs H. apply StronglySorted_app. split; [|split; [done|repeat constructor]].
  intros y z Hy Hz. apply list_elem_of_singleton in Hz as ->. by apply H.
Qed.

Lemma insert_interval_inv i d id d' : insert_interval i d = Ok (id, d') -> intervals_ok (coverage_intervals d) ->
  id = next_id (coverage_intervals d)
  /\ d' = with_coverage_intervals d (insert_row i (coverage_intervals d))
  /\ intervals_ok (insert_row i (coverage_intervals d)).
Proof.
  unfold insert_interval. set (t := coverage_intervals d). intros H [Hi Hd Hc].
  destruct (existsb _ t || _) eqn:E; [done|]. injection H as <- <-. to_prop.
  split; [done|]. split; [done|]. split.
  - by apply insert_row_sorted.
  - apply sorted_snoc; [done|]. intros y Hy. rewrite overlaps_sym.
    match goal with H : existsb _ t = false |- _ => exact (existsb_false _ _ H y Hy) end.
  - apply Forall_app. split; [done|]. by constructor.
Qed.

(** ** The loop of inserts *)
Section Inserts.
Context (id : string) (generation : Z) (builtAt : string).
Abbreviation to_row := (interval_row id generation builtAt).

Definition insert_all (t : table) (ivs : list Interval) : table := foldl (fun t i => insert_row (to_row i) t) t ivs.
(** The result of an insert is the row it made. *)
Definition is_stored (t : table) (i : Interval) (v : CoverageInterval) : Prop :=
  exists n, v = stored_interval id generation builtAt i n /\ Row n (to_row i) ∈ t.

Lemma insert_all_app ivs : forall t, exists rows, insert_all t ivs = t ++ rows /\ map rval rows = map to_row ivs.
Proof.
  induction ivs as [|i ivs IH]; intros t; [exists []; by rewrite app_nil_r|].
  destruct (IH (insert_row (to_row i) t)) as (rows & E & Er). exists (Row (next_id t) (to_row i) :: rows).
  change (insert_all t (i :: ivs)) with (insert_all (insert_row (to_row i) t) ivs). rewrite E.
  unfold insert_row. rewrite <- app_assoc. split; [done|]. cbn. by rewrite Er.
Qed.

Lemma inserts_inv ivs : forall k d o vs d' o',
  mmapi k (fun _ => insert_one id generation builtAt) ivs d o = (Ok vs, d', o') -> intervals_ok (coverage_intervals d) ->
  d' = with_coverage_intervals d (insert_all (coverage_intervals d) ivs)
  /\ intervals_ok (insert_all (coverage_intervals d) ivs)
  /\ Forall2 (is_stored (insert_all (coverage_intervals d) ivs)) ivs vs.
Proof.
  induction ivs as [|i ivs IH]; intros k d o vs d' o' H Hok; cbn [mmapi] in H.
  - inv_m H. split; [by destruct d|]. split; [done|constructor].
  - unfold insert_one at 1 in H. inv_m H. apply mbind_inv in Hm as (n & dx & ox & Hi & Hm). inv_m Hm.
    apply stmt_inv in Hi. apply insert_interval_inv in Hi as (-> & -> & Hok1); [|done].
    apply IH in Hm0 as (-> & Hok2 & HF); [|done]. cbn [coverage_intervals with_coverage_intervals] in *.
    split; [done|]. split; [done|]. constructor; [|done].
    exists (next_id (coverage_intervals d)). split; [done|].
    destruct (insert_all_app ivs (insert_row (to_row i) (coverage_intervals d))) as (rows & E & _).
    change (insert_all (coverage_intervals d) (i :: ivs)) with
      (insert_all (insert_row (to_row i) (coverage_intervals d)) ivs). rewrite E.
    apply elem_of_app. left. apply elem_of_app. right. left.
Qed.
End Inserts.
End Table.

(** ** The state of the projections *)
Definition state_for (id : string) (l : list CoverageStateRow) : option CoverageStateRow :=
  find_first (fun s => String.eqb (cs_CollectorID s) id) l.

#[local] Arguments state_for : simpl never.

Lemma put_state_for s f l : (forall x, cs_CollectorID (f x) = cs_CollectorID s) -> forall id,
  state_for id (put_state s f l) =
    if String.eqb (cs_CollectorID s) id
    then Some (match state_for id l with Some x => f x | None => s end) else state_for id l.
Proof.
  intros Hf id. unfold state_for. induction l as [|x l IH]; [done|]. cbn [put_state find_first].
  destruct (String.eqb_spec (cs_CollectorID x) (cs_CollectorID s)) as [E|Hn]; cbn [find_first].
  - rewrite Hf, E. destruct (String.eqb (cs_CollectorID s) id) eqn:Es; [done|done].
  - destruct (String.eqb_spec (cs_CollectorID x) id) as [<-|]; [|exact IH].
    destruct (String.eqb_spec (cs_CollectorID s) (cs_CollectorID x)); [congruence|done].
Qed.

Lemma generation_state id d : coverage_generation id d =
  match state_for id (coverage_projection_state d) with Some s => cs_Generation s | None => 0 end.
Proof. done. Qed.

Section Rebuilds.
Context `{SJ : SqliteJson} `{ZO : Zones} `{FL : Floats}.

(** What a successful rebuild of one collector leaves: its rows are the intervals
    [ivs] of the next generation, everything else is as it was. *)
Record rebuilt (builtAt : string) (c : CollectorConfig) (start finish now : time) (maxFacts : Z) (d d' : database)
    (status : CoverageProjectionStatus) (stored : list CoverageInterval) (facts : list Fact) (ivs : list Interval)
    : Prop := Rebuilt {
  rb_generation := coverage_generation (co_ID c) d + 1;
  rb_table := insert_all (co_ID c) rb_generation builtAt (others (co_ID c) (coverage_intervals d)) ivs;
  rb_facts : exists watermark, read_facts maxFacts
    (fact_rows (co_ID c) (fixedUTC (start - OfflineAfterDuration c)) (fixedUTC finish) d) [] 0 = Ok (facts, watermark)
    /\ status = MkCoverageProjectionStatus (co_ID c) (fixedUTC start) (fixedUTC finish) rb_generation "fresh" "" watermark builtAt
    /\ state_for (co_ID c) (coverage_projection_state d') = Some (MkCoverageStateRow (co_ID c) (fixedUTC start)
         (fixedUTC finish) rb_generation "fresh" None watermark builtAt);
  rb_build : Build c start finish now facts = Ok ivs;
  rb_rows : coverage_intervals d' = rb_table;
  rb_ok : intervals_ok rb_table;
  rb_stored : Forall2 (is_stored (co_ID c) rb_generation builtAt rb_table) ivs stored;
  rb_states : forall id, id <> co_ID c -> state_for id (coverage_projection_state d') = state_for id (coverage_projection_state d);
  rb_timeline : timeline_entries d' = timeline_entries d }.

Lemma build_intervals_inv c start finish now facts ivs :
  build_intervals c start finish now facts = Ok ivs -> Build c start finish now facts = Ok ivs.
Proof. unfold build_intervals. destruct (Build _ _ _ _ _) as [l|[]]; [by intros [= ->]|done..]. Qed.

Lemma save_state_inv s f d u d' : save_state s f d = Ok (u, d') ->
  d' = with_coverage_projection_state d (put_state s f (coverage_projection_state d)).
Proof. unfold save_state. case_match; [by intros [= _ <-]|done]. Qed.

Lemma rebuild_inv builtAt c start finish now mf d o status stored d' o' :
  rebuildCollectorCoverage builtAt c start finish now mf d o = (Ok (status, stored), d', o') ->
  intervals_ok (coverage_intervals d) ->
  exists facts ivs, rebuilt builtAt c start finish now mf d d' status stored facts ivs.
Proof.
  intros H Hok. unfold rebuildCollectorCoverage in H. inv_m H. apply query_inv in Hm as [-> ->].
  apply mlift_inv in Hm0 as [Hf ->]. destruct a0 as [facts watermark]. inv_m H. apply mlift_inv in Hm as [Hb ->].
  apply build_intervals_inv in Hb. rename a into ivs. apply transaction_inv in H as (ox & oy & H).
  inv_m H. apply query_inv in Hm as [-> ->]. apply stmt_inv in Hm0. injection Hm0 as _ <-.
  apply inserts_inv in Hm1 as (-> & Hok' & HF); [|by apply intervals_ok_filter].
  apply stmt_inv, save_state_inv in Hm2 as ->. match goal with E : (status, stored) = _ |- _ => injection E as -> -> end.
  exists facts, ivs. cbn [coverage_intervals with_coverage_intervals] in *.
  set (s := MkCoverageStateRow _ _ _ _ _ _ _ _).
  assert (Hput : forall id, state_for id (put_state s (fun _ => s) (coverage_projection_state d))
    = if String.eqb (co_ID c) id then Some s else state_for id (coverage_projection_state d)).
  { intros id. rewrite put_state_for by done. cbn [cs_CollectorID s]. destruct (String.eqb _ _); [by case_match|done]. }
  split; cbn; try done.
  - exists watermark. rewrite Hput, String.eqb_refl. auto.
  - intros id Hid. rewrite Hput. destruct (String.eqb_spec (co_ID c) id); congruence.
Qed.

Lemma insert_all_others id g b t ivs : others id (insert_all id g b t ivs) = others id t.
Proof.
  destruct (insert_all_app id g b ivs t) as (rows & -> & Hr). unfold others. rewrite List.filter_app.
  rewrite (filter_none _ rows); [apply app_nil_r|]. intros r Hrow. apply negb_false_iff. unfold owned.
  assert (Hin : rval r ∈ map rval rows) by (apply list_elem_of_fmap; by exists r). rewrite Hr in Hin.
  apply list_elem_of_fmap in Hin as (i & -> & _). apply String.eqb_refl.
Qed.

Lemma others_idempotent id t : others id (others id t) = others id t.
Proof. unfold others. apply filter_every. intros r Hr. by apply elem_of_filter_by in Hr as [_ Hr]. Qed.

Lemma insert_all_owned id g b t ivs :
  map rval (of_collector id (insert_all id g b (others id t) ivs)) = map (interval_row id g b) ivs.
Proof.
  destruct (insert_all_app id g b ivs (others id t)) as (rows & -> & Hr). unfold of_collector. rewrite List.filter_app.
  rewrite (filter_none _ (others id t)); [|].
  2:{ intros r Hrow. unfold others in Hrow. apply elem_of_filter_by in Hrow as [_ Hrow]. by apply negb_true_iff in Hrow. }
  rewrite filter_every; [done|]. intros r Hrow. unfold owned.
  assert (Hin : rval r ∈ map rval rows) by (apply list_elem_of_fmap; by exists r). rewrite Hr in Hin.
  apply list_elem_of_fmap in Hin as (i & -> & _). apply String.eqb_refl.
Qed.
End Rebuilds.

(** ** The stored intervals as a function of time *)
Definition row_covers (r : row CoverageIntervalRow) (t : time) : Prop :=
  text_le (ci_StartUTC (rval r)) (fixedUTC t) = true /\ String.ltb (fixedUTC t) (ci_EndUTC (rval r)) = true.

Section Pointwise.
Context `{SJ : SqliteJson} `{ZO : Zones} `{FL : Floats}.

Lemma built_range c start finish now facts ivs i :
  Build c start finish now facts = Ok ivs -> i ∈ ivs -> start <= iv_Start i < iv_End i /\ iv_End i <= finish.
Proof.
  intros Hb Hi. destruct (Build_ok _ _ _ _ _ _ Hb) as (plans & Hp & Hne & _ & Hcov & _).
  apply plannedIntervals_inv in Hp as (_ & _ & _ & _ & _ & Hr & _).
  rewrite Forall_forall in Hne, Hr. specialize (Hne i Hi). unfold nonempty in Hne.
  assert (Hin : forall t, covers i t -> start <= t < finish).
  { intros t Ht. destruct (proj1 (Hcov t)) as (p & Hp & Hpt); [by exists i|].
    destruct (Hr p Hp) as (_ & ? & ?). unfold covers in Hpt. lia. }
  pose proof (Hin (iv_Start i) ltac:(unfold covers; lia)). pose proof (Hin (iv_End i - 1) ltac:(unfold covers; lia)). lia.
Qed.

Lemma row_covers_interval c start finish now facts ivs i r t :
  Build c start finish now facts = Ok ivs -> i ∈ ivs -> four_digit_year start -> four_digit_year finish ->
  four_digit_year t -> (exists id g b, rval r = interval_row id g b i) -> row_covers r t <-> covers i t.
Proof.
  intros Hb Hi Hs Hf Ht (id & g & b & E). destruct (built_range _ _ _ _ _ _ _ Hb Hi) as [H1 H2].
  unfold row_covers, text_le. rewrite E. cbn [interval_row ci_StartUTC ci_EndUTC]. unfold fixedUTC.
  rewrite !fixed_lt; [|first [done|apply (four_digit_between start _ finish); [lia|done..]]..].
  rewrite negb_true_iff, Z.ltb_ge, Z.ltb_lt. unfold covers. tauto.
Qed.

(** C12: after a rebuild of a collector succeeds, the instants of the stored
    intervals of the collector are the planned ones, and the interval that holds an
    instant carries the availability, the flags and the reason that the facts of the
    timeline define for it; the intervals of other collectors are as they were, no
    two intervals of a collector overlap, and the generation is the next one. *)
Theorem rebuildCollectorCoverage_pointwise builtAt c start finish now mf d o status stored d' o'
    (Hyears : four_digit_year start /\ four_digit_year finish) (Hok : intervals_ok (coverage_intervals d))
    (Hrun : rebuildCollectorCoverage builtAt c start finish now mf d o = (Ok (status, stored), d', o')) :
  intervals_ok (coverage_intervals d')
  /\ others (co_ID c) (coverage_intervals d') = others (co_ID c) (coverage_intervals d)
  /\ cp_Generation status = coverage_generation (co_ID c) d + 1
  /\ coverage_generation (co_ID c) d' = cp_Generation status
  /\ exists facts watermark plans,
       read_facts mf (fact_rows (co_ID c) (fixedUTC (start - OfflineAfterDuration c)) (fixedUTC finish) d) [] 0
         = Ok (facts, watermark)
       /\ plannedIntervals (co_PlannedSchedule c) start finish = Ok plans
       /\ (forall t, four_digit_year t ->
             (exists r, r ∈ of_collector (co_ID c) (coverage_intervals d') /\ row_covers r t) <-> covered plans t)
       /\ (forall r t, r ∈ of_collector (co_ID c) (coverage_intervals d') -> four_digit_year t -> row_covers r t ->
             exists plan flags, plan ∈ plans /\ covers plan t
               /\ status_at c now (prepare_facts facts) (iv_ScheduleStart plan) t
                  = (ci_Availability (rval r), flags, ci_ReasonCode (rval r))
               /\ ci_QualityFlagsJSON (rval r) = qualityJSON flags false).
Proof.
  destruct Hyears as [Hs Hf]. destruct (rebuild_inv _ _ _ _ _ _ _ _ _ _ _ _ Hrun Hok)
    as (facts & ivs & [gen table (w & Hfacts & -> & Hstate) Hb Hrows Hok' _ _ _]).
  rewrite Hrows. split; [done|]. split; [unfold table; by rewrite insert_all_others, others_idempotent|]. split; [done|].
  split; [by rewrite generation_state, Hstate|]. destruct (Build_ok _ _ _ _ _ _ Hb) as (plans & Hp & _ & _ & Hcov & Hst).
  exists facts, w, plans. split; [done|]. split; [done|].
  assert (Hown : forall r, r ∈ of_collector (co_ID c) table -> exists i, i ∈ ivs /\ rval r = interval_row (co_ID c) gen builtAt i).
  { intros r Hr. assert (Hv : rval r ∈ map rval (of_collector (co_ID c) table)) by (apply list_elem_of_fmap; by exists r).
    unfold table in Hv. rewrite insert_all_owned in Hv. apply list_elem_of_fmap in Hv as (i & E & Hi). by exists i. }
  split.
  - intros t Ht. rewrite <- Hcov. split.
    + intros (r & Hr & Hrt). destruct (Hown r Hr) as (i & Hi & E). exists i. split; [done|].
      apply (row_covers_interval _ _ _ _ _ _ _ r t Hb Hi); eauto.
    + intros (i & Hi & Hit). assert (Hv : interval_row (co_ID c) gen builtAt i ∈ map rval (of_collector (co_ID c) table)).
      { unfold table. rewrite insert_all_owned. apply list_elem_of_fmap. by exists i. }
      apply list_elem_of_fmap in Hv as (r & E & Hr). exists r. split; [done|].
      apply (row_covers_interval _ _ _ _ _ _ i r t Hb Hi); eauto.
  - intros r t Hr Ht Hrt. destruct (Hown r Hr) as (i & Hi & E).
    apply (row_covers_interval _ _ _ _ _ _ i r t Hb Hi) in Hrt; [|eauto..].
    destruct (Hst i t Hi Hrt) as (plan & Hpl & Hc & Es). exists plan, (iv_QualityFlags i). rewrite E.
    unfold status_of in Es. auto.
Qed.
End Pointwise.

(** ** The constraints never reject a rebuild

    All the development needs of SQLite's JSON functions here is that the array
    the code writes for the flags is recognised. *)
Class JsonArrays `{SqliteJson} := { strings_json_array : forall l, json_array (strings_json l) = true }.

Definition known_status (st : string * list string * string) : Prop :=
  one_of ["covered"; "confirmed_idle"; "pending"; "delayed"; "offline"; "unknown"] (fst (fst st)) = true
  /\ text_between 1 128 (snd st) = true.
Definition fact_shape (f : Fact) : Prop := fact_ok f = true /\ text_between 1 128 (fa_ReasonCode f) = true.

Lemma Ok_inj {E A} (a b : A) : @Ok E A a = Ok b -> a = b.
Proof. by intros [= ->]. Qed.

Lemma timelineCoverageFact_shape p f : timelineCoverageFact p = Ok (Some f) -> fact_shape f.
Proof.
  intros H. assert (Hev : forall s e fl id av re pr, s < e -> one_of [Covered; ConfirmedIdle] av = true ->
    text_between 1 128 re = true -> evidence s e fl id av re pr = Some f -> fact_shape f).
  { intros s e fl id av re pr Hlt Hav Hre [= <-]. split; [|done]. unfold fact_ok. cbn [fa_Start fa_End fa_Availability].
    apply andb_true_iff. split; [by apply Z.ltb_lt|]. unfold one_of in Hav. cbn [existsb] in Hav.
    by rewrite orb_false_r in Hav. }
  unfold timelineCoverageFact in H. cbv zeta in H. case_match; [done|].
  destruct (parse_fixed (tp_CorrectedStartUTC p)) as [s|]; [|done].
  destruct (parse_fixed (tp_CorrectedEndUTC p)) as [e|]; [|done].
  destruct (Z.ltb_spec e s); [done|]. cbn [negb] in H. destruct (Z.eqb_spec s e); [done|].
  destruct (let! v := unmarshal _ in strings_field _) as [fl|]; [|done]. assert (s < e) by (change time with Z in *; lia).
  case_match; [unfold heartbeat_fact in H; case_match; [|done]; apply Ok_inj in H; case_match; (refine (Hev _ _ _ _ _ _ _ _ _ _ H); [done|reflexivity..])|].
  case_match; [|case_match; [apply Ok_inj in H; (refine (Hev _ _ _ _ _ _ _ _ _ _ H); [done|reflexivity..])|done]].
  apply Ok_inj in H. case_match; [|done]. unfold activitywatch_fact, obind in H. repeat (case_match; try done); (refine (Hev _ _ _ _ _ _ _ _ _ _ H); [done|reflexivity..]).
Qed.

Lemma read_facts_shape mf rows : forall facts w facts' w', Forall fact_shape facts ->
  read_facts mf rows facts w = Ok (facts', w') -> Forall fact_shape facts'.
Proof.
  induction rows as [|r rows IH]; intros facts w facts' w' Hf H; cbn [read_facts] in H; [by injection H as <- _|].
  inv_ok H. destruct a as [f|]; [|by eapply IH]. inv_ok H.
  eapply IH; [|exact H]. apply Forall_app. split; [done|]. constructor; [by eapply timelineCoverageFact_shape|constructor].
Qed.

Lemma read_facts_watermark mf rows : forall facts w facts' w', 0 <= w ->
  read_facts mf rows facts w = Ok (facts', w') -> 0 <= w'.
Proof.
  induction rows as [|r rows IH]; intros facts w facts' w' Hw H; cbn [read_facts] in H; [by injection H as _ <-|].
  inv_ok H. destruct a as [f|]; [|by eapply IH]. inv_ok H.
  eapply IH; [|exact H]. destruct (Z.ltb_spec w (rid r)); lia.
Qed.

Section Known.
Context `{FL : Floats}.

Lemma status_at_known c now facts planStart t : Forall fact_shape facts -> known_status (status_at c now facts planStart t).
Proof.
  intros Hf. unfold status_at, with_evidence. set (cov := List.filter _ facts).
  destruct (sort_by priority_lt cov) as [|best rest] eqn:E.
  - unfold without_evidence. cbv zeta. repeat case_match; split; reflexivity.
  - assert (Hb : best ∈ facts).
    { assert (best ∈ sort_by priority_lt cov) as Hin by (rewrite E; left).
      apply elem_of_sort_by, elem_of_filter_by in Hin as [Hin _]. done. }
    rewrite Forall_forall in Hf. destruct (Hf best Hb) as [Hok Hr]. split; [|done]. cbn [fst snd].
    unfold fact_ok in Hok. apply andb_true_iff in Hok as [_ Hav]. apply orb_true_iff in Hav.
    rewrite !String.eqb_eq in Hav. by destruct Hav as [-> | ->].
Qed.

Lemma prepare_facts_shape facts : Forall fact_shape facts -> Forall fact_shape (prepare_facts facts).
Proof.
  intros H. unfold prepare_facts. rewrite sort_by_perm. apply Forall_map. eapply Forall_impl; [exact H|].
  by intros f [? ?].
Qed.
End Known.

Section Accepted.
Context `{SJ : SqliteJson} `{JA : !JsonArrays} `{ZO : Zones} `{FL : Floats}.

Lemma text_between_fixed t : four_digit_year t -> text_between 30 30 (fixedUTC t) = true.
Proof.
  intros Ht. unfold text_between, in_range, text_length, fixedUTC.
  by rewrite text_length_plain, slen_format_fixed by (done || by apply plain_format_fixed).
Qed.

Lemma interval_accepted id g builtAt i :
  text_between 1 128 id = true -> 0 < g -> text_between 30 30 builtAt = true ->
  known_status (status_of i) -> iv_Start i < iv_End i -> four_digit_year (iv_Start i) -> four_digit_year (iv_End i) ->
  check_coverage_interval (interval_row id g builtAt i) = true.
Proof.
  intros Hid Hg Hb [Ha Hr] Hlt Hs He. unfold check_coverage_interval, interval_row.
  cbn [ci_CollectorID ci_StartUTC ci_EndUTC ci_Availability ci_QualityFlagsJSON ci_ReasonCode ci_Generation ci_BuiltAtUTC].
  rewrite Hid, !text_between_fixed by done. cbn [fst snd status_of] in Ha, Hr. rewrite Ha, Hr, Hb. unfold qualityJSON.
  rewrite strings_json_array. unfold fixedUTC. rewrite fixed_lt by done.
  by destruct (Z.ltb_spec 0 g), (Z.ltb_spec (iv_Start i) (iv_End i)); try lia.
Qed.

(** Two intervals in order do not overlap as rows. *)
Lemma rows_apart id g builtAt i j : iv_End j <= iv_Start i -> four_digit_year (iv_Start i) -> four_digit_year (iv_End j) ->
  overlaps (interval_row id g builtAt i) (interval_row id g builtAt j) = false.
Proof.
  intros Hij Hs He. unfold overlaps, interval_row. cbn [ci_CollectorID ci_StartUTC ci_EndUTC]. unfold fixedUTC.
  rewrite (fixed_lt (iv_Start i) (iv_End j)) by done. destruct (Z.ltb_spec (iv_Start i) (iv_End j)); [lia|].
  by rewrite andb_false_r.
Qed.

Lemma inserts_accepted id g builtAt ivs :
  Forall (fun i => check_coverage_interval (interval_row id g builtAt i) = true) ivs ->
  StronglySorted (fun i j => overlaps (interval_row id g builtAt j) (interval_row id g builtAt i) = false) ivs ->
  forall k d, (forall i r, i ∈ ivs -> r ∈ coverage_intervals d -> overlaps (interval_row id g builtAt i) (rval r) = false) ->
  exists vs d', mmapi k (fun _ => insert_one id g builtAt) ivs d [] = (Ok vs, d', []).
Proof.
  induction ivs as [|i ivs IH]; intros Hc Hs k d Hd; [by eexists _, _|].
  inversion Hc as [|? ? Hc1 Hc2]; subst. apply StronglySorted_inv in Hs as [Hs Hi]. rewrite Forall_forall in Hi.
  assert (Hins : insert_interval (interval_row id g builtAt i) d = Ok (next_id (coverage_intervals d),
    with_coverage_intervals d (insert_row (interval_row id g builtAt i) (coverage_intervals d)))).
  { unfold insert_interval. rewrite Hc1. destruct (existsb _ _) eqn:E; [|done]. exfalso.
    apply existsb_exists in E as (r & Hr & E). rewrite <- list_elem_of_In in Hr. by rewrite (Hd i r ltac:(left) Hr) in E. }
  cbn [mmapi]. unfold mbind at 1, insert_one at 1, mbind at 1. unfold stmt. cbn [tail]. rewrite Hins. cbn [mret].
  edestruct (IH Hc2 Hs (k + 1)) as (vs & d' & E).
  2:{ unfold mbind. rewrite E. cbn [mret]. by eexists _, _. }
  cbn [coverage_intervals with_coverage_intervals]. intros j r Hj Hr. apply elem_of_app in Hr as [Hr|Hr].
  - apply Hd; [by right|done].
  - apply list_elem_of_singleton in Hr as ->. cbn [rval]. by apply Hi.
Qed.

(** C29: when the driver does not fail, the facts can be read and the schedule can be
    planned, a rebuild succeeds: the trigger against overlaps and the CHECK
    constraints accept every interval [Build] returns, whatever was stored before. *)
Theorem rebuildCollectorCoverage_accepted builtAt c start finish now mf d facts watermark plans
    (Hyears : four_digit_year start /\ four_digit_year finish) (Hlt : start < finish)
    (Hid : text_between 1 128 (co_ID c) = true) (Hbuilt : text_between 30 30 builtAt = true)
    (Hgen : 0 <= coverage_generation (co_ID c) d)
    (Hfacts : read_facts mf (fact_rows (co_ID c) (fixedUTC (start - OfflineAfterDuration c)) (fixedUTC finish) d) [] 0
              = Ok (facts, watermark))
    (Hplans : plannedIntervals (co_PlannedSchedule c) start finish = Ok plans) :
  exists status stored d',
    rebuildCollectorCoverage builtAt c start finish now mf d [] = (Ok (status, stored), d', []).
Proof.
  destruct Hyears as [Hs Hf]. pose proof (read_facts_shape _ _ _ _ _ _ (Forall_nil_2 _) Hfacts) as Hshape.
  pose proof (read_facts_watermark _ _ _ _ _ _ (Z.le_refl 0) Hfacts) as Hw.
  assert (Hb : exists ivs, Build c start finish now facts = Ok ivs).
  { unfold Build. rewrite (proj2 (Z.ltb_lt _ _) Hlt), Hplans. cbn [rbind].
    assert (forallb fact_ok facts = true) as ->; [|by eexists].
    apply forallb_forall. intros f Hin. rewrite <- list_elem_of_In in Hin. rewrite Forall_forall in Hshape. by apply Hshape. }
  destruct Hb as [ivs Hb]. destruct (Build_ok _ _ _ _ _ _ Hb) as (plans' & _ & Hne & Hord & _ & Hst).
  set (g := coverage_generation (co_ID c) d + 1).
  assert (Hyear : forall i, i ∈ ivs -> four_digit_year (iv_Start i) /\ four_digit_year (iv_End i)).
  { intros i Hi. destruct (built_range _ _ _ _ _ _ _ Hb Hi).
    split; apply (four_digit_between start _ finish); done || lia. }
  edestruct (inserts_accepted (co_ID c) g builtAt ivs) with (k := 0)
    (d := with_coverage_intervals d (others (co_ID c) (coverage_intervals d))) as (vs & d1 & E).
  - rewrite Forall_forall in Hne |- *. intros i Hi. destruct (Hyear i Hi). specialize (Hne i Hi).
    apply interval_accepted; try done; [lia|]. destruct (Hst i (iv_Start i) Hi) as (plan & _ & _ & ->).
    { unfold covers, nonempty in *. lia. }
    by apply status_at_known, prepare_facts_shape.
  - assert (Hall : forall i, i ∈ ivs -> four_digit_year (iv_Start i) /\ four_digit_year (iv_End i)) by done.
    clear -Hord Hall. induction Hord as [|i ivs Hord IH Hi]; [constructor|].
    constructor; [apply IH; intros j Hj; apply Hall; by right|]. rewrite Forall_forall in Hi |- *. intros j Hj.
    destruct (Hall i ltac:(left)), (Hall j ltac:(by right)). by apply rows_apart; [apply Hi|..].
  - cbn [coverage_intervals with_coverage_intervals]. intros i r Hi Hr. unfold others in Hr.
    apply elem_of_filter_by in Hr as [_ Hr]. unfold owned in Hr. apply negb_true_iff in Hr.
    unfold overlaps. cbn [interval_row ci_CollectorID]. by rewrite Hr.
  - unfold rebuildCollectorCoverage, mbind at 1. cbn [query stmt tail]. unfold mbind at 1. rewrite Hfacts. cbn [mlift mret].
    unfold mbind at 1, build_intervals. rewrite Hb. cbn [mlift mret]. unfold replace_coverage, transaction.
    cbn [stmt tail]. unfold mbind at 1. cbn [query stmt tail]. fold g.
    unfold mbind at 1. cbn [stmt tail]. fold (others (co_ID c) (coverage_intervals d)).
    cbv zeta. fold g. unfold mbind at 1, mmap. unfold others, owned in E. rewrite E.
    unfold mbind at 1. cbn [stmt tail]. unfold save_state.
    assert (check_coverage_state (MkCoverageStateRow (co_ID c) (fixedUTC start) (fixedUTC finish) g "fresh" None watermark builtAt) = true) as ->.
    { unfold check_coverage_state. cbn [cs_CollectorID cs_RangeStartUTC cs_RangeEndUTC cs_Generation cs_Status cs_FactWatermark cs_BuiltAtUTC].
      rewrite Hid, !text_between_fixed, Hbuilt by done. unfold fixedUTC. rewrite fixed_lt by done.
      unfold g. by destruct (Z.ltb_spec 0 (coverage_generation (co_ID c) d + 1)), (Z.leb_spec 0 watermark),
        (Z.ltb_spec start finish); try lia. }
    cbn [stmt tail mret]. by eexists _, _, _.
Qed.
End Accepted.

(** ** Collectors do not disturb each other *)
Section Isolation.
Context `{SJ : SqliteJson} `{ZO : Zones} `{FL : Floats} `{F64 : Float64} `{SR : SqliteReal}.

Abbreviation table := (list (row CoverageIntervalRow)).

(** An interval of the result is a row of the table. *)
Definition returned (t : table) (v : CoverageInterval) : Prop :=
  exists r, r ∈ t /\ rid r = cv_ID v /\ ci_StartUTC (rval r) = cv_StartUTC v /\ ci_EndUTC (rval r) = cv_EndUTC v
    /\ ci_Availability (rval r) = cv_Availability v /\ ci_ReasonCode (rval r) = cv_ReasonCode v
    /\ ci_Generation (rval r) = cv_Generation v.

(** The stored state of a collector is the reported status. *)
Definition told (states : list CoverageStateRow) (status : CoverageProjectionStatus) : Prop :=
  exists s, state_for (cp_CollectorID status) states = Some s /\ cs_Status s = cp_Status status
    /\ cs_ErrorCode s = (if String.eqb (cp_ErrorCode status) "" then None else Some (cp_ErrorCode status))
    /\ cs_RangeStartUTC s = cp_RangeStartUTC status /\ cs_RangeEndUTC s = cp_RangeEndUTC status
    /\ cs_BuiltAtUTC s = cp_BuiltAtUTC status.

(** What one collector reports, given its rows before and after, the states after
    and the outcomes its statements had: fresh, with the intervals stored for it, or
    stale with a code, its intervals as they were. The state says so too, unless
    the last statement, the one that writes it for a stale collector, failed. *)
Definition reported (c : CollectorConfig) (t t' : table) (states : list CoverageStateRow) (used : oracle)
    (built : CoverageProjectionStatus * list CoverageInterval) : Prop :=
  cp_CollectorID (fst built) = co_ID c
  /\ ((cp_Status (fst built) = "fresh" /\ length (snd built) = length t' /\ Forall (returned t') (snd built)
       /\ told states (fst built))
      \/ (cp_Status (fst built) = "stale" /\ cp_ErrorCode (fst built) <> "" /\ snd built = [] /\ t' = t
          /\ (told states (fst built) \/ exists f, last used = Some (Some f)))).

Lemma sync_coverage mb w start finish ua mf cid ov t u :
  preserves (fun d => coverage_intervals d = t /\ coverage_projection_state d = u)
    (syncTimelineProjection mb w start finish ua mf cid ov).
Proof.
  assert (Hq : forall A (table : database -> list (row A)) project keep qs c,
    preserves (fun d => coverage_intervals d = t /\ coverage_projection_state d = u)
      (collect_queries table project keep mf mb qs c)).
  { intros A table project keep qs. induction qs as [|q qs IH]; intros c; cbn [collect_queries]; auto with monitor. }
  unfold syncTimelineProjection. destruct w; [|auto with monitor..].
  apply preserves_mbind; [apply Hq|intros c1]. apply preserves_mbind; [apply Hq|intros c2].
  apply preserves_mbind; [apply Hq|intros c3]. apply preserves_miter. intros ps _.
  apply preserves_transaction, preserves_miter. intros p _. apply preserves_stmt. intros d v d' Hd H.
  unfold upsert_projection in H. cbv zeta in H. repeat case_match; try done; by injection H as _ <-.
Qed.

Lemma consumes_collect {A} (t : database -> list (row A)) project keep mf mb qs : forall c,
  consumes (collect_queries t project keep mf mb qs c).
Proof. induction qs as [|q qs IH]; intros c; cbn [collect_queries]; auto with monitor. Qed.

Lemma consumes_sync mb w start finish ua mf cid ov :
  consumes (syncTimelineProjection mb w start finish ua mf cid ov).
Proof.
  unfold syncTimelineProjection. destruct w; [|auto with monitor..].
  apply consumes_mbind; [apply consumes_collect|intros c1]. apply consumes_mbind; [apply consumes_collect|intros c2].
  apply consumes_mbind; [apply consumes_collect|intros c3]. apply consumes_miter. intros ps.
  apply consumes_transaction, consumes_miter. intros p. apply consumes_stmt.
Qed.

Lemma consumes_rebuild builtAt c start finish now mf :
  consumes (rebuildCollectorCoverage builtAt c start finish now mf).
Proof.
  unfold rebuildCollectorCoverage, replace_coverage, insert_one.
  apply consumes_mbind; [apply consumes_query|intros rows]. apply consumes_mbind; [apply consumes_mlift|intros [facts w]].
  apply consumes_mbind; [apply consumes_mlift|intros ivs]. apply consumes_transaction.
  apply consumes_mbind; [apply consumes_query|intros g]. apply consumes_mbind; [apply consumes_stmt|intros _].
  apply consumes_mbind; [apply consumes_mmapi; auto with monitor|intros stored]. auto with monitor.
Qed.

(** A range, a collector and a time of building that the table accepts. *)
Definition storable (builtAt id : string) (start finish : time) : Prop :=
  four_digit_year start /\ four_digit_year finish /\ start < finish /\
  text_between 1 128 id = true /\ text_between 30 30 builtAt = true.

Lemma mark_stale_inv builtAt id start finish e d o status d' o' :
  markCoverageStale builtAt id start finish e d o = (Ok status, d', o') -> storable builtAt id start finish ->
  coverage_intervals d' = coverage_intervals d /\ cp_CollectorID status = id
  /\ cp_Status status = "stale" /\ cp_ErrorCode status <> ""
  /\ (forall id', id' <> id -> state_for id' (coverage_projection_state d') = state_for id' (coverage_projection_state d))
  /\ exists used, o = used ++ o' /\ (told (coverage_projection_state d') status \/ exists f, last used = Some (Some f)).
Proof.
  intros H (Hs & Hf & Hlt & Hid & Hb). unfold markCoverageStale in H. cbv zeta in H. unfold mbind, ignoring in H.
  pose proof (preserves_query (fun x => x = d) CodeQueryFailed (coverage_generation id) d o eq_refl) as E1.
  destruct (consumes_query CodeQueryFailed (coverage_generation id) d o) as [u1 Hu1]. unfold state_after in E1.
  destruct (query _ _ d o) as [[r0 d0] o1]. cbn [fst snd] in E1, Hu1. subst d0.
  set (a := match r0 with Ok a => a | Err _ => 0 end) in *.
  set (code := if String.eqb (ErrorCode e) "" then _ else _) in *.
  assert (Hcode : code <> "") by (unfold code; by destruct (String.eqb_spec (ErrorCode e) "")).
  set (g := if a <? 1 then 1 else a) in *. set (f := fun x : CoverageStateRow => _) in H.
  set (s := MkCoverageStateRow _ _ _ _ _ _ _ _) in *.
  assert (Hcheck : check_coverage_state s = true).
  { unfold check_coverage_state, s.
    cbn [cs_CollectorID cs_RangeStartUTC cs_RangeEndUTC cs_Generation cs_Status cs_FactWatermark cs_BuiltAtUTC].
    rewrite Hid, !text_between_fixed, Hb by done. unfold fixedUTC. rewrite fixed_lt by done.
    rewrite !(proj2 (Z.ltb_lt _ _)); [done|done|]. unfold g. destruct (Z.ltb_spec a 1); lia. }
  assert (Hput : forall id', state_for id' (put_state s f (coverage_projection_state d)) =
    if String.eqb id id' then Some (match state_for id' (coverage_projection_state d) with Some x => f x | None => s end)
    else state_for id' (coverage_projection_state d)) by (intros id'; by rewrite put_state_for).
  assert (Hcase : status = MkCoverageProjectionStatus id (fixedUTC start) (fixedUTC finish) g "stale" code 0 builtAt /\
    ((d' = d /\ exists x, o1 = Some x :: o') \/
     (d' = with_coverage_projection_state d (put_state s f (coverage_projection_state d)) /\ exists u, o1 = u ++ o'))).
  { unfold save_state in H. rewrite Hcheck in H.
    destruct o1 as [|[x|] o1]; cbn [stmt tail mret] in H; injection H as <- <- <-; (split; [done|]).
    - right. split; [done|]. by exists [].
    - left. split; [done|]. by exists x.
    - right. split; [done|]. by exists [None]. }
  destruct Hcase as [-> Hcase]. cbn [cp_CollectorID cp_Status cp_ErrorCode].
  destruct Hcase as [[-> [x Ex]]|[-> [u Eu]]].
  - split; [done|]. split; [done|]. split; [done|]. split; [done|]. split; [done|].
    exists (u1 ++ [Some x]). rewrite <- app_assoc. cbn. rewrite <- Ex. split; [done|]. right. exists x. apply last_snoc.
  - split; [done|]. split; [done|]. split; [done|]. split; [done|]. split.
    { intros id' Hn. cbn. rewrite Hput, (proj2 (String.eqb_neq _ _)); congruence. }
    exists (u1 ++ u). rewrite <- app_assoc, <- Eu. split; [done|]. left. unfold told. cbn. rewrite Hput, String.eqb_refl.
    rewrite (proj2 (String.eqb_neq _ _) Hcode). eexists. split; [done|]. by destruct (state_for id _).
Qed.

Lemma rebuild_err builtAt c start finish now mf d o e d' o' :
  rebuildCollectorCoverage builtAt c start finish now mf d o = (Err e, d', o') -> d' = d.
Proof.
  unfold rebuildCollectorCoverage, mbind. intros H.
  destruct (query _ _ d o) as [[[rows|e1] d1] o1] eqn:Eq; cycle 1.
  { injection H as _ <- _. pose proof (preserves_query (fun x => x = d) CodeCoverageBuildFailed
      (fact_rows (co_ID c) (fixedUTC (start - OfflineAfterDuration c)) (fixedUTC finish)) d o eq_refl) as Hp.
    unfold state_after in Hp. by rewrite Eq in Hp. }
  apply query_inv in Eq as [-> ->]. destruct (read_facts _ _ _ _) as [[facts w]|]; cbn [mlift mret mfail] in H; [|by injection H as _ <- _].
  destruct (build_intervals _ _ _ _ _); cbn [mlift mret mfail] in H; [|by injection H as _ <- _].
  by apply transaction_err in H.
Qed.

Lemma stored_returned c builtAt g t ivs stored :
  Forall2 (is_stored (co_ID c) g builtAt (insert_all (co_ID c) g builtAt (others (co_ID c) t) ivs)) ivs stored ->
  let t' := of_collector (co_ID c) (insert_all (co_ID c) g builtAt (others (co_ID c) t) ivs) in
  length stored = length t' /\ Forall (returned t') stored.
Proof.
  intros HF. cbv zeta. split.
  - rewrite <- (length_map rval (of_collector _ _)), insert_all_owned, length_map. symmetry. by eapply Forall2_length.
  - apply Forall_forall. intros v Hv. apply list_elem_of_lookup in Hv as [k Hk].
    destruct (Forall2_lookup_r _ _ _ _ _ HF Hk) as (i & _ & n & -> & Hr). exists (Row n (interval_row (co_ID c) g builtAt i)).
    split; [|done]. apply elem_of_filter_by. split; [done|]. apply String.eqb_refl.
Qed.

Lemma of_collector_others id id2 t : id <> id2 -> of_collector id (others id2 t) = of_collector id t.
Proof.
  intros Hn. unfold of_collector, others. rewrite filter_filter_and. apply filter_ext_in. intros r _. unfold owned.
  destruct (String.eqb_spec (ci_CollectorID (rval r)) id) as [->|]; [|by rewrite andb_false_r].
  by rewrite andb_true_r, (proj2 (String.eqb_neq _ _) Hn).
Qed.

Lemma stale_inv builtAt c start finish e d o built d' o' :
  (let* status := markCoverageStale builtAt (co_ID c) start finish e in mret (status, [])) d o = (Ok built, d', o') ->
  storable builtAt (co_ID c) start finish ->
  coverage_intervals d' = coverage_intervals d
  /\ (forall id, id <> co_ID c -> state_for id (coverage_projection_state d') = state_for id (coverage_projection_state d))
  /\ exists used, o = used ++ o'
     /\ reported c (of_collector (co_ID c) (coverage_intervals d)) (of_collector (co_ID c) (coverage_intervals d'))
          (coverage_projection_state d') used built.
Proof.
  intros H Hst. apply mbind_inv in H as (status & d1 & o1 & Hm & H). injection H as <- <- <-.
  apply mark_stale_inv in Hm as (E & Hid & Hs & Hc & Hoth & used & Ho & Ht); [|done].
  rewrite E. split; [done|]. split; [done|]. exists used. split; [done|]. split; [done|]. right. auto.
Qed.

(** More statements before the last one change nothing of what is reported. *)
Lemma reported_before c t t' states u used built :
  reported c t t' states used built -> reported c t t' states (u ++ used) built.
Proof.
  intros [Hid [Hf|(? & ? & ? & ? & [Ht|[f Hl]])]]; (split; [done|]); [by left|right..].
  - auto 6.
  - split; [done|]. split; [done|]. split; [done|]. split; [done|]. right. exists f. by rewrite last_app, Hl.
Qed.

(** What one collector's turn leaves. *)
Definition turn_of (c : CollectorConfig) (d d' : database) (used : oracle)
    (built : CoverageProjectionStatus * list CoverageInterval) : Prop :=
  intervals_ok (coverage_intervals d')
  /\ reported c (of_collector (co_ID c) (coverage_intervals d)) (of_collector (co_ID c) (coverage_intervals d'))
       (coverage_projection_state d') used built
  /\ (forall id, id <> co_ID c -> of_collector id (coverage_intervals d') = of_collector id (coverage_intervals d)
       /\ state_for id (coverage_projection_state d') = state_for id (coverage_projection_state d)).

Lemma stale_turn builtAt c start finish e u d1 o1 built d' o' o d :
  (let* status := markCoverageStale builtAt (co_ID c) start finish e in mret (status, [])) d1 o1 = (Ok built, d', o') ->
  storable builtAt (co_ID c) start finish -> o = u ++ o1 ->
  coverage_intervals d1 = coverage_intervals d -> coverage_projection_state d1 = coverage_projection_state d ->
  intervals_ok (coverage_intervals d) -> exists used, o = used ++ o' /\ turn_of c d d' used built.
Proof.
  intros H Hst -> E1 E2 Hok. apply stale_inv in H as (E3 & Hoth & used & -> & Hr); [|done].
  exists (u ++ used). split; [by rewrite app_assoc|]. unfold turn_of. rewrite E3, E1 in *. rewrite E2 in Hoth.
  split; [done|]. split; [by apply reported_before|]. auto.
Qed.

Lemma rebuild_collector_inv mb env c start finish now ua mf d o built d' o' :
  rebuild_collector mb env c start finish now ua mf d o = (Ok built, d', o') -> intervals_ok (coverage_intervals d) ->
  storable (re_builtAt env) (co_ID c) start finish -> exists used, o = used ++ o' /\ turn_of c d d' used built.
Proof.
  intros H Hok Hst. unfold rebuild_collector, attempt in H.
  pose proof (sync_coverage mb (re_turn env) (start - OfflineAfterDuration c) finish ua mf (co_ID c) true
    (coverage_intervals d) (coverage_projection_state d) d o (conj eq_refl eq_refl)) as Hsync. unfold state_after in Hsync.
  destruct (consumes_sync mb (re_turn env) (start - OfflineAfterDuration c) finish ua mf (co_ID c) true d o) as [u Hu].
  destruct (syncTimelineProjection _ _ _ _ _ _ _ _ d o) as [[[v|e] d1] o1]; cbn [fst snd] in Hsync, Hu;
    destruct Hsync as [E1 E2]; cycle 1.
  { destruct (stops _ _); [done|]. by eapply stale_turn. }
  destruct (consumes_rebuild (re_builtAt env) c start finish now mf d1 o1) as [v2 Hv].
  destruct (rebuildCollectorCoverage _ _ _ _ _ _ d1 o1) as [[[[status stored]|e] d2] o2] eqn:Er; cbn [snd] in Hv; cycle 1.
  { destruct (_ || _); [done|]. apply rebuild_err in Er as ->. eapply (stale_turn _ _ _ _ _ (u ++ v2)); try done.
    by rewrite <- app_assoc, <- Hv. }
  injection H as <- <- <-. exists (u ++ v2). split; [by rewrite <- app_assoc, <- Hv|]. rewrite <- E1 in Hok. unfold turn_of. rewrite <- E1, <- E2.
  apply rebuild_inv in Er as (facts & ivs & [gen table Hf _ Hrows Hok' HF Hoth _]); [|done].
  rewrite Hrows. unfold table, gen in *. split; [done|].
  destruct Hf as (w & _ & -> & Hstate). apply stored_returned in HF as [Hlen Hret]. split.
  - split; [done|]. left. split; [done|]. split; [done|]. split; [done|]. unfold told. cbn. by eexists.
  - intros id Hn. split; [|by apply Hoth]. rewrite <- (of_collector_others id (co_ID c) (insert_all _ _ _ _ _)) by done.
    by rewrite insert_all_others, others_idempotent, of_collector_others by done.
Qed.

(** A later collector's turn keeps what this one reported. *)
Lemma reported_later c t t' states states' used built :
  state_for (co_ID c) states' = state_for (co_ID c) states ->
  reported c t t' states used built -> reported c t t' states' used built.
Proof.
  intros E [Hid H]. split; [done|]. unfold told in *. rewrite Hid in *. by rewrite E.
Qed.

(** The reports of the collectors, each with the outcomes of its own statements. *)
Definition reports (cs : list CollectorConfig) (d d' : database) (used : list oracle)
    (built : list (CoverageProjectionStatus * list CoverageInterval)) : Prop :=
  Forall2 (fun c ub => reported c (of_collector (co_ID c) (coverage_intervals d))
                         (of_collector (co_ID c) (coverage_intervals d')) (coverage_projection_state d') (fst ub) (snd ub))
    cs (zip used built).

Lemma reports_before id0 cs d d1 d2 used built :
  Forall (fun c => co_ID c <> id0) cs ->
  (forall id, id <> id0 -> of_collector id (coverage_intervals d1) = of_collector id (coverage_intervals d)) ->
  reports cs d1 d2 used built -> reports cs d d2 used built.
Proof.
  unfold reports. generalize (zip used built). intros l Hin Hoth. revert l.
  induction Hin as [|c cs H2 Hin IH]; intros l HF; inversion HF; subst; constructor; [|by apply IH].
  by rewrite <- (Hoth (co_ID c) H2).
Qed.

Lemma rebuild_loop mb env start finish now ua mf cs : forall k d o built d' o',
  mmapi k (fun _ c => rebuild_collector mb (env c) c start finish now ua mf) cs d o = (Ok built, d', o') ->
  intervals_ok (coverage_intervals d) -> NoDup (map co_ID cs) ->
  Forall (fun c => storable (re_builtAt (env c)) (co_ID c) start finish) cs ->
  intervals_ok (coverage_intervals d')
  /\ (forall id, id ∉ map co_ID cs -> of_collector id (coverage_intervals d') = of_collector id (coverage_intervals d)
       /\ state_for id (coverage_projection_state d') = state_for id (coverage_projection_state d))
  /\ length built = length cs
  /\ exists used, length used = length cs /\ o = concat used ++ o' /\ reports cs d d' used built.
Proof.
  induction cs as [|c cs IH]; intros k d o built d' o' H Hok HN Hst; cbn [mmapi] in H.
  { injection H as <- <- <-. split; [done|]. split; [done|]. split; [done|]. exists []. repeat constructor. }
  apply mbind_inv in H as (b & d1 & o1 & Hm & H). apply mbind_inv in H as (bs & d2 & o2 & Hm0 & H).
  injection H as <- <- <-. cbn [map] in HN. apply NoDup_cons in HN as [Hc HN]. apply Forall_cons in Hst as [Hc' Hst].
  apply rebuild_collector_inv in Hm as (u & Hu & Hok1 & Hrep & Hoth); [|done..].
  apply IH in Hm0 as (Hok2 & Hkeep & Hlen & used & Hl & Ho & HF); [|done..]. split; [done|]. split; [|split; [cbn; by rewrite Hlen|]].
  - intros id Hid. cbn [map] in Hid. apply not_elem_of_cons in Hid as [Hne Hid].
    destruct (Hkeep id Hid) as [-> ->]. by apply Hoth.
  - exists (u :: used). split; [cbn; by rewrite Hl|]. split; [cbn; by rewrite <- app_assoc, <- Ho|].
    destruct (Hkeep _ Hc) as [E1 E2]. unfold reports in *. change (zip (u :: used) (b :: bs)) with ((u, b) :: zip used bs).
    constructor; [cbn [fst snd]; rewrite E1; by eapply reported_later|].
    assert (Hin : Forall (fun c2 => co_ID c2 <> co_ID c) cs).
    { apply Forall_forall. intros c2 H2 E. apply Hc. rewrite <- E. apply list_elem_of_fmap. by exists c2. }
    eapply reports_before; [exact Hin|intros id Hn; by apply Hoth|exact HF].
Qed.

(** C30: a rebuild that returns reports every enabled collector once, in order.  A
    collector reported fresh has exactly the returned intervals stored; one that
    failed is reported stale with an error code and its intervals are as they were
    before.  The stored state of each says the same, status, code, range and time
    of building; only where the statement that marks a stale collector itself
    failed, the last of those run for it, need it not.  Collectors that are not
    enabled keep their intervals and their state, and no two intervals of a collector
    overlap. *)
Theorem RebuildCoverage_isolated store env collectors start finish now ua mf d o r d' o'
    (Hok : intervals_ok (coverage_intervals d)) (Hids : NoDup (map co_ID (List.filter co_Enabled collectors)))
    (Hstorable : Forall (fun c => storable (re_builtAt (env c)) (co_ID c) start finish)
                   (List.filter co_Enabled collectors))
    (Hrun : RebuildCoverage store env collectors start finish now ua mf d o = (Ok r, d', o')) :
  intervals_ok (coverage_intervals d')
  /\ (forall id, id ∉ map co_ID (List.filter co_Enabled collectors) ->
        of_collector id (coverage_intervals d') = of_collector id (coverage_intervals d)
        /\ state_for id (coverage_projection_state d') = state_for id (coverage_projection_state d))
  /\ exists built used, cr_Projections r = map fst built /\ cr_Intervals r = flat_map snd built
     /\ length built = length (List.filter co_Enabled collectors)
     /\ length used = length (List.filter co_Enabled collectors) /\ o = concat used ++ o'
     /\ reports (List.filter co_Enabled collectors) d d' used built.
Proof.
  unfold RebuildCoverage in Hrun. destruct (_ || _); [done|].
  apply mbind_inv in Hrun as (built & d1 & o1 & Hm & Hrun). injection Hrun as <- <- <-. unfold mmap in Hm.
  apply rebuild_loop in Hm as (H1 & H2 & H3 & used & H4 & H5 & H6); [|done..]. split; [done|]. split; [done|].
  by exists built, used.
Qed.
End Isolation.

(** ** A concrete rebuild: one heartbeat at nine, built at twenty past *)
Definition nine_heartbeat : database :=
  state_after (AppendHeartbeatBatch heartbeat_store sample_time
    [heartbeat_text "2024-02-29T09:00:00Z" "2024-02-29T09:00:50Z" "0" "nine"]) empty_database [].
Definition nine_synced : database :=
  state_after (syncTimelineProjection 100000 Acquired leap_day (leap_day + 10 * hour) hour 10 "phone" true) nine_heartbeat [].
Definition built_text : string := fixedUTC (leap_day + 9 * hour + 20 * minute).
Definition nine_rebuild : M database (CoverageProjectionStatus * list CoverageInterval) :=
  rebuildCollectorCoverage built_text morning_collector leap_day (leap_day + 10 * hour) (leap_day + 9 * hour + 20 * minute) 10.

Lemma empty_intervals_ok `{SqliteJson} d : coverage_intervals d = [] -> intervals_ok (coverage_intervals d).
Proof. intros ->. repeat constructor. Qed.

Lemma rebuildCollectorCoverage_pointwise_witness :
  exists status stored d' o', nine_rebuild nine_synced [] = (Ok (status, stored), d', o')
    /\ intervals_ok (coverage_intervals d')
    /\ map (fun v => (cv_StartUTC v, cv_Availability v)) (take 2 stored)
       = [("2024-02-29T09:00:00.000000000Z", "covered"); ("2024-02-29T09:00:50.000000000Z", "unknown")].
Proof.
  destruct (nine_rebuild nine_synced []) as [[[[status stored]|e] d'] o'] eqn:E; [|exfalso; vm_compute in E; discriminate].
  exists status, stored, d', o'. split; [reflexivity|]. split.
  - refine (proj1 (rebuildCollectorCoverage_pointwise _ _ _ _ _ _ _ _ _ _ _ _ _ _ E)).
    + split; split; vm_compute; discriminate.
    + apply empty_intervals_ok. vm_compute. reflexivity.
  - vm_compute in E. injection E as _ <- _ _. reflexivity.
Defined.

(** JSON functions that take every text for an array. *)
Definition lenient_json : SqliteJson := {| json_valid _ := true; json_type _ := "array" |}.
Lemma lenient_arrays : @JsonArrays lenient_json.
Proof. constructor. reflexivity. Qed.

Lemma rebuildCollectorCoverage_accepted_witness :
  exists status stored d', @rebuildCollectorCoverage lenient_json _ _ built_text morning_collector leap_day
    (leap_day + 10 * hour) (leap_day + 9 * hour + 20 * minute) 10 nine_synced [] = (Ok (status, stored), d', []).
Proof.
  destruct (read_facts 10 (fact_rows (co_ID morning_collector) (fixedUTC (leap_day - OfflineAfterDuration morning_collector))
    (fixedUTC (leap_day + 10 * hour)) nine_synced) [] 0) as [[facts w]|e] eqn:Ef; [|exfalso; vm_compute in Ef; discriminate].
  destruct (plannedIntervals (co_PlannedSchedule morning_collector) leap_day (leap_day + 10 * hour)) as [plans|e] eqn:Ep;
    [|exfalso; vm_compute in Ep; discriminate].
  refine (@rebuildCollectorCoverage_accepted lenient_json lenient_arrays _ _ _ _ _ _ _ _ _ facts w plans _ _ _ _ _ Ef Ep).
  - split; split; vm_compute; discriminate.
  - reflexivity.
  - reflexivity.
  - vm_compute. reflexivity.
  - vm_compute. discriminate.
Defined.

Definition nine_coverage : M database CoverageResult :=
  RebuildCoverage sample_store (fun _ => RebuildEnv Acquired false built_text) [morning_collector] leap_day
    (leap_day + 10 * hour) (leap_day + 9 * hour + 20 * minute) hour 10.

(** One statement fails, then none: the collector is stale, and stored so. *)
Lemma RebuildCoverage_isolated_witness :
  exists r d' o', nine_coverage nine_heartbeat [None; Some OtherFault] = (Ok r, d', o')
    /\ intervals_ok (coverage_intervals d') /\ map cp_Status (cr_Projections r) = ["stale"]
    /\ map (fun s => (cs_CollectorID s, cs_Status s)) (coverage_projection_state d') = [("phone", "stale")].
Proof.
  destruct (nine_coverage nine_heartbeat [None; Some OtherFault]) as [[[r|e] d'] o'] eqn:E;
    [|exfalso; vm_compute in E; discriminate].
  exists r, d', o'. split; [reflexivity|]. split.
  - refine (proj1 (RebuildCoverage_isolated _ _ _ _ _ _ _ _ _ _ _ _ _ _ _ _ E)).
    + apply empty_intervals_ok. vm_compute. reflexivity.
    + cbn. apply NoDup_singleton.
    + constructor; [|constructor].
      split; [split; vm_compute; discriminate|]. split; [split; vm_compute; discriminate|].
      split; [reflexivity|]. split; vm_compute; reflexivity.
  - split; vm_compute in E; injection E as <- <- _; reflexivity.
Defined.
