(* ===== verification/Sidecar.v ===== *)
(** * The sidecar of a media segment ([mediaingest/sidecar.go], [mediaingest/types.go])

    The error codes of media ingest, the JSON document a recorder writes beside a
    segment, its validation, its fingerprint and the digest of a segment's
    metadata.  A sidecar that is accepted is well typed, and its fingerprint is
    the one [MediaStore.queryMediaClaim] recomputes from the stored row. *)

From Stdlib Require Import ZArith Lia String Ascii.
From S2P Require Import Prelude GoStrings GoTime GoJson Sha256 StrictJson Sql Schema MediaStore.
From S2P Require Heartbeats.
Open Scope string_scope.
Open Scope list_scope.
Open Scope result_scope.
Open Scope Z_scope.

(** ** Errors *)
Definition CodePathInvalid : string := "MEDIA_PATH_INVALID".
Definition CodeReparsePoint : string := "MEDIA_REPARSE_POINT_REJECTED".
Definition CodeSourceMissing : string := "MEDIA_SOURCE_MISSING".
Definition CodeSidecarMissing : string := "MEDIA_SIDECAR_MISSING".
Definition CodeSidecarInvalid : string := "MEDIA_SIDECAR_INVALID".
Definition CodeSidecarIncomplete : string := "MEDIA_SIDECAR_INCOMPLETE".
Definition CodeFileGrowing : string := "MEDIA_FILE_GROWING".
Definition CodeTooLarge : string := "MEDIA_TOO_LARGE".
Definition CodeSizeMismatch : string := "MEDIA_SIZE_MISMATCH".
Definition CodeHashMismatch : string := "MEDIA_HASH_MISMATCH".
Definition CodeTimeInvalid : string := "MEDIA_TIME_INVALID".
Definition CodeDurationInvalid : string := "MEDIA_DURATION_INVALID".
Definition CodeTypeInvalid : string := "MEDIA_TYPE_INVALID".
Definition CodeProbeUnavailable : string := "MEDIA_FFPROBE_UNAVAILABLE".
Definition CodeProbeVersionMismatch : string := "MEDIA_FFPROBE_VERSION_MISMATCH".
Definition CodeProbeFailed : string := "MEDIA_FFPROBE_FAILED".
Definition CodeIdempotencyConflict : string := "MEDIA_IDEMPOTENCY_CONFLICT".
Definition CodeMetadataConflict : string := "MEDIA_METADATA_CONFLICT".
Definition CodeStorageFailed : string := "MEDIA_STORAGE_FAILED".
Definition CodeDatabaseFailed : string := "MEDIA_DATABASE_FAILED".
Definition CodeQuarantineFailed : string := "MEDIA_QUARANTINE_FAILED".
Definition CodeStorageProtected : string := "MEDIA_STORAGE_PROTECTED".

(** An error is an [*Error] around another one, an error of the operating
    system, of the store, of a cancelled context, or a plain message. *)
Inductive media_error : Type :=
  | MediaError (code : string) (err : media_error)
  | NotExist
  | OsFailure
  | StoreFailure (e : error)
  | ContextDone
  | Message (text : string).

Definition ErrorCode (e : media_error) : string :=
  match e with MediaError code _ => code | _ => CodeStorageFailed end.
(** [errors.Is(err, os.ErrNotExist)]. *)
Fixpoint is_not_exist (e : media_error) : bool :=
  match e with MediaError _ inner => is_not_exist inner | NotExist => true | _ => false end.
Definition failure (code text : string) : media_error := MediaError code (Message text).

(** ** The document *)
Definition SidecarSchemaVersion : Z := 1.

Record Sidecar := MkSidecar {
  sc_SchemaVersion : Z; sc_Complete : bool; sc_CollectorID : string; sc_SourceIdempotencyKey : string;
  sc_DeviceStartRaw : string; sc_DeviceEndRaw : string;
  sc_ClockOffsetMS : option Z; sc_ClockErrorMS : option Z; sc_SizeBytes : Z;
  sc_SHA256 : string; sc_MediaType : string }.

Record parsedSidecar := ParsedSidecar {
  ps_Sidecar : Sidecar; ps_DeviceStartUTC : string; ps_DeviceEndUTC : string; ps_Fingerprint : string }.

Definition sidecarFields : list string :=
  ["schema_version"; "complete"; "collector_id"; "source_idempotency_key"; "device_start_raw";
   "device_end_raw"; "clock_offset_ms"; "clock_error_ms"; "size_bytes"; "sha256"; "media_type"].

(** [validIdentifier] of this package also refuses white space inside. *)
Definition validIdentifier (value : string) (maximum : Z) : bool :=
  negb (String.eqb value "" || (maximum <? slen value) || negb (valid_utf8 value)
        || negb (String.eqb (trim_space value) value))
  && forallb (fun r => negb (is_control r || is_space r)) (runes value).

Definition parseDeviceTime (raw : string) : result media_error time :=
  let invalid := failure CodeTimeInvalid "sidecar device time must have an explicit RFC3339 offset" in
  if String.eqb raw "" || (128 <? slen raw) || negb (String.eqb (trim_space raw) raw)
     || has_suffix raw "-00:00"
  then Err invalid
  else match parse_rfc3339nano raw with Some t => Ok t | None => Err invalid end.

(** [hex.DecodeString] succeeds: an even number of hexadecimal digits. *)
Fixpoint hex_decodes (s : string) : bool :=
  match s with
  | EmptyString => true
  | String a (String b t) => bool_decide (is_Some (hex_val a)) && bool_decide (is_Some (hex_val b)) && hex_decodes t
  | String _ EmptyString => false
  end.

(** [Complete *bool] of the first decoding. *)
Definition complete_is_bool (raw : string) : bool :=
  match unmarshal raw with
  | Some (JObj ms) => match member "complete" ms with Some (JBool _) => true | _ => false end
  | _ => false
  end.

Definition decodeSidecar (v : json) : option Sidecar :=
  match v with
  | JObj ms =>
    let f k := member k ms in
    let! version := int_field (f "schema_version") in
    let! complete := bool_field (f "complete") in
    let! collector := string_field (f "collector_id") in
    let! key := string_field (f "source_idempotency_key") in
    let! start := string_field (f "device_start_raw") in
    let! finish := string_field (f "device_end_raw") in
    let! offset := int_pointer_field (f "clock_offset_ms") in
    let! err := int_pointer_field (f "clock_error_ms") in
    let! size := int_field (f "size_bytes") in
    let! digest := string_field (f "sha256") in
    let! kind := string_field (f "media_type") in
    Some (MkSidecar version complete collector key start finish offset err size digest kind)
  | _ => None
  end.

Definition number_or_null (v : option Z) : json :=
  match v with Some z => JNum (format_int z) | None => JNull end.

(** [json.Marshal(sidecar)]. *)
Definition canonical (s : Sidecar) : string :=
  marshal_struct
    [("schema_version", JNum (format_int (sc_SchemaVersion s))); ("complete", JBool (sc_Complete s));
     ("collector_id", JStr (sc_CollectorID s)); ("source_idempotency_key", JStr (sc_SourceIdempotencyKey s));
     ("device_start_raw", JStr (sc_DeviceStartRaw s)); ("device_end_raw", JStr (sc_DeviceEndRaw s));
     ("clock_offset_ms", number_or_null (sc_ClockOffsetMS s));
     ("clock_error_ms", number_or_null (sc_ClockErrorMS s));
     ("size_bytes", JNum (format_int (sc_SizeBytes s))); ("sha256", JStr (sc_SHA256 s));
     ("media_type", JStr (sc_MediaType s))].

Definition clock_offset_bound : Z := 365 * 24 * 60 * 60 * 1000.
Definition clock_error_bound : Z := 24 * 60 * 60 * 1000.
Definition within_bounds (lo hi : Z) (v : option Z) : bool :=
  match v with Some z => (lo <=? z) && (z <=? hi) | None => false end.

Definition parseSidecar (raw : string) (maxDuration : duration) : result media_error parsedSidecar :=
  guard? is_ok (ValidateExactRootObjectRequired raw 0 sidecarFields)
    else failure CodeSidecarInvalid "sidecar JSON does not match schema v1" in
  guard? complete_is_bool raw
    else failure CodeSidecarInvalid "sidecar complete field must be a boolean" in
  match (let! (v, rest) := decode_first raw in let! s := decodeSidecar v in Some (s, rest)) with
  | None => Err (failure CodeSidecarInvalid "sidecar JSON is invalid")
  | Some (sidecar, trailing) =>
    guard? at_eof trailing else failure CodeSidecarInvalid "sidecar contains trailing JSON" in
    guard? sc_SchemaVersion sidecar =? SidecarSchemaVersion
      else failure CodeSidecarInvalid "sidecar schema version is unsupported" in
    guard? sc_Complete sidecar else failure CodeSidecarIncomplete "sidecar is not marked complete" in
    guard? validIdentifier (sc_CollectorID sidecar) 128 && validIdentifier (sc_SourceIdempotencyKey sidecar) 256
      else failure CodeSidecarInvalid "sidecar identity is invalid" in
    let? start := parseDeviceTime (sc_DeviceStartRaw sidecar) in
    let? finish := parseDeviceTime (sc_DeviceEndRaw sidecar) in
    guard? (start <? finish) && (Heartbeats.time_sub finish start <=? maxDuration)
      else failure CodeTimeInvalid "sidecar device time range is invalid or exceeds the segment limit" in
    guard? within_bounds (- clock_offset_bound) clock_offset_bound (sc_ClockOffsetMS sidecar)
      else failure CodeTimeInvalid "sidecar clock offset is missing or invalid" in
    guard? within_bounds 0 clock_error_bound (sc_ClockErrorMS sidecar)
      else failure CodeTimeInvalid "sidecar clock error is missing or invalid" in
    guard? 0 <? sc_SizeBytes sidecar else failure CodeSidecarInvalid "sidecar size must be positive" in
    guard? slen (sc_SHA256 sidecar) =? 64
      else failure CodeSidecarInvalid "sidecar SHA-256 must be lowercase hexadecimal" in
    guard? hex_decodes (sc_SHA256 sidecar) && String.eqb (to_lower (sc_SHA256 sidecar)) (sc_SHA256 sidecar)
      else failure CodeSidecarInvalid "sidecar SHA-256 must be lowercase hexadecimal" in
    guard? String.eqb (sc_MediaType sidecar) "video"
      else failure CodeTypeInvalid "sidecar media_type must be video" in
    Ok (ParsedSidecar sidecar (format_rfc3339nano start) (format_rfc3339nano finish)
          (sha256_hex (canonical sidecar)))
  end.

(** ** Metadata *)
Record ProbeInfo := MkProbeInfo { pi_DurationMS : Z; pi_CodecName : string; pi_FormatName : string; pi_MediaType : string }.

Definition metadataHash (sidecar : parsedSidecar) (probe : ProbeInfo) : string :=
  let s := ps_Sidecar sidecar in
  sha256_hex (marshal_struct
    [("device_start_raw", JStr (sc_DeviceStartRaw s)); ("device_end_raw", JStr (sc_DeviceEndRaw s));
     ("device_start_utc", JStr (ps_DeviceStartUTC sidecar)); ("device_end_utc", JStr (ps_DeviceEndUTC sidecar));
     ("clock_offset_ms", JNum (format_int (default 0 (sc_ClockOffsetMS s))));
     ("clock_error_ms", JNum (format_int (default 0 (sc_ClockErrorMS s))));
     ("size_bytes", JNum (format_int (sc_SizeBytes s))); ("duration_ms", JNum (format_int (pi_DurationMS probe)));
     ("codec_name", JStr (pi_CodecName probe)); ("format_name", JStr (pi_FormatName probe));
     ("media_type", JStr (sc_MediaType s)); ("sha256", JStr (sc_SHA256 s));
     ("sidecar_schema_version", JNum (format_int (sc_SchemaVersion s)))]).

(** The row [ProcessReady] hands to the store. *)
Definition segment_metadata (sidecar : parsedSidecar) (probe : ProbeInfo) (managedRelativePath receivedAt : string)
    : MediaMetadata :=
  let s := ps_Sidecar sidecar in
  MkMediaMetadata (sc_CollectorID s) (sc_SourceIdempotencyKey s) managedRelativePath
    (sc_DeviceStartRaw s) (sc_DeviceEndRaw s) (ps_DeviceStartUTC sidecar) (ps_DeviceEndUTC sidecar) receivedAt
    (default 0 (sc_ClockOffsetMS s)) (default 0 (sc_ClockErrorMS s)) (sc_SizeBytes s) (pi_DurationMS probe)
    (pi_CodecName probe) (pi_FormatName probe) (sc_MediaType s) (sc_SHA256 s) (metadataHash sidecar probe)
    (sc_SchemaVersion s).

(** ** What an accepted sidecar is *)

(** The value of every field has the type of its field and is not [null]. *)
Record typed (ms : list (string * json)) (s : Sidecar) : Prop := {
  t_version : exists t, member "schema_version" ms = Some (JNum t) /\ parse_int t = Some 1;
  t_complete : member "complete" ms = Some (JBool true);
  t_collector : member "collector_id" ms = Some (JStr (sc_CollectorID s));
  t_key : member "source_idempotency_key" ms = Some (JStr (sc_SourceIdempotencyKey s));
  t_start : member "device_start_raw" ms = Some (JStr (sc_DeviceStartRaw s));
  t_finish : member "device_end_raw" ms = Some (JStr (sc_DeviceEndRaw s));
  t_offset : exists t z, member "clock_offset_ms" ms = Some (JNum t) /\ parse_int t = Some z /\
    sc_ClockOffsetMS s = Some z /\ - clock_offset_bound <= z <= clock_offset_bound;
  t_error : exists t z, member "clock_error_ms" ms = Some (JNum t) /\ parse_int t = Some z /\
    sc_ClockErrorMS s = Some z /\ 0 <= z <= clock_error_bound;
  t_size : exists t, member "size_bytes" ms = Some (JNum t) /\ parse_int t = Some (sc_SizeBytes s) /\
    0 < sc_SizeBytes s;
  t_digest : member "sha256" ms = Some (JStr (sc_SHA256 s)) /\ slen (sc_SHA256 s) = 64;
  t_kind : member "media_type" ms = Some (JStr "video") }.

Lemma string_field_nonempty v s : string_field v = Some s -> s <> "" -> v = Some (JStr s).
Proof. destruct v as [[]|]; simpl; congruence. Qed.
Lemma int_field_nonzero v z : int_field v = Some z -> z <> 0 -> exists t, v = Some (JNum t) /\ parse_int t = Some z.
Proof. destruct v as [[| |t| | |]|]; simpl; try congruence. eauto. Qed.
Lemma bool_field_true v : bool_field v = Some true -> v = Some (JBool true).
Proof. destruct v as [[]|]; simpl; congruence. Qed.
Lemma int_pointer_some v z : int_pointer_field v = Some (Some z) -> exists t, v = Some (JNum t) /\ parse_int t = Some z.
Proof.
  destruct v as [[| |t| | |]|]; simpl; try congruence.
  destruct (parse_int t) as [z'|] eqn:E; simpl; [|congruence]. intros [= ->]. eauto.
Qed.
Lemma validIdentifier_nonempty s n : validIdentifier s n = true -> s <> "".
Proof. by intros H ->. Qed.
Lemma parseDeviceTime_Ok raw t : parseDeviceTime raw = Ok t -> raw <> "" /\ parse_rfc3339nano raw = Some t.
Proof.
  unfold parseDeviceTime. case_match eqn:E; [done|]. case_match; [|done]. intros [= ->].
  split; [|done]. by intros ->.
Qed.
Lemma within_bounds_some lo hi v : within_bounds lo hi v = true -> exists z, v = Some z /\ lo <= z <= hi.
Proof. destruct v as [z|]; [|done]. simpl. intros H. exists z. split; [done|]. lia. Qed.

Lemma sidecarFields_distinct : NoDup sidecarFields.
Proof. apply (bool_decide_eq_true_1 _). vm_compute. reflexivity. Qed.

(** The checks that follow the decoding, with the fields they leave. *)
Record checked (s : Sidecar) : Prop := {
  k_version : sc_SchemaVersion s = 1;
  k_complete : sc_Complete s = true;
  k_collector : sc_CollectorID s <> "";
  k_key : sc_SourceIdempotencyKey s <> "";
  k_start : sc_DeviceStartRaw s <> "";
  k_finish : sc_DeviceEndRaw s <> "";
  k_offset : exists z, sc_ClockOffsetMS s = Some z /\ - clock_offset_bound <= z <= clock_offset_bound;
  k_error : exists z, sc_ClockErrorMS s = Some z /\ 0 <= z <= clock_error_bound;
  k_size : 0 < sc_SizeBytes s;
  k_digest : slen (sc_SHA256 s) = 64;
  k_hex : hex_decodes (sc_SHA256 s) = true;
  k_kind : sc_MediaType s = "video" }.

Lemma decoded_typed ms s : decodeSidecar (JObj ms) = Some s -> checked s -> typed ms s.
Proof.
  intros H [K1 K2 K3 K4 K5 K6 (zo & K7 & B7) (ze & K8 & B8) K9 K10 _ K11].
  cbn [decodeSidecar] in H. inv_opts H. injection H as <-. cbn in *. subst.
  repeat match goal with
  | H : string_field _ = Some ?s, N : ?s <> "" |- _ => apply (string_field_nonempty _ _ H) in N; clear H
  | H : bool_field _ = Some true |- _ => apply bool_field_true in H
  | H : int_pointer_field _ = Some (Some _) |- _ => apply int_pointer_some in H as (? & ? & ?)
  end.
  apply int_field_nonzero in Ha as (tv & ? & ?); [|done].
  apply int_field_nonzero in Ha7 as (ts & ? & ?); [|lia].
  apply string_field_nonempty in Ha8; [|by intros ->].
  apply string_field_nonempty in Ha9; [|done].
  split; cbn; eauto 8.
Qed.

Lemma parse_sidecar_inv raw maxDuration p : parseSidecar raw maxDuration = Ok p ->
  exists ms start finish, unmarshal raw = Some (JObj ms) /\ map fst ms ≡ₚ sidecarFields /\
    typed ms (ps_Sidecar p) /\ checked (ps_Sidecar p) /\
    parse_rfc3339nano (sc_DeviceStartRaw (ps_Sidecar p)) = Some start /\
    parse_rfc3339nano (sc_DeviceEndRaw (ps_Sidecar p)) = Some finish /\
    start < finish /\ Heartbeats.time_sub finish start <= maxDuration /\
    ps_DeviceStartUTC p = format_rfc3339nano start /\ ps_DeviceEndUTC p = format_rfc3339nano finish /\
    ps_Fingerprint p = sha256_hex (canonical (ps_Sidecar p)).
Proof.
  unfold parseSidecar. intros H. inv_oks H.
  assert (Hv : ValidateExactRootObjectRequired raw 0 sidecarFields = Ok tt)
    by (destruct (ValidateExactRootObjectRequired _ _ _) as [[]|]; done).
  apply required_root_exact in Hv as (ms & Hu & Hp); [|by left|apply sidecarFields_distinct].
  destruct (obind (decode_first raw) _) as [[s trailing]|] eqn:Ed; [|done].
  inv_opts Ed. injection Ed as -> ->. inv_oks H. injection H as <-. cbn [ps_Sidecar ps_DeviceStartUTC ps_DeviceEndUTC ps_Fingerprint].
  unfold unmarshal in Hu. rewrite Ha1 in Hu. cbn [obind] in Hu. apply oguard_Some in Hu as [_ [= ->]].
  to_prop. apply parseDeviceTime_Ok in Ha7 as [N1 ?], Ha8 as [N2 ?].
  assert (checked s) by (split; try done; try (by eapply validIdentifier_nonempty); by apply within_bounds_some).
  exists ms, a0, a1. unfold unmarshal. rewrite Ha1. cbn [obind]. rewrite Ha3.
  split; [done|]. split; [done|]. split; [by apply decoded_typed|done].
Qed.

(** C32: an accepted sidecar is one JSON object with exactly the eleven fields, each
    of the type of its field and none of them [null]; its identity is not empty,
    its clock offset, clock error and size are within their bounds, and its
    device times are RFC 3339 instants in order, no longer apart than the longest
    segment. *)
Theorem parseSidecar_typed raw maxDuration p (Hp : parseSidecar raw maxDuration = Ok p) :
  exists ms start finish, unmarshal raw = Some (JObj ms) /\ map fst ms ≡ₚ sidecarFields /\
    typed ms (ps_Sidecar p) /\
    parse_rfc3339nano (sc_DeviceStartRaw (ps_Sidecar p)) = Some start /\
    parse_rfc3339nano (sc_DeviceEndRaw (ps_Sidecar p)) = Some finish /\
    0 < Heartbeats.time_sub finish start <= maxDuration /\
    ps_DeviceStartUTC p = format_rfc3339nano start /\ ps_DeviceEndUTC p = format_rfc3339nano finish.
Proof.
  apply parse_sidecar_inv in Hp as (ms & t1 & t2 & H1 & H2 & H3 & _ & H4 & H5 & H6 & H7 & H8 & H9 & _).
  exists ms, t1, t2. do 5 (split; [done|]). split; [split; [|done]|done].
  clear - H6. unfold Heartbeats.time_sub, int64_min, int64_max. change time with Z in *. lia.
Qed.

(** ** The fingerprint of a stored segment *)
Lemma stored_fingerprint raw maxDuration p probe path receivedAt id status :
  parseSidecar raw maxDuration = Ok p ->
  mc_SidecarFingerprint (queryMediaClaim (Row id (segment_metadata p probe path receivedAt))
    (sc_CollectorID (ps_Sidecar p)) (sc_SourceIdempotencyKey (ps_Sidecar p)) status) = ps_Fingerprint p.
Proof.
  intros (ms & t1 & t2 & _ & _ & _ & [_ Hc _ _ _ _ (zo & Ho & _) (ze & He & _) _ _ _ _]
    & _ & _ & _ & _ & _ & _ & ->)%parse_sidecar_inv.
  unfold queryMediaClaim, sidecar_json, canonical, segment_metadata. cbn -[sha256_hex marshal_struct].
  by rewrite Ho, He, Hc.
Qed.

(** ** A concrete sidecar *)
Definition sidecar_text (start finish size digest : string) : string := quoted
  ("{'schema_version':1,'complete':true,'collector_id':'camera','source_idempotency_key':'s1',"
   +:+ "'device_start_raw':'" +:+ start +:+ "','device_end_raw':'" +:+ finish
   +:+ "','clock_offset_ms':-250,'clock_error_ms':20,'size_bytes':" +:+ size
   +:+ ",'sha256':'" +:+ digest +:+ "','media_type':'video'}").
Definition sample_bytes : string := "frames".
Definition sample_sidecar : string :=
  sidecar_text "2024-02-29T20:34:56+08:00" "2024-02-29T12:35:26.5Z" "6" (sha256_hex sample_bytes).

Lemma parseSidecar_typed_witness :
  exists p ms, parseSidecar sample_sidecar (60 * second) = Ok p /\
    unmarshal sample_sidecar = Some (JObj ms) /\ typed ms (ps_Sidecar p).
Proof.
  destruct (parseSidecar sample_sidecar (60 * second)) as [p|e] eqn:E; [|exfalso; vm_compute in E; discriminate].
  destruct (parseSidecar_typed _ _ _ E) as (ms & t1 & t2 & Hu & _ & Ht & _).
  exists p, ms. exact (conj eq_refl (conj Hu Ht)).
Defined.
