(* ===== verification/Heap.v ===== *)
(** * Binary heaps ([container/heap])

    The library's [Push] and [Pop] over a slice and the bounded heap media ingest
    keeps with them: after any number of [retainSmallest] the heap holds the
    smallest keys seen. *)

From Stdlib Require Import ZArith ZifyNat Lia String Ascii.
From S2P Require Import Prelude GoStrings Order.

#[local] Ltac Zify.zify_post_hook ::= Z.div_mod_to_equations.

(** ** The operations *)
Section Heap.
Context {A : Type} (less : A -> A -> bool).

Definition swap (l : list A) (i j : nat) : list A :=
  match l !! i, l !! j with Some x, Some y => <[j := x]> (<[i := y]> l) | _, _ => l end.
Definition less_at (l : list A) (i j : nat) : bool :=
  match l !! i, l !! j with Some x, Some y => less x y | _, _ => false end.
Definition parent (k : nat) : nat := (k - 1) / 2.

Fixpoint up (fuel : nat) (l : list A) (j : nat) : list A :=
  match fuel with
  | O => l
  | S f =>
    let i := parent j in
    if (i =? j)%nat || negb (less_at l j i) then l else up f (swap l i j) i
  end.

Definition least_child (l : list A) (i n : nat) : nat :=
  let j1 := (2 * i + 1)%nat in
  let j2 := (j1 + 1)%nat in
  if (j2 <? n)%nat && less_at l j2 j1 then j2 else j1.

Fixpoint down (fuel : nat) (l : list A) (i n : nat) : list A :=
  match fuel with
  | O => l
  | S f =>
    if (n <=? 2 * i + 1)%nat then l
    else let j := least_child l i n in
         if negb (less_at l j i) then l else down f (swap l i j) j n
  end.

Definition heap_push (l : list A) (x : A) : list A :=
  let l' := l ++ [x] in up (length l') l' (length l' - 1).
(** [heap.Pop], without the value it returns. *)
Definition heap_pop (l : list A) : list A :=
  let n := (length l - 1)%nat in
  take n (down (length l) (swap l 0 n) 0 n).

(** ** The heap order *)
Context (lt_asym : forall x y, less x y = true -> less y x = false).
Context (le_trans : forall x y z, le_by less x y -> le_by less y z -> le_by less x z).

Definition le_at (l : list A) (i j : nat) : Prop :=
  match l !! i, l !! j with Some x, Some y => le_by less x y | _, _ => True end.
Definition heap_ok (n : nat) (l : list A) : Prop := forall k, (0 < k < n)%nat -> le_at l (parent k) k.

Lemma le_at_trans l i j k : (j < length l)%nat -> le_at l i j -> le_at l j k -> le_at l i k.
Proof.
  unfold le_at. intros Hj. apply lookup_lt_is_Some in Hj as [y ->].
  destruct (l !! i), (l !! k); eauto.
Qed.

Lemma less_le_at l i j : less_at l i j = true -> le_at l i j.
Proof. unfold less_at, le_at, le_by. repeat case_match; try done. apply lt_asym. Qed.
Lemma not_less_le_at l i j : less_at l i j = false -> le_at l j i.
Proof. unfold less_at, le_at, le_by. by repeat case_match. Qed.

Lemma swap_perm l i j : swap l i j ≡ₚ l.
Proof. unfold swap. repeat case_match; try done. by apply Permutation_insert_swap. Qed.
Lemma length_swap l i j : length (swap l i j) = length l.
Proof. by rewrite (swap_perm l i j). Qed.
Lemma swap_lookup l i j k : (i < length l)%nat -> (j < length l)%nat ->
  swap l i j !! k = if decide (k = j) then l !! i else if decide (k = i) then l !! j else l !! k.
Proof.
  intros Hi Hj. unfold swap. pose proof Hi as Hx. pose proof Hj as Hy.
  apply lookup_lt_is_Some in Hx as [x Ex], Hy as [y Ey]. rewrite Ex, Ey.
  case_decide as E1; [subst k|case_decide as E2; [subst k|]].
  - by rewrite list_lookup_insert_eq by (rewrite length_insert; lia).
  - by rewrite list_lookup_insert_ne, list_lookup_insert_eq by (try rewrite length_insert; lia).
  - by rewrite !list_lookup_insert_ne by lia.
Qed.

(** Compares two places of a swapped list by those of the list. *)
Lemma le_at_swap l i j a b : (i < length l)%nat -> (j < length l)%nat ->
  le_at l (if decide (a = j) then i else if decide (a = i) then j else a)
          (if decide (b = j) then i else if decide (b = i) then j else b) ->
  le_at (swap l i j) a b.
Proof.
  intros Hi Hj H. unfold le_at in *. rewrite !swap_lookup by done. repeat case_decide; done.
Qed.

(** ** [up] *)
Lemma up_perm fuel l j : up fuel l j ≡ₚ l.
Proof.
  revert l j. induction fuel as [|f IH]; intros l j; [done|]. cbn [up].
  case_match; [done|]. by rewrite IH, swap_perm.
Qed.

(** Only the element at [j] may be smaller than its parent. *)
Definition up_ok (l : list A) (j : nat) : Prop :=
  (forall k, (0 < k < length l)%nat -> k <> j -> le_at l (parent k) k) /\
  (forall k, (0 < k < length l)%nat -> parent k = j -> (0 < j)%nat -> le_at l (parent j) k).

Lemma up_step l j : (0 < j < length l)%nat -> less_at l j (parent j) = true -> up_ok l j ->
  up_ok (swap l (parent j) j) (parent j).
Proof.
  intros Hj Hl [H1 H2]. assert (Hp : (parent j < j)%nat) by (unfold parent; lia).
  unfold up_ok. rewrite length_swap. split; intros k Hk Hne.
  - apply le_at_swap; [lia..|].
    destruct (decide (k = j)) as [->|N1].
    { rewrite (decide_False (P := parent j = j)), (decide_True (P := parent j = parent j)) by lia.
      by apply less_le_at. }
    rewrite (decide_False (P := k = parent j)) by done.
    destruct (decide (parent k = j)) as [E|N2]; [apply H2; lia|].
    case_decide as E; [|by apply H1].
    apply (le_at_trans _ _ (parent j)); [lia|by apply less_le_at|]. rewrite <- E. apply H1; [lia|done].
  - intros Hp0. set (i := parent j) in *. apply le_at_swap; [lia..|].
    assert (parent i < i)%nat by (unfold parent; lia).
    rewrite (decide_False (P := parent i = j)), (decide_False (P := parent i = i)) by lia.
    rewrite (decide_False (P := k = i)) by (intros ->; lia).
    destruct (decide (k = j)) as [->|N1]; [apply H1; lia|].
    apply (le_at_trans _ _ i); [lia|apply H1; lia|]. rewrite <- Hne. apply H1; lia.
Qed.

Lemma up_heap fuel l j : (j < length l)%nat -> (j < fuel)%nat -> up_ok l j -> heap_ok (length l) (up fuel l j).
Proof.
  revert l j. induction fuel as [|f IH]; intros l j Hj Hf Hok; [lia|]. cbn [up].
  destruct (parent j =? j)%nat eqn:E; cbn [orb].
  { apply Nat.eqb_eq in E. intros k Hk. apply Hok; [lia|]. unfold parent in E. lia. }
  apply Nat.eqb_neq in E. assert (0 < j)%nat by (unfold parent in E; destruct j; [done|lia]).
  assert (parent j < j)%nat by (unfold parent; lia).
  destruct (less_at l j (parent j)) eqn:El; cbn [negb].
  - rewrite <- (length_swap l (parent j) j). apply IH; [rewrite length_swap; lia|lia|by apply up_step].
  - intros k Hk. destruct (decide (k = j)) as [->|N]; [by apply not_less_le_at|by apply Hok].
Qed.

Lemma heap_push_perm l x : heap_push l x ≡ₚ x :: l.
Proof. unfold heap_push. rewrite up_perm. by rewrite Permutation_app_comm. Qed.

Lemma heap_push_ok l x : heap_ok (length l) l -> heap_ok (length (heap_push l x)) (heap_push l x).
Proof.
  intros H. assert (length (l ++ [x]) = S (length l)) as E by (rewrite length_app; simpl; lia).
  replace (length (heap_push l x)) with (length (l ++ [x])) by (by rewrite (heap_push_perm l x)).
  unfold heap_push.
  apply up_heap; [lia..|]. split; intros k Hk Hne.
  - specialize (H k). unfold le_at in *. rewrite !lookup_app_l by (unfold parent; lia). apply H. lia.
  - unfold parent in Hne. lia.
Qed.

(** ** [down] *)
Lemma down_perm fuel l i n : down fuel l i n ≡ₚ l.
Proof.
  revert l i. induction fuel as [|f IH]; intros l i; [done|]. cbn [down].
  case_match; [done|]. case_match; [done|]. by rewrite IH, swap_perm.
Qed.

Lemma least_child_range l i n : (2 * i + 1 < n)%nat ->
  (least_child l i n < n)%nat /\ parent (least_child l i n) = i /\ (i < least_child l i n)%nat.
Proof.
  intros H. unfold least_child. destruct (_ && _) eqn:E.
  - apply andb_true_iff in E as [E _]. apply Nat.ltb_lt in E. unfold parent. lia.
  - unfold parent. lia.
Qed.

Lemma least_child_le l i n k : (2 * i + 1 < n)%nat -> (n <= length l)%nat -> (0 < k < n)%nat -> parent k = i ->
  le_at l (least_child l i n) k.
Proof.
  intros Hn Hl Hk Hp. assert (Hc : k = (2 * i + 1)%nat \/ k = (2 * i + 1 + 1)%nat) by (unfold parent in Hp; lia).
  assert (Hrefl : forall m, le_at l m m).
  { intros m. unfold le_at, le_by. destruct (l !! m) as [x|]; [|done].
    destruct (less x x) eqn:E; [|done]. by rewrite (lt_asym _ _ E) in E. }
  unfold least_child. destruct (_ && _) eqn:E.
  - apply andb_true_iff in E as [_ E]. destruct Hc as [->| ->]; [by apply less_le_at|done].
  - destruct Hc as [->| ->]; [done|]. apply andb_false_iff in E as [E|E]; [|by apply not_less_le_at].
    apply Nat.ltb_ge in E. lia.
Qed.

(** Only the element at [i] may be larger than its children. *)
Definition down_ok (l : list A) (i n : nat) : Prop :=
  (forall k, (0 < k < n)%nat -> parent k <> i -> le_at l (parent k) k) /\
  (forall k, (0 < k < n)%nat -> parent k = i -> (0 < i)%nat -> le_at l (parent i) k).

Lemma down_step l i n : (n <= length l)%nat -> (2 * i + 1 < n)%nat ->
  less_at l (least_child l i n) i = true -> down_ok l i n ->
  down_ok (swap l i (least_child l i n)) (least_child l i n) n.
Proof.
  intros Hn Hi Hl [H1 H2]. pose proof (least_child_range l i n Hi) as (Rn & Rp & Ri).
  pose proof (fun k => least_child_le l i n k Hi Hn) as Hleast. set (j := least_child l i n) in *.
  split; intros k Hk Hne.
  - apply le_at_swap; [lia..|]. rewrite (decide_False (P := parent k = j)) by done.
    destruct (decide (k = j)) as [->|N1].
    { rewrite decide_True by done. by apply less_le_at. }
    destruct (decide (k = i)) as [->|N2].
    { rewrite (decide_False (P := parent i = i)) by (unfold parent; lia). apply H2; [lia|done|lia]. }
    case_decide as E; [by apply Hleast|by apply H1].
  - intros _. apply le_at_swap; [lia..|]. rewrite Rp.
    assert (parent k < k)%nat by (unfold parent; lia).
    rewrite (decide_False (P := i = j)), (decide_True (P := i = i)) by lia.
    rewrite (decide_False (P := k = j)), (decide_False (P := k = i)) by lia.
    rewrite <- Hne. apply H1; lia.
Qed.

Lemma down_heap fuel l i n : (n <= length l)%nat -> (n <= i + fuel)%nat -> down_ok l i n ->
  heap_ok n (down fuel l i n).
Proof.
  revert l i. induction fuel as [|f IH]; intros l i Hn Hf Hok; cbn [down].
  { intros k Hk. apply Hok; [done|]. unfold parent. lia. }
  destruct (n <=? 2 * i + 1)%nat eqn:E.
  { apply Nat.leb_le in E. intros k Hk. apply Hok; [done|]. unfold parent. lia. }
  apply Nat.leb_gt in E. pose proof (least_child_range l i n E) as (Rn & Rp & Ri).
  destruct (less_at l (least_child l i n) i) eqn:El; cbn [negb].
  - apply IH; [rewrite length_swap; lia|lia|by apply down_step].
  - intros k Hk. destruct (decide (parent k = i)) as [Ek|N]; [|by apply Hok].
    rewrite Ek. apply (le_at_trans _ _ (least_child l i n)); [lia|by apply not_less_le_at|by apply least_child_le].
Qed.

Lemma down_beyond fuel l i n k : (n <= k)%nat -> (n <= length l)%nat -> (i < n)%nat -> down fuel l i n !! k = l !! k.
Proof.
  revert l i. induction fuel as [|f IH]; intros l i Hk Hn Hi; [done|]. cbn [down].
  destruct (n <=? 2 * i + 1)%nat eqn:E; [done|]. apply Nat.leb_gt in E.
  pose proof (least_child_range l i n E) as (Rn & Rp & Ri). case_match; [done|].
  rewrite IH by (try rewrite length_swap; lia). rewrite swap_lookup by lia.
  by rewrite !decide_False by lia.
Qed.

(** Popping takes the first element out. *)
Lemma heap_pop_perm l x : l !! 0%nat = Some x -> x :: heap_pop l ≡ₚ l.
Proof.
  intros Hx. unfold heap_pop. set (n := (length l - 1)%nat).
  assert (Hl : (0 < length l)%nat) by (by eapply lookup_lt_Some).
  set (l' := down (length l) (swap l 0 n) 0 n).
  assert (HP : l' ≡ₚ l) by (unfold l'; by rewrite down_perm, swap_perm).
  assert (Hn : l' !! n = Some x).
  { unfold l'. destruct (decide (n = 0%nat)) as [En|En].
    - rewrite En. destruct (length l) as [|m] eqn:El; [lia|]. cbn. unfold swap. rewrite Hx.
      by rewrite list_insert_id, list_insert_id by (try rewrite list_insert_id; done).
    - rewrite down_beyond by (rewrite ?length_swap; lia). rewrite swap_lookup by lia. by rewrite decide_True. }
  etransitivity; [|exact HP]. rewrite <- (take_drop_middle _ _ _ Hn) at 2.
  rewrite (drop_ge l' (S n)) by (rewrite HP; lia). by rewrite <- Permutation_cons_append.
Qed.

Lemma heap_pop_ok l : heap_ok (length l) l -> heap_ok (length (heap_pop l)) (heap_pop l).
Proof.
  intros H. destruct l as [|a l0] eqn:El; [intros k Hk; simpl in Hk; lia|]. rewrite <- El in *.
  assert (Hl : (0 < length l)%nat) by (subst; simpl; lia). unfold heap_pop. set (n := (length l - 1)%nat).
  set (l' := down (length l) (swap l 0 n) 0 n).
  assert (HP : length l' = length l) by (unfold l'; by rewrite down_perm, swap_perm).
  rewrite length_take, HP. intros k Hk.
  assert (Hh : heap_ok n l').
  { apply down_heap; [rewrite length_swap; lia|lia|]. split; intros m Hm Hne.
    - apply le_at_swap; [lia..|].
      rewrite (decide_False (P := m = n)), (decide_False (P := m = 0%nat)) by lia.
      rewrite (decide_False (P := parent m = n)), (decide_False (P := parent m = 0%nat)) by (unfold parent in *; lia).
      apply H. lia.
    - intros Hm0. lia. }
  specialize (Hh k). unfold le_at in *. rewrite !lookup_take_lt by (unfold parent; lia). apply Hh. lia.
Qed.

(** The first element is before every other one. *)
Lemma heap_first l k : heap_ok (length l) l -> (k < length l)%nat -> le_at l 0 k.
Proof.
  intros H. induction (lt_wf k) as [k _ IH]. intros Hk. destruct (decide (k = 0%nat)) as [->|N].
  - unfold le_at, le_by. destruct (l !! 0%nat) as [x|]; [|done].
    destruct (less x x) eqn:E; [|done]. by rewrite (lt_asym _ _ E) in E.
  - apply (le_at_trans _ _ (parent k)); [unfold parent; lia| |apply H; lia].
    apply IH; unfold parent; lia.
Qed.
End Heap.
