(* ===== verification/MediaScan.v ===== *)
(** * Which ready files a scan takes ([mediaingest/manager.go], [ScanOnce])

    A scan keeps two bounded heaps of candidates, those after the cursor and
    those before it, and takes at most [limit] of them in the order of their
    keys.  The selection is the start of the rotation of all candidates that
    begins after the cursor, so that repeated scans reach every one of them. *)

From Stdlib Require Import ZArith Lia String Ascii.
From S2P Require Import Prelude GoStrings GoTime Order Heap.
Open Scope string_scope.
Open Scope list_scope.
Open Scope Z_scope.

Record readyCandidate := ReadyCandidate { rc_path : string; rc_key : string; rc_size : Z }.

(** [candidateHeap.Less]: the largest key is at the top. *)
Definition candidate_less (x y : readyCandidate) : bool := String.ltb (rc_key y) (rc_key x).

Definition retainSmallest (candidates : list readyCandidate) (candidate : readyCandidate) (limit : Z)
    : list readyCandidate :=
  if Z.of_nat (length candidates) <? limit then heap_push candidate_less candidates candidate
  else match candidates with
       | top :: _ => if (0 <? limit) && String.ltb (rc_key candidate) (rc_key top)
                     then heap_push candidate_less (heap_pop candidate_less candidates) candidate
                     else candidates
       | [] => candidates   (* [limit] is not positive *)
       end.

Definition saturatedAdd (left right : Z) : Z :=
  if right <=? 0 then left
  else if int64_max - right <? left then int64_max
  else left + right.

(** What the enumeration of the inbox keeps. *)
Record scan_state := ScanState {
  sn_after : list readyCandidate; sn_wrapped : list readyCandidate;
  sn_remaining : Z; sn_remainingBytes : Z }.
Definition scan_start : scan_state := ScanState [] [] 0 0.

Definition scan_candidate (cursor : string) (limit : Z) (s : scan_state) (c : readyCandidate) : scan_state :=
  let later := String.ltb cursor (rc_key c) in
  ScanState (if later then retainSmallest (sn_after s) c limit else sn_after s)
            (if later then sn_wrapped s else retainSmallest (sn_wrapped s) c limit)
            (sn_remaining s + 1) (saturatedAdd (sn_remainingBytes s) (rc_size c)).

(** [sort.Slice] on the keys. *)
Definition sort_candidates (l : list readyCandidate) : list readyCandidate := by_key String.compare rc_key l.

(** The loops that fill [selected]. *)
Fixpoint fill (limit : Z) (selected candidates : list readyCandidate) : list readyCandidate :=
  match candidates with
  | [] => selected
  | c :: rest => if Z.of_nat (length selected) =? limit then selected
                 else fill limit (selected ++ [c]) rest
  end.
Definition selected (limit : Z) (s : scan_state) : list readyCandidate :=
  fill limit (fill limit [] (sort_candidates (sn_after s))) (sort_candidates (sn_wrapped s)).

(** A scan of a directory whose unconfirmed candidates are [l]. *)
Definition scan (cursor : string) (limit : Z) (l : list readyCandidate) : scan_state :=
  foldl (scan_candidate cursor limit) scan_start l.
(** The cursor after every selected candidate was taken up. *)
Definition next_scan_cursor (cursor : string) (taken : list readyCandidate) : string :=
  match list.last taken with Some c => rc_key c | None => cursor end.

(** ** The heap holds the smallest keys *)
Abbreviation key_before := (before String.compare).

Lemma candidate_less_before x y : candidate_less x y = key_before (rc_key y) (rc_key x).
Proof. symmetry. apply before_string. Qed.
Lemma candidate_less_asym x y : candidate_less x y = true -> candidate_less y x = false.
Proof. rewrite !candidate_less_before. apply (before_asym String.compare). Qed.
Lemma candidate_less_trans x y z :
  le_by candidate_less x y -> le_by candidate_less y z -> le_by candidate_less x z.
Proof.
  unfold le_by. rewrite !candidate_less_before. intros H1 H2.
  exact (le_by_trans String.compare _ _ _ H2 H1).
Qed.

Lemma take_insert_beyond {A} (lt : A -> A -> bool) (c : A) n l : (n <= length l)%nat ->
  (forall x, x ∈ take n l -> lt x c = true) -> take n (insert_by lt c l) = take n l.
Proof.
  revert l. induction n as [|n IH]; intros [|y l] Hn H; simpl in *; try done; [lia|].
  rewrite (H y) by left. simpl. f_equal. apply IH; [lia|]. intros x Hx. apply H. by right.
Qed.
Lemma take_insert_within {A} (lt : A -> A -> bool) (c r : A) m l :
  l !! m = Some r -> lt r c = false -> take (S m) (insert_by lt c l) ≡ₚ c :: take m l.
Proof.
  revert l. induction m as [|m IH]; intros [|y l] Hr Hlt; try done; cbn [insert_by].
  - injection Hr as ->. by rewrite Hlt.
  - destruct (lt y c) eqn:E; [|done]. rewrite !firstn_cons, IH by done. apply perm_swap.
Qed.

(** [h] is a heap of the [limit] smallest keys of [l]. *)
Definition keeps_smallest (limit : Z) (l h : list readyCandidate) : Prop :=
  heap_ok candidate_less (length h) h /\ h ≡ₚ take (Z.to_nat limit) (sort_candidates l).

Lemma sort_candidates_cons c l : sort_candidates (c :: l) =
  insert_by (fun x y => key_before (rc_key x) (rc_key y)) c (sort_candidates l).
Proof. done. Qed.
Lemma length_sort_candidates l : length (sort_candidates l) = length l.
Proof. apply length_sort_by. Qed.
Lemma elem_of_sort_candidates l x : x ∈ sort_candidates l <-> x ∈ l.
Proof. apply elem_of_sort_by. Qed.
Lemma sort_candidates_sorted l : NoDup (map rc_key l) ->
  StronglySorted (key_lt String.compare rc_key) (sort_candidates l).
Proof. apply by_key_strict, _. Qed.

Lemma sorted_take_last m r (l : list readyCandidate) : StronglySorted (key_lt String.compare rc_key) l ->
  l !! m = Some r -> forall x, x ∈ take (S m) l -> x = r \/ key_before (rc_key x) (rc_key r) = true.
Proof.
  intros Hs Hr x Hx. rewrite (take_S_r _ _ _ Hr) in Hx. apply elem_of_app in Hx as [Hx|Hx].
  - right. rewrite <- (take_drop_middle _ _ _ Hr) in Hs. apply sorted_app_lt in Hs as [_ Hs].
    apply Hs; [done|by left].
  - left. by apply list_elem_of_singleton in Hx.
Qed.

(** The root of the heap is the largest candidate it keeps. *)
Lemma heap_root_last l m h h0 top r : NoDup (map rc_key l) -> heap_ok candidate_less (length h) h ->
  h ≡ₚ take (S m) (sort_candidates l) -> h = top :: h0 -> sort_candidates l !! m = Some r -> top = r.
Proof.
  intros HN Hh HP Eh Hr. pose proof (sort_candidates_sorted l HN) as Hs.
  assert (Hrh : r ∈ h) by (rewrite HP, (take_S_r _ _ _ Hr); apply elem_of_app; right; by left).
  assert (Hth : top ∈ h) by (subst h; by left).
  rewrite HP in Hth. destruct (sorted_take_last _ _ _ Hs Hr _ Hth) as [E|E]; [done|].
  apply list_elem_of_lookup in Hrh as [k Hk].
  pose proof (heap_first candidate_less candidate_less_asym candidate_less_trans h k Hh
    (lookup_lt_Some _ _ _ Hk)) as Hf. unfold le_at in Hf. rewrite Hk in Hf. subst h. cbn in Hf.
  unfold le_by in Hf. rewrite candidate_less_before in Hf. congruence.
Qed.
Lemma retain_smallest limit l h c : NoDup (map rc_key (c :: l)) ->
  keeps_smallest limit l h -> keeps_smallest limit (c :: l) (retainSmallest h c limit).
Proof.
  intros HN [Hh HP]. cbn [map] in HN. apply NoDup_cons in HN as [Hc HN].
  assert (Hne : forall x, x ∈ l -> key_before (rc_key x) (rc_key c) = negb (key_before (rc_key c) (rc_key x))).
  { intros x Hx. destruct (before_total String.compare (rc_key x) (rc_key c)) as [E|[E|E]].
    - by rewrite E, (before_asym String.compare _ _ E).
    - destruct Hc. rewrite <- E. by apply list_elem_of_fmap_2.
    - by rewrite E, (before_asym String.compare _ _ E). }
  pose proof (sort_candidates_sorted l HN) as Hs. unfold retainSmallest, keeps_smallest.
  rewrite sort_candidates_cons. set (n := Z.to_nat limit) in *.
  assert (Hlen : length h = Nat.min n (length l)) by (by rewrite HP, length_take, length_sort_candidates).
  destruct (Z.ltb_spec (Z.of_nat (length h)) limit) as [Hl|Hl].
  - split; [apply heap_push_ok; [apply candidate_less_asym|apply candidate_less_trans|done]|].
    rewrite heap_push_perm, HP. rewrite !take_ge; [by rewrite insert_by_perm| |];
      rewrite ?insert_by_perm; cbn [length]; rewrite length_sort_candidates; lia.
  - destruct h as [|top h0] eqn:Eh; [|rewrite <- Eh in *].
    { cbn [length] in *. assert (n = 0%nat) as -> by lia. by rewrite !take_0 in *. }
    assert (Hm : exists m, n = S m) by (exists (pred n); subst h; cbn in Hlen; lia). destruct Hm as [m Em].
    rewrite Em in *. assert ((0 <? limit) = true) as -> by lia. cbn [andb].
    assert (Hr : is_Some (sort_candidates l !! m)).
    { apply lookup_lt_is_Some. rewrite length_sort_candidates. lia. }
    destruct Hr as [r Hr].
    assert (top = r) as <- by (by apply (heap_root_last l m h h0 top r)).
    assert (Ht : top ∈ l) by (apply elem_of_sort_candidates; by eapply list_elem_of_lookup_2).
    replace (String.ltb (rc_key c) (rc_key top)) with (key_before (rc_key c) (rc_key top)) by apply before_string.
    destruct (key_before (rc_key c) (rc_key top)) eqn:E.
    + split.
      * apply heap_push_ok; [apply candidate_less_asym|apply candidate_less_trans|].
        apply heap_pop_ok; [apply candidate_less_asym|apply candidate_less_trans|done].
      * rewrite heap_push_perm, (take_insert_within _ _ top) by (try done; by apply (before_asym String.compare)).
        constructor. apply (Permutation_cons_inv (a := top)). rewrite heap_pop_perm by (by subst h).
        rewrite HP, (take_S_r _ _ _ Hr). by rewrite <- Permutation_cons_append.
    + split; [done|]. rewrite take_insert_beyond; [done|rewrite length_sort_candidates; lia|].
      intros x Hx. assert (Hxl : x ∈ l).
      { apply elem_of_sort_candidates. apply elem_of_take in Hx as (? & ? & _). by eapply list_elem_of_lookup_2. }
      destruct (sorted_take_last _ _ _ Hs Hr _ Hx) as [->|Hx']; [by rewrite Hne, E by done|].
      rewrite Hne by done. apply negb_true_iff.
      destruct (key_before (rc_key c) (rc_key x)) eqn:E2; [|done].
      by rewrite (before_trans String.compare _ _ _ E2 Hx') in E.
Qed.

(** ** A scan takes the start of the rotation after the cursor *)
Definition later (cursor : string) (c : readyCandidate) : bool := key_before cursor (rc_key c).
Definition rotation (cursor : string) (l : list readyCandidate) : list readyCandidate :=
  List.filter (later cursor) (sort_candidates l)
  ++ List.filter (fun c => negb (later cursor c)) (sort_candidates l).

Lemma keeps_sorted limit l h : NoDup (map rc_key l) -> keeps_smallest limit l h ->
  sort_candidates h = take (Z.to_nat limit) (sort_candidates l).
Proof.
  intros HN [_ HP]. pose proof (sort_candidates_sorted l HN) as Hs.
  rewrite <- (take_drop (Z.to_nat limit) (sort_candidates l)) in Hs at 1.
  apply sorted_app_lt in Hs as [Hs _].
  apply (sorted_perm_eq String.compare rc_key); [|done|].
  - apply sort_candidates_sorted. rewrite HP. clear - Hs. induction Hs as [|x t Ht IH Hx]; [constructor|].
    cbn [map]. constructor; [|done]. intros Hin. apply list_elem_of_fmap in Hin as (y & Ey & Hy).
    rewrite Forall_forall in Hx. specialize (Hx y Hy). unfold key_lt in Hx.
    by rewrite Ey, before_irrefl in Hx by apply _.
  - by rewrite <- HP; apply sort_by_perm.
Qed.

Definition bytes_of (l : list readyCandidate) : Z := foldr (fun c n => Z.max 0 (rc_size c) + n) 0 l.

Lemma saturated_sum a b : 0 <= a -> saturatedAdd (Z.min int64_max a) b = Z.min int64_max (a + Z.max 0 b).
Proof. unfold saturatedAdd, int64_max. intros Ha. repeat case_match; lia. Qed.

Lemma scan_keeps cursor limit l : NoDup (map rc_key l) ->
  let s := scan cursor limit l in
  keeps_smallest limit (List.filter (later cursor) (rev l)) (sn_after s) /\
  keeps_smallest limit (List.filter (fun c => negb (later cursor c)) (rev l)) (sn_wrapped s) /\
  sn_remaining s = Z.of_nat (length l) /\ sn_remainingBytes s = Z.min int64_max (bytes_of (rev l)).
Proof.
  induction l as [|c l IH] using rev_ind; intros HN.
  { cbn. split; [|split; [|done]]; split; try (intros k Hk; simpl in Hk; lia); by destruct (Z.to_nat limit). }
  rewrite map_app in HN. assert (HN' : NoDup (map rc_key (c :: rev l))).
  { cbn [map]. rewrite map_rev, <- (Permutation_rev (map rc_key l)). by rewrite Permutation_cons_append. }
  apply NoDup_app in HN as (HN & _ & _). destruct (IH HN) as (I1 & I2 & I3 & I4).
  unfold scan in *. rewrite foldl_app. cbn [foldl]. rewrite rev_unit. unfold scan_candidate at 1 3 5 7.
  cbn [sn_after sn_wrapped sn_remaining sn_remainingBytes List.filter].
  replace (String.ltb cursor (rc_key c)) with (later cursor c) by apply before_string.
  assert (HF : forall f, NoDup (map rc_key (c :: List.filter f (rev l)))).
  { intros f. cbn [map] in HN' |- *. apply NoDup_cons in HN' as [Hc HN']. apply NoDup_cons.
    split; [|by apply NoDup_map_filter]. intros Hin. apply Hc. apply list_elem_of_fmap in Hin as (y & -> & Hy).
    apply elem_of_filter_by in Hy as [Hy _]. by apply list_elem_of_fmap_2. }
  split; [|split; [|split]].
  - destruct (later cursor c); [by apply retain_smallest|done].
  - destruct (later cursor c); cbn [negb]; [done|by apply retain_smallest].
  - rewrite I3, length_app. cbn [length]. lia.
  - rewrite I4, saturated_sum; [cbn [bytes_of foldr]; fold (bytes_of (rev l)); lia|].
    clear. induction (rev l) as [|x t IH]; simpl; lia.
Qed.

Lemma fill_take limit s l : Z.of_nat (length s) <= limit ->
  fill limit s l = s ++ take (Z.to_nat limit - length s) l.
Proof.
  revert s. induction l as [|c l IH]; intros s Hs; cbn [fill]; [by rewrite take_nil, app_nil_r|].
  destruct (Z.eqb_spec (Z.of_nat (length s)) limit) as [E|E].
  - replace (Z.to_nat limit - length s)%nat with 0%nat by lia. by rewrite app_nil_r.
  - rewrite IH by (rewrite length_app; cbn; lia). rewrite length_app. cbn [length].
    replace (Z.to_nat limit - length s)%nat with (S (Z.to_nat limit - (length s + 1))) by lia.
    cbn [take]. by rewrite <- app_assoc.
Qed.

Lemma scan_selects cursor limit l : NoDup (map rc_key l) -> 0 <= limit ->
  selected limit (scan cursor limit l) = take (Z.to_nat limit) (rotation cursor l).
Proof.
  intros HN Hl. destruct (scan_keeps cursor limit l HN) as (K1 & K2 & _ & _).
  assert (HR : NoDup (map rc_key (rev l))) by (by rewrite map_rev, <- (Permutation_rev (map rc_key l))).
  assert (HS : sort_candidates (rev l) = sort_candidates l).
  { apply (sorted_perm_eq String.compare rc_key); [by apply sort_candidates_sorted..|].
    unfold sort_candidates, by_key. rewrite !sort_by_perm. symmetry. apply Permutation_rev. }
  unfold selected. rewrite (keeps_sorted _ _ _ (NoDup_map_filter rc_key _ _ HR) K1),
    (keeps_sorted _ _ _ (NoDup_map_filter rc_key _ _ HR) K2).
  unfold sort_candidates in *. rewrite !by_key_filter, HS by apply _ || done.
  unfold rotation, sort_candidates. set (B := List.filter _ _). set (A := List.filter _ _). set (n := Z.to_nat limit).
  rewrite (fill_take limit []) by (cbn; lia). cbn [app length]. fold n. rewrite Nat.sub_0_r, take_take, Nat.min_id.
  rewrite fill_take by (rewrite length_take; lia). fold n. rewrite length_take, take_take.
  rewrite take_app. f_equal. destruct (decide (n <= length B)%nat).
  - by replace (n - Nat.min n (length B))%nat with 0%nat by lia; replace (n - length B)%nat with 0%nat by lia.
  - f_equal. lia.
Qed.

(** ** Repeated scans *)
Lemma split_later cursor S : StronglySorted (key_lt String.compare rc_key) S ->
  List.filter (fun c => negb (later cursor c)) S ++ List.filter (later cursor) S = S.
Proof.
  induction 1 as [|x t Ht IH Hx]; [done|]. cbn [List.filter].
  destruct (later cursor x) eqn:E; cbn [negb]; [|by rewrite <- app_comm_cons, IH].
  assert (Hall : forall y, y ∈ t -> later cursor y = true).
  { rewrite Forall_forall in Hx. intros y Hy. specialize (Hx y Hy). unfold later, key_lt in *.
    by apply (before_trans String.compare _ (rc_key x)). }
  rewrite filter_none, (filter_every _ _ Hall); [done|]. intros y Hy. by rewrite Hall.
Qed.

Lemma rotation_at P r Q l : NoDup (map rc_key l) -> sort_candidates l = P ++ r :: Q ->
  rotation (rc_key r) l = Q ++ P ++ [r].
Proof.
  intros HN E. pose proof (sort_candidates_sorted l HN) as Hs. unfold rotation. rewrite E in *.
  rewrite cons_middle, app_assoc in Hs |- *. destruct (sorted_app_lt _ _ _ Hs) as [HP HQ].
  assert (H1 : forall x, x ∈ P ++ [r] -> later (rc_key r) x = false).
  { intros x Hx. apply elem_of_app in Hx as [Hx|Hx].
    - apply sorted_app_lt in HP as [_ HP]. specialize (HP x r Hx ltac:(by left)).
      by apply (before_asym String.compare).
    - apply list_elem_of_singleton in Hx as ->. exact (before_irrefl String.compare (rc_key r)). }
  assert (H2 : forall x, x ∈ Q -> later (rc_key r) x = true) by (intros x Hx; apply HQ; [apply elem_of_app; right; by left|done]).
  rewrite !(List.filter_app _ (P ++ [r]) Q), (filter_none _ _ H1), (filter_every _ _ H2), (filter_every _ (P ++ [r])), (filter_none _ Q).
  - by rewrite app_nil_r.
  - intros x Hx. by rewrite H2.
  - intros x Hx. by rewrite H1.
Qed.

Lemma length_rotation cursor l : NoDup (map rc_key l) -> length (rotation cursor l) = length l.
Proof.
  intros HN. unfold rotation. rewrite length_app, Nat.add_comm, <- length_app.
  by rewrite split_later, length_sort_candidates by by apply sort_candidates_sorted.
Qed.

(** Taking [n] candidates up turns the rotation by [n]. *)
Lemma rotation_turns cursor n l : NoDup (map rc_key l) -> (0 < n <= length l)%nat ->
  rotation (next_scan_cursor cursor (take n (rotation cursor l))) l
  = drop n (rotation cursor l) ++ take n (rotation cursor l).
Proof.
  intros HN Hn. pose proof (split_later cursor _ (sort_candidates_sorted l HN)) as Hsplit.
  pose proof (length_rotation cursor l HN) as Hlen. unfold rotation in Hlen.
  replace (rotation cursor l) with (List.filter (later cursor) (sort_candidates l)
    ++ List.filter (fun c => negb (later cursor c)) (sort_candidates l)) by done.
  set (B := List.filter (later cursor) _) in *. set (A := List.filter (fun c => negb _) _) in *.
  rewrite length_app in Hlen.
  destruct (decide (n <= length B)%nat) as [Hb|Hb].
  - assert (Hr : exists r, B !! (n - 1)%nat = Some r) by (apply lookup_lt_is_Some; lia). destruct Hr as [r Hr].
    assert (Ht : take n B = take (n - 1) B ++ [r]) by (by replace n with (S (n - 1)) at 1 by lia; apply take_S_r).
    rewrite (take_app_le B A n Hb), (drop_app_le B A n Hb), Ht. unfold next_scan_cursor. rewrite last_snoc.
    rewrite (rotation_at (A ++ take (n - 1) B) r (drop n B) l HN).
    + by rewrite <- !app_assoc.
    + rewrite <- Hsplit, <- app_assoc. f_equal. rewrite <- (take_drop n B) at 1. by rewrite Ht, <- app_assoc.
  - set (m := (n - length B)%nat).
    assert (Hr : exists r, A !! (m - 1)%nat = Some r) by (apply lookup_lt_is_Some; lia). destruct Hr as [r Hr].
    assert (Ht : take m A = take (m - 1) A ++ [r]) by (by replace m with (S (m - 1)) at 1 by lia; apply take_S_r).
    rewrite take_app_ge, drop_app_ge by lia. fold m. rewrite Ht. unfold next_scan_cursor.
    rewrite app_assoc, last_snoc. rewrite (rotation_at (take (m - 1) A) r (drop m A ++ B) l HN).
    + by rewrite <- !app_assoc.
    + rewrite <- Hsplit. rewrite <- (take_drop m A) at 1. by rewrite Ht, <- !app_assoc.
Qed.

Lemma elem_of_rotation cursor l x : x ∈ rotation cursor l <-> x ∈ l.
Proof.
  unfold rotation. rewrite elem_of_app, !elem_of_filter_by, elem_of_sort_candidates.
  destruct (later cursor x); cbn [negb]; intuition congruence.
Qed.

(** What [k] scans take up when the directory stays the same. *)
Fixpoint scans (k : nat) (cursor : string) (limit : Z) (l : list readyCandidate) : list readyCandidate :=
  match k with
  | O => []
  | S k' => let taken := selected limit (scan cursor limit l) in
            taken ++ scans k' (next_scan_cursor cursor taken) limit l
  end.

Lemma scans_reach limit l (HN : NoDup (map rc_key l)) (Hl : 0 < limit) k : forall cursor i c,
  rotation cursor l !! i = Some c -> Z.of_nat i < Z.of_nat k * limit -> c ∈ scans k cursor limit l.
Proof.
  induction k as [|k IH]; intros cursor i c Hc Hi; [lia|]. cbn [scans].
  rewrite scan_selects by (try done; lia). set (n := Z.to_nat limit).
  apply elem_of_app. destruct (decide (i < n)%nat) as [Hin|Hin].
  - left. apply elem_of_take. by exists i.
  - right. pose proof (lookup_lt_Some _ _ _ Hc) as Hlt. rewrite length_rotation in Hlt by done.
    apply (IH _ (i - n)%nat); [|unfold n in *; lia]. rewrite rotation_turns by (try done; unfold n in *; lia).
    rewrite lookup_app_l by (rewrite length_drop, length_rotation by done; lia).
    rewrite lookup_drop. by replace (n + (i - n))%nat with i by lia.
Qed.

(** One scan takes up exactly the first [MaxScanEntries] candidates of the
    order that starts after the cursor and wraps around, although it holds only
    that many of them while it reads the directory, in whatever order the
    directory lists them; its backlog counts every candidate, its size saturates. *)
Theorem scan_rotates cursor limit l (HN : NoDup (map rc_key l)) (Hl : 0 <= limit) :
  selected limit (scan cursor limit l) = take (Z.to_nat limit) (rotation cursor l) /\
  sn_remaining (scan cursor limit l) = Z.of_nat (length l) /\
  sn_remainingBytes (scan cursor limit l) = Z.min int64_max (bytes_of (rev l)).
Proof. split; [by apply scan_selects|]. by destruct (scan_keeps cursor limit l HN) as (_ & _ & ? & ?). Qed.

(** C31: no ready file starves: from any cursor, within as many scans as it takes
    to cover the directory every candidate is taken up. *)
Theorem scans_fair k cursor limit l c (HN : NoDup (map rc_key l)) (Hl : 0 < limit)
    (Hk : Z.of_nat (length l) <= Z.of_nat k * limit) (Hc : c ∈ l) : c ∈ scans k cursor limit l.
Proof.
  apply (elem_of_rotation cursor) in Hc. apply list_elem_of_lookup in Hc as [i Hi].
  apply (scans_reach limit l HN Hl k cursor i); [done|]. apply lookup_lt_Some in Hi.
  rewrite length_rotation in Hi by done. lia.
Qed.

(** ** A concrete inbox *)
Definition sample_candidates : list readyCandidate :=
  [ReadyCandidate "d" "d" 4; ReadyCandidate "a" "a" 1; ReadyCandidate "c" "c" 3; ReadyCandidate "b" "b" 2;
   ReadyCandidate "e" "e" 0].
Example scan_example : map (fun k => map rc_key (scans k "b" 2 sample_candidates)) [1; 2; 3]%nat
  = [["c"; "d"]; ["c"; "d"; "e"; "a"]; ["c"; "d"; "e"; "a"; "b"; "c"]].
Proof. reflexivity. Qed.
Lemma sample_keys : NoDup (map rc_key sample_candidates).
Proof. apply (bool_decide_eq_true_1 _). vm_compute. reflexivity. Qed.

Lemma scan_rotates_witness :
  map rc_key (selected 2 (scan "d" 2 sample_candidates)) = ["e"; "a"] /\
  sn_remainingBytes (scan "d" 2 sample_candidates) = 10.
Proof.
  destruct (scan_rotates "d" 2 sample_candidates sample_keys ltac:(lia)) as (-> & _ & ->). split; reflexivity.
Defined.

Lemma scans_fair_witness : ReadyCandidate "b" "b" 2 ∈ scans 3 "b" 2 sample_candidates.
Proof.
  apply (scans_fair 3 "b" 2 sample_candidates); [apply sample_keys|lia|cbn; lia|].
  apply list_elem_of_In. cbn. tauto.
Defined.
