(* ===== verification/MediaFiles.v ===== *)
(** * Files of media ingest ([mediaingest/files.go], [mediaingest/path.go])

    The world media ingest works in: a file system other processes change too,
    the store, and an environment that decides at every step whether a call
    fails, whether the storage gates are open and what time it is.  On it the
    path checks, the copy to staging, the installation of an accepted file, its
    verification and the quarantine of a rejected one. *)

From Stdlib Require Import ZArith Lia String Ascii.
From S2P Require Import Prelude GoStrings GoTime GoJson Sha256 Sql Schema Platform Config MediaStore Sidecar.
Open Scope string_scope.
Open Scope list_scope.
Open Scope result_scope.
Open Scope Z_scope.

(** ** The file system *)
Inductive node : Type :=
  | Regular (contents : string) (modified : Z)
  | Directory (size modified : Z)
  | Symlink (target : string) (modified : Z).
Abbreviation files := (gmap string node).

Definition Size (x : node) : Z :=
  match x with Regular c _ => slen c | Directory n _ => n | Symlink t _ => slen t end.
Definition ModTime (x : node) : Z :=
  match x with Regular _ m | Directory _ m | Symlink _ m => m end.
Definition IsRegular (x : node) : bool := match x with Regular _ _ => true | _ => false end.
Definition is_link (x : node) : bool := match x with Symlink _ _ => true | _ => false end.

(** More of [path/filepath], and [strings.ToLower] and [strings.EqualFold]. *)
Class FilePaths := {
  Base : string -> string;
  Dir : string -> string;
  ToSlash : string -> string;
  FromSlash : string -> string;
  Abs : string -> option string;
  EvalSymlinks : files -> string -> option string;
  ToLower : string -> string;
  EqualFold : string -> string -> bool }.

(** What happens outside the recorder, by the number of the step: what other
    processes do to the files before it, whether the call fails, how many bytes a
    failing write leaves and a read hands over, what the gates
    and the clock say, what [ffprobe] answers, and the random part of a temporary
    name.  No gate is one that is always open. *)
Class Environment := {
  others : nat -> files -> files;
  io_fault : nat -> bool;
  short_write : nat -> nat;
  short_read : nat -> Z;
  media_gate : nat -> option string;
  core_gate : nat -> option string;
  clock : nat -> time;
  canceled : nat -> bool;
  ffprobe_version : nat -> result media_error string;
  ffprobe : nat -> string -> result media_error ProbeInfo;
  temporary : nat -> string;
  file_identity : nat -> string -> result media_error (string * Z) }.

Record world := World { w_files : files; w_db : database; w_oracle : oracle; w_step : nat }.

(** ** The monad *)
Definition F (A : Type) : Type := world -> result media_error A * world.
Definition fret {A} (a : A) : F A := fun w => (Ok a, w).
Definition ffail {A} (e : media_error) : F A := fun w => (Err e, w).
Definition fbind {A B} (m : F A) (k : A -> F B) : F B := fun w =>
  let '(r, w') := m w in match r with Ok a => k a w' | Err e => (Err e, w') end.
Definition flift {A} (r : result media_error A) : F A := match r with Ok a => fret a | Err e => ffail e end.
(** The outcome as a value, for a caller that handles the error. *)
Definition attempt {A} (m : F A) : F (result media_error A) := fun w => let '(r, w') := m w in (Ok r, w').
(** [_ = m] *)
Definition ignore {A} (m : F A) : F unit := fun w => let '(_, w') := m w in (Ok tt, w').

Declare Scope io_scope.
Delimit Scope io_scope with io.
Notation "'let^' x ':=' m 'in' k" := (fbind m (fun x => k))
  (at level 10, x pattern, m at level 100, k at level 200) : io_scope.
Notation "'guard^' b 'else' e 'in' k" := (if b then k else ffail e)
  (at level 10, b at level 100, e at level 100, k at level 200) : io_scope.
Open Scope io_scope.

Section Files.
Context `{Paths} `{Zones} `{Network} `{Floats} `{FilePaths} {env : Environment}.

(** ** Calls *)

(** A step of the file system; [broken] is what a failing call leaves. *)
Definition call_with {A} (broken : nat -> files -> files) (f : nat -> files -> result media_error A * files) : F A :=
  fun w =>
  let n := w_step w in
  let fs := others n (w_files w) in
  let '(r, fs') := if io_fault n then (Err OsFailure, broken n fs) else f n fs in
  (r, World fs' (w_db w) (w_oracle w) (S n)).
Definition call {A} (f : nat -> files -> result media_error A * files) : F A := call_with (fun _ fs => fs) f.

(** A question to the environment. *)
Definition ask {A} (f : nat -> A) : F A := fun w =>
  (Ok (f (w_step w)), World (w_files w) (w_db w) (w_oracle w) (S (w_step w))).
Definition now : F time := ask clock.
Definition now_text : F string := let^ t := now in fret (format_rfc3339nano t).

Definition store {A} (m : M database A) : F A := fun w =>
  let '(r, d, o) := m (w_db w) (w_oracle w) in
  (match r with Ok a => Ok a | Err e => Err (StoreFailure e) end, World (w_files w) d o (w_step w)).

Definition node_at (fs : files) (p : string) : option node := fs !! clean p.
Definition put (p : string) (x : node) (fs : files) : files := <[clean p := x]> fs.

Definition Lstat (p : string) : F node := call (fun _ fs =>
  match node_at fs p with Some x => (Ok x, fs) | None => (Err NotExist, fs) end).

(** [isReparsePoint] *)
Definition isReparsePoint (p : string) : F bool := let^ x := Lstat p in fret (is_link x).

(** The path a file is opened at, through symbolic links. *)
Fixpoint resolve (fuel : nat) (fs : files) (p : string) : option string :=
  match fuel with
  | O => None
  | S f => match node_at fs p with Some (Symlink t _) => resolve f fs t | _ => Some (clean p) end
  end.
Definition link_limit : nat := 40.

Definition Open (p : string) : F string := call (fun _ fs =>
  match resolve link_limit fs p with
  | Some q => match fs !! q with Some _ => (Ok q, fs) | None => (Err NotExist, fs) end
  | None => (Err OsFailure, fs)
  end).

(** [os.OpenFile] with [O_CREATE|O_TRUNC|O_WRONLY]. *)
Definition OpenTruncated (p : string) : F string := call (fun n fs =>
  match resolve link_limit fs p with
  | Some q => match fs !! q with
              | Some (Directory _ _) => (Err OsFailure, fs)
              | _ => (Ok q, <[q := Regular "" (clock n)]> fs)
              end
  | None => (Err OsFailure, fs)
  end).

(** Bytes of an open file. *)
Fixpoint take_bytes (limit : Z) (s : string) : string :=
  match s with
  | EmptyString => EmptyString
  | String a t => if 0 <? limit then String a (take_bytes (limit - 1) t) else EmptyString
  end.
Fixpoint drop_bytes (offset : Z) (s : string) : string :=
  match s with
  | EmptyString => EmptyString
  | String _ t => if 0 <? offset then drop_bytes (offset - 1) t else s
  end.
(** One [Read] into a buffer of [limit] bytes: at least one byte before the end of
    the file, and as many as the system hands over. *)
Definition ReadAt (h : string) (offset limit : Z) : F string := call (fun n fs =>
  match fs !! h with
  | Some (Regular c _) => (Ok (take_bytes (Z.min limit (Z.max 1 (short_read n))) (drop_bytes offset c)), fs)
  | _ => (Err OsFailure, fs)
  end).
(** [io.ReadAll] and [io.Copy] of a limited reader, which read on to the end. *)
Definition ReadLimited (h : string) (limit : Z) : F string := call (fun _ fs =>
  match fs !! h with
  | Some (Regular c _) => (Ok (take_bytes limit c), fs)
  | _ => (Err OsFailure, fs)
  end).

Definition append_to (h chunk : string) (t : time) (fs : files) : files :=
  match fs !! h with Some (Regular c _) => <[h := Regular (c +:+ chunk) t]> fs | _ => fs end.
Definition Write (h chunk : string) : F unit :=
  call_with (fun n => append_to h (stake (short_write n) chunk) (clock n))
            (fun n fs => (Ok tt, append_to h chunk (clock n) fs)).
(** [Sync], [Close] and [Chmod] may fail and change nothing here. *)
Definition Flush : F unit := call (fun _ fs => (Ok tt, fs)).

Definition Rename (from upto : string) : F unit := call (fun _ fs =>
  match node_at fs from with
  | Some x => (Ok tt, put upto x (delete (clean from) fs))
  | None => (Err NotExist, fs)
  end).
Definition Remove (p : string) : F unit := call (fun _ fs =>
  match node_at fs p with Some _ => (Ok tt, delete (clean p) fs) | None => (Err NotExist, fs) end).
Definition Mkdir (p : string) : F unit := call (fun n fs =>
  match node_at fs p with Some _ => (Ok tt, fs) | None => (Ok tt, put p (Directory 0 (clock n)) fs) end).
(** [os.CreateTemp]: the name, which no file has. *)
Definition temporary_path (directory prefix : string) (n : nat) : string :=
  directory +:+ path_separator +:+ prefix +:+ temporary n.
Definition CreateTemp (directory prefix : string) : F string := call (fun n fs =>
  let p := temporary_path directory prefix n in
  match node_at fs p with
  | Some _ => (Err OsFailure, fs)
  | None => (Ok p, put p (Regular "" (clock n)) fs)
  end).

(** ** Paths *)
Definition outside (relative : string) : bool :=
  String.eqb relative "." || String.eqb relative ".." || has_prefix relative (".." +:+ path_separator)
  || is_abs relative.

Definition ensureSafePath (root path : string) (requireRegular : bool) : F unit :=
  match path_rel (clean root) (clean path) with
  | None => ffail (failure CodePathInvalid "media path is outside the configured root")
  | Some relative =>
    guard^ negb (outside relative)
      else failure CodePathInvalid "media path is outside the configured root" in
    guard^ negb (contains_sub relative path_separator)
      else failure CodePathInvalid "media inbox accepts only root-level files" in
    let^ reparse := attempt (isReparsePoint (clean root)) in
    match reparse with
    | Err _ | Ok true => ffail (failure CodeReparsePoint "media root is a reparse point")
    | Ok false =>
      let^ reparse := attempt (isReparsePoint (clean path)) in
      match reparse with
      | Err e => if is_not_exist e then ffail e
                 else ffail (failure CodeStorageFailed "media path cannot be inspected")
      | Ok true => ffail (failure CodeReparsePoint "media file is a link or reparse point")
      | Ok false =>
        if requireRegular then
          let^ info := Lstat (clean path) in
          guard^ IsRegular info else failure CodePathInvalid "media inbox object is not a regular file" in
          fret tt
        else fret tt
      end
    end
  end.

Definition ensureManagedFileTarget (root path : string) : F unit :=
  let outside_error := failure CodePathInvalid "managed media target is outside its fixed directory" in
  match path_rel (clean root) (clean path) with
  | None => ffail outside_error
  | Some relative =>
    guard^ negb (outside relative || contains_sub relative path_separator) else outside_error in
    let^ reparse := attempt (isReparsePoint (clean root)) in
    match reparse with
    | Err _ | Ok true => ffail (failure CodeReparsePoint "managed media directory is a reparse point")
    | Ok false =>
      let^ reparse := attempt (isReparsePoint (clean path)) in
      match reparse with
      | Ok true => ffail (failure CodeReparsePoint "managed media target is a reparse point")
      | Ok false => fret tt
      | Err e => if is_not_exist e then fret tt
                 else ffail (failure CodeStorageFailed "managed media target cannot be inspected")
      end
    end
  end.

(** [strings.Split] at the separator, which is one character. *)
Definition components (relative : string) : list string :=
  match path_separator with String c EmptyString => split_on c relative | _ => [relative] end.

(** The loop over the components of a managed path. *)
Fixpoint check_components (cursor : string) (l : list string) : F unit :=
  match l with
  | [] => fret tt
  | component :: rest =>
    let cursor := path_join [cursor; component] in
    let^ reparse := attempt (isReparsePoint cursor) in
    match reparse with
    | Err _ => ffail (failure CodeStorageFailed "managed media path cannot be inspected")
    | Ok true => ffail (failure CodeReparsePoint "managed media path contains a reparse point")
    | Ok false => check_components cursor rest
    end
  end.

Definition ensureManagedPath (root path : string) (requireRegular : bool) : F unit :=
  match path_rel (clean root) (clean path) with
  | None => ffail (failure CodePathInvalid "managed media path is outside storage root")
  | Some relative =>
    guard^ negb (outside relative)
      else failure CodePathInvalid "managed media path is outside storage root" in
    let^ _ := check_components (clean root) (components relative) in
    if requireRegular then
      let^ info := attempt (Lstat (clean path)) in
      match info with
      | Ok x => guard^ IsRegular x else failure CodeStorageFailed "managed media is not a regular file" in fret tt
      | Err _ => ffail (failure CodeStorageFailed "managed media is not a regular file")
      end
    else fret tt
  end.
End Files.

(** ** Directories *)
Section Directories.
Context `{Paths} `{FilePaths} {env : Environment}.

Definition samePath (first second : string) : bool := EqualFold (clean first) (clean second).
Definition evaluated (p : string) : F (option string) := call (fun _ fs => (Ok (EvalSymlinks fs p), fs)).

(** The climb to an existing directory, with the missing ones below it.  The
    path gets shorter with every step, so its length is enough fuel. *)
Fixpoint missing_directories (fuel : nat) (cursor : string) (missing : list string) : F (list string) :=
  match fuel with
  | O => ffail (Message "out of fuel")
  | S f =>
    let^ info := attempt (Lstat cursor) in
    match info with
    | Ok x =>
      let^ reparse := attempt (isReparsePoint cursor) in
      match reparse with
      | Err _ | Ok true => ffail (failure CodeReparsePoint "media directory is a reparse point")
      | Ok false =>
        guard^ match x with Directory _ _ => true | _ => false end
          else failure CodePathInvalid "media directory path contains a non-directory component" in
        let^ redirected := attempt (evaluated cursor) in
        match redirected with
        | Ok (Some r) =>
          guard^ samePath cursor r
            else failure CodeReparsePoint "media directory path traverses a link or reparse point" in
          fret missing
        | _ => ffail (failure CodeReparsePoint "media directory path traverses a link or reparse point")
        end
      end
    | Err e =>
      guard^ is_not_exist e else MediaError CodeStorageFailed e in
      let parent := Dir cursor in
      guard^ negb (String.eqb parent cursor)
        else failure CodePathInvalid "media directory has no existing ancestor" in
      missing_directories f parent (missing ++ [cursor])
    end
  end.

Fixpoint make_directories (l : list string) : F unit :=
  match l with
  | [] => fret tt
  | p :: rest =>
    let^ made := attempt (Mkdir p) in
    match made with
    | Err e => ffail (MediaError CodeStorageFailed e)
    | Ok _ =>
      let^ reparse := attempt (isReparsePoint p) in
      match reparse with
      | Ok false => make_directories rest
      | _ => ffail (failure CodeReparsePoint "created media directory became a reparse point")
      end
    end
  end.

Definition secureMkdirAll (path : string) : F unit :=
  match Abs (clean path) with
  | None => ffail (failure CodePathInvalid "media directory cannot be normalized")
  | Some cleaned =>
    let^ missing := missing_directories (S (String.length cleaned)) cleaned [] in
    make_directories (rev missing)
  end.
End Directories.

(** ** The manager's file operations *)
Section Manager.
Context `{Paths} `{Zones} `{Network} `{Floats} `{FilePaths} {env : Environment} (cfg : Config).

Definition ReadySuffix : string := ".ready".
Definition SidecarSuffix : string := ".sidecar.json".
Definition ConfirmationSuffix : string := ".accepted.json".
Definition StatusSchemaVersion : Z := 1.

Definition inbox : string := me_InboxDirectory (MediaIngest cfg).
Definition maxSegmentBytes : Z := me_MaxSegmentBytes (MediaIngest cfg).
Definition storageRoot : string := MediaStorageDirectory cfg.
Definition stagingRoot : string := path_join [storageRoot; "staging"].
Definition acceptedRoot : string := path_join [storageRoot; "accepted"].
Definition quarantineRoot : string := path_join [storageRoot; "quarantine"].

Definition ensureMediaAllowed : F unit :=
  let^ reason := ask media_gate in
  match reason with
  | None => fret tt
  | Some r => ffail (failure CodeStorageProtected ("media ingest paused by storage protection: " +:+ r))
  end.
Definition ensureCoreWritesAllowed : F unit :=
  let^ reason := ask core_gate in
  match reason with
  | None => fret tt
  | Some r => ffail (failure CodeStorageProtected ("media metadata writes paused by storage protection: " +:+ r))
  end.

(** An error replaced by one of the package. *)
Definition or_fail {A} (m : F A) (code text : string) : F A :=
  let^ r := attempt m in
  match r with Ok a => fret a | Err _ => ffail (failure code text) end.

Record copiedFile := CopiedFile { cf_size : Z; cf_sha256 : string }.
Definition copied_of (content : string) : copiedFile := CopiedFile (slen content) (sha256_hex content).

(** [io.Copy] reads to the limit in one call: what others write meanwhile is one
    more content the file may have. *)
Definition hashFile (path : string) (maximum : Z) : F copiedFile :=
  let^ h := or_fail (Open path) CodeStorageFailed "media file cannot be opened for verification" in
  let^ content := or_fail (ReadLimited h (maximum + 1)) CodeStorageFailed "media file cannot be verified" in
  guard^ slen content <=? maximum else failure CodeTooLarge "media file exceeds configured size" in
  fret (copied_of content).

Definition verifyManagedFile (path : string) (size : Z) (expectedHash : string) : F unit :=
  let^ _ := ensureManagedPath storageRoot path true in
  let^ result := hashFile path maxSegmentBytes in
  guard^ (cf_size result =? size) && String.eqb (cf_sha256 result) expectedHash
    else failure CodeStorageFailed "managed media does not match accepted metadata" in
  fret tt.

Definition copy_buffer : Z := 1048576.

(** The loop of [copyToStaging] from the open source to the open target, with
    the bytes copied so far.  Every round but the last adds a byte and the sum is
    at most [maxSegmentBytes], so one round more than that is enough fuel. *)
Fixpoint copy_chunks (fuel : nat) (source target : string) (copied : string) : F string :=
  match fuel with
  | O => ffail (Message "out of fuel")
  | S f =>
    let^ chunk := or_fail (ReadAt source (slen copied) copy_buffer) CodeStorageFailed "read source media failed" in
    if String.eqb chunk "" then fret copied
    else
      let^ _ := ensureMediaAllowed in
      let total := slen copied + slen chunk in
      guard^ total <=? maxSegmentBytes else failure CodeTooLarge "source media exceeds configured size" in
      let^ _ := or_fail (Write target chunk) CodeStorageFailed "write staging media failed" in
      let^ _ := ensureMediaAllowed in
      copy_chunks f source target (copied +:+ chunk)
  end.
Definition copy_fuel : nat := Z.to_nat (maxSegmentBytes + 2).

Definition copyToStaging (sourcePath stagingPath : string) : F copiedFile :=
  let^ _ := ensureMediaAllowed in
  let^ _ := ensureSafePath inbox sourcePath true in
  let^ _ := ensureManagedFileTarget stagingRoot stagingPath in
  let^ source := or_fail (Open sourcePath) CodeStorageFailed "source media cannot be opened" in
  let^ target := or_fail (OpenTruncated stagingPath) CodeStorageFailed "staging media cannot be opened" in
  let^ content := copy_chunks copy_fuel source target "" in
  let^ _ := ensureMediaAllowed in
  let^ _ := or_fail Flush CodeStorageFailed "flush staging media failed" in
  let^ _ := or_fail Flush CodeStorageFailed "close staging media failed" in
  let result := copied_of content in
  let^ _ := or_fail (verifyManagedFile stagingPath (cf_size result) (cf_sha256 result))
              CodeStorageFailed "persisted staging media failed verification" in
  fret result.

Definition remove_if_present (path text : string) : F unit :=
  let^ r := attempt (Remove path) in
  match r with
  | Ok _ => fret tt
  | Err e => guard^ is_not_exist e else failure CodeStorageFailed text in fret tt
  end.

Definition installAccepted (stagingPath acceptedPath : string) (size : Z) (expectedHash : string) : F unit :=
  let^ _ := ensureMediaAllowed in
  let^ _ := ensureManagedFileTarget stagingRoot stagingPath in
  let^ _ := ensureManagedFileTarget acceptedRoot acceptedPath in
  let^ present := attempt (Lstat acceptedPath) in
  match present with
  | Ok _ =>
    let^ _ := verifyManagedFile acceptedPath size expectedHash in
    remove_if_present stagingPath "redundant staging media cannot be removed"
  | Err e =>
    guard^ is_not_exist e else failure CodeStorageFailed "accepted media path cannot be inspected" in
    let^ _ := ensureMediaAllowed in
    let^ _ := or_fail (Rename stagingPath acceptedPath) CodeStorageFailed "staging media cannot be atomically renamed" in
    let^ _ := or_fail (Open acceptedPath) CodeStorageFailed "accepted media cannot be reopened" in
    or_fail Flush CodeStorageFailed "accepted media cannot be flushed"
  end.

(** [writeAtomicFile]: a temporary file beside the target, renamed over it; the
    deferred call removes the temporary file on every error. *)
Definition write_temporary (path contents temporary : string) : F unit :=
  let^ _ := Flush in
  let^ _ := Write (clean temporary) contents in
  let^ _ := Flush in
  let^ _ := Flush in
  let^ info := attempt (Lstat path) in
  let^ _ := match info with
            | Ok x =>
              guard^ IsRegular x else Message "atomic destination is not a regular file" in
              let^ reparse := attempt (isReparsePoint path) in
              match reparse with
              | Ok false => Remove path
              | _ => ffail (Message "atomic destination is a reparse point")
              end
            | Err e => guard^ is_not_exist e else e in fret tt
            end in
  Rename temporary path.
Definition writeAtomicFile (path contents : string) : F unit :=
  let^ temporary := CreateTemp (Dir path) ("." +:+ Base path +:+ ".tmp-") in
  let^ written := attempt (write_temporary path contents temporary) in
  match written with
  | Ok _ => fret tt
  | Err e => let^ _ := ignore (Remove temporary) in ffail e
  end.
End Manager.
