(* ===== verification/MediaIngest.v ===== *)
(** * Media ingest ([mediaingest/manager.go], [mediaingest/files.go])

    What the manager does with one ready file: it records the attempt, reads and
    checks the sidecar, waits for the file to settle, copies it to staging, probes
    it, resolves its claim, installs it and confirms it, or keeps it in quarantine;
    and the confirmations, the terminal signatures and the scan around it.  The
    hooks of the tests are not set. *)

From Stdlib Require Import ZArith Lia String Ascii.
From S2P Require Import Prelude GoStrings GoTime GoJson Sha256 StrictJson Sql Schema Platform Config MediaStore Sidecar MediaScan MediaFiles.
Open Scope string_scope.
Open Scope list_scope.
Open Scope result_scope.
Open Scope Z_scope.
Open Scope io_scope.

Definition SupportedFFprobeVersion : string := "N-117599-ge1d1ba4cbc-20241017".
Definition hashText (value : string) : string := sha256_hex value.
(** Parts joined by a zero byte. *)
Fixpoint zero_joined (l : list string) : string :=
  match l with [] => "" | [x] => x | x :: rest => x +:+ String zero (zero_joined rest) end.

Record processIdentity := ProcessIdentity {
  id_ingestKey : string; id_sourceName : string; id_sourceFingerprint : string;
  id_collectorID : string; id_sourceIdempotencyKey : string }.
Definition with_fingerprint (i : processIdentity) (f : string) : processIdentity :=
  ProcessIdentity (id_ingestKey i) (id_sourceName i) f (id_collectorID i) (id_sourceIdempotencyKey i).
Definition with_source (i : processIdentity) (s : parsedSidecar) : processIdentity :=
  ProcessIdentity (id_ingestKey i) (id_sourceName i) (ps_Fingerprint s)
    (sc_CollectorID (ps_Sidecar s)) (sc_SourceIdempotencyKey (ps_Sidecar s)).

Record fileStamp := FileStamp { st_size : Z; st_modifiedNS : Z; st_identity : string; st_changeTime : Z }.

(** [fmt.Sprintf] of the stamps with the verb that prints Go syntax; the identity
    of a file is printable ASCII. *)
Fixpoint go_quote (s : string) : string :=
  match s with
  | EmptyString => EmptyString
  | String a t => (if Ascii.eqb a quote || Ascii.eqb a "\" then String "\" (String a "") else String a "") +:+ go_quote t
  end.
Definition stamp_syntax (s : fileStamp) : string :=
  "mediaingest.fileStamp{size:" +:+ format_int (st_size s) +:+ ", modifiedNS:" +:+ format_int (st_modifiedNS s)
  +:+ ", identity:" +:+ String quote (go_quote (st_identity s) +:+ String quote "")
  +:+ ", changeTime:" +:+ format_int (st_changeTime s) +:+ "}".
Definition stamps_syntax (l : list fileStamp) : string :=
  "[]mediaingest.fileStamp{" +:+ join ", " (map stamp_syntax l) +:+ "}".

Record confirmation := MkConfirmation {
  co_SchemaVersion : Z; co_CollectorID : string; co_SourceIdempotencyKey : string;
  co_SidecarFingerprint : string; co_MediaSegmentID : Z; co_SHA256 : string; co_MetadataHash : string;
  co_AcceptedAtUTC : string }.
Definition confirmationFields : list string :=
  ["schema_version"; "collector_id"; "source_idempotency_key"; "media_segment_id"; "sidecar_fingerprint";
   "sha256"; "metadata_hash"; "accepted_at_utc"].
Definition confirmation_json (c : confirmation) : string :=
  marshal_struct
    [("schema_version", JNum (format_int (co_SchemaVersion c))); ("collector_id", JStr (co_CollectorID c));
     ("source_idempotency_key", JStr (co_SourceIdempotencyKey c));
     ("sidecar_fingerprint", JStr (co_SidecarFingerprint c));
     ("media_segment_id", JNum (format_int (co_MediaSegmentID c))); ("sha256", JStr (co_SHA256 c));
     ("metadata_hash", JStr (co_MetadataHash c)); ("accepted_at_utc", JStr (co_AcceptedAtUTC c))].
Definition decodeConfirmation (raw : string) : option confirmation :=
  match unmarshal raw with
  | Some (JObj ms) =>
    let f k := member k ms in
    let! version := int_field (f "schema_version") in
    let! collector := string_field (f "collector_id") in
    let! key := string_field (f "source_idempotency_key") in
    let! fingerprint := string_field (f "sidecar_fingerprint") in
    let! segment := int_field (f "media_segment_id") in
    let! digest := string_field (f "sha256") in
    let! metadata := string_field (f "metadata_hash") in
    let! accepted := string_field (f "accepted_at_utc") in
    Some (MkConfirmation version collector key fingerprint segment digest metadata accepted)
  | _ => None
  end.

(** [strings.TrimSuffix] *)
Definition trim_suffix (s suffix : string) : string :=
  if has_suffix s suffix then stake (String.length s - String.length suffix) s else s.

Section Manager.
Context `{Paths} `{Zones} `{Network} `{Floats} `{FilePaths} {env : Environment} (cfg : Config).

Abbreviation storage := (storageRoot cfg).
Abbreviation allowed := ensureMediaAllowed.
Abbreviation writes_allowed := ensureCoreWritesAllowed.

Definition relativeManaged (path : string) : string :=
  if String.eqb path "" then ""
  else match path_rel storage path with Some r => ToSlash r | None => "" end.

(** ** Events and signatures *)
Definition makeEvent (identity : processIdentity) (status errorCode temporaryPath : string) (segmentID : Z)
    : F MediaIngestEvent :=
  let eventKey := hashText (zero_joined [id_ingestKey identity; id_sourceFingerprint identity; status;
                                         errorCode; temporaryPath]) in
  let^ occurred := now_text in
  fret (MkMediaIngestEvent eventKey (id_ingestKey identity) (id_collectorID identity)
          (id_sourceIdempotencyKey identity) (id_sourceName identity) (id_sourceFingerprint identity)
          status temporaryPath segmentID errorCode occurred).

(** A failure of the store as an error of the package. *)
Definition stored {A} (m : M database A) : F A :=
  let^ r := attempt (store m) in
  match r with Ok a => fret a | Err e => ffail (MediaError CodeDatabaseFailed e) end.

Definition record (identity : processIdentity) (status errorCode temporaryPath : string) (segmentID : Z) : F unit :=
  let^ _ := writes_allowed in
  let^ event := makeEvent identity status errorCode temporaryPath segmentID in
  stored (AppendMediaIngestEvent event).

Definition stampFile (path : string) : F fileStamp :=
  let^ info := Lstat path in
  guard^ IsRegular info else Message "path is not a regular file" in
  let^ platform := ask (fun n => file_identity n path) in
  let^ (identity, changeTime) := flift platform in
  fret (FileStamp (Size info) (ModTime info) identity changeTime).
Fixpoint stampFiles (paths : list string) : F (list fileStamp) :=
  match paths with
  | [] => fret []
  | p :: rest => let^ stamp := stampFile p in let^ stamps := stampFiles rest in fret (stamp :: stamps)
  end.

Definition quarantine_base (identity : processIdentity) : string :=
  id_ingestKey identity +:+ "-" +:+ id_sourceFingerprint identity.
Definition quarantined (identity : processIdentity) (extension : string) : string :=
  path_join [quarantineRoot cfg; quarantine_base identity +:+ extension].

Definition terminalFileSignature (identity : processIdentity) (sourcePath : string) : F string :=
  let^ stamps := stampFiles [sourcePath; sourcePath +:+ SidecarSuffix; quarantined identity ".media";
                             quarantined identity SidecarSuffix; quarantined identity ".reason.json"] in
  fret (hashText (id_sourceFingerprint identity +:+ String zero (stamps_syntax stamps))).

Definition terminalUnchanged (identity : processIdentity) (sourcePath : string) : F bool :=
  let^ signature := attempt (terminalFileSignature identity sourcePath) in
  match signature with
  | Err _ => fret false
  | Ok s => stored (MediaFileCheckMatches (id_ingestKey identity) "quarantined" s)
  end.

Definition rememberTerminal (identity : processIdentity) (sourcePath : string) : F unit :=
  let^ signature := or_fail (terminalFileSignature identity sourcePath) CodeQuarantineFailed
                      "quarantine artifacts cannot be verified" in
  let^ _ := writes_allowed in
  let^ checked := now_text in
  stored (SaveMediaFileCheck (id_ingestKey identity) "quarantined" signature checked).

(** ** Reading the inbox *)
Definition stableSourceStat (path : string) : F node :=
  let^ _ := ensureSafePath (inbox cfg) path true in Lstat path.

Definition readInboxFile (path : string) (maximum : Z) : F string :=
  let^ _ := ensureSafePath (inbox cfg) path true in
  let^ h := Open path in
  let^ value := or_fail (ReadLimited h (maximum + 1)) CodeStorageFailed "media inbox file cannot be read" in
  guard^ slen value <=? maximum else failure CodeSidecarInvalid "media sidecar exceeds configured size" in
  fret value.
Definition maxSidecarBytes : Z := me_MaxSidecarBytes (MediaIngest cfg).

(** ** Quarantine *)

(** The loop of [copyToQuarantine], reading no more than a byte above the limit. *)
Fixpoint copy_limited (fuel : nat) (source target copied : string) : F string :=
  match fuel with
  | O => ffail (Message "out of fuel")
  | S f =>
    let left := maxSegmentBytes cfg + 1 - slen copied in
    let^ chunk := (if left <=? 0 then fret "" else ReadAt source (slen copied) (Z.min copy_buffer left)) in
    if String.eqb chunk "" then fret copied
    else
      let^ _ := allowed in
      let^ _ := Write target chunk in
      copy_limited f source target (copied +:+ chunk)
  end.

Definition copyToQuarantine (sourcePath targetPath : string) : F copiedFile :=
  let^ _ := allowed in
  let^ _ := ensureSafePath (inbox cfg) sourcePath true in
  let^ _ := ensureManagedFileTarget (quarantineRoot cfg) targetPath in
  let^ source := Open sourcePath in
  let^ target := OpenTruncated targetPath in
  let^ content := copy_limited (copy_fuel cfg) source target "" in
  guard^ slen content <=? maxSegmentBytes cfg
    else failure CodeTooLarge "media is too large to quarantine" in
  let^ _ := allowed in
  let^ _ := Flush in
  let^ _ := Flush in
  fret (copied_of content).

(** An error of quarantine: the failure is recorded, whatever that gives. *)
Definition abandon {A} (identity : processIdentity) (code temporaryPath : string) (e : media_error) : F A :=
  let^ _ := ignore (record identity "failed" code temporaryPath 0) in ffail e.
Definition quarantine_failed {A} (identity : processIdentity) (temporaryPath text : string) : F A :=
  abandon identity CodeQuarantineFailed temporaryPath (failure CodeQuarantineFailed text).
Definition or_abandon {A} (m : F A) (identity : processIdentity) (temporaryPath text : string) : F A :=
  let^ r := attempt m in
  match r with Ok a => fret a | Err _ => quarantine_failed identity temporaryPath text end.

(** The staging file moved to its place in quarantine. *)
Definition quarantine_staged (identity : processIdentity) (stagingPath mediaTarget : string) : F unit :=
  let temporary := relativeManaged stagingPath in
  let^ _ := or_abandon (ensureManagedPath storage stagingPath true) identity temporary
              "quarantine staging media is invalid" in
  let^ candidate := or_abandon (hashFile stagingPath (maxSegmentBytes cfg)) identity temporary
                      "quarantine staging media cannot be verified" in
  let^ _ := allowed in
  let^ _ := or_abandon (Rename stagingPath mediaTarget) identity temporary
              "staging media cannot enter quarantine" in
  or_abandon (verifyManagedFile cfg mediaTarget (cf_size candidate) (cf_sha256 candidate)) identity
    (relativeManaged mediaTarget) "committed quarantine media failed verification".

(** The source copied to its place in quarantine; [false] when it has gone and the
    file is pending again. *)
Definition quarantine_source (identity : processIdentity) (sourcePath mediaTarget : string) : F bool :=
  let temporary := quarantined identity ".partial" in
  let^ copied := attempt (copyToQuarantine sourcePath temporary) in
  match copied with
  | Err e =>
    if is_not_exist e then
      let^ _ := record identity "pending" CodeSourceMissing "" 0 in fret false
    else abandon identity CodeQuarantineFailed "" (MediaError CodeQuarantineFailed e)
  | Ok result =>
    if maxSegmentBytes cfg <? cf_size result then
      abandon identity CodeTooLarge "" (failure CodeTooLarge "media is too large to quarantine")
    else
      let^ _ := allowed in
      let^ _ := or_abandon (Rename temporary mediaTarget) identity "" "quarantine media cannot be committed" in
      let^ _ := or_abandon (verifyManagedFile cfg mediaTarget (cf_size result) (cf_sha256 result)) identity
                  (relativeManaged mediaTarget) "committed quarantine media failed verification" in
      fret true
  end.

(** The file is in quarantine already: it must be the same. *)
Definition quarantine_again (identity : processIdentity) (sourcePath stagingPath mediaTarget : string) : F unit :=
  let^ candidate :=
    (if negb (String.eqb stagingPath "") then
       let^ _ := or_abandon (ensureManagedPath storage stagingPath true) identity (relativeManaged stagingPath)
                   "quarantine staging media is invalid" in
       attempt (hashFile stagingPath (maxSegmentBytes cfg))
     else
       let^ _ := or_abandon (ensureSafePath (inbox cfg) sourcePath true) identity ""
                   "quarantine source media is invalid" in
       attempt (hashFile sourcePath (maxSegmentBytes cfg))) in
  let^ verified := (match candidate with
                    | Ok c => attempt (verifyManagedFile cfg mediaTarget (cf_size c) (cf_sha256 c))
                    | Err e => fret (Err e)
                    end) in
  match verified with
  | Ok _ => fret tt
  | Err _ => quarantine_failed identity (relativeManaged stagingPath)
               "existing quarantine media does not match the current candidate"
  end.

Definition reason_json (identity : processIdentity) (reasonCode at_ : string) : string :=
  marshal_struct
    [("schema_version", JNum (format_int StatusSchemaVersion)); ("reason_code", JStr reasonCode);
     ("source_name", JStr (id_sourceName identity)); ("source_fingerprint", JStr (id_sourceFingerprint identity));
     ("quarantined_at_utc", JStr at_)].

(** Writes one of the files beside the quarantined media. *)
Definition quarantine_note (identity : processIdentity) (extension contents : string) : F unit :=
  let^ r := attempt (writeAtomicFile (quarantined identity extension) contents) in
  match r with
  | Ok _ => fret tt
  | Err e => abandon identity CodeQuarantineFailed "" (MediaError CodeQuarantineFailed e)
  end.

Definition quarantine (identity : processIdentity) (sourcePath sidecarRaw stagingPath reasonCode : string) : F unit :=
  let^ _ := allowed in
  let mediaTarget := quarantined identity ".media" in
  let^ target := attempt (ensureManagedFileTarget (quarantineRoot cfg) mediaTarget) in
  match target with
  | Err e => abandon identity CodeQuarantineFailed (relativeManaged stagingPath) e
  | Ok _ =>
    let^ present := attempt (Lstat mediaTarget) in
    let^ kept :=
      match present with
      | Err e =>
        if is_not_exist e then
          if negb (String.eqb stagingPath "")
          then let^ _ := quarantine_staged identity stagingPath mediaTarget in fret true
          else quarantine_source identity sourcePath mediaTarget
        else quarantine_failed identity "" "quarantine target cannot be inspected"
      | Ok _ => let^ _ := quarantine_again identity sourcePath stagingPath mediaTarget in fret true
      end in
    if negb kept then fret tt
    else
      let^ _ := (if String.eqb stagingPath "" then fret tt
                 else let^ r := attempt (Remove stagingPath) in
                      match r with
                      | Ok _ => fret tt
                      | Err e => if is_not_exist e then fret tt
                                 else quarantine_failed identity (relativeManaged stagingPath)
                                        "redundant quarantine staging file cannot be removed"
                      end) in
      let^ _ := quarantine_note identity SidecarSuffix sidecarRaw in
      let^ at_ := now_text in
      let^ _ := quarantine_note identity ".reason.json" (reason_json identity reasonCode at_) in
      let^ _ := record identity "quarantined" reasonCode (relativeManaged mediaTarget) 0 in
      rememberTerminal identity sourcePath
  end.
(** ** Confirmations *)
Definition media_of (confirmationPath : string) : string := trim_suffix confirmationPath ConfirmationSuffix.
Definition ingest_key (name : string) : string :=
  hashText (zero_joined [ToLower (clean (inbox cfg)); name]).
Definition accepted_path (digest : string) : string := path_join [acceptedRoot cfg; digest +:+ ".media"].

(** The offset of a parsed RFC 3339 time. *)
Definition zone_offset (s : string) : option Z :=
  let! (_, s) := parse_date_time s in
  let s := if comma_or_period s && match sdrop 1 s with String a _ => is_digit a | _ => false end
           then snd (span_digits (sdrop 1 s)) else s in
  let! (off, _) := parse_zone s in Some off.
Definition valid_acceptance (value : string) : bool :=
  match parse_rfc3339nano value, zone_offset value with
  | Some _, Some offset =>
    String.eqb (trim_space value) value && negb (has_suffix value "-00:00") && (offset =? 0)
  | _, _ => false
  end.

(** The checks both readers of a confirmation start with. *)
Definition checked_confirmation (raw : string) : result media_error confirmation :=
  guard? is_ok (ValidateExactRootObjectRequired raw 0 confirmationFields)
    else failure CodeSidecarInvalid "media confirmation JSON is invalid" in
  match decodeConfirmation raw with
  | None => Err (failure CodeSidecarInvalid "media confirmation is invalid")
  | Some value =>
    guard? (co_SchemaVersion value =? StatusSchemaVersion) && (0 <? co_MediaSegmentID value)
      else failure CodeSidecarInvalid "media confirmation is invalid" in
    guard? valid_acceptance (co_AcceptedAtUTC value)
      else failure CodeSidecarInvalid "media confirmation accepted_at_utc is invalid" in
    Ok value
  end.

(** The confirmation, its text and the sidecar it describes. *)
Definition read_confirmation (path : string) : F (string * confirmation * parsedSidecar) :=
  let^ raw := readInboxFile path maxSidecarBytes in
  let^ value := flift (checked_confirmation raw) in
  let^ sidecarRaw := readInboxFile (media_of path +:+ SidecarSuffix) maxSidecarBytes in
  let^ sidecar := flift (parseSidecar sidecarRaw (MediaMaxSegmentDuration cfg)) in
  let s := ps_Sidecar sidecar in
  guard^ String.eqb (co_CollectorID value) (sc_CollectorID s)
         && String.eqb (co_SourceIdempotencyKey value) (sc_SourceIdempotencyKey s)
         && String.eqb (co_SidecarFingerprint value) (ps_Fingerprint sidecar)
         && String.eqb (co_SHA256 value) (sc_SHA256 s)
    else failure CodeSidecarInvalid "media confirmation does not describe the current sidecar" in
  let^ _ := ensureSafePath (inbox cfg) (media_of path) true in
  fret (raw, value, sidecar).

Definition confirmationFileSignature (path : string) : F string :=
  let^ (raw, value, sidecar) := read_confirmation path in
  let s := ps_Sidecar sidecar in
  let^ stamps := stampFiles [path; media_of path +:+ SidecarSuffix; media_of path; accepted_path (sc_SHA256 s)] in
  guard^ match stamps with
         | [_; _; source; managed] => (st_size source =? sc_SizeBytes s) && (st_size managed =? sc_SizeBytes s)
         | _ => false
         end else failure CodeStorageFailed "confirmed media size changed" in
  fret (hashText (zero_joined [hashText raw; ps_Fingerprint sidecar; stamps_syntax stamps])).

Definition confirmationCached (path : string) : F bool :=
  let^ signature := attempt (confirmationFileSignature path) in
  match signature with
  | Err _ => fret false
  | Ok s => stored (MediaFileCheckMatches (ingest_key (Base (media_of path))) "confirmed" s)
  end.

(** A claim that does not match the confirmation is no error. *)
Definition claim_matches (claim : MediaClaim) (value : confirmation) (sidecar : parsedSidecar) : bool :=
  String.eqb (mc_Status claim) MediaWriteDuplicate && (mc_SegmentID claim =? co_MediaSegmentID value)
  && negb (String.eqb (mc_ManagedRelativePath claim) "")
  && String.eqb (mc_SidecarFingerprint claim) (ps_Fingerprint sidecar).
Definition managed_path (relative : string) : string := path_join [storage; FromSlash relative].

Definition confirmationValid (path : string) : F bool :=
  let^ (_, value, sidecar) := read_confirmation path in
  let s := ps_Sidecar sidecar in
  let mediaPath := media_of path in
  let^ sourceStamp := or_fail (stampFile mediaPath) CodeStorageFailed "confirmed source media is missing or changed" in
  guard^ st_size sourceStamp =? sc_SizeBytes s
    else failure CodeStorageFailed "confirmed source media is missing or changed" in
  let^ claim := stored (ResolveMediaClaim (co_CollectorID value) (co_SourceIdempotencyKey value) (co_SHA256 value)
                          (co_MetadataHash value)) in
  if negb (claim_matches claim value sidecar) then fret false
  else
    let^ source := or_fail (hashFile mediaPath (maxSegmentBytes cfg)) CodeStorageFailed
                     "confirmed source media failed verification" in
    guard^ (cf_size source =? sc_SizeBytes s) && String.eqb (cf_sha256 source) (sc_SHA256 s)
      else failure CodeStorageFailed "confirmed source media failed verification" in
    let^ _ := verifyManagedFile cfg (managed_path (mc_ManagedRelativePath claim)) (sc_SizeBytes s) (sc_SHA256 s) in
    let^ signature := confirmationFileSignature path in
    let^ _ := writes_allowed in
    let^ checked := now_text in
    let^ _ := stored (SaveMediaFileCheck (ingest_key (Base mediaPath)) "confirmed" signature checked) in
    fret true.

Definition writeConfirmation (path : string) (value : confirmation) : F unit :=
  or_fail (writeAtomicFile path (confirmation_json value)) CodeStorageFailed "media confirmation cannot be committed".

(** ** One ready file *)
Definition rejected {A} (m : F A) : F bool := let^ _ := m in fret false.

(** The claim's file is in place, or is installed where it is missing. *)
Definition restore_duplicate (identity : processIdentity) (stagingPath : string) (claim : MediaClaim)
    (sidecar : parsedSidecar) : F bool :=
  let s := ps_Sidecar sidecar in
  let existingPath := managed_path (mc_ManagedRelativePath claim) in
  let failed code := rejected (record identity "failed" code (relativeManaged stagingPath) (mc_SegmentID claim)) in
  let^ verified := attempt (verifyManagedFile cfg existingPath (sc_SizeBytes s) (sc_SHA256 s)) in
  let^ present :=
    match verified with
    | Ok _ => fret true
    | Err _ =>
      let^ inspected := attempt (Lstat existingPath) in
      if negb match inspected with Err e => is_not_exist e | Ok _ => false end then failed CodeStorageFailed
      else if negb (String.eqb (clean existingPath) (clean (accepted_path (sc_SHA256 s))))
      then failed CodeStorageFailed
      else
        let^ installed := attempt (installAccepted cfg stagingPath existingPath (sc_SizeBytes s) (sc_SHA256 s)) in
        match installed with Ok _ => fret true | Err e => failed (Sidecar.ErrorCode e) end
    end in
  if negb present then fret false
  else let^ _ := ignore (Remove stagingPath) in fret true.

Definition state_event_key (s : Sidecar) (metadataDigest : string) : string :=
  hashText (zero_joined ["media-state"; "accepted"; sc_CollectorID s; sc_SourceIdempotencyKey s; metadataDigest]).

(** From the installed file to its confirmation. *)
Definition accept_installed (identity : processIdentity) (mediaPath sidecarRaw confirmationPath : string)
    (sidecar : parsedSidecar) (probe : ProbeInfo) (managedRelativePath : string) (segmentID : Z) : F bool :=
  let s := ps_Sidecar sidecar in
  let metadataDigest := metadataHash sidecar probe in
  let^ receivedAt := now_text in
  let metadata := segment_metadata sidecar probe managedRelativePath receivedAt in
  let^ acceptEvent := makeEvent identity "accepted" "" managedRelativePath segmentID in
  let^ _ := writes_allowed in
  let^ claim := stored (AcceptMedia metadata acceptEvent (state_event_key s metadataDigest)) in
  if String.eqb (mc_Status claim) MediaWriteConflict then
    rejected (quarantine identity mediaPath sidecarRaw "" CodeIdempotencyConflict)
  else
    let^ _ := allowed in
    let^ _ := writeConfirmation confirmationPath
      (MkConfirmation StatusSchemaVersion (sc_CollectorID s) (sc_SourceIdempotencyKey s) (ps_Fingerprint sidecar)
         (mc_SegmentID claim) (sc_SHA256 s) metadataDigest receivedAt) in
    fret true.

(** The copy in staging has the size and the hash of the sidecar. *)
Definition process_staged (identity : processIdentity) (mediaPath sidecarRaw confirmationPath stagingPath : string)
    (sidecar : parsedSidecar) : F bool :=
  let s := ps_Sidecar sidecar in
  let temporary := relativeManaged stagingPath in
  let^ probed := ask (fun n => ffprobe n stagingPath) in
  match probed with
  | Err e =>
    let^ done_ := ask canceled in
    if done_ : bool then ffail ContextDone
    else
      let code := Sidecar.ErrorCode e in
      if String.eqb code CodeProbeUnavailable || String.eqb code CodeProbeVersionMismatch then
        let^ _ := record identity "pending" code temporary 0 in ffail e
      else rejected (quarantine identity mediaPath sidecarRaw stagingPath code)
  | Ok probe =>
    if negb (String.eqb (pi_MediaType probe) (sc_MediaType s)) then
      rejected (quarantine identity mediaPath sidecarRaw stagingPath CodeTypeInvalid)
    else if milliseconds (MediaMaxSegmentDuration cfg) <? pi_DurationMS probe then
      rejected (quarantine identity mediaPath sidecarRaw stagingPath CodeDurationInvalid)
    else
      let^ _ := record identity "validated" "" temporary 0 in
      let^ resolved := attempt (store (ResolveMediaClaim (sc_CollectorID s) (sc_SourceIdempotencyKey s)
                                         (sc_SHA256 s) (metadataHash sidecar probe))) in
      match resolved with
      | Err _ => rejected (record identity "failed" CodeDatabaseFailed temporary 0)
      | Ok claim =>
        if String.eqb (mc_Status claim) MediaWriteConflict then
          rejected (quarantine identity mediaPath sidecarRaw stagingPath
            (if String.eqb (mc_SHA256 claim) (sc_SHA256 s) then CodeMetadataConflict else CodeIdempotencyConflict))
        else if String.eqb (mc_Status claim) MediaWriteDuplicate then
          let^ present := restore_duplicate identity stagingPath claim sidecar in
          if negb present then fret false
          else accept_installed identity mediaPath sidecarRaw confirmationPath sidecar probe
                 (mc_ManagedRelativePath claim) (mc_SegmentID claim)
        else
          let acceptedPath := accepted_path (sc_SHA256 s) in
          let^ installed := attempt (installAccepted cfg stagingPath acceptedPath (sc_SizeBytes s) (sc_SHA256 s)) in
          match installed with
          | Err e => rejected (record identity "failed" (Sidecar.ErrorCode e) temporary 0)
          | Ok _ => accept_installed identity mediaPath sidecarRaw confirmationPath sidecar probe
                      (relativeManaged acceptedPath) (mc_SegmentID claim)
          end
      end
  end.

(** The file has settled at the size of the sidecar. *)
Definition process_settled (identity : processIdentity) (mediaPath sidecarRaw confirmationPath : string)
    (sidecar : parsedSidecar) : F bool :=
  let s := ps_Sidecar sidecar in
  let stagingPath := path_join [stagingRoot cfg; id_ingestKey identity +:+ ".partial"] in
  let^ copied := attempt (copyToStaging cfg mediaPath stagingPath) in
  match copied with
  | Err e =>
    if String.eqb (Sidecar.ErrorCode e) CodeStorageProtected then ffail e
    else rejected (record identity "failed" (Sidecar.ErrorCode e) (relativeManaged stagingPath) 0)
  | Ok copyResult =>
    if negb (cf_size copyResult =? sc_SizeBytes s) then
      rejected (quarantine identity mediaPath sidecarRaw stagingPath CodeSizeMismatch)
    else if negb (String.eqb (cf_sha256 copyResult) (sc_SHA256 s)) then
      rejected (quarantine identity mediaPath sidecarRaw stagingPath CodeHashMismatch)
    else process_staged identity mediaPath sidecarRaw confirmationPath stagingPath sidecar
  end.

(** The sidecar is valid: two looks at the file, a settle interval apart. *)
Definition process_described (identity : processIdentity) (mediaPath sidecarRaw confirmationPath : string)
    (sidecar : parsedSidecar) : F bool :=
  let^ first := attempt (stableSourceStat mediaPath) in
  match first with
  | Err e =>
    rejected (if is_not_exist e then record identity "pending" CodeSourceMissing "" 0
              else record identity "failed" (Sidecar.ErrorCode e) "" 0)
  | Ok x =>
    if (maxSegmentBytes cfg <? Size x) || (maxSegmentBytes cfg <? sc_SizeBytes (ps_Sidecar sidecar)) then
      rejected (record identity "failed" CodeTooLarge "" 0)
    else
      let^ done_ := ask canceled in
      guard^ negb done_ else ContextDone in
      let^ second := attempt (stableSourceStat mediaPath) in
      match second with
      | Err _ => rejected (record identity "pending" CodeSourceMissing "" 0)
      | Ok y =>
        if negb ((Size x =? Size y) && (ModTime x =? ModTime y)) then
          rejected (record identity "pending" CodeFileGrowing "" 0)
        else if negb (Size y =? sc_SizeBytes (ps_Sidecar sidecar)) then
          rejected (quarantine identity mediaPath sidecarRaw "" CodeSizeMismatch)
        else process_settled identity mediaPath sidecarRaw confirmationPath sidecar
      end
  end.

Definition ProcessReady (readyPath : string) : F bool :=
  let^ _ := allowed in
  let^ _ := ensureSafePath (inbox cfg) readyPath true in
  guard^ has_suffix (Base readyPath) ReadySuffix
    else failure CodePathInvalid "media ready marker suffix is invalid" in
  let sourceName := trim_suffix (Base readyPath) ReadySuffix in
  guard^ negb (String.eqb sourceName "" || (512 <? slen sourceName))
    else failure CodePathInvalid "media source filename is invalid" in
  let mediaPath := path_join [inbox cfg; sourceName] in
  let confirmationPath := mediaPath +:+ ConfirmationSuffix in
  let identity := ProcessIdentity (ingest_key sourceName) sourceName (hashText sourceName) "" "" in
  let^ _ := record identity "discovered" "" "" 0 in
  let^ raw := attempt (readInboxFile (mediaPath +:+ SidecarSuffix) maxSidecarBytes) in
  match raw with
  | Err e =>
    rejected (if is_not_exist e then record identity "pending" CodeSidecarMissing "" 0
              else record identity "failed" (Sidecar.ErrorCode e) "" 0)
  | Ok sidecarRaw =>
    let identity := with_fingerprint identity (hashText sidecarRaw) in
    let^ unchanged := terminalUnchanged identity mediaPath in
    if unchanged : bool then fret false
    else
      match parseSidecar sidecarRaw (MediaMaxSegmentDuration cfg) with
      | Err e =>
        rejected (if String.eqb (Sidecar.ErrorCode e) CodeSidecarIncomplete
                  then record identity "pending" CodeSidecarIncomplete "" 0
                  else quarantine identity mediaPath sidecarRaw "" (Sidecar.ErrorCode e))
      | Ok sidecar =>
        let identity := with_source identity sidecar in
        let^ unchanged := terminalUnchanged identity mediaPath in
        if unchanged : bool then fret false
        else process_described identity mediaPath sidecarRaw confirmationPath sidecar
      end
  end.

(** ** The module *)
Definition ModuleDisabled : string := "disabled".
Definition ModuleHealthy : string := "healthy".
Definition ModuleUnavailable : string := "unavailable".

Record module_state := ModuleState {
  mg_Status : string; mg_ErrorCode : string; mg_initialized : bool; mg_scanCursor : string;
  mg_LastScanUTC : string; mg_ReadyBacklog : Z; mg_ReadyBytes : Z }.
Definition new_module : module_state :=
  ModuleState (if me_Enabled (MediaIngest cfg) then ModuleUnavailable else ModuleDisabled) "" false "" "" 0 0.
Definition with_status (m : module_state) (status code : string) (initialized : bool) : module_state :=
  ModuleState status code initialized (mg_scanCursor m) (mg_LastScanUTC m) (mg_ReadyBacklog m) (mg_ReadyBytes m).

Fixpoint make_all (l : list string) : F unit :=
  match l with
  | [] => fret tt
  | p :: rest => let^ _ := secureMkdirAll p in make_all rest
  end.

(** The new state and the error; [setUnavailable] keeps whether the module was
    initialized. *)
Definition Initialize (m : module_state) : F (module_state * option media_error) :=
  let unavailable code e := fret (with_status m ModuleUnavailable code (mg_initialized m), Some (MediaError code e)) in
  if negb (me_Enabled (MediaIngest cfg)) then fret (m, None)
  else
    let^ made := attempt (make_all [inbox cfg; storage; stagingRoot cfg; acceptedRoot cfg; quarantineRoot cfg]) in
    match made with
    | Err e => unavailable (Sidecar.ErrorCode e) e
    | Ok _ =>
      let^ version := ask ffprobe_version in
      match version with
      | Err e => unavailable (Sidecar.ErrorCode e) e
      | Ok v =>
        if negb (String.eqb v SupportedFFprobeVersion) then
          unavailable CodeProbeVersionMismatch (Message "unsupported ffprobe version")
        else
          let^ gate := attempt writes_allowed in
          match gate with
          | Err e => unavailable CodeStorageProtected e
          | Ok _ =>
            let^ rebuilt := attempt (store RebuildMediaProjections) in
            match rebuilt with
            | Err e => unavailable CodeDatabaseFailed e
            | Ok _ => fret (with_status m ModuleHealthy "" true, None)
            end
          end
      end
    end.

(** *** The scan *)
Definition readySourceSize (readyPath : string) : F Z :=
  let mediaPath := trim_suffix readyPath ReadySuffix in
  let^ safe := attempt (ensureSafePath (inbox cfg) mediaPath true) in
  match safe with
  | Err _ => fret 0
  | Ok _ => let^ info := attempt (Lstat mediaPath) in
            fret (match info with Ok x => if Size x <=? 0 then 0 else Size x | Err _ => 0 end)
  end.

(** The entries of the inbox and whether they are directories, in one call. *)
Definition entries_of (fs : files) (directory : string) : list (string * bool) :=
  map (fun px => (Base (fst px), match snd px with Directory _ _ => true | _ => false end))
    (List.filter (fun px => String.eqb (Dir (fst px)) (clean directory)) (map_to_list fs)).
Definition read_inbox : F (list (string * bool)) := call (fun _ fs => (Ok (entries_of fs (inbox cfg)), fs)).

Definition confirmation_of (readyPath : string) : string := trim_suffix readyPath ReadySuffix +:+ ConfirmationSuffix.
Definition candidate_key (readyPath : string) : string :=
  zero_joined [ToLower (Base readyPath); Base readyPath].

(** The candidates of the directory: ready files that are not confirmed. *)
Fixpoint list_candidates (entries : list (string * bool)) : F (list readyCandidate) :=
  match entries with
  | [] => fret []
  | (name, is_directory) :: rest =>
    if is_directory || negb (has_suffix name ReadySuffix) then list_candidates rest
    else
      let readyPath := path_join [inbox cfg; name] in
      let^ confirmed := confirmationCached (confirmation_of readyPath) in
      if confirmed : bool then list_candidates rest
      else
        let^ size := readySourceSize readyPath in
        let^ others := list_candidates rest in
        fret (ReadyCandidate readyPath (candidate_key readyPath) size :: others)
  end.

Definition first_error (old : option media_error) (new : option media_error) : option media_error :=
  match old with Some _ => old | None => new end.

(** One selected candidate: whether it is done with, and the error. *)
Definition process_candidate (c : readyCandidate) : F (bool * option media_error) :=
  let^ confirmed := attempt (confirmationValid (confirmation_of (rc_path c))) in
  let process :=
    let^ processed := attempt (ProcessReady (rc_path c)) in
    fret (match processed with Ok b => (b, None) | Err e => (false, Some e) end) in
  match confirmed with
  | Ok true => fret (true, None)
  | Ok false => process
  | Err e => if String.eqb (Sidecar.ErrorCode e) CodeDatabaseFailed then fret (false, Some e) else process
  end.

(** The loop over the selected candidates, with the cursor, the backlog, its size
    and the first error. *)
Record scan_progress := ScanProgress {
  sp_cursor : string; sp_remaining : Z; sp_bytes : Z; sp_error : option media_error }.
Definition after_candidate (s : scan_progress) (c : readyCandidate) (outcome : bool * option media_error)
    : scan_progress :=
  ScanProgress (rc_key c) (if fst outcome then sp_remaining s - 1 else sp_remaining s)
    (if fst outcome then sp_bytes s - rc_size c else sp_bytes s) (first_error (sp_error s) (snd outcome)).
Fixpoint process_selected (l : list readyCandidate) (s : scan_progress) : F scan_progress :=
  match l with
  | [] => fret s
  | c :: rest =>
    let^ gate := attempt allowed in
    match gate with
    | Err e => fret (ScanProgress (sp_cursor s) (sp_remaining s) (sp_bytes s) (first_error (sp_error s) (Some e)))
    | Ok _ => let^ outcome := process_candidate c in process_selected rest (after_candidate s c outcome)
    end
  end.

(** The new state and the error. *)
Definition ScanOnce (m : module_state) : F (module_state * option media_error) :=
  if negb (mg_initialized m) then
    fret (m, Some (failure CodeProbeUnavailable "media ingest module is not healthy"))
  else
    let^ started := attempt
      (let^ _ := allowed in
       let^ version := ask ffprobe_version in
       let^ v := flift version in
       guard^ String.eqb v SupportedFFprobeVersion
         else failure CodeProbeVersionMismatch "unsupported ffprobe version" in
       let^ entries := or_fail read_inbox CodeStorageFailed "media inbox cannot be enumerated" in
       list_candidates entries) in
    match started with
    | Err e => fret (m, Some e)
    | Ok candidates =>
      let limit := me_MaxScanEntries (MediaIngest cfg) in
      let s := scan (mg_scanCursor m) limit candidates in
      let^ p := process_selected (selected limit s)
                  (ScanProgress (mg_scanCursor m) (sn_remaining s) (sn_remainingBytes s) None) in
      let^ at_ := now_text in
      fret (ModuleState (mg_Status m) (mg_ErrorCode m) (mg_initialized m) (sp_cursor p) at_
              (sp_remaining p) (sp_bytes p), sp_error p)
    end.

(** A fault the module reports: its severity, state and code, and the error unless
    it is the recovery. *)
Definition reported_fault : Type := string * string * string * option media_error.
Definition scan_fault (m : module_state) (err : option media_error) : option reported_fault :=
  match err with
  | Some e => if negb (String.eqb (mg_Status m) ModuleUnavailable)
                 || negb (String.eqb (mg_ErrorCode m) (Sidecar.ErrorCode e))
              then Some ("P2", "degraded", Sidecar.ErrorCode e, Some e) else None
  | None => if String.eqb (mg_Status m) ModuleUnavailable && negb (String.eqb (mg_ErrorCode m) "")
            then Some ("P3", "recovered", "MEDIA_INGEST_RECOVERED", None) else None
  end.
Definition scanAndLog (m : module_state) : F (module_state * option reported_fault) :=
  let^ (m', err) := ScanOnce m in
  let^ done_ := ask canceled in
  if done_ : bool then fret (m', None)
  else fret (match err with
             | Some e => with_status m' ModuleUnavailable (Sidecar.ErrorCode e) (mg_initialized m')
             | None => with_status m' ModuleHealthy "" (mg_initialized m')
             end, scan_fault m' err).

(** The status handed to the API: [Status], with the summary of the store. *)
Definition StatusOf (m : module_state) : F (module_state * option MediaIngestSummaryT) :=
  let^ summary := attempt (store MediaIngestSummary) in
  match summary with
  | Err _ => fret (with_status m ModuleUnavailable CodeDatabaseFailed (mg_initialized m), None)
  | Ok s => fret (m, Some s)
  end.
End Manager.
