(* ===== verification/PathFacts.v ===== *)
(** * Laws of file paths

    What the recorder relies on of [path/filepath] to keep its directories apart,
    as an interface, and its proof for slash-separated paths. *)

From Stdlib Require Import ZArith Lia String Ascii.
From S2P Require Import Prelude GoStrings GoTime GoJson Sha256 Sql Schema Platform Config MediaStore Sidecar MediaFiles.
Open Scope string_scope.
Open Scope list_scope.
Open Scope Z_scope.

#[local] Arguments Ascii.eqb : simpl never.
#[local] Arguments String.append : simpl nomatch.

(** A file name: no separator of any platform in it. *)
Definition plain_char (a : ascii) : bool := negb (Ascii.eqb a "/" || Ascii.eqb a "\").
Fixpoint plain_name (s : string) : bool :=
  match s with EmptyString => true | String a t => plain_char a && plain_name t end.
Definition long_name (s : string) : Prop := plain_name s = true /\ (3 <= String.length s)%nat.

Class PathLaws `{Paths} `{FilePaths} := {
  separator_slash : path_separator = "/" \/ path_separator = "\";
  clean_idem p : clean (clean p) = clean p;
  join_clean l : clean (path_join l) = path_join l;
  clean_suffix p n : long_name n -> exists pre, clean (p +:+ n) = pre +:+ n;
  join_suffix d n : long_name n -> exists pre, path_join [d; n] = pre +:+ n;
  join_child r m n : long_name m -> long_name n ->
    exists pre, path_join [path_join [r; m]; n] = pre +:+ path_separator +:+ n;
  rel_join r m n : long_name m -> long_name n ->
    exists relative, path_rel r (path_join [path_join [r; m]; n]) = Some relative /\
      path_join [r; FromSlash (ToSlash relative)] = path_join [path_join [r; m]; n] }.

(** ** Digests as names *)
Definition is_digest (s : string) : Prop := plain_name s = true /\ slen s = 64.

Lemma plain_name_app s t : plain_name (s +:+ t) = plain_name s && plain_name t.
Proof.
  induction s as [|a s IH]; [done|]. rewrite sapp_cons. cbn [plain_name]. by rewrite IH, andb_assoc.
Qed.

Lemma hex_digit_plain n : (n < 16)%nat ->
  plain_char (chr (if Z.of_nat n <? 10 then 48 + Z.of_nat n else 87 + Z.of_nat n)) = true.
Proof. intros Hn. do 16 (destruct n as [|n]; [reflexivity|]). lia. Qed.

Lemma hex_plain l : Forall (fun b => 0 <= b < 256) l -> plain_name (hex l) = true.
Proof.
  induction 1 as [|b l Hb Hl IH]; [done|]. unfold hex in *. cbn [fold_right].
  rewrite plain_name_app, IH, andb_true_r. unfold hex_byte. cbn [plain_name].
  assert (0 <= b / 16 < 16) by (split; [apply Z.div_pos; lia|apply Z.div_lt_upper_bound; lia]).
  assert (0 <= b mod 16 < 16) by (apply Z.mod_pos_bound; lia).
  rewrite <- (Z2Nat.id (b / 16)), <- (Z2Nat.id (b mod 16)) by lia.
  by rewrite !hex_digit_plain by lia.
Qed.

Lemma sha256_digest s : is_digest (sha256_hex s).
Proof.
  split; [|apply slen_sha256_hex]. apply hex_plain, sha256_bytes_range.
Qed.

(** *** The ends of paths *)
Fixpoint last_char (s : string) : option ascii :=
  match s with EmptyString => None | String a EmptyString => Some a | String _ t => last_char t end.
Lemma last_char_app s t : t <> "" -> last_char (s +:+ t) = last_char t.
Proof.
  intros Ht. induction s as [|a s IH]; [done|]. rewrite sapp_cons. cbn [last_char].
  destruct (s +:+ t) eqn:E; [by destruct s, t|done].
Qed.
Lemma app_same_length s1 t1 s2 t2 : s1 +:+ t1 = s2 +:+ t2 -> slen t1 = slen t2 -> s1 = s2 /\ t1 = t2.
Proof.
  revert s2. induction s1 as [|a s1 IH]; intros [|b s2]; rewrite ?sapp_nil, ?sapp_cons; intros E L.
  - done.
  - subst t1. cbn [slen] in L. rewrite slen_app in L. pose proof (slen_nonneg s2). lia.
  - subst t2. cbn [slen] in L. rewrite slen_app in L. pose proof (slen_nonneg s1). lia.
  - injection E as -> E. by destruct (IH _ E L) as [-> ->].
Qed.

(** ** Slash-separated paths *)
Fixpoint slash_free (s : string) : bool :=
  match s with EmptyString => true | String a t => negb (Ascii.eqb a "/") && slash_free t end.
Definition rooted (s : string) : bool := has_prefix s "/".
Definition render (r : bool) (l : list string) : string :=
  if r then "/" +:+ join "/" l else if String.eqb (join "/" l) "" then "." else join "/" l.

Lemma slash_clean_render s : slash_clean s = render (rooted s) (slash_elements s).
Proof. done. Qed.

(** A name that is kept by cleaning. *)
Definition normal (e : string) : Prop := slash_free e = true /\ e <> "" /\ e <> "." /\ e <> "..".

Lemma slash_free_app s t : slash_free (s +:+ t) = slash_free s && slash_free t.
Proof. induction s as [|a s IH]; [done|]. simpl. by rewrite IH, andb_assoc. Qed.
Lemma plain_slash_free s : plain_name s = true -> slash_free s = true.
Proof.
  induction s as [|a s IH]; [done|]. cbn. unfold plain_char. intros H. to_prop. rewrite H. by apply IH.
Qed.
Lemma long_normal e n : slash_free e = true -> long_name n -> normal (e +:+ n).
Proof.
  intros He [Hn Hl]. split; [by rewrite slash_free_app, He, plain_slash_free|].
  pose proof (string_length_app e n). repeat split; intros E; rewrite E in *; simpl in *; lia.
Qed.

Lemma split_on_app_free p n : slash_free n = true ->
  exists l e, split_on "/" p = l ++ [e] /\ split_on "/" (p +:+ n) = l ++ [e +:+ n] /\ slash_free e = true.
Proof.
  intros Hn. induction p as [|a p (l & e & E1 & E2 & He)].
  - exists [], "". split; [done|]. split; [|done]. cbn [app]. rewrite sapp_nil. clear -Hn. induction n as [|a n IH]; [done|].
    cbn in Hn |- *. to_prop. rewrite H, IH by done. done.
  - cbn. rewrite E1, E2. destruct (Ascii.eqb a "/") eqn:Ea.
    + exists ("" :: l), e. done.
    + destruct l as [|w l]; cbn.
      * exists [], (String a e). split; [done|]. split; [done|]. cbn. by rewrite Ea.
      * exists (String a w :: l), e. done.
Qed.

Lemma split_on_slash p q : split_on "/" (p +:+ "/" +:+ q) = split_on "/" p ++ split_on "/" q.
Proof.
  induction p as [|a p IH]; [done|]. rewrite sapp_cons. cbn [split_on]. rewrite IH. destruct (Ascii.eqb a "/"); [done|].
  destruct (split_on_app_free p "" eq_refl) as (l & e & E & _). rewrite E. by destruct l.
Qed.

Lemma split_free s : slash_free s = true -> split_on "/" s = [s].
Proof.
  intros H. destruct (split_on_app_free "" s H) as (l & e & E1 & E2 & _). cbn in E1, E2.
  destruct l as [|? []]; [|done..]. injection E1 as <-. done.
Qed.

Lemma split_join l : l <> [] -> Forall (fun e => slash_free e = true) l -> split_on "/" (join "/" l) = l.
Proof.
  induction l as [|e l IH]; [done|]. intros _ [He Hl]%Forall_cons. destruct l as [|f l]; [by apply split_free|].
  change (join "/" (e :: f :: l)) with (e +:+ "/" +:+ join "/" (f :: l)).
  rewrite split_on_slash, split_free, IH by done. done.
Qed.

Lemma split_elements_free s : Forall (fun e => slash_free e = true) (split_on "/" s).
Proof.
  induction s as [|a s IH]; cbn; [by repeat constructor|]. destruct (Ascii.eqb a "/") eqn:E; [by constructor|].
  destruct (split_on "/" s) as [|w l]; [constructor; [cbn; by rewrite E|done]|].
  apply Forall_cons in IH as [Hw IH]. constructor; [cbn; by rewrite E|done].
Qed.

(** *** Cleaning *)

(** Leading [..], none in a rooted path, then normal names. *)
Definition cleaned (r : bool) (l : list string) : Prop :=
  exists k ns, l = repeat ".." k ++ ns /\ Forall normal ns /\ (r = true -> k = 0%nat).

Lemma clean_keeps_normal r acc ns : Forall normal ns ->
  clean_elements r acc ns = rev acc ++ ns.
Proof.
  revert acc. induction ns as [|n ns IH]; intros acc; cbn; [by rewrite app_nil_r|].
  intros [(_ & N1 & N2 & N3) Hns]%Forall_cons.
  rewrite (proj2 (String.eqb_neq n "")), (proj2 (String.eqb_neq n ".")), (proj2 (String.eqb_neq n "..")) by done.
  cbn. rewrite IH by done. cbn. by rewrite <- app_assoc.
Qed.

Lemma clean_keeps_parents k j ns : Forall normal ns ->
  clean_elements false (repeat ".." j) (repeat ".." k ++ ns) = repeat ".." j ++ repeat ".." k ++ ns.
Proof.
  intros Hns. revert j. induction k as [|k IH]; intros j.
  - cbn [repeat app]. rewrite clean_keeps_normal by done. f_equal.
    induction j as [|j IH]; [done|]. cbn [repeat rev]. rewrite IH. symmetry. apply repeat_cons.
  - cbn [repeat app].
    replace (clean_elements false (repeat ".." j) (".." :: repeat ".." k ++ ns))
      with (clean_elements false (repeat ".." (S j)) (repeat ".." k ++ ns)) by (by destruct j).
    rewrite IH. change (repeat ".." (S j)) with (".." :: repeat ".." j).
    rewrite (repeat_cons j ".."), <- app_assoc. done.
Qed.

Lemma clean_keeps_cleaned r l : cleaned r l -> clean_elements r [] l = l.
Proof.
  intros (k & ns & -> & Hns & Hr). destruct r.
  - rewrite Hr by done. by apply clean_keeps_normal.
  - apply (clean_keeps_parents k 0 ns Hns).
Qed.

(** The accumulator is reversed. *)
Lemma clean_elements_cleaned r l : Forall (fun e => slash_free e = true) l ->
  forall acc, cleaned r (rev acc) -> cleaned r (clean_elements r acc l).
Proof.
  induction 1 as [|e l He Hl IH]; intros acc Hacc; [done|]. cbn.
  destruct (String.eqb_spec e ""); [by apply IH|]. destruct (String.eqb_spec e "."); [by apply IH|]. cbn [orb].
  destruct Hacc as (k & ns & E & Hns & Hr).
  destruct (String.eqb_spec e "..") as [->|].
  - destruct acc as [|x a].
    + destruct r; apply IH; [by exists 0%nat, []|by exists 1%nat, []].
    + cbn [rev] in E. destruct ns as [|m ns _] using rev_ind.
      * rewrite app_nil_r in E. destruct k as [|k]; [by destruct (rev a)|].
        cbn [repeat] in E. rewrite repeat_cons in E. apply app_inj_tail in E as [Ea ->].
        apply (IH (".." :: ".." :: a)). exists (S (S k)), [].
        split; [|split; [done|intros Ht; by specialize (Hr Ht)]].
        cbn [rev]. rewrite Ea, app_nil_r, <- repeat_cons. cbn [app]. by rewrite <- repeat_cons.
      * rewrite app_assoc in E. apply app_inj_tail in E as [Ea ->].
        apply Forall_app in Hns as [Hns [(_ & _ & _ & N) _]%Forall_cons].
        rewrite (proj2 (String.eqb_neq m "..")) by done. apply IH. by exists k, ns.
  - apply IH. exists k, (ns ++ [e]). cbn [rev]. rewrite E, app_assoc. split; [done|]. split; [|done].
    apply Forall_app. split; [done|]. by repeat constructor.
Qed.

Lemma slash_elements_cleaned s : cleaned (rooted s) (slash_elements s).
Proof. apply clean_elements_cleaned; [apply split_elements_free|]. by exists 0%nat, []. Qed.

Lemma cleaned_free r l : cleaned r l -> Forall (fun e => slash_free e = true /\ e <> "") l.
Proof.
  intros (k & ns & -> & Hns & _). apply Forall_app. split.
  - induction k; constructor; done.
  - eapply Forall_impl; [exact Hns|]. by intros e (? & ? & _).
Qed.

Lemma join_cons_head e l : exists t, join "/" (e :: l) = e +:+ t.
Proof. destruct l as [|f l]; [exists ""; by rewrite sappend_nil_r|]. by exists ("/" +:+ join "/" (f :: l)). Qed.

Lemma free_not_rooted e t : slash_free e = true -> e <> "" -> rooted (e +:+ t) = false.
Proof.
  destruct e as [|a e]; [done|]. cbn [slash_free]. intros H _. to_prop. unfold rooted, has_prefix.
  rewrite sapp_cons. cbn [String.prefix]. destruct (ascii_dec "/" a) as [<-|]; [by vm_compute in H|done].
Qed.

Lemma rooted_slash t : has_prefix ("/" +:+ t) "/" = true.
Proof. by destruct t. Qed.

Lemma rendered r l : cleaned r l -> rooted (render r l) = r /\ slash_elements (render r l) = l.
Proof.
  intros Hc. pose proof (cleaned_free _ _ Hc) as Hf. unfold render, slash_elements, rooted.
  assert (Hfree : Forall (fun e => slash_free e = true) l) by (eapply Forall_impl; [exact Hf|]; by intros ? []).
  destruct r.
  - rewrite rooted_slash. split; [done|].
    change (split_on "/" _) with ("" :: split_on "/" (join "/" l)).
    cbn [clean_elements String.eqb orb]. destruct l as [|e l]; [done|].
    rewrite split_join by done. by apply clean_keeps_cleaned.
  - destruct l as [|e l]; [done|]. destruct (join_cons_head e l) as [t Et].
    pose proof Hf as [[He Hne] _]%Forall_cons.
    assert (String.eqb (join "/" (e :: l)) "" = false) as ->.
    { rewrite Et. apply String.eqb_neq. by destruct e. }
    assert (Hr : has_prefix (join "/" (e :: l)) "/" = false) by (rewrite Et; by apply free_not_rooted).
    rewrite Hr. split; [done|]. rewrite split_join by done. by apply clean_keeps_cleaned.
Qed.

Lemma slash_clean_idem p : slash_clean (slash_clean p) = slash_clean p.
Proof.
  rewrite (slash_clean_render p). destruct (rendered _ _ (slash_elements_cleaned p)) as [E1 E2].
  by rewrite slash_clean_render, E1, E2.
Qed.

Lemma clean_elements_snoc r n : normal n -> forall l acc, clean_elements r acc (l ++ [n]) = clean_elements r acc l ++ [n].
Proof.
  intros Hn. induction l as [|e l IH]; intros acc; cbn.
  - destruct Hn as (_ & N1 & N2 & N3).
    rewrite (proj2 (String.eqb_neq n "")), (proj2 (String.eqb_neq n ".")), (proj2 (String.eqb_neq n "..")) by done. done.
  - repeat case_match; apply IH.
Qed.

Lemma join_snoc l n : exists pre, join "/" (l ++ [n]) = pre +:+ n /\
  (l <> [] -> exists pre', pre = pre' +:+ "/").
Proof.
  induction l as [|e l (pre & E & H)]; [by exists ""|].
  destruct l as [|f l].
  - exists (e +:+ "/"). split; [cbn [app join]; by rewrite <- sappend_assoc|]. by exists e.
  - change (join "/" ((e :: f :: l) ++ [n])) with (e +:+ "/" +:+ join "/" ((f :: l) ++ [n])). rewrite E.
    destruct H as [pre' ->]; [done|]. exists (e +:+ "/" +:+ pre' +:+ "/").
    split; [by rewrite <- !sappend_assoc|]. intros _. exists (e +:+ "/" +:+ pre'). by rewrite <- !sappend_assoc.
Qed.

Lemma render_snoc r l n : n <> "" -> exists pre, render r (l ++ [n]) = pre +:+ n /\
  (l <> [] -> exists pre', pre = pre' +:+ "/").
Proof.
  intros Hn. destruct (join_snoc l n) as (pre & E & H). unfold render. rewrite E. destruct r.
  - exists ("/" +:+ pre). split; [by rewrite <- sappend_assoc|]. intros [pre' ->]%H.
    exists ("/" +:+ pre'). by rewrite <- sappend_assoc.
  - assert (String.eqb (pre +:+ n) "" = false) as -> by (apply String.eqb_neq; destruct pre; [done|done]). by exists pre.
Qed.

Lemma clean_name p n : long_name n -> exists l e, slash_clean (p +:+ n) = render (rooted (p +:+ n)) (l ++ [e +:+ n]).
Proof.
  intros Hn. destruct (split_on_app_free p n) as (l & e & _ & E & He); [by apply plain_slash_free, Hn|].
  rewrite slash_clean_render. unfold slash_elements. rewrite E, clean_elements_snoc by by apply long_normal. eauto.
Qed.

Lemma join_two d n : long_name n ->
  rooted (path_join [d; n]) = rooted d /\ slash_elements (path_join [d; n]) = slash_elements d ++ [n].
Proof.
  intros Hn. pose proof (long_normal "" n eq_refl Hn) as Hno. cbn in Hno.
  assert (Hne : String.eqb n "" = false) by (apply String.eqb_neq; by apply Hno).
  assert (Hc : cleaned (rooted d) (slash_elements d ++ [n])).
  { destruct (slash_elements_cleaned d) as (k & ns & -> & Hns & Hr). exists k, (ns ++ [n]).
    rewrite app_assoc. split; [done|]. split; [|done]. apply Forall_app. split; [done|]. by constructor. }
  assert (E : path_join [d; n] = render (rooted d) (slash_elements d ++ [n])).
  { cbn [path_join slash_paths List.filter]. rewrite Hne. cbn [negb].
    destruct (String.eqb_spec d "") as [->|Hd]; cbn [negb join].
    - assert (Hr : rooted n = false) by (rewrite <- (sappend_nil_r n); apply free_not_rooted; apply Hno).
      rewrite slash_clean_render, Hr. unfold slash_elements, rooted in *. rewrite split_free, Hr by apply Hno.
      by rewrite clean_keeps_normal by (by constructor).
    - rewrite slash_clean_render. unfold slash_elements. rewrite split_on_slash, (split_free n) by apply Hno.
      assert (Hr : has_prefix (d +:+ "/" +:+ n) "/" = has_prefix d "/").
      { destruct d as [|a d]; [done|]. unfold has_prefix. rewrite sapp_cons. cbn [String.prefix].
        destruct (ascii_dec "/" a); [|done]. by destruct d. }
      unfold rooted. rewrite Hr. by rewrite clean_elements_snoc. }
  rewrite E. by apply rendered.
Qed.

Lemma slash_join_child r m n : long_name m -> long_name n ->
  exists pre, path_join [path_join [r; m]; n] = pre +:+ "/" +:+ n.
Proof.
  intros Hm Hn. destruct (join_two r m Hm) as [R1 E1]. destruct (join_two (path_join [r; m]) n Hn) as [R2 E2].
  assert (E : path_join [path_join [r; m]; n] = slash_clean (path_join [path_join [r; m]; n])).
  { cbn [path_join slash_paths]. by rewrite slash_clean_idem. }
  rewrite E, slash_clean_render, R2, E2.
  destruct (render_snoc (rooted (path_join [r; m])) (slash_elements (path_join [r; m])) n) as (pre & -> & H).
  { intros ->. destruct Hn as [_ Hn]. simpl in Hn. lia. }
  destruct H as [pre' ->]; [rewrite E1; by destruct (slash_elements r)|].
  exists pre'. by rewrite sappend_assoc.
Qed.

Lemma strip_common_app a b : strip_common a (a ++ b) = ([], b).
Proof.
  induction a as [|x a IH]; [by destruct b|]. cbn [strip_common app]. by rewrite String.eqb_refl.
Qed.

Lemma path_join_clean l : slash_clean (path_join l) = path_join l.
Proof. cbn [path_join slash_paths]. apply slash_clean_idem. Qed.

Lemma rooted_app a t : a <> "" -> rooted (a +:+ t) = rooted a.
Proof.
  destruct a as [|x a]; [done|]. intros _. unfold rooted, has_prefix. rewrite sapp_cons. cbn [String.prefix].
  destruct (ascii_dec "/" x); [|done]. by destruct a, t.
Qed.

Lemma slash_rel_join r m n : long_name m -> long_name n ->
  exists relative, path_rel r (path_join [path_join [r; m]; n]) = Some relative /\
    path_join [r; relative] = path_join [path_join [r; m]; n].
Proof.
  intros Hm Hn. destruct (join_two r m Hm) as [R1 E1]. destruct (join_two (path_join [r; m]) n Hn) as [R2 E2].
  pose proof (long_normal "" m eq_refl Hm) as Nm. pose proof (long_normal "" n eq_refl Hn) as Nn.
  rewrite sapp_nil in Nm, Nn. rewrite R1 in R2. rewrite E1 in E2.
  assert (Fm : rooted m = false) by (rewrite <- (sappend_nil_r m); apply free_not_rooted; apply Nm).
  assert (Hne : m +:+ "/" +:+ n <> "") by (destruct Nm as (_ & ? & _); by destruct m).
  assert (Hmn : slash_elements (m +:+ "/" +:+ n) = [m; n] /\ rooted (m +:+ "/" +:+ n) = false).
  { rewrite rooted_app by apply Nm. split; [|done]. unfold slash_elements.
    rewrite split_on_slash, !split_free by (apply Nm || apply Nn).
    cbn [app]. by rewrite clean_keeps_normal by (by constructor; [|constructor]). }
  exists (slash_clean (m +:+ "/" +:+ n)). split.
  - cbn [path_rel slash_paths]. unfold rooted in R2. rewrite R2.
    rewrite eqb_reflx, E2, <- app_assoc, strip_common_app. done.
  - rewrite <- (path_join_clean [path_join [r; m]; n]), (slash_clean_render (path_join [path_join _; n])), R2, E2.
    assert (Hc : slash_clean (m +:+ "/" +:+ n) = m +:+ "/" +:+ n).
    { rewrite slash_clean_render. destruct Hmn as [-> ->]. unfold render. cbn [join].
      by rewrite (proj2 (String.eqb_neq _ _) Hne). }
    rewrite Hc. cbn [path_join slash_paths List.filter]. rewrite (proj2 (String.eqb_neq _ _) Hne). cbn [negb].
    destruct (String.eqb_spec r "") as [->|Hr]; cbn [negb join].
    + rewrite slash_clean_render. by destruct Hmn as [-> ->].
    + rewrite slash_clean_render, rooted_app by done. unfold slash_elements at 1.
      rewrite !split_on_slash, !(split_free m), !(split_free n) by (apply Nm || apply Nn).
      cbn [app]. change (split_on "/" r ++ [m; n]) with (split_on "/" r ++ [m] ++ [n]). rewrite app_assoc.
      change (has_prefix (r +:+ "/" +:+ m +:+ "/" +:+ n) "/") with (rooted (r +:+ "/" +:+ m +:+ "/" +:+ n)).
      by rewrite !clean_elements_snoc, rooted_app by done.
Qed.

(** *** The instances *)
#[export] Instance slash_file_paths : FilePaths := {|
  Base s := List.last (slash_elements s) (if rooted s then "/" else ".");
  Dir s := render (rooted s) (removelast (slash_elements s));
  ToSlash s := s;
  FromSlash s := s;
  Abs s := if rooted s then Some (slash_clean s) else None;
  EvalSymlinks _ s := Some (slash_clean s);
  ToLower := to_lower;
  EqualFold s t := String.eqb (to_lower s) (to_lower t) |}.

#[export] Instance slash_path_laws : PathLaws.
Proof.
  split.
  - by left.
  - apply slash_clean_idem.
  - apply path_join_clean.
  - intros p n Hn. destruct (clean_name p n Hn) as (l & e & E). cbn [clean slash_paths]. rewrite E.
    destruct (render_snoc (rooted (p +:+ n)) l (e +:+ n)) as (pre & -> & _).
    { destruct Hn as [_ Hn]. intros E'. pose proof (string_length_app e n) as HL. rewrite E' in HL. simpl in HL. lia. }
    exists (pre +:+ e). by rewrite sappend_assoc.
  - intros d n Hn. destruct (join_two d n Hn) as [R E]. rewrite <- path_join_clean, slash_clean_render, R, E.
    destruct (render_snoc (rooted d) (slash_elements d) n) as (pre & -> & _); [|by exists pre].
    intros ->. destruct Hn as [_ Hn]. simpl in Hn. lia.
  - apply slash_join_child.
  - apply slash_rel_join.
Qed.

Example base_example : map Base ["/a/b"; "c"; "/"; ""] = ["b"; "c"; "/"; "."]
  /\ map Dir ["/a/b"; "c"; "/a"; "/"] = ["/a"; "."; "/"; "/"].
Proof. done. Qed.
