(* ===== verification/MediaFrame.v ===== *)
(** * What media ingest leaves alone

    A logic for the monad of media ingest: triples, and the operations that keep
    a property of the file at one path.  With it the frame of [ProcessReady]: the
    files it may write are the staging and quarantine files of its identity, the
    confirmation beside the source, and an accepted file that was missing. *)

From Stdlib Require Import ZArith Lia String Ascii.
From S2P Require Import Prelude GoStrings GoTime GoJson Sha256 Sql Schema Platform Config MediaStore Sidecar MediaScan MediaFiles MediaIngest PathFacts.
Open Scope string_scope.
Open Scope list_scope.
Open Scope Z_scope.
Open Scope io_scope.

(** ** Triples *)
Definition triple {A} (Pre : world -> Prop) (m : F A) (Post : result media_error A -> world -> Prop) : Prop :=
  forall w, Pre w -> Post (fst (m w)) (snd (m w)).

Lemma triple_bind {A B} Pre (m : F A) Mid (k : A -> F B) Post :
  triple Pre m Mid -> (forall a, triple (Mid (Ok a)) (k a) Post) ->
  (forall e w, Mid (Err e) w -> Post (Err e) w) -> triple Pre (fbind m k) Post.
Proof.
  intros Hm Hk He w Hw. unfold fbind. specialize (Hm w Hw). destruct (m w) as [[a|e] w1]; cbn in *.
  - by apply Hk.
  - by apply He.
Qed.
Lemma triple_weaken {A} (Pre Pre' : world -> Prop) (m : F A) (Post Post' : result media_error A -> world -> Prop) :
  triple Pre' m Post' -> (forall w, Pre w -> Pre' w) -> (forall r w, Post' r w -> Post r w) -> triple Pre m Post.
Proof. intros H H1 H2 w Hw. apply H2, H, H1, Hw. Qed.

(** [m] keeps the property [P] of the node at [q]. *)
Definition at_ (q : string) (P : option node -> Prop) (w : world) : Prop := P (w_files w !! q).
Definition keeps (q : string) (P : option node -> Prop) {A} (m : F A) : Prop :=
  triple (at_ q P) m (fun _ => at_ q P).

Section Keeps.
Context (q : string) (P : option node -> Prop).

Lemma keeps_bind {A B} (m : F A) (k : A -> F B) : keeps q P m -> (forall a, keeps q P (k a)) -> keeps q P (fbind m k).
Proof. intros Hm Hk. eapply triple_bind; [exact Hm|exact Hk|done]. Qed.
(** The continuation may rely on what [m] established. *)
Lemma keeps_bind_post {A B} (m : F A) Mid (k : A -> F B) : triple (at_ q P) m Mid ->
  (forall r w, Mid r w -> at_ q P w) -> (forall a, triple (Mid (Ok a)) (k a) (fun _ => at_ q P)) ->
  keeps q P (fbind m k).
Proof. intros Hm H Hk. eapply triple_bind; [exact Hm|exact Hk|]. intros e w Hw. by eapply H. Qed.
Lemma keeps_ret {A} (a : A) : keeps q P (fret a).
Proof. by intros w Hw. Qed.
Lemma keeps_fail {A} e : keeps q P (@ffail A e).
Proof. by intros w Hw. Qed.
Lemma keeps_lift {A} (r : result media_error A) : keeps q P (flift r).
Proof. by destruct r; intros w Hw. Qed.
Lemma keeps_attempt {A} (m : F A) : keeps q P m -> keeps q P (attempt m).
Proof. intros Hm w Hw. specialize (Hm w Hw). unfold attempt. by destruct (m w). Qed.
Lemma keeps_ignore {A} (m : F A) : keeps q P m -> keeps q P (ignore m).
Proof. intros Hm w Hw. specialize (Hm w Hw). unfold ignore. by destruct (m w). Qed.
Lemma keeps_or_fail {A} (m : F A) code text : keeps q P m -> keeps q P (or_fail m code text).
Proof.
  intros Hm. apply keeps_bind; [by apply keeps_attempt|]. intros [a|e]; [apply keeps_ret|apply keeps_fail].
Qed.
Lemma keeps_store {A} (m : M database A) : keeps q P (store m).
Proof. intros w Hw. unfold store. by destruct (m (w_db w) (w_oracle w)) as [[? ?] ?]. Qed.
Lemma keeps_stored {A} (m : M database A) : keeps q P (stored m).
Proof.
  apply keeps_bind; [apply keeps_attempt, keeps_store|]. intros [a|e]; [apply keeps_ret|apply keeps_fail].
Qed.

Context {env : Environment}.
Lemma keeps_ask {A} (f : nat -> A) : keeps q P (ask f).
Proof. by intros w Hw. Qed.

(** Other processes leave the file at [q] alone. *)
Definition quiet : Prop := forall n fs, others n fs !! q = fs !! q.
Context (Hq : quiet).

Lemma keeps_call_with {A} broken (f : nat -> files -> result media_error A * files) :
  (forall n fs, P (fs !! q) -> P (broken n fs !! q)) -> (forall n fs, P (fs !! q) -> P (snd (f n fs) !! q)) ->
  keeps q P (call_with broken f).
Proof.
  intros Hb Hf w Hw. unfold call_with, at_ in *. set (n := w_step w).
  assert (Hw' : P (others n (w_files w) !! q)) by (by rewrite Hq).
  destruct (io_fault n); cbn; [by apply Hb|]. specialize (Hf n _ Hw'). by destruct (f n _).
Qed.
Lemma keeps_call {A} (f : nat -> files -> result media_error A * files) :
  (forall n fs, P (fs !! q) -> P (snd (f n fs) !! q)) -> keeps q P (call f).
Proof. intros Hf. by apply keeps_call_with. Qed.
(** A call that only looks. *)
Lemma keeps_look {A} (f : nat -> files -> result media_error A * files) :
  (forall n fs, snd (f n fs) = fs) -> keeps q P (call f).
Proof. intros Hf. apply keeps_call. intros n fs. by rewrite Hf. Qed.
End Keeps.

(** One step through a computation whose parts keep the property; what is left
    are the calls that write. *)
Create HintDb keeping.
Ltac keep_step :=
  lazymatch goal with
  | |- keeps _ _ (fbind _ _) => apply keeps_bind; [|intros ?]
  | |- keeps _ _ (fret _) => apply keeps_ret
  | |- keeps _ _ (ffail _) => apply keeps_fail
  | |- keeps _ _ (flift _) => apply keeps_lift
  | |- keeps _ _ (attempt _) => apply keeps_attempt
  | |- keeps _ _ (ignore _) => apply keeps_ignore
  | |- keeps _ _ (or_fail _ _ _) => apply keeps_or_fail
  | |- keeps _ _ (store _) => apply keeps_store
  | |- keeps _ _ (stored _) => apply keeps_stored
  | |- keeps _ _ (ask _) => apply keeps_ask
  | |- keeps _ _ (let '(_, _) := ?x in _) => destruct x
  | |- keeps _ _ (match ?x with _ => _ end) => destruct x eqn:?
  | |- keeps _ _ _ => solve [auto with keeping]
  end.
Ltac keep := repeat (cbv beta zeta; keep_step).

(** ** Calls *)
Section Calls.
Context `{Paths} `{Zones} `{Network} `{Floats} `{FilePaths} {env : Environment}.
Context (q : string) (P : option node -> Prop) (Hq : quiet q).

Lemma keeps_Lstat p : keeps q P (Lstat p).
Proof. apply keeps_look; [done|]. intros n fs. by case_match. Qed.
Lemma keeps_Open p : keeps q P (Open p).
Proof. apply keeps_look; [done|]. intros n fs. by repeat case_match. Qed.
Lemma keeps_ReadAt h offset limit : keeps q P (ReadAt h offset limit).
Proof. apply keeps_look; [done|]. intros n fs. by repeat case_match. Qed.
Lemma keeps_ReadLimited h limit : keeps q P (ReadLimited h limit).
Proof. apply keeps_look; [done|]. intros n fs. by repeat case_match. Qed.
Lemma keeps_Flush : keeps q P Flush.
Proof. by apply keeps_look. Qed.
Lemma keeps_now : keeps q P now.
Proof. apply keeps_ask. Qed.

Lemma keeps_Write h chunk : h <> q -> keeps q P (Write h chunk).
Proof.
  intros Hh. assert (Ha : forall c t fs, append_to h c t fs !! q = fs !! q).
  { intros c t fs. unfold append_to. destruct (fs !! h) as [[]|]; [|done..]. by rewrite lookup_insert_ne. }
  apply keeps_call_with; [done| |]; intros n fs; cbn; by rewrite Ha.
Qed.
Lemma keeps_Remove p : clean p <> q -> keeps q P (Remove p).
Proof. intros Hp. apply keeps_call; [done|]. intros n fs. case_match; [|done]. cbn. by rewrite lookup_delete_ne. Qed.
Lemma keeps_Rename a b : clean a <> q -> clean b <> q -> keeps q P (Rename a b).
Proof.
  intros Ha Hb. apply keeps_call; [done|]. intros n fs. case_match; [|done].
  cbn. unfold put. by rewrite lookup_insert_ne, lookup_delete_ne.
Qed.
End Calls.
#[export] Hint Resolve keeps_Lstat keeps_Open keeps_ReadAt keeps_ReadLimited keeps_Flush keeps_now : keeping.

Section Checks.
Context `{Paths} `{Zones} `{Network} `{Floats} `{FilePaths} {env : Environment}.
Context (q : string) (P : option node -> Prop) (Hq : quiet q).
#[local] Hint Resolve Hq : keeping.

Lemma keeps_isReparsePoint p : keeps q P (isReparsePoint p).
Proof. unfold isReparsePoint. keep. Qed.
#[local] Hint Resolve keeps_isReparsePoint : keeping.
Lemma keeps_ensureSafePath root p regular : keeps q P (ensureSafePath root p regular).
Proof. unfold ensureSafePath. keep. Qed.
Lemma keeps_ensureManagedFileTarget root p : keeps q P (ensureManagedFileTarget root p).
Proof. unfold ensureManagedFileTarget. keep. Qed.
Lemma keeps_check_components l : forall cursor, keeps q P (check_components cursor l).
Proof. induction l as [|c l IH]; intros cursor; cbn [check_components]; keep. Qed.
#[local] Hint Resolve keeps_check_components : keeping.
Lemma keeps_ensureManagedPath root p regular : keeps q P (ensureManagedPath root p regular).
Proof. unfold ensureManagedPath. keep. Qed.
Lemma keeps_ensureMediaAllowed : keeps q P ensureMediaAllowed.
Proof. unfold ensureMediaAllowed. keep. Qed.
Lemma keeps_ensureCoreWritesAllowed : keeps q P ensureCoreWritesAllowed.
Proof. unfold ensureCoreWritesAllowed. keep. Qed.
Lemma keeps_hashFile p limit : keeps q P (hashFile p limit).
Proof. unfold hashFile. keep. Qed.
End Checks.
#[export] Hint Resolve keeps_isReparsePoint keeps_ensureSafePath keeps_ensureManagedFileTarget
  keeps_ensureManagedPath keeps_ensureMediaAllowed keeps_ensureCoreWritesAllowed keeps_hashFile : keeping.

(** ** Calls whose effect depends on what they find *)
Section Written.
Context `{Paths} `{Zones} `{Network} `{Floats} `{FilePaths} {laws : PathLaws} {env : Environment} (cfg : Config).

Definition not_link (x : option node) : Prop := match x with Some (Symlink _ _) => False | _ => True end.

Lemma triple_both {A} q P q' P' (m : F A) : keeps q P m -> keeps q' P' m ->
  triple (fun w => at_ q P w /\ at_ q' P' w) m (fun _ w => at_ q P w /\ at_ q' P' w).
Proof. intros K1 K2 w [W1 W2]. split; [by apply K1|by apply K2]. Qed.

(** The look of a call, when it succeeds. *)
Lemma Lstat_Ok p w x w' : Lstat p w = (Ok x, w') -> w_files w' !! clean p = Some x.
Proof.
  unfold Lstat, call, call_with, node_at. destruct (io_fault _); [done|].
  destruct (others _ _ !! clean p) eqn:E; [|done]. by intros [= <- <-].
Qed.
Lemma Lstat_missing p w e w' : Lstat p w = (Err e, w') -> is_not_exist e = true -> w_files w' !! clean p = None.
Proof.
  unfold Lstat, call, call_with, node_at. destruct (io_fault _); [by intros [= <- <-]|].
  destruct (others _ _ !! clean p) eqn:E; [done|]. by intros [= <- <-].
Qed.

(** A checked target is no symbolic link. *)
Lemma checked_target root p w w' : ensureManagedFileTarget root p w = (Ok tt, w') ->
  at_ (clean p) not_link w'.
Proof.
  unfold ensureManagedFileTarget. intros Hr. destruct (path_rel _ _); [|done].
  destruct (negb _); [|done]. unfold fbind, attempt in Hr.
  destruct (isReparsePoint (clean root) w) as [[[]|] w1]; try done.
  unfold isReparsePoint, fbind in Hr. destruct (Lstat (clean p) w1) as [[x|e] w2] eqn:EL; cbn in Hr.
  - apply Lstat_Ok in EL. rewrite clean_idem in EL. unfold at_. destruct x; try done; injection Hr as <-; by rewrite EL.
  - destruct (is_not_exist e) eqn:Ee; [|done]. injection Hr as <-.
    apply Lstat_missing in EL; [|done]. rewrite clean_idem in EL. unfold at_. by rewrite EL.
Qed.

Section Keeping.
Context (q : string) (P : option node -> Prop) (Hq : quiet q).
#[local] Hint Resolve Hq : keeping.

(** What opens a target that is no link opens the target itself. *)
Definition opens (p : string) (o : F string) : Prop :=
  triple (fun w => at_ q P w /\ at_ (clean p) not_link w) o
    (fun r w => at_ q P w /\ forall h, r = Ok h -> h = clean p).

Lemma OpenTruncated_opens p : clean p <> q -> quiet (clean p) -> opens p (OpenTruncated p).
Proof.
  intros Hp Hs w [Hw Hl]. unfold OpenTruncated, call, call_with. set (n := w_step w). unfold at_ in *.
  destruct (io_fault n); cbn [fst snd w_files]; [by rewrite Hq|].
  assert (Hl' : not_link (others n (w_files w) !! clean p)) by (by rewrite Hs).
  assert (E : resolve link_limit (others n (w_files w)) p = Some (clean p)).
  { unfold link_limit. cbn [resolve]. unfold node_at. by destruct (others n (w_files w) !! clean p) as [[]|]. }
  rewrite E. destruct (others n (w_files w) !! clean p) as [[]|]; cbn [fst snd w_files];
    rewrite ?lookup_insert_ne by done; rewrite Hq; (split; [done|]); by intros h [= <-].
Qed.
Lemma or_fail_opens p o code text : opens p o -> opens p (or_fail o code text).
Proof.
  intros Ho w Hw. destruct (Ho w Hw) as [Ho1 Ho2]. unfold or_fail, fbind, attempt. destruct (o w) as [[h|e] w']; cbn in *.
  - split; [done|]. intros h' [= <-]. by apply Ho2.
  - done.
Qed.

Lemma keeps_target {A B} root p (m : F A) o (k : A -> string -> F B) :
  quiet (clean p) -> opens p o -> keeps q P m -> keeps (clean p) not_link m ->
  (forall a, keeps q P (k a (clean p))) ->
  keeps q P (let^ _ := ensureManagedFileTarget root p in let^ a := m in let^ h := o in k a h).
Proof.
  intros Hs Ho Hm1 Hm2 Hk.
  apply (keeps_bind_post _ _ _ (fun r w => at_ q P w /\ (r = Ok tt -> at_ (clean p) not_link w))).
  - intros w Hw. split; [by apply keeps_ensureManagedFileTarget|].
    destruct (ensureManagedFileTarget root p w) as [r w'] eqn:E. cbn. intros ->. by eapply checked_target.
  - by intros r w [].
  - intros []. eapply triple_weaken; [| |intros r w; exact id].
    + eapply (triple_bind (fun w => at_ q P w /\ at_ (clean p) not_link w)); [by apply triple_both| |by intros e w []].
      intros a. cbn beta. eapply triple_bind; [exact Ho| |by intros e w []].
      intros h w [Hw Hh]. rewrite (Hh h eq_refl). by apply Hk.
    + intros w [Hw Hl]. split; [done|]. by apply Hl.
Qed.

Lemma keeps_copy_chunks fuel source target copied : target <> q -> keeps q P (copy_chunks cfg fuel source target copied).
Proof.
  intros Ht. revert copied. induction fuel as [|f IH]; intros copied; cbn [copy_chunks]; keep. by apply keeps_Write.
Qed.
Lemma keeps_copy_limited fuel source target copied : target <> q -> keeps q P (copy_limited cfg fuel source target copied).
Proof.
  intros Ht. revert copied. induction fuel as [|f IH]; intros copied; cbn [copy_limited]; keep. by apply keeps_Write.
Qed.
Lemma keeps_verifyManagedFile p size digest : keeps q P (verifyManagedFile cfg p size digest).
Proof. unfold verifyManagedFile. keep. Qed.
#[local] Hint Resolve keeps_verifyManagedFile : keeping.

Lemma keeps_copyToStaging source staging : clean staging <> q -> quiet (clean staging) ->
  keeps q P (copyToStaging cfg source staging).
Proof.
  intros Hs Hqs. unfold copyToStaging. keep_step; [keep|]. keep_step; [keep|].
  apply keeps_target; [done|by apply or_fail_opens, OpenTruncated_opens|keep|keep; by apply keeps_Open|].
  intros ?. keep. by apply keeps_copy_chunks.
Qed.
Lemma keeps_copyToQuarantine source target : clean target <> q -> quiet (clean target) ->
  keeps q P (copyToQuarantine cfg source target).
Proof.
  intros Hs Hqs. unfold copyToQuarantine. keep_step; [keep|]. keep_step; [keep|].
  apply keeps_target; [done|by apply OpenTruncated_opens|keep|by apply keeps_Open|].
  intros ?. keep. by apply keeps_copy_limited.
Qed.
Lemma keeps_remove_if_present p text : clean p <> q -> keeps q P (remove_if_present p text).
Proof. intros Hp. unfold remove_if_present. keep. by apply keeps_Remove. Qed.

(** *** Where the file is there *)
Context (Hthere : ~ P None).

Lemma keeps_installAccepted staging accepted size digest : clean staging <> q ->
  keeps q P (installAccepted cfg staging accepted size digest).
Proof.
  intros Hs. unfold installAccepted. do 3 (keep_step; [keep|]).
  apply (keeps_bind_post _ _ _ (fun r w => at_ q P w /\
    forall e, r = Ok (Err e) -> is_not_exist e = true -> w_files w !! clean accepted = None)).
  - intros w Hw. pose proof (keeps_Lstat q P Hq accepted w Hw) as Hk. unfold attempt.
    destruct (Lstat accepted w) as [r w'] eqn:E. cbn in *. split; [done|]. intros e [= ->]. by eapply Lstat_missing.
  - by intros r w [].
  - intros [x|e] w [Hw He]; [by apply (keeps_bind _ _ _ _ (keeps_verifyManagedFile _ _ _)); [intros ?; apply keeps_remove_if_present|]|].
    destruct (is_not_exist e) eqn:Ee; [|done]. specialize (He e eq_refl Ee).
    assert (Ha : clean accepted <> q). { intros E. unfold at_ in Hw. rewrite <- E, He in Hw. done. }
    revert w Hw He. enough (Hk : keeps q P (let^ _ := ensureMediaAllowed in
      let^ _ := or_fail (Rename staging accepted) CodeStorageFailed "staging media cannot be atomically renamed" in
      let^ _ := or_fail (Open accepted) CodeStorageFailed "accepted media cannot be reopened" in
      or_fail Flush CodeStorageFailed "accepted media cannot be flushed")) by (intros w Hw _; by apply Hk).
    keep. by apply keeps_Rename.
Qed.

(** A temporary file gets a name no file has. *)
Lemma CreateTemp_new d prefix : triple (at_ q P) (CreateTemp d prefix)
  (fun r w => at_ q P w /\ forall t, r = Ok t -> clean t <> q).
Proof.
  intros w Hw. unfold CreateTemp, call, call_with, at_ in *. set (n := w_step w).
  destruct (io_fault n); cbn [fst snd w_files]; [by rewrite Hq|]. unfold node_at, put.
  destruct (others n (w_files w) !! clean (temporary_path d prefix n)) eqn:E; cbn [fst snd w_files]; [by rewrite Hq|].
  assert (Ht : clean (temporary_path d prefix n) <> q).
  { intros Et. rewrite Et, Hq in E. by rewrite E in Hw. }
  rewrite lookup_insert_ne, Hq by done. split; [done|]. by intros t [= <-].
Qed.

Lemma keeps_writeAtomicFile p contents : clean p <> q -> keeps q P (writeAtomicFile p contents).
Proof.
  intros Hp. unfold writeAtomicFile. eapply keeps_bind_post; [apply CreateTemp_new|by intros r w []|].
  intros t w [Hw Ht]. specialize (Ht t eq_refl). revert w Hw.
  enough (Hk : keeps q P (let^ written := attempt (write_temporary p contents t) in
    match written with Ok _ => fret tt | Err e => let^ _ := ignore (Remove t) in ffail e end))
    by (intros w Hw; by apply Hk).
  unfold write_temporary. keep; first [by apply keeps_Write|by apply keeps_Remove|by apply keeps_Rename].
Qed.
End Keeping.
End Written.
#[export] Hint Resolve keeps_verifyManagedFile : keeping.

(** ** The operations of the manager *)
Section Process.
Context `{Paths} `{Zones} `{Network} `{Floats} `{FilePaths} {laws : PathLaws} {env : Environment} (cfg : Config).
Context (q : string) (P : option node -> Prop) (Hq : quiet q) (Hthere : ~ P None).
#[local] Hint Resolve Hq Hthere : keeping.

Lemma keeps_makeEvent i status code temp id : keeps q P (makeEvent i status code temp id).
Proof. unfold makeEvent, now_text. keep. Qed.
#[local] Hint Resolve keeps_makeEvent : keeping.
Lemma keeps_record i status code temp id : keeps q P (record i status code temp id).
Proof. unfold record. keep. Qed.
#[local] Hint Resolve keeps_record : keeping.
Lemma keeps_stampFile p : keeps q P (stampFile p).
Proof. unfold stampFile. keep. Qed.
Lemma keeps_stampFiles l : keeps q P (stampFiles l).
Proof. induction l as [|p l IH]; cbn [stampFiles]; keep. apply keeps_stampFile. Qed.
#[local] Hint Resolve keeps_stampFile keeps_stampFiles : keeping.
Lemma keeps_terminalUnchanged i source : keeps q P (terminalUnchanged cfg i source).
Proof. unfold terminalUnchanged, terminalFileSignature. keep. Qed.
Lemma keeps_rememberTerminal i source : keeps q P (rememberTerminal cfg i source).
Proof. unfold rememberTerminal, terminalFileSignature, now_text. keep. Qed.
Lemma keeps_readInboxFile p limit : keeps q P (readInboxFile cfg p limit).
Proof. unfold readInboxFile. keep. Qed.
Lemma keeps_stableSourceStat p : keeps q P (stableSourceStat cfg p).
Proof. unfold stableSourceStat. keep. Qed.
Lemma keeps_abandon {A} i code temp e : keeps q P (@abandon _ A i code temp e).
Proof. unfold abandon. keep. Qed.
#[local] Hint Resolve keeps_terminalUnchanged keeps_rememberTerminal keeps_readInboxFile keeps_stableSourceStat
  keeps_abandon : keeping.
Lemma keeps_quarantine_failed {A} i temp text : keeps q P (@quarantine_failed _ A i temp text).
Proof. apply keeps_abandon. Qed.
#[local] Hint Resolve keeps_quarantine_failed : keeping.
Lemma keeps_or_abandon {A} (m : F A) i temp text : keeps q P m -> keeps q P (or_abandon m i temp text).
Proof. intros Hm. unfold or_abandon. keep. Qed.
Lemma keeps_rejected {A} (m : F A) : keeps q P m -> keeps q P (rejected m).
Proof. intros Hm. unfold rejected. keep. Qed.

(** The files kept in quarantine for an ingest key are others. *)
Definition staging_of (key : string) : string := path_join [stagingRoot cfg; key +:+ ".partial"].
Definition quarantine_extensions : list string := [".media"; SidecarSuffix; ".reason.json"; ".partial"].
Definition mine (key : string) (i : processIdentity) : Prop :=
  id_ingestKey i = key /\ is_digest (id_sourceFingerprint i).
Definition apart (key : string) : Prop :=
  (clean (staging_of key) <> q /\ quiet (clean (staging_of key))) /\
  forall i ext, mine key i -> ext ∈ quarantine_extensions ->
    clean (quarantined cfg i ext) <> q /\ quiet (clean (quarantined cfg i ext)).

Lemma keeps_quarantine key i source raw staging reason : apart key -> mine key i ->
  (staging = "" \/ staging = staging_of key) -> keeps q P (quarantine cfg i source raw staging reason).
Proof.
  intros [[S1 S2] Hquar] Hm Hs. pose proof (fun ext => Hquar i ext Hm) as Hi.
  assert (Hext : forall ext, bool_decide (ext ∈ quarantine_extensions) = true ->
    clean (quarantined cfg i ext) <> q /\ quiet (clean (quarantined cfg i ext))).
  { intros ext He. apply Hi. by apply bool_decide_eq_true_1 in He. }
  clear Hi. pose proof (fun ext He => Hext ext He) as Hi.
  assert (Hstaging : staging <> "" -> clean staging <> q) by (destruct Hs as [->| ->]; done).
  unfold quarantine, quarantine_note. do 2 (keep_step; [keep|]). keep_step; [|keep].
  keep_step; [keep|]. keep_step.
  - keep_step; [unfold quarantine_again; keep; apply keeps_or_abandon; keep|].
    keep_step; [|keep]. destruct (String.eqb_spec staging "") as [->|Hne]; cbn [negb].
    + unfold quarantine_source. keep_step.
      { keep_step. apply keeps_copyToQuarantine; (done || by apply Hi). }
      keep; apply keeps_or_abandon; keep. apply keeps_Rename; (done || by apply Hi).
    + keep_step; [|keep]. unfold quarantine_staged.
      keep; apply keeps_or_abandon; keep. apply keeps_Rename; (done || (by apply Hstaging) || by apply Hi).
  - keep_step; [keep|]. unfold now_text.
    destruct (String.eqb_spec staging "") as [->|Hne]; keep;
      first [apply keeps_Remove; (done || by apply Hstaging)|apply keeps_writeAtomicFile; (done || by apply Hi)].
Qed.

(** *** Accepting *)
Context (key confirmationPath : string) (Hapart : apart key) (Hconf : clean confirmationPath <> q).

Lemma keeps_accept_installed i media raw sidecar probe relative id : mine key i ->
  keeps q P (accept_installed cfg i media raw confirmationPath sidecar probe relative id).
Proof.
  intros Hm. unfold accept_installed, now_text, writeConfirmation. keep.
  - by apply keeps_rejected, (keeps_quarantine key); auto.
  - by apply keeps_writeAtomicFile.
Qed.

Lemma keeps_restore_duplicate i claim sidecar : mine key i ->
  keeps q P (restore_duplicate cfg i (staging_of key) claim sidecar).
Proof.
  intros Hm. destruct Hapart as [[S1 S2] _]. unfold restore_duplicate.
  keep; first [by apply keeps_rejected; keep|by apply keeps_Remove|by apply keeps_installAccepted].
Qed.

Lemma keeps_process_staged i media raw sidecar : mine key i ->
  keeps q P (process_staged cfg i media raw confirmationPath (staging_of key) sidecar).
Proof.
  intros Hi. unfold process_staged.
  assert (Hquar : forall reason, keeps q P (rejected (quarantine cfg i media raw (staging_of key) reason))).
  { intros reason. by apply keeps_rejected, (keeps_quarantine key); auto. }
  keep; first [apply Hquar|by apply keeps_rejected; keep|by apply keeps_accept_installed
    |by apply keeps_restore_duplicate|apply keeps_installAccepted; (done || apply Hapart)].
Qed.

Lemma keeps_process_described i media raw sidecar : mine key i ->
  keeps q P (process_described cfg i media raw confirmationPath sidecar).
Proof.
  intros Hi. unfold process_described, process_settled. rewrite (proj1 Hi). fold (staging_of key).
  assert (Hquar : forall staging reason, staging = "" \/ staging = staging_of key ->
    keeps q P (rejected (quarantine cfg i media raw staging reason))).
  { intros staging reason Hs. by apply keeps_rejected, (keeps_quarantine key). }
  keep; first [by apply Hquar; auto|by apply keeps_process_staged
    |apply keeps_copyToStaging; (done || apply Hapart)|apply keeps_rejected; keep].
Qed.
End Process.

(** ** [ProcessReady] and the scan *)
Section Frame.
Context `{Paths} `{Zones} `{Network} `{Floats} `{FilePaths} {laws : PathLaws} {env : Environment} (cfg : Config).

Definition source_name (readyPath : string) : string := trim_suffix (Base readyPath) ReadySuffix.
Definition key_of (readyPath : string) : string := ingest_key cfg (source_name readyPath).
Definition confirmation_path (readyPath : string) : string :=
  path_join [inbox cfg; source_name readyPath] +:+ ConfirmationSuffix.

Section Keeping.
Context (q : string) (P : option node -> Prop) (Hq : quiet q) (Hthere : ~ P None).
#[local] Hint Resolve Hq Hthere keeps_record keeps_terminalUnchanged keeps_readInboxFile keeps_stampFile
  keeps_stampFiles : keeping.

Lemma keeps_ProcessReady readyPath : apart cfg q (key_of readyPath) -> clean (confirmation_path readyPath) <> q ->
  keeps q P (ProcessReady cfg readyPath).
Proof.
  intros Ha Hc. unfold ProcessReady. fold (source_name readyPath). fold (confirmation_path readyPath).
  keep; first [by apply keeps_rejected; keep|apply keeps_rejected|idtac].
  - eapply keeps_process_described; [done..|]. split; [done|]. cbn.
    match goal with E : parseSidecar _ _ = Ok _ |- _ => apply parse_sidecar_inv in E as
      (? & ? & ? & _ & _ & _ & _ & _ & _ & _ & _ & _ & _ & ->) end. apply sha256_digest.
  - case_match; [keep|]. eapply (keeps_quarantine cfg q P Hq Hthere (key_of readyPath)); [done| |by left].
    split; [done|]. apply sha256_digest.
Qed.

Lemma keeps_read_confirmation p : keeps q P (read_confirmation cfg p).
Proof. unfold read_confirmation. keep. Qed.
#[local] Hint Resolve keeps_read_confirmation : keeping.
Lemma keeps_confirmationFileSignature p : keeps q P (confirmationFileSignature cfg p).
Proof. unfold confirmationFileSignature. keep. Qed.
#[local] Hint Resolve keeps_confirmationFileSignature : keeping.
Lemma keeps_confirmationCached p : keeps q P (confirmationCached cfg p).
Proof. unfold confirmationCached. keep. Qed.
Lemma keeps_confirmationValid p : keeps q P (confirmationValid cfg p).
Proof. unfold confirmationValid, now_text. keep. Qed.
Lemma keeps_readySourceSize p : keeps q P (readySourceSize cfg p).
Proof. unfold readySourceSize. keep. Qed.
#[local] Hint Resolve keeps_confirmationCached keeps_confirmationValid keeps_readySourceSize : keeping.
Lemma keeps_list_candidates l : keeps q P (list_candidates cfg l).
Proof. induction l as [|[name dir] l IH]; cbn [list_candidates]; keep. Qed.
Lemma keeps_read_inbox : keeps q P (read_inbox cfg).
Proof. by apply keeps_look. Qed.
#[local] Hint Resolve keeps_list_candidates keeps_read_inbox : keeping.

Context (Hall : forall readyPath, apart cfg q (key_of readyPath) /\ clean (confirmation_path readyPath) <> q).
Lemma keeps_process_candidate c : keeps q P (process_candidate cfg c).
Proof. unfold process_candidate. keep; apply keeps_ProcessReady; apply Hall. Qed.
#[local] Hint Resolve keeps_process_candidate : keeping.
Lemma keeps_process_selected l : forall s, keeps q P (process_selected cfg l s).
Proof. induction l as [|c l IH]; intros s; cbn [process_selected]; keep. Qed.
#[local] Hint Resolve keeps_process_selected : keeping.
Lemma keeps_ScanOnce m : keeps q P (ScanOnce cfg m).
Proof. unfold ScanOnce, now_text. keep. Qed.
End Keeping.

(** The recorder's own directories are left alone by other processes. *)
Class OwnDirectories := {
  own_staging n : quiet (clean (path_join [stagingRoot cfg; n]));
  own_quarantine n : quiet (clean (path_join [quarantineRoot cfg; n]));
  own_accepted n : quiet (clean (path_join [acceptedRoot cfg; n])) }.

Lemma plain_long s t : plain_name s = true -> plain_name t = true -> (3 <= String.length t)%nat -> long_name (s +:+ t).
Proof. intros Hs Ht Hl. split; [by rewrite plain_name_app, Hs|]. rewrite string_length_app. lia. Qed.

(** The last character of the clean form of a path in a directory. *)
Lemma last_of_join d s t : plain_name s = true -> plain_name t = true -> (3 <= String.length t)%nat ->
  last_char (clean (path_join [d; s +:+ t])) = last_char t.
Proof.
  intros Hs Ht Hl. rewrite join_clean. destruct (join_suffix d (s +:+ t) (plain_long s t Hs Ht Hl)) as [pre ->].
  rewrite <- sappend_assoc. apply last_char_app. intros ->. simpl in Hl. lia.
Qed.

Lemma separator_last pre a : last_char (pre +:+ path_separator) = Some a -> a <> "-"%char.
Proof.
  destruct separator_slash as [->| ->]; rewrite last_char_app by done; by intros [= <-].
Qed.

Lemma key_digest readyPath : is_digest (key_of readyPath).
Proof. apply sha256_digest. Qed.

Lemma staging_end readyPath : last_char (clean (staging_of cfg (key_of readyPath))) = Some "l"%char.
Proof. apply (last_of_join _ _ ".partial"); [apply key_digest|done|cbn; lia]. Qed.
Lemma base_plain readyPath i : mine (key_of readyPath) i -> plain_name (quarantine_base i) = true.
Proof.
  intros [Hi [Fd _]]. unfold quarantine_base. rewrite !plain_name_app, Fd, Hi.
  by destruct (key_digest readyPath) as [-> _].
Qed.
Lemma quarantined_end readyPath i ext : mine (key_of readyPath) i -> ext ∈ quarantine_extensions ->
  last_char (clean (quarantined cfg i ext)) = last_char ext.
Proof.
  intros Hi Hext. apply base_plain in Hi. unfold quarantine_extensions in Hext.
  repeat rewrite elem_of_cons in Hext. rewrite elem_of_nil in Hext.
  destruct Hext as [->|[->|[->|[->|[]]]]]; apply last_of_join; done || (cbn; lia).
Qed.
Lemma confirmation_end readyPath : last_char (clean (confirmation_path readyPath)) = Some "n"%char.
Proof.
  destruct (clean_suffix (path_join [inbox cfg; source_name readyPath]) ConfirmationSuffix) as [pre Ep];
    [split; [done|cbn; lia]|].
  unfold confirmation_path. rewrite Ep. by apply last_char_app.
Qed.

(** A file that ends like none of the written ones. *)
Lemma apart_by_end `{own : OwnDirectories} q a readyPath : last_char q = Some a -> a ∉ ["l"; "n"; "a"]%char ->
  apart cfg q (key_of readyPath) /\ clean (confirmation_path readyPath) <> q.
Proof.
  intros Hq Ha. rewrite !not_elem_of_cons in Ha. destruct Ha as (N1 & N2 & N3 & _).
  split; [split; [split|]|].
  - intros E. rewrite <- E, staging_end in Hq. congruence.
  - apply own_staging.
  - intros i ext Hi Hext. split; [|apply own_quarantine]. intros E.
    pose proof (quarantined_end _ _ _ Hi Hext) as He. rewrite E, Hq in He.
    unfold quarantine_extensions in Hext. repeat rewrite elem_of_cons in Hext. rewrite elem_of_nil in Hext.
    destruct Hext as [->|[->|[->|[->|[]]]]]; vm_compute in He; congruence.
  - intros E. rewrite <- E, confirmation_end in Hq. congruence.
Qed.

(** An accepted file is no file of a quarantine: before its digest stands a
    separator, before the fingerprint a dash. *)
Lemma accepted_not_quarantined digest readyPath i : is_digest digest -> mine (key_of readyPath) i ->
  clean (quarantined cfg i ".media") <> clean (accepted_path cfg digest).
Proof.
  intros [Hd Hl] Hi E. pose proof (base_plain _ _ Hi) as Hb. destruct Hi as [_ [_ Fl]].
  unfold quarantined, accepted_path, quarantineRoot, acceptedRoot in E. rewrite !join_clean in E.
  destruct (join_child (storageRoot cfg) "quarantine" (quarantine_base i +:+ ".media")) as [p1 E1];
    [split; [done|cbn; lia]|by apply plain_long; [| |cbn; lia]|].
  destruct (join_child (storageRoot cfg) "accepted" (digest +:+ ".media")) as [p2 E2];
    [split; [done|cbn; lia]|by apply plain_long; [| |cbn; lia]|].
  rewrite E1, E2 in E. unfold quarantine_base in E. rewrite <- !sappend_assoc in E.
  apply app_same_length in E as [E _]; [|done]. apply app_same_length in E as [E _]; [|congruence].
  symmetry in E. apply (separator_last p2 "-"%char); [|done]. rewrite E. by apply last_char_app.
Qed.

Lemma accepted_apart `{own : OwnDirectories} digest readyPath : is_digest digest ->
  apart cfg (clean (accepted_path cfg digest)) (key_of readyPath) /\
  clean (confirmation_path readyPath) <> clean (accepted_path cfg digest).
Proof.
  intros Hd. assert (Hlast : last_char (clean (accepted_path cfg digest)) = Some "a"%char)
    by (apply (last_of_join _ _ ".media"); [apply Hd|done|cbn; lia]).
  split; [split; [split|]|].
  - intros E. rewrite <- E, staging_end in Hlast. done.
  - apply own_staging.
  - intros i ext Hi Hext. split; [|apply own_quarantine]. intros E.
    pose proof (quarantined_end _ _ _ Hi Hext) as He. rewrite E, Hlast in He.
    unfold quarantine_extensions in Hext. repeat rewrite elem_of_cons in Hext. rewrite elem_of_nil in Hext.
    destruct Hext as [->|[->|[->|[->|[]]]]]; [by apply (accepted_not_quarantined digest readyPath i)|by vm_compute in He..].
  - intros E. rewrite <- E, confirmation_end in Hlast. done.
Qed.

(** C11: whatever happens while a ready file is processed - a failing call, a closed
    gate, a conflict, a crash of the probe - the files it may have written are the
    staging copy of its key, its files in quarantine, its confirmation, and an
    accepted file that was missing: any other file that was there, the source
    and its sidecar among them, is there unchanged. *)
Theorem ProcessReady_frame readyPath q x w (Hq : quiet q) (Ha : apart cfg q (key_of readyPath))
    (Hc : clean (confirmation_path readyPath) <> q) (Hx : w_files w !! q = Some x) :
  w_files (snd (ProcessReady cfg readyPath w)) !! q = Some x.
Proof. exact (eq_sym (keeps_ProcessReady q (eq (Some x)) Hq ltac:(done) readyPath Ha Hc w (eq_sym Hx))). Qed.

(** A scan of the inbox, whatever it meets, leaves every accepted file that was
    there as it was. *)
Theorem ScanOnce_keeps_accepted `{own : OwnDirectories} m digest x w (Hd : is_digest digest)
    (Hx : w_files w !! clean (accepted_path cfg digest) = Some x) :
  w_files (snd (ScanOnce cfg m w)) !! clean (accepted_path cfg digest) = Some x.
Proof.
  symmetry. apply (keeps_ScanOnce _ (eq (Some x)) (own_accepted _) ltac:(done)); [|done].
  intros readyPath. by apply accepted_apart.
Qed.
End Frame.

(** ** A calm environment and a small inbox *)
#[export] Instance calm : Environment := {|
  others _ fs := fs; io_fault _ := false; short_write _ := 0%nat; short_read n := 1 + Z.of_nat n; media_gate _ := None; core_gate _ := None;
  clock n := 63844848000 * second + Z.of_nat n; canceled _ := false;
  ffprobe_version _ := Ok SupportedFFprobeVersion;
  ffprobe _ _ := Ok (MkProbeInfo 30500 "h264" "mov,mp4" "video");
  temporary n := digits_pad 10 (Z.of_nat n); file_identity _ _ := Ok ("id", 0) |}.
Definition sample_config : Config :=
  with_MediaIngest defaultConfig (MkMediaIngest true "/inbox" "1s" "1s" 64 "10m" 4096 10 "" "30s").
#[export] Instance calm_own : OwnDirectories sample_config.
Proof. split; by intros n k fs. Qed.

Definition sample_directories : files :=
  list_to_map (map (fun p => (p, Directory 0 0))
    ["/inbox"; "data"; "data/media"; "data/media/staging"; "data/media/accepted"; "data/media/quarantine"]).
Definition sample_inbox : files :=
  <["/inbox/a.mp4" := Regular sample_bytes 7]> (<["/inbox/a.mp4.ready" := Regular "" 8]>
    (<["/inbox/a.mp4.sidecar.json" := Regular sample_sidecar 9]> sample_directories)).
Definition sample_world : world := World sample_inbox empty_database [] 0.
(** The same with an accepted file that was damaged, so that nothing is accepted. *)
Definition damaged_world : world :=
  World (<[clean (accepted_path sample_config (sha256_hex sample_bytes)) := Regular "other" 5]> sample_inbox)
    empty_database [] 0.
Definition ready_module : module_state := ModuleState ModuleHealthy "" true "" "" 0 0.

Lemma ProcessReady_frame_witness :
  fst (ProcessReady sample_config "/inbox/a.mp4.ready" sample_world) = Ok true /\
  w_files (snd (ProcessReady sample_config "/inbox/a.mp4.ready" sample_world)) !! "/inbox/a.mp4"
  = Some (Regular sample_bytes 7).
Proof.
  split; [vm_compute; reflexivity|].
  destruct (apart_by_end sample_config "/inbox/a.mp4" "4"%char "/inbox/a.mp4.ready") as [Ha Hc].
  - reflexivity.
  - apply (bool_decide_eq_true_1 _). vm_compute. reflexivity.
  - apply ProcessReady_frame; [by intros n fs|exact Ha|exact Hc|vm_compute; reflexivity].
Defined.

Lemma ScanOnce_keeps_accepted_witness :
  w_files (snd (ScanOnce sample_config ready_module damaged_world))
    !! clean (accepted_path sample_config (sha256_hex sample_bytes)) = Some (Regular "other" 5).
Proof.
  refine (ScanOnce_keeps_accepted sample_config _ _ _ _ (sha256_digest _) _). vm_compute. reflexivity.
Defined.
