(* ===== verification/MediaAccept.v ===== *)
(** * What an accepted file is

    When [ProcessReady] reports a file as accepted, the store has its segment, the
    managed file holds the bytes the sidecar announced, and the confirmation beside
    the source describes both.  The copies on the way end, and hold no more than
    the configured size. *)

From Stdlib Require Import ZArith Lia String Ascii.
From S2P Require Import Prelude GoStrings GoTime GoJson Sha256 Sql Schema Platform Config MediaStore Sidecar MediaScan MediaFiles MediaIngest PathFacts MediaFrame.
Open Scope string_scope.
Open Scope list_scope.
Open Scope Z_scope.
Open Scope io_scope.

(** ** Taking runs apart *)
Lemma fbind_inv {A B} (m : F A) (k : A -> F B) b w w' : fbind m k w = (Ok b, w') ->
  exists a w1, m w = (Ok a, w1) /\ k a w1 = (Ok b, w').
Proof. unfold fbind. destruct (m w) as [[a|e] w1]; [by eauto|done]. Qed.
Lemma fret_inv {A} (a b : A) w w' : fret a w = (Ok b, w') -> b = a /\ w' = w.
Proof. by intros [= -> ->]. Qed.
Lemma attempt_inv {A} (m : F A) r w w' : attempt m w = (Ok r, w') -> m w = (r, w').
Proof. unfold attempt. destruct (m w). by intros [= -> ->]. Qed.
Lemma or_fail_inv {A} (m : F A) code text a w w' : or_fail m code text w = (Ok a, w') -> m w = (Ok a, w').
Proof. unfold or_fail, fbind, attempt. destruct (m w) as [[b|e] w1]; [by intros [= -> ->]|done]. Qed.
Lemma fguard_inv {A} (b : bool) (e : media_error) (k : F A) a w w' :
  (if b then k else ffail e) w = (Ok a, w') -> b = true /\ k w = (Ok a, w').
Proof. by destruct b. Qed.
Lemma flift_inv {A} (r : result media_error A) a w w' : flift r w = (Ok a, w') -> r = Ok a /\ w' = w.
Proof. destruct r; by intros [= -> ->]. Qed.
Lemma store_inv {A} (m : M database A) a w w' : store m w = (Ok a, w') ->
  m (w_db w) (w_oracle w) = (Ok a, w_db w', w_oracle w') /\ w_files w' = w_files w.
Proof.
  unfold store. destruct (m (w_db w) (w_oracle w)) as [[[x|e] d] o]; [|done]. by intros [= <- <-].
Qed.
Lemma stored_inv {A} (m : M database A) a w w' : stored m w = (Ok a, w') ->
  m (w_db w) (w_oracle w) = (Ok a, w_db w', w_oracle w') /\ w_files w' = w_files w.
Proof.
  unfold stored. intros H. apply fbind_inv in H as (r & w1 & H1 & H2). apply attempt_inv in H1.
  destruct r as [x|e]; [|done]. apply fret_inv in H2 as [-> ->]. by apply store_inv.
Qed.

Ltac inv_f H :=
  cbv beta zeta in H;
  lazymatch type of H with
  | fbind _ _ _ = (Ok _, _) =>
    let a := fresh "a" in let v := fresh "v" in let Hm := fresh "Hm" in
    apply fbind_inv in H; destruct H as (a & v & Hm & H); inv_f H
  | fret _ _ = (Ok _, _) => apply fret_inv in H; destruct H as [? ?]; try subst
  | ffail _ _ = (Ok _, _) => discriminate H
  | (if _ then _ else ffail _) _ = (Ok _, _) =>
    let Hg := fresh "Hg" in apply fguard_inv in H; destruct H as [Hg H]; inv_f H
  | _ => idtac
  end.

(** ** Operations that do not touch the store *)
Definition keeps_db {A} (m : F A) : Prop := forall w, w_db (snd (m w)) = w_db w.
Section Database.
Lemma keeps_db_bind {A B} (m : F A) (k : A -> F B) : keeps_db m -> (forall a, keeps_db (k a)) -> keeps_db (fbind m k).
Proof.
  intros Hm Hk w. unfold fbind. specialize (Hm w). destruct (m w) as [[a|e] w1]; cbn in *; [|done].
  by rewrite Hk.
Qed.
Lemma keeps_db_attempt {A} (m : F A) : keeps_db m -> keeps_db (attempt m).
Proof. intros Hm w. specialize (Hm w). unfold attempt. by destruct (m w). Qed.
Lemma keeps_db_ignore {A} (m : F A) : keeps_db m -> keeps_db (ignore m).
Proof. intros Hm w. specialize (Hm w). unfold ignore. by destruct (m w). Qed.
Lemma keeps_db_or_fail {A} (m : F A) code text : keeps_db m -> keeps_db (or_fail m code text).
Proof. intros Hm. apply keeps_db_bind; [by apply keeps_db_attempt|]. by intros [a|e] w. Qed.
Lemma keeps_db_flift {A} (r : result media_error A) : keeps_db (flift r).
Proof. by destruct r. Qed.
Context {env : Environment}.
Lemma keeps_db_call_with {A} broken (f : nat -> files -> result media_error A * files) : keeps_db (call_with broken f).
Proof. intros w. unfold call_with. by destruct (if io_fault _ then _ else _). Qed.
Lemma keeps_db_call {A} (f : nat -> files -> result media_error A * files) : keeps_db (call f).
Proof. apply keeps_db_call_with. Qed.
End Database.

Create HintDb keeping_db.
Ltac keep_db :=
  repeat (cbv beta zeta;
  lazymatch goal with
  | |- keeps_db (fbind _ _) => apply keeps_db_bind; [|intros ?]
  | |- keeps_db (fret _) => by intros ?
  | |- keeps_db (ffail _) => by intros ?
  | |- keeps_db (ask _) => by intros ?
  | |- keeps_db (flift _) => apply keeps_db_flift
  | |- keeps_db (attempt _) => apply keeps_db_attempt
  | |- keeps_db (ignore _) => apply keeps_db_ignore
  | |- keeps_db (or_fail _ _ _) => apply keeps_db_or_fail
  | |- keeps_db (call _) => apply keeps_db_call
  | |- keeps_db (call_with _ _) => apply keeps_db_call_with
  | |- keeps_db (match ?x with _ => _ end) => destruct x
  | |- keeps_db _ => solve [auto with keeping_db]
  end).

(** ** Reading a file whole *)
Lemma take_bytes_all n s : slen (take_bytes n s) < n -> take_bytes n s = s.
Proof.
  revert n. induction s as [|a s IH]; intros n; [done|]. cbn [take_bytes].
  destruct (Z.ltb_spec 0 n); cbn [slen]; [|lia]. intros Hn. f_equal. apply IH. lia.
Qed.

(** The node holds a file of the size and the digest. *)
Definition holds (size : Z) (digest : string) (x : option node) : Prop :=
  exists c m, x = Some (Regular c m) /\ slen c = size /\ sha256_hex c = digest.
Lemma holds_there size digest : ~ holds size digest None.
Proof. by intros (c & m & ? & _). Qed.

(** ** Steps only go up *)
Definition advances {A} (m : F A) : Prop := forall w, (w_step w <= w_step (snd (m w)))%nat.
Section Advances.
Lemma advances_bind {A B} (m : F A) (k : A -> F B) : advances m -> (forall a, advances (k a)) -> advances (fbind m k).
Proof.
  intros Hm Hk w. unfold fbind. specialize (Hm w). destruct (m w) as [[a|e] w1]; cbn in *; [|done].
  etransitivity; [exact Hm|apply Hk].
Qed.
Lemma advances_ret {A} (a : A) : advances (fret a).
Proof. by intros w. Qed.
Lemma advances_fail {A} e : advances (@ffail A e).
Proof. by intros w. Qed.
Lemma advances_lift {A} (r : result media_error A) : advances (flift r).
Proof. by destruct r; intros w. Qed.
Lemma advances_attempt {A} (m : F A) : advances m -> advances (attempt m).
Proof. intros Hm w. specialize (Hm w). unfold attempt. by destruct (m w). Qed.
Lemma advances_ignore {A} (m : F A) : advances m -> advances (ignore m).
Proof. intros Hm w. specialize (Hm w). unfold ignore. by destruct (m w). Qed.
Lemma advances_or_fail {A} (m : F A) code text : advances m -> advances (or_fail m code text).
Proof.
  intros Hm. apply advances_bind; [by apply advances_attempt|]. intros [a|e]; [apply advances_ret|apply advances_fail].
Qed.
Lemma advances_ask {A} (f : nat -> A) : advances (ask f).
Proof. intros w. cbn. lia. Qed.
Lemma advances_store {A} (m : M database A) : advances (store m).
Proof. intros w. unfold store. by destruct (m (w_db w) (w_oracle w)) as [[? ?] ?]. Qed.
Context {env : Environment}.
Lemma advances_call_with {A} broken (f : nat -> files -> result media_error A * files) : advances (call_with broken f).
Proof. intros w. unfold call_with. destruct (if io_fault _ then _ else _). cbn. lia. Qed.
Lemma advances_run {A} (m : F A) w r w' : advances m -> m w = (r, w') -> (w_step w <= w_step w')%nat.
Proof. intros Hm E. specialize (Hm w). by rewrite E in Hm. Qed.
End Advances.

Create HintDb advancing.
Ltac advance_step :=
  lazymatch goal with
  | |- advances (fbind _ _) => apply advances_bind; [|intros ?]
  | |- advances (fret _) => apply advances_ret
  | |- advances (ffail _) => apply advances_fail
  | |- advances (flift _) => apply advances_lift
  | |- advances (ask _) => apply advances_ask
  | |- advances (attempt _) => apply advances_attempt
  | |- advances (ignore _) => apply advances_ignore
  | |- advances (or_fail _ _ _) => apply advances_or_fail
  | |- advances (store _) => apply advances_store
  | |- advances (call _) => apply advances_call_with
  | |- advances (call_with _ _) => apply advances_call_with
  | |- advances (match ?x with _ => _ end) => destruct x
  | |- advances ?m => first [solve [auto with advancing nocore] | recall_head m]
  end.
Ltac advance := repeat (cbv beta zeta; advance_step).

Section Advancing.
Context `{Paths} `{Zones} `{Network} `{Floats} `{FilePaths} {env : Environment} (cfg : Config).
Lemma advances_check_components l : forall cursor, advances (check_components cursor l).
Proof. induction l as [|x l IH]; intros cursor; cbn [check_components]; advance. Qed.
Lemma advances_copy_chunks fuel : forall source target copied, advances (copy_chunks cfg fuel source target copied).
Proof. induction fuel as [|n IH]; intros; cbn [copy_chunks]; advance. Qed.
Lemma advances_copy_limited fuel : forall source target copied, advances (copy_limited cfg fuel source target copied).
Proof. induction fuel as [|n IH]; intros; cbn [copy_limited]; advance. Qed.
Lemma advances_stampFiles l : advances (stampFiles l).
Proof. induction l as [|x l IH]; cbn [stampFiles]; advance. Qed.
#[local] Hint Resolve advances_check_components advances_copy_chunks advances_copy_limited advances_stampFiles : advancing.
Lemma advances_ensureSafePath root p b : advances (ensureSafePath root p b).
Proof. advance. Qed.
Lemma advances_verifyManagedFile p n h : advances (verifyManagedFile cfg p n h).
Proof. advance. Qed.
Lemma advances_writeAtomicFile p c : advances (writeAtomicFile p c).
Proof. advance. Qed.
Lemma advances_record i status code temporary id : advances (record i status code temporary id).
Proof. advance. Qed.
#[local] Hint Resolve advances_ensureSafePath advances_verifyManagedFile advances_writeAtomicFile advances_record : advancing.
Lemma advances_abandon {A} i code temporary e : advances (abandon (A := A) i code temporary e).
Proof. advance. Qed.
#[local] Hint Resolve @advances_abandon : advancing.
Lemma advances_quarantine i p raw staging code : advances (quarantine cfg i p raw staging code).
Proof. advance. Qed.
#[local] Hint Resolve advances_quarantine : advancing.
Lemma advances_accept_installed i a b c s p r id : advances (accept_installed cfg i a b c s p r id).
Proof. advance. Qed.
Lemma advances_restore_duplicate i p c s : advances (restore_duplicate cfg i p c s).
Proof. advance. Qed.
Lemma advances_installAccepted a b n h : advances (installAccepted cfg a b n h).
Proof. advance. Qed.
Lemma advances_copyToStaging a b : advances (copyToStaging cfg a b).
Proof. advance. Qed.
Lemma advances_readInboxFile p n : advances (readInboxFile cfg p n).
Proof. advance. Qed.
Lemma advances_terminalUnchanged i p : advances (terminalUnchanged cfg i p).
Proof. advance. Qed.
Lemma advances_stableSourceStat p : advances (stableSourceStat cfg p).
Proof. advance. Qed.
Lemma advances_ensureMediaAllowed : advances ensureMediaAllowed.
Proof. advance. Qed.
End Advancing.
#[export] Hint Resolve advances_ensureSafePath advances_record advances_quarantine advances_accept_installed
  advances_restore_duplicate advances_installAccepted advances_copyToStaging advances_readInboxFile
  advances_terminalUnchanged advances_stableSourceStat advances_ensureMediaAllowed : advancing.

Section Accept.
Context `{Paths} `{Zones} `{Network} `{Floats} `{FilePaths} {laws : PathLaws} {env : Environment} (cfg : Config).

Lemma regular_not_moved p x w A (m : F A) r w' : quiet (clean p) -> keeps (clean p) (eq x) m -> m w = (r, w') ->
  w_files w !! clean p = x -> w_files w' !! clean p = x.
Proof. intros Hq Hk E Hx. specialize (Hk w (eq_sym Hx)). rewrite E in Hk. by symmetry. Qed.

Lemma managed_regular root p w w' : ensureManagedPath root p true w = (Ok tt, w') ->
  exists c m, w_files w' !! clean p = Some (Regular c m).
Proof.
  unfold ensureManagedPath. intros Hr. destruct (path_rel _ _); [|done]. inv_f Hr.
  apply attempt_inv in Hm0. destruct a0 as [x|e]; [|done]. apply fguard_inv in Hr as [Hg' Hr]. inv_f Hr.
  apply Lstat_Ok in Hm0. rewrite clean_idem in Hm0. rewrite Hm0. destruct x; try done. by eexists _, _.
Qed.

Lemma opened_regular p c m w h w' : quiet (clean p) -> w_files w !! clean p = Some (Regular c m) ->
  Open p w = (Ok h, w') -> h = clean p /\ w_files w' !! clean p = Some (Regular c m).
Proof.
  intros Hq Hc Hm. unfold Open, call, call_with in Hm. destruct (io_fault _); [done|].
  assert (Hres : resolve link_limit (others (w_step w) (w_files w)) p = Some (clean p)).
  { unfold link_limit. cbn [resolve]. unfold node_at. by rewrite Hq, Hc. }
  rewrite Hres, Hq, Hc in Hm. injection Hm as <- <-. cbn. by rewrite Hq.
Qed.
Lemma limited_regular q limit c m w r w' : quiet q -> w_files w !! q = Some (Regular c m) ->
  ReadLimited q (limit + 1) w = (Ok r, w') -> slen r <= limit -> r = c /\ w_files w' !! q = Some (Regular c m).
Proof.
  intros Hq Hc Hm Hl. unfold ReadLimited, call, call_with in Hm. destruct (io_fault _); [done|].
  rewrite Hq, Hc in Hm. injection Hm as <- <-. rewrite take_bytes_all by lia. cbn. by rewrite Hq.
Qed.

Lemma safe_regular root p w w' : ensureSafePath root p true w = (Ok tt, w') ->
  exists c m, w_files w' !! clean p = Some (Regular c m).
Proof.
  unfold ensureSafePath. intros Hr. destruct (path_rel _ _); [|done]. inv_f Hr.
  destruct a as [[|]|]; try done. inv_f Hr. destruct a as [[|]|e]; [done| |by destruct (is_not_exist e)].
  inv_f Hr. apply Lstat_Ok in Hm1. rewrite clean_idem in Hm1. rewrite Hm1. destruct a; try done. by eexists _, _.
Qed.

(** What is read from the inbox is the file that was there. *)
Lemma inbox_file p limit w raw w' : quiet (clean p) -> readInboxFile cfg p limit w = (Ok raw, w') ->
  exists m, w_files w !! clean p = Some (Regular raw m).
Proof.
  intros Hq Hr. unfold readInboxFile in Hr. inv_f Hr. destruct a. apply or_fail_inv in Hm1.
  destruct (safe_regular _ _ _ _ Hm) as (c & m & Hc).
  assert (Hw : w_files w !! clean p = Some (Regular c m)).
  { rewrite <- Hc. symmetry. apply (regular_not_moved p _ w _ _ _ _ Hq (keeps_ensureSafePath _ _ Hq _ _ _) Hm eq_refl). }
  apply (opened_regular p c m) in Hm0 as [-> Hc0]; [|done..]. apply Z.leb_le in Hg.
  apply (limited_regular _ _ c m) in Hm1 as [-> _]; [|done..]. by exists m.
Qed.

Lemma hashed_file p limit c m w r w' : quiet (clean p) -> w_files w !! clean p = Some (Regular c m) ->
  hashFile p limit w = (Ok r, w') -> r = copied_of c /\ w_files w' !! clean p = Some (Regular c m) /\ slen c <= limit.
Proof.
  intros Hq Hc Hr. unfold hashFile in Hr. inv_f Hr. apply or_fail_inv in Hm, Hm0.
  apply (opened_regular p c m) in Hm as [-> E1]; [|done..]. apply Z.leb_le in Hg.
  apply (limited_regular _ _ c m) in Hm0 as [-> E0]; [|done..]. done.
Qed.

Lemma verified_file p size digest w w' : quiet (clean p) -> verifyManagedFile cfg p size digest w = (Ok tt, w') ->
  holds size digest (w_files w' !! clean p).
Proof.
  intros Hq Hr. unfold verifyManagedFile in Hr. inv_f Hr. destruct a.
  apply managed_regular in Hm as (c & m & Hc). apply (hashed_file p _ c m) in Hm0 as (-> & Hc' & _); [|done..].
  to_prop. cbn in *. exists c, m. done.
Qed.

Lemma staged_file source staging w r w' : quiet (clean staging) -> copyToStaging cfg source staging w = (Ok r, w') ->
  holds (cf_size r) (cf_sha256 r) (w_files w' !! clean staging).
Proof.
  intros Hq Hr. unfold copyToStaging in Hr. inv_f Hr.
  match goal with E : or_fail (verifyManagedFile _ _ _ _) _ _ _ = (Ok ?u, _) |- _ =>
    destruct u; apply or_fail_inv, verified_file in E; done end.
Qed.

(** *** Installing *)
Lemma keeps_run q P {A} (m : F A) w r w' : keeps q P m -> m w = (r, w') -> P (w_files w !! q) -> P (w_files w' !! q).
Proof. intros Hk E Hw. specialize (Hk w Hw). by rewrite E in Hk. Qed.

Lemma Rename_Ok a b x w w' : quiet (clean a) -> w_files w !! clean a = Some x -> Rename a b w = (Ok tt, w') ->
  w_files w' !! clean b = Some x.
Proof.
  intros Hq Hx. unfold Rename, call, call_with. destruct (io_fault _); [done|]. unfold node_at. rewrite Hq, Hx.
  intros [= <-]. cbn. unfold put. by rewrite lookup_insert_eq.
Qed.

Lemma installed_file staging accepted size digest w w' : quiet (clean staging) -> quiet (clean accepted) ->
  clean staging <> clean accepted -> holds size digest (w_files w !! clean staging) ->
  installAccepted cfg staging accepted size digest w = (Ok tt, w') -> holds size digest (w_files w' !! clean accepted).
Proof.
  intros Qs Qa Hne Hs Hr. unfold installAccepted in Hr. inv_f Hr. apply attempt_inv in Hm2.
  assert (Hs2 : holds size digest (w_files v2 !! clean staging)).
  { eapply keeps_run; [|exact Hm2|]; [by apply keeps_Lstat|].
    eapply keeps_run; [|exact Hm1|]; [by apply keeps_ensureManagedFileTarget|].
    eapply keeps_run; [|exact Hm0|]; [by apply keeps_ensureManagedFileTarget|].
    by eapply keeps_run; [|exact Hm|]; [apply keeps_ensureMediaAllowed|]. }
  destruct a2 as [x|e].
  - inv_f Hr. destruct a2. apply verified_file in Hm3; [|done].
    by eapply keeps_run; [|exact Hr|exact Hm3]; apply keeps_remove_if_present.
  - inv_f Hr. apply or_fail_inv in Hm4. destruct a3.
    assert (Hs3 : holds size digest (w_files v3 !! clean staging))
      by (eapply keeps_run; [|exact Hm3|exact Hs2]; apply keeps_ensureMediaAllowed).
    destruct Hs3 as (c & m & Ec & Hc). apply (Rename_Ok _ _ _ _ _ Qs Ec) in Hm4.
    eapply keeps_run; [|exact Hr|]; [apply keeps_or_fail; by apply keeps_Flush|].
    eapply keeps_run; [|exact Hm5|]; [apply keeps_or_fail; by apply keeps_Open|]. by exists c, m.
Qed.

Lemma keeps_db_target root p : keeps_db (ensureManagedFileTarget root p).
Proof. unfold ensureManagedFileTarget, isReparsePoint, Lstat. keep_db. Qed.
Lemma keeps_db_components l : forall cursor, keeps_db (check_components cursor l).
Proof.
  induction l as [|c l IH]; intros cursor; cbn [check_components]; unfold isReparsePoint, Lstat; keep_db.
Qed.
#[local] Hint Resolve keeps_db_target keeps_db_components : keeping_db.
Lemma keeps_db_verify p size digest : keeps_db (verifyManagedFile cfg p size digest).
Proof. unfold verifyManagedFile, ensureManagedPath, hashFile, Lstat, Open, ReadLimited. keep_db. Qed.
#[local] Hint Resolve keeps_db_verify : keeping_db.
Lemma keeps_db_Lstat p : keeps_db (Lstat p).
Proof. unfold Lstat. keep_db. Qed.
Lemma keeps_db_Remove p : keeps_db (Remove p).
Proof. unfold Remove. keep_db. Qed.
Lemma keeps_db_install staging accepted size digest : keeps_db (installAccepted cfg staging accepted size digest).
Proof.
  unfold installAccepted, remove_if_present, ensureMediaAllowed, Lstat, Rename, Open, Flush, Remove. keep_db.
Qed.

Lemma restored_file i staging claim sidecar w w' :
  let s := ps_Sidecar sidecar in let existing := managed_path cfg (mc_ManagedRelativePath claim) in
  quiet (clean staging) -> quiet (clean existing) -> clean staging <> clean existing ->
  holds (sc_SizeBytes s) (sc_SHA256 s) (w_files w !! clean staging) ->
  restore_duplicate cfg i staging claim sidecar w = (Ok true, w') ->
  holds (sc_SizeBytes s) (sc_SHA256 s) (w_files w' !! clean existing) /\ w_db w' = w_db w.
Proof.
  intros s existing Qs Qe Hne Hs Hr. unfold restore_duplicate in Hr. fold s existing in Hr.
  apply fbind_inv in Hr as (verified & w1 & Hv & Hr). apply attempt_inv in Hv.
  apply fbind_inv in Hr as (present & w2 & Hp & Hr). destruct present; [|done]. cbn [negb] in Hr.
  assert (Hs1 : holds (sc_SizeBytes s) (sc_SHA256 s) (w_files w1 !! clean staging))
    by (eapply keeps_run; [|exact Hv|exact Hs]; by apply keeps_verifyManagedFile).
  assert (D1 : w_db w1 = w_db w) by (pose proof (keeps_db_verify existing (sc_SizeBytes s) (sc_SHA256 s) w) as D; by rewrite Hv in D).
  assert (X2 : holds (sc_SizeBytes s) (sc_SHA256 s) (w_files w2 !! clean existing) /\ w_db w2 = w_db w1).
  { destruct verified as [[]|e].
    - apply fret_inv in Hp as [_ ->]. split; [by apply verified_file in Hv|done].
    - unfold rejected in Hp. inv_f Hp. apply attempt_inv in Hm. 
      pose proof (keeps_run _ (holds (sc_SizeBytes s) (sc_SHA256 s)) _ _ _ _ (keeps_Lstat _ _ Qs existing) Hm Hs1) as Hs2.
      pose proof (keeps_db_Lstat existing w1) as Dv. rewrite Hm in Dv. cbn in Dv.
      destruct (negb _) in Hp; [by inv_f Hp|]. destruct (negb _) in Hp; [by inv_f Hp|]. inv_f Hp.
      apply attempt_inv in Hm0. destruct a0 as [[]|e']; [|by inv_f Hp]. apply fret_inv in Hp as [_ ->].
      pose proof (keeps_db_install staging existing (sc_SizeBytes s) (sc_SHA256 s) v) as D. rewrite Hm0 in D.
      split; [eapply (installed_file staging existing); done|]. cbn in D. congruence. }
  destruct X2 as [X2 D2]. inv_f Hr. split.
  - eapply keeps_run; [|exact Hm|exact X2]. by apply keeps_ignore, keeps_Remove.
  - pose proof (keeps_db_ignore _ (keeps_db_Remove staging) w2) as D. rewrite Hm in D. cbn in D. congruence.
Qed.

(** *** The confirmation *)

(** The random part of a temporary name is a number. *)
Class Temporaries := { temporary_end n : exists a, last_char (temporary n) = Some a /\ is_digit a = true;
                       temporary_plain n : plain_name (temporary n) = true }.
Definition is_temporary_of (p t : string) : Prop :=
  exists n, t = temporary_path (Dir p) ("." +:+ Base p +:+ ".tmp-") n.

Lemma temporary_last `{tmp : Temporaries} p t : is_temporary_of p t ->
  exists a, last_char (clean t) = Some a /\ is_digit a = true.
Proof.
  intros [n ->]. destruct (temporary_end n) as (a & Ha & Hd). exists a. split; [|done].
  assert (Hne : temporary n <> "") by (intros E; by rewrite E in Ha).
  unfold temporary_path.
  destruct (clean_suffix (Dir p +:+ path_separator +:+ "." +:+ Base p) (".tmp-" +:+ temporary n)) as [pre E].
  { split; [by rewrite plain_name_app, temporary_plain|]. rewrite string_length_app. cbn. lia. }
  replace (Dir p +:+ path_separator +:+ ("." +:+ Base p +:+ ".tmp-") +:+ temporary n)
    with ((Dir p +:+ path_separator +:+ "." +:+ Base p) +:+ ".tmp-" +:+ temporary n) by (by rewrite <- !sappend_assoc).
  rewrite E, !last_char_app; [done|done|by destruct (temporary n)].
Qed.

Lemma written_file p contents w w' : quiet (clean p) -> (forall t, is_temporary_of p t -> quiet (clean t) /\ clean t <> clean p) ->
  writeAtomicFile p contents w = (Ok tt, w') -> exists m, w_files w' !! clean p = Some (Regular contents m).
Proof.
  intros Hq Ht Hr. unfold writeAtomicFile in Hr. inv_f Hr.
  assert (Ha : is_temporary_of p a /\ exists m, w_files v !! clean a = Some (Regular "" m)).
  { unfold CreateTemp, call, call_with, node_at, put in Hm. destruct (io_fault _); [done|].
    destruct (_ !! _) in Hm; [done|]. injection Hm as <- <-. split; [by eexists|]. cbn.
    rewrite lookup_insert_eq. by eexists. }
  destruct Ha as [Htmp [m0 Ha]]. destruct (Ht a Htmp) as [Qa Hne]. apply attempt_inv in Hm0.
  destruct a0 as [[]|e]; [|inv_f Hr]. inv_f Hr. unfold write_temporary in Hm0. inv_f Hm0.
  assert (H1w : exists m, w_files v1 !! clean a = Some (Regular "" m))
    by (eapply (keeps_run _ (fun x => exists m, x = Some (Regular "" m))); [by apply keeps_Flush|exact Hm1|by exists m0]).
  assert (H2w : exists m, w_files v2 !! clean a = Some (Regular contents m)).
  { destruct H1w as [m1 E1]. unfold Write, call_with in Hm2. destruct (io_fault _); [done|].
    injection Hm2 as <- <-. cbn. unfold append_to. rewrite Qa, E1, lookup_insert_eq. by eexists. }
  assert (H5w : exists m, w_files v6 !! clean a = Some (Regular contents m)).
  { revert H2w. apply (keeps_run _ (fun x => exists m, x = Some (Regular contents m)) (
      let^ _ := Flush in let^ _ := Flush in let^ info := attempt (Lstat p) in
      match info with
      | Ok x => guard^ IsRegular x else Message "atomic destination is not a regular file" in
                let^ reparse := attempt (isReparsePoint p) in
                match reparse with
                | Ok false => Remove p
                | _ => ffail (Message "atomic destination is a reparse point")
                end
      | Err e => guard^ is_not_exist e else e in fret tt
      end) v2 (Ok a5) v6).
    - keep. apply keeps_Remove; [done|]. done.
    - unfold fbind. by rewrite Hm3, Hm4, Hm5. }
  destruct H5w as [m5 E5]. exists m5. by eapply Rename_Ok.
Qed.

(** *** The store on the way *)
Lemma db_run {A} (m : F A) w r w' : keeps_db m -> m w = (r, w') -> w_db w' = w_db w.
Proof. intros Hk E. specialize (Hk w). by rewrite E in Hk. Qed.

Lemma keeps_db_safe root p b : keeps_db (ensureSafePath root p b).
Proof. unfold ensureSafePath, isReparsePoint, Lstat. keep_db. Qed.
Lemma keeps_db_allowed : keeps_db ensureMediaAllowed.
Proof. unfold ensureMediaAllowed. keep_db. Qed.
Lemma keeps_db_writes : keeps_db ensureCoreWritesAllowed.
Proof. unfold ensureCoreWritesAllowed. keep_db. Qed.
#[local] Hint Resolve keeps_db_safe keeps_db_allowed keeps_db_writes keeps_db_Lstat keeps_db_Remove : keeping_db.
Lemma keeps_db_readInbox p limit : keeps_db (readInboxFile cfg p limit).
Proof. unfold readInboxFile, Open, ReadLimited. keep_db. Qed.
Lemma keeps_db_stat p : keeps_db (stableSourceStat cfg p).
Proof. unfold stableSourceStat. keep_db. Qed.
Lemma keeps_db_stamps l : keeps_db (stampFiles l).
Proof. induction l as [|p l IH]; cbn [stampFiles]; unfold stampFile; keep_db. Qed.
#[local] Hint Resolve keeps_db_stamps : keeping_db.
Lemma keeps_db_signature i p : keeps_db (terminalFileSignature cfg i p).
Proof. unfold terminalFileSignature. keep_db. Qed.
Lemma keeps_db_chunks fuel a b c : keeps_db (copy_chunks cfg fuel a b c).
Proof. revert c. induction fuel as [|f IH]; intros c; cbn [copy_chunks]; unfold ReadAt, Write; keep_db. Qed.
#[local] Hint Resolve keeps_db_chunks : keeping_db.
Lemma keeps_db_copy a b : keeps_db (copyToStaging cfg a b).
Proof. unfold copyToStaging, Open, OpenTruncated, Flush. keep_db. Qed.
Lemma keeps_db_atomic p c : keeps_db (writeAtomicFile p c).
Proof. unfold writeAtomicFile, write_temporary, CreateTemp, Flush, Write, Rename, isReparsePoint. keep_db. Qed.

Lemma makeEvent_db i status code temp id : keeps_db (makeEvent i status code temp id).
Proof. unfold makeEvent, now_text, now. keep_db. Qed.

Lemma record_segments i status code temp id w w' : record i status code temp id w = (Ok tt, w') ->
  media_segments (w_db w') = media_segments (w_db w) /\ w_files w' = w_files w.
Proof.
  unfold record. intros Hr. apply fbind_inv in Hr as (u & w1 & H1r & Hr). apply fbind_inv in Hr as (e & w2 & H2r & Hr).
  pose proof (db_run _ _ _ _ keeps_db_writes H1r) as D1. pose proof (db_run _ _ _ _ (makeEvent_db _ _ _ _ _) H2r) as D2.
  apply stored_inv in Hr as [Hr Hf].
  assert (F1 : w_files w2 = w_files w).
  { unfold ensureCoreWritesAllowed, ask, fbind in H1r. destruct (core_gate _) in H1r; [done|]. injection H1r as _ <-.
    unfold makeEvent, now_text, now, ask, fbind, fret in H2r. by injection H2r as _ <-. }
  split; [|congruence]. rewrite <- D1, <- D2. clear -Hr.
  unfold AppendMediaIngestEvent in Hr. apply mbind_inv in Hr as (id & d1 & o1 & Ht & Ha).
  apply transaction_inv in Ht as (b & q1 & Ht). apply insertMediaIngestEvent_ok in Ht as Hl.
  apply stmt_inv in Ha. destruct (logged_segments _ _ _ _ Hl) as [<- _]. injection Ha as Ha. rewrite <- Ha. by destruct (find_first _ _).
Qed.

Lemma FileCheckMatches_db key kind sig d o b d' o' :
  MediaFileCheckMatches key kind sig d o = (Ok b, d', o') -> d' = d.
Proof. unfold MediaFileCheckMatches. intros Hr. inv_m Hr. by apply query_inv in Hm as [_ ->]. Qed.
Lemma terminal_db i p b w w' : terminalUnchanged cfg i p w = (Ok b, w') -> w_db w' = w_db w.
Proof.
  unfold terminalUnchanged. intros Hr. apply fbind_inv in Hr as (r & w1 & H1r & Hr). apply attempt_inv in H1r.
  apply (db_run _ _ _ _ (keeps_db_signature i p)) in H1r. rewrite <- H1r. destruct r as [s|e]; [|by inv_f Hr].
  apply stored_inv in Hr as [Hr _]. by apply FileCheckMatches_db in Hr.
Qed.

(** *** Where the segments of the store are *)
Definition tidy (d : database) : Prop := forall r, r ∈ media_segments d ->
  is_digest (mm_SHA256 (rval r)) /\ managed_path cfg (mm_ManagedRelativePath (rval r)) = accepted_path cfg (mm_SHA256 (rval r)).

Lemma tidy_same d d' : media_segments d' = media_segments d -> tidy d -> tidy d'.
Proof. intros E Ht r Hr. rewrite E in Hr. by apply Ht. Qed.

(** The claim a duplicate resolves to is that of a segment. *)
Lemma claim_row c k s h d : mc_Status (claim_in c k s h d) = MediaWriteDuplicate ->
  exists r, r ∈ media_segments d /\ rid r = mc_SegmentID (claim_in c k s h d) /\
    mm_ManagedRelativePath (rval r) = mc_ManagedRelativePath (claim_in c k s h d) /\
    mm_SHA256 (rval r) = s /\ mm_MetadataHash (rval r) = h.
Proof.
  unfold claim_in. destruct (source_claim c k d) as [r|] eqn:Es.
  - unfold source_claim in Es. apply find_first_Some in Es as [Hr _]. cbn.
    destruct (String.eqb_spec (mm_SHA256 (rval r)) s), (String.eqb_spec (mm_MetadataHash (rval r)) h);
      cbn; try done. intros _. by exists r.
  - destruct (content_claim s d) as [r|] eqn:Ec; [|done]. unfold content_claim, select1 in Ec.
    apply find_first_Some in Ec as [Hr Hs]. apply String.eqb_eq in Hs. cbn.
    destruct (String.eqb_spec (mm_MetadataHash (rval r)) h); try done. intros _. by exists r.
Qed.

Lemma insert_row_mem {A} (x : A) (t : list (row A)) : Row (next_id t) x ∈ insert_row x t.
Proof. unfold insert_row. apply elem_of_app. right. by left. Qed.

(** The segment of an accepted file and the invariant after it. *)
Lemma segment_stored m event key d o claim d' o' : tidy d -> is_digest (mm_SHA256 m) ->
  managed_path cfg (mm_ManagedRelativePath m) = accepted_path cfg (mm_SHA256 m) ->
  AcceptMedia m event key d o = (Ok claim, d', o') -> mc_Status claim <> MediaWriteConflict ->
  tidy d' /\ exists r, r ∈ media_segments d' /\ rid r = mc_SegmentID claim /\
    mm_SHA256 (rval r) = mm_SHA256 m /\ mm_MetadataHash (rval r) = mm_MetadataHash m.
Proof.
  intros Ht Hd Hp Hr Hc. apply AcceptMedia_inv in Hr as [(_ & E & _)|[Ha _]]; [done|].
  destruct Ha as [(_ & Es & _ & r & Hr & E)|(_ & Eid & Es & _)].
  - split; [by eapply tidy_same|]. exists r. by rewrite Es.
  - split.
    + intros r Hr. rewrite Es in Hr. unfold insert_row in Hr. apply elem_of_app in Hr as [Hr|Hr]; [by apply Ht|].
      apply list_elem_of_singleton in Hr as ->. done.
    + eexists. rewrite Es. split; [apply insert_row_mem|]. by rewrite Eid.
Qed.

(** *** A digest in a sidecar *)
Lemma hex_val_plain a x : hex_val a = Some x -> plain_char a = true.
Proof.
  intros Ha. unfold plain_char. destruct (Ascii.eqb_spec a "/") as [->|]; [by vm_compute in Ha|].
  by destruct (Ascii.eqb_spec a "\") as [->|]; [vm_compute in Ha|].
Qed.
Lemma hex_decodes_plain n s : (String.length s <= n)%nat -> hex_decodes s = true -> plain_name s = true.
Proof.
  revert s. induction n as [|n IH]; intros [|a [|b s]]; cbn [String.length hex_decodes plain_name]; try done; try lia.
  intros Hn Hs. apply andb_true_iff in Hs as [Hab Hs]. apply andb_true_iff in Hab as [Ha Hb].
  apply bool_decide_eq_true_1 in Ha as [x Ha], Hb as [y Hb].
  rewrite (hex_val_plain a x Ha), (hex_val_plain b y Hb). apply IH; [lia|done].
Qed.
Lemma sidecar_digest raw d p : parseSidecar raw d = Ok p -> is_digest (sc_SHA256 (ps_Sidecar p)).
Proof.
  intros (ms & t1 & t2 & _ & _ & _ & Hc & _)%parse_sidecar_inv. destruct Hc. split; [|done].
  by eapply hex_decodes_plain.
Qed.

(** *** What acceptance leaves *)
Definition confirms (sidecar : parsedSidecar) (probe : ProbeInfo) (segmentID : Z) (at_ : string) : string :=
  let s := ps_Sidecar sidecar in
  confirmation_json (MkConfirmation StatusSchemaVersion (sc_CollectorID s) (sc_SourceIdempotencyKey s)
    (ps_Fingerprint sidecar) segmentID (sc_SHA256 s) (metadataHash sidecar probe) at_).

(** The segment is stored, its file is whole and the confirmation names it. *)
Record accepted_as (confirmationPath : string) (sidecar : parsedSidecar) (probe : ProbeInfo) (w : world) : Prop := {
  aa_tidy : tidy (w_db w);
  aa_file : holds (sc_SizeBytes (ps_Sidecar sidecar)) (sc_SHA256 (ps_Sidecar sidecar))
              (w_files w !! clean (accepted_path cfg (sc_SHA256 (ps_Sidecar sidecar))));
  aa_segment : exists r at_ m, r ∈ media_segments (w_db w) /\
    mm_SHA256 (rval r) = sc_SHA256 (ps_Sidecar sidecar) /\ mm_MetadataHash (rval r) = metadataHash sidecar probe /\
    w_files w !! clean confirmationPath = Some (Regular (confirms sidecar probe (rid r) at_) m) }.

Section Run.
Context {own : OwnDirectories cfg} {tmp : Temporaries}.
Context (readyPath : string).
Abbreviation conf := (confirmation_path cfg readyPath).
Context (Hconf : quiet (clean conf)) (Htemp : forall t, is_temporary_of conf t -> quiet (clean t)).

Lemma temporary_not_confirmation t : is_temporary_of conf t -> clean t <> clean conf.
Proof.
  intros (a & Ha & Hd)%temporary_last E. rewrite E, confirmation_end in Ha. by injection Ha as <-.
Qed.

Lemma accept_installed_true i media raw sidecar probe relative id w w' :
  let s := ps_Sidecar sidecar in
  tidy (w_db w) -> is_digest (sc_SHA256 s) -> managed_path cfg relative = accepted_path cfg (sc_SHA256 s) ->
  holds (sc_SizeBytes s) (sc_SHA256 s) (w_files w !! clean (accepted_path cfg (sc_SHA256 s))) ->
  mine (key_of cfg readyPath) i ->
  accept_installed cfg i media raw conf sidecar probe relative id w = (Ok true, w') ->
  accepted_as conf sidecar probe w'.
Proof.
  intros s Ht Hd Hp Hh Hi Hr.
  destruct (accepted_apart cfg (sc_SHA256 s) readyPath Hd) as [Ha Hc].
  assert (Hkeep : holds (sc_SizeBytes s) (sc_SHA256 s) (w_files w' !! clean (accepted_path cfg (sc_SHA256 s)))).
  { exact (keeps_run _ (holds (sc_SizeBytes s) (sc_SHA256 s)) _ _ _ _ (keeps_accept_installed cfg _ _ (own_accepted cfg _)
      (holds_there _ _) (key_of cfg readyPath) conf Ha Hc i media raw sidecar probe relative id Hi) Hr Hh). }
  unfold accept_installed in Hr. fold s in Hr.
  apply fbind_inv in Hr as (at_ & w1 & R1 & Hr). apply fbind_inv in Hr as (e & w2 & R2 & Hr).
  apply fbind_inv in Hr as ([] & w3 & R3 & Hr). apply fbind_inv in Hr as (claim & w4 & R4 & Hr).
  assert (D3 : w_db w3 = w_db w).
  { rewrite (db_run _ _ _ _ keeps_db_writes R3), (db_run _ _ _ _ (makeEvent_db _ _ _ _ _) R2).
    by injection R1 as _ <-. }
  apply stored_inv in R4 as [R4 _]. rewrite D3 in R4.
  destruct (String.eqb_spec (mc_Status claim) MediaWriteConflict) as [|Hne]; [by unfold rejected in Hr; inv_f Hr|].
  apply fbind_inv in Hr as ([] & w5 & R5 & Hr). apply fbind_inv in Hr as ([] & w6 & R6 & Hr).
  apply fret_inv in Hr as [_ ->]. unfold writeConfirmation in R6. apply or_fail_inv in R6.
  assert (D6 : w_db w6 = w_db w4).
  { by rewrite (db_run _ _ _ _ (keeps_db_atomic _ _) R6), (db_run _ _ _ _ keeps_db_allowed R5). }
  apply segment_stored in R4 as (Ht' & r & Hr & Hid & Hsha & Hmeta); [|done..].
  apply written_file in R6 as [m Hm]; [|done|].
  - split; [by rewrite D6|done|]. exists r, at_, m. rewrite D6. split; [done|]. split; [done|]. split; [done|].
    rewrite Hm. by rewrite Hid.
  - intros t Hti. split; [by apply Htemp|by apply temporary_not_confirmation].
Qed.

Lemma accepted_relative digest : is_digest digest ->
  managed_path cfg (relativeManaged cfg (accepted_path cfg digest)) = accepted_path cfg digest.
Proof.
  intros Hd. unfold relativeManaged, managed_path, accepted_path, acceptedRoot.
  destruct (rel_join (storageRoot cfg) "accepted" (digest +:+ ".media")) as (rel & E & Ej);
    [split; [done|cbn; lia]|apply plain_long; [apply Hd|done|cbn; lia]|].
  destruct (String.eqb_spec (path_join [path_join [storageRoot cfg; "accepted"]; digest +:+ ".media"]) "") as [Ee|_].
  - destruct (join_suffix (path_join [storageRoot cfg; "accepted"]) (digest +:+ ".media")) as [pre Ep];
      [apply plain_long; [apply Hd|done|cbn; lia]|].
    rewrite Ee in Ep. apply (f_equal slen) in Ep. rewrite !slen_app in Ep. cbn in Ep.
    pose proof (slen_nonneg pre). pose proof (slen_nonneg digest). lia.
  - by rewrite E.
Qed.

Lemma staging_not_accepted digest : is_digest digest ->
  clean (staging_of cfg (key_of cfg readyPath)) <> clean (accepted_path cfg digest).
Proof. intros Hd. by apply (accepted_apart cfg digest readyPath Hd). Qed.

(** The probe saw a video no longer than the longest segment. *)
Definition probed (sidecar : parsedSidecar) (probe : ProbeInfo) : Prop :=
  pi_MediaType probe = sc_MediaType (ps_Sidecar sidecar) /\
  pi_DurationMS probe <= milliseconds (MediaMaxSegmentDuration cfg).

Lemma rejected_not_true {A} (m : F A) w w' : rejected m w = (Ok true, w') -> False.
Proof. unfold rejected. intros Hr. by inv_f Hr. Qed.

Lemma process_staged_true i media raw sidecar w w' :
  let s := ps_Sidecar sidecar in let staging := staging_of cfg (key_of cfg readyPath) in
  tidy (w_db w) -> is_digest (sc_SHA256 s) -> holds (sc_SizeBytes s) (sc_SHA256 s) (w_files w !! clean staging) ->
  mine (key_of cfg readyPath) i ->
  process_staged cfg i media raw conf staging sidecar w = (Ok true, w') ->
  exists probe n, (w_step w <= n < w_step w')%nat /\ ffprobe n staging = Ok probe /\ probed sidecar probe /\
    accepted_as conf sidecar probe w'.
Proof.
  intros s staging Ht Hd Hs Hi Hr. pose proof (own_staging cfg) as Qs. pose proof (own_accepted cfg) as Qa.
  pose proof (staging_not_accepted (sc_SHA256 s) Hd) as Hne. fold staging in Hne.
  unfold process_staged in Hr. fold s in Hr. apply fbind_inv in Hr as (p & w1 & R1 & Hr).
  assert (E1 : w_files w1 = w_files w /\ w_db w1 = w_db w) by (by injection R1 as _ <-).
  assert (Hstep : ffprobe (w_step w) staging = p /\ w_step w1 = S (w_step w)) by (by injection R1 as <- <-).
  destruct Hstep as [Hprobe Hstep].
  assert (Hafter : (w_step w1 <= w_step w')%nat) by (eapply advances_run; [|exact Hr]; advance).
  destruct p as [probe|e].
  2: { apply fbind_inv in Hr as (d & w2 & _ & Hr). destruct d; [done|].
       destruct (_ || _); [by inv_f Hr|by apply rejected_not_true in Hr]. }
  destruct (String.eqb_spec (pi_MediaType probe) (sc_MediaType s)) as [Hk|]; [|by apply rejected_not_true in Hr].
  cbn [negb] in Hr. destruct (Z.ltb_spec (milliseconds (MediaMaxSegmentDuration cfg)) (pi_DurationMS probe));
    [by apply rejected_not_true in Hr|].
  apply fbind_inv in Hr as ([] & w2 & R2 & Hr). apply record_segments in R2 as [S2 F2].
  apply fbind_inv in Hr as (rc & w3 & R3 & Hr). apply attempt_inv in R3.
  destruct rc as [claim|]; [|by apply rejected_not_true in Hr]. apply store_inv in R3 as [R3 F3].
  apply resolve_claim_in in R3 as [-> D3]. set (claim := claim_in _ _ _ _ _) in Hr.
  assert (Ht3 : tidy (w_db w3)) by (eapply tidy_same; [|exact Ht]; destruct E1 as [_ E1]; congruence).
  assert (Hs3 : holds (sc_SizeBytes s) (sc_SHA256 s) (w_files w3 !! clean staging)).
  { destruct E1 as [E1 _]. by rewrite F3, F2, E1. }
  exists probe, (w_step w). split; [lia|]. split; [exact Hprobe|]. split; [done|].
  destruct (String.eqb_spec (mc_Status claim) MediaWriteConflict); [by apply rejected_not_true in Hr|].
  destruct (String.eqb_spec (mc_Status claim) MediaWriteDuplicate) as [Hdup|].
  - apply fbind_inv in Hr as (present & w4 & R4 & Hr). destruct present; [|done]. cbn [negb] in Hr.
    destruct (claim_row _ _ _ _ _ Hdup) as (r & Hrow & _ & Hpath & Hsha & _). fold claim in Hpath.
    rewrite <- D3 in Hrow. destruct (Ht3 r Hrow) as [_ Hm]. rewrite Hpath, Hsha in Hm.
    apply restored_file in R4 as [H4f D4]; [|apply Qs|rewrite Hm; apply Qa|by rewrite Hm|done].
    rewrite Hm in H4f. eapply accept_installed_true; [by rewrite D4|exact Hd|exact Hm|exact H4f|exact Hi|exact Hr].
  - apply fbind_inv in Hr as (ins & w4 & R4 & Hr). apply attempt_inv in R4.
    destruct ins as [[]|]; [|by apply rejected_not_true in Hr].
    pose proof (db_run _ _ _ _ (keeps_db_install _ _ _ _) R4) as D4.
    apply installed_file in R4; [|apply Qs|apply Qa|done|done].
    eapply accept_installed_true; [by rewrite D4|exact Hd|by apply accepted_relative|exact R4|exact Hi|exact Hr].
Qed.

Lemma process_described_true i media raw sidecar w w' :
  tidy (w_db w) -> is_digest (sc_SHA256 (ps_Sidecar sidecar)) -> mine (key_of cfg readyPath) i ->
  process_described cfg i media raw conf sidecar w = (Ok true, w') ->
  exists probe n, (w_step w <= n < w_step w')%nat /\ ffprobe n (staging_of cfg (key_of cfg readyPath)) = Ok probe /\
    probed sidecar probe /\ accepted_as conf sidecar probe w'.
Proof.
  intros Ht Hd Hi Hr. unfold process_described in Hr. set (s := ps_Sidecar sidecar) in *.
  apply fbind_inv in Hr as (first & w1 & R1 & Hr). apply attempt_inv in R1.
  pose proof (db_run _ _ _ _ (keeps_db_stat _) R1) as D1.
  destruct first as [x|e]; [|by apply rejected_not_true in Hr]. destruct (_ || _); [by apply rejected_not_true in Hr|].
  apply fbind_inv in Hr as (d & w2 & R2 & Hr). apply fguard_inv in Hr as [_ Hr].
  apply fbind_inv in Hr as (second & w3 & R3 & Hr). apply attempt_inv in R3.
  pose proof (db_run _ _ _ _ (keeps_db_stat _) R3) as D3.
  assert (D2 : w_db w2 = w_db w1) by (by injection R2 as _ <-).
  destruct second as [y|e]; [|by apply rejected_not_true in Hr].
  destruct (negb _) in Hr; [by apply rejected_not_true in Hr|].
  destruct (negb _) in Hr; [by apply rejected_not_true in Hr|].
  unfold process_settled in Hr. fold s in Hr. rewrite (proj1 Hi) in Hr. fold (staging_of cfg (key_of cfg readyPath)) in Hr.
  apply fbind_inv in Hr as (copied & w4 & R4 & Hr). apply attempt_inv in R4.
  pose proof (db_run _ _ _ _ (keeps_db_copy _ _) R4) as D4.
  pose proof (advances_run _ _ _ _ (advances_copyToStaging cfg _ _) R4) as A4.
  destruct copied as [c|e]; [|destruct (String.eqb _ _) in Hr; [done|by apply rejected_not_true in Hr]].
  destruct (Z.eqb_spec (cf_size c) (sc_SizeBytes s)) as [Hsize|]; [|by apply rejected_not_true in Hr].
  destruct (String.eqb_spec (cf_sha256 c) (sc_SHA256 s)) as [Hsha|]; [|by apply rejected_not_true in Hr].
  cbn [negb] in Hr. apply staged_file in R4; [|apply (own_staging cfg)]. rewrite Hsize, Hsha in R4.
  destruct (process_staged_true i media raw sidecar w4 w') as (probe & n & Hn & Hp); [by rewrite D4, D3, D2, D1|done..|].
  exists probe, n. split; [|done].
  apply advances_run in R1; [|advance]. apply advances_run in R2; [|advance]. apply advances_run in R3; [|advance]. lia.
Qed.

(** The sidecar of a ready file: beside the media it announces. *)
Definition sidecar_path : string := path_join [inbox cfg; source_name readyPath] +:+ SidecarSuffix.

(** C8: when a ready file is reported as accepted, its own sidecar was valid: the
    text that was read is that of the file at its path, where no other process
    touches that file; a probe of the staged copy during the call saw a media file
    of the announced type no longer than the longest segment; the store has a
    segment with the digest and the metadata of the two; the managed file of that
    segment has exactly the announced size and SHA-256; and the confirmation beside
    the source names the segment.  That every segment of the store names the file
    of its digest is kept. *)
Theorem ProcessReady_accepts w w' (Ht : tidy (w_db w)) (Hr : ProcessReady cfg readyPath w = (Ok true, w')) :
  exists raw sidecar probe n,
    (quiet (clean sidecar_path) -> exists m, w_files w !! clean sidecar_path = Some (Regular raw m)) /\
    parseSidecar raw (MediaMaxSegmentDuration cfg) = Ok sidecar /\
    (w_step w <= n < w_step w')%nat /\ ffprobe n (staging_of cfg (key_of cfg readyPath)) = Ok probe /\
    probed sidecar probe /\ accepted_as conf sidecar probe w'.
Proof.
  unfold ProcessReady in Hr. apply fbind_inv in Hr as ([] & w1 & R1 & Hr).
  apply fbind_inv in Hr as ([] & w2 & R2 & Hr). do 2 (apply fguard_inv in Hr as [_ Hr]).
  fold (source_name readyPath) in Hr. fold (confirmation_path cfg readyPath) in Hr.
  apply fbind_inv in Hr as ([] & w3 & R3 & Hr). apply fbind_inv in Hr as (read & w4 & R4 & Hr).
  apply attempt_inv in R4. destruct read as [raw|]; [|by apply rejected_not_true in Hr].
  apply fbind_inv in Hr as (b & w5 & R5 & Hr). destruct b; [done|].
  destruct (parseSidecar raw _) as [sidecar|] eqn:Ep; [|by apply rejected_not_true in Hr].
  apply fbind_inv in Hr as (b & w6 & R6 & Hr). destruct b; [done|].
  apply process_described_true in Hr as (probe & n & Hn & Hp).
  - exists raw, sidecar, probe, n. split; [|split; [done|split; [|exact Hp]]].
    + intros Hs. apply inbox_file in R4 as [m Em]; [|done]. exists m. fold sidecar_path in Em.
      apply record_segments in R3 as [_ E3]. rewrite <- Em, E3. symmetry.
      rewrite (regular_not_moved _ _ _ _ _ _ _ Hs (keeps_ensureSafePath _ _ Hs _ _ _) R2 eq_refl).
      exact (regular_not_moved _ _ _ _ _ _ _ Hs (keeps_ensureMediaAllowed _ _) R1 eq_refl).
    + apply advances_run in R1; [|advance]. apply advances_run in R2; [|advance]. apply advances_run in R3; [|advance].
      apply advances_run in R4; [|advance]. apply advances_run in R5; [|advance]. apply advances_run in R6; [|advance]. lia.
  - eapply tidy_same; [|exact Ht]. apply record_segments in R3 as [S3 _].
    by rewrite (terminal_db _ _ _ _ _ R6), (terminal_db _ _ _ _ _ R5), (db_run _ _ _ _ (keeps_db_readInbox _ _) R4), S3,
      (db_run _ _ _ _ (keeps_db_safe _ _ _) R2), (db_run _ _ _ _ keeps_db_allowed R1).
  - by eapply sidecar_digest.
  - split; [done|]. cbn. apply parse_sidecar_inv in Ep as (? & ? & ? & _ & _ & _ & _ & _ & _ & _ & _ & _ & _ & ->).
    apply sha256_digest.
Qed.
End Run.
End Accept.

(** ** The cursor of a scan *)
Section Cursor.
Context `{Paths} `{Zones} `{Network} `{Floats} `{FilePaths} {env : Environment} (cfg : Config).

(** The loop leaves the cursor at the last candidate it took up. *)
Lemma process_selected_cursor l : forall s p w w', process_selected cfg l s w = (Ok p, w') ->
  exists taken rest, l = taken ++ rest /\ sp_cursor p = next_scan_cursor (sp_cursor s) taken /\
    (rest = [] \/ exists n, media_gate n <> None).
Proof.
  induction l as [|c l IH]; intros s p w w' Hr; cbn [process_selected] in Hr.
  { apply fret_inv in Hr as [-> _]. exists [], []. auto. }
  apply fbind_inv in Hr as (g & w1 & R1 & Hr). apply attempt_inv in R1. destruct g as [[]|e].
  - apply fbind_inv in Hr as (out & w2 & _ & Hr). apply IH in Hr as (taken & rest & -> & Ep & Hg).
    exists (c :: taken), rest. split; [done|]. split; [|done]. rewrite Ep. unfold next_scan_cursor, after_candidate.
    cbn [sp_cursor]. destruct taken as [|d taken] using rev_ind; [done|]. by rewrite app_comm_cons, !last_snoc.
  - apply fret_inv in Hr as [-> _]. exists [], (c :: l). split; [done|]. split; [done|]. right.
    exists (w_step w). unfold ensureMediaAllowed, ask, fbind in R1. by destruct (media_gate (w_step w)).
Qed.

(** With an open gate a scan moves the cursor as [MediaScan.scans] does. *)
Lemma ScanOnce_cursor (Hopen : forall n, media_gate n = None) m m' e w w' : ScanOnce cfg m w = (Ok (m', e), w') ->
  mg_scanCursor m' = mg_scanCursor m \/ exists candidates,
    let limit := me_MaxScanEntries (MediaIngest cfg) in
    mg_scanCursor m' = next_scan_cursor (mg_scanCursor m) (selected limit (scan (mg_scanCursor m) limit candidates)).
Proof.
  unfold ScanOnce. intros Hr. destruct (negb _); [apply fret_inv in Hr as [[= -> _] _]; by left|].
  apply fbind_inv in Hr as (r & w1 & _ & Hr). destruct r as [candidates|x]; [|apply fret_inv in Hr as [[= -> _] _]; by left].
  apply fbind_inv in Hr as (p & w2 & R2 & Hr). apply fbind_inv in Hr as (t & w3 & _ & Hr).
  apply fret_inv in Hr as [[= -> _] _]. right. exists candidates. cbn [mg_scanCursor].
  apply process_selected_cursor in R2 as (taken & rest & El & Ep & [->|[n Hn]]); [|by rewrite Hopen in Hn].
  cbn zeta. by rewrite El, app_nil_r.
Qed.
End Cursor.

(** ** The copies end *)
Section Copies.
Context `{Paths} `{Zones} `{Network} `{Floats} `{FilePaths} {env : Environment} (cfg : Config).

Definition out_of_fuel : media_error := Message "out of fuel".
(** A copy ends in a content within the limit or in an error of its own. *)
Definition bounded_copy (limit : Z) (r : result media_error string) : Prop :=
  match r with Ok c => slen c <= limit | Err e => e <> out_of_fuel end.

Lemma or_fail_error {A} (m : F A) code text e w w' : or_fail m code text w = (Err e, w') -> e = failure code text.
Proof. unfold or_fail, fbind, attempt. destruct (m w) as [[a|e'] w1]; [done|]. by intros [= <- _]. Qed.
Lemma allowed_error e w w' : ensureMediaAllowed w = (Err e, w') -> e <> out_of_fuel.
Proof. unfold ensureMediaAllowed, ask, fbind. destruct (media_gate _); [|done]. by intros [= <- _]. Qed.

Lemma chunk_longer c : c <> "" -> 1 <= slen c.
Proof. intros Hc. destruct c as [|a c]; [done|]. cbn [slen]. pose proof (slen_nonneg c). lia. Qed.

Lemma copy_chunks_ends fuel a b : forall copied w, slen copied <= maxSegmentBytes cfg ->
  maxSegmentBytes cfg + 2 <= slen copied + Z.of_nat fuel ->
  bounded_copy (maxSegmentBytes cfg) (fst (copy_chunks cfg fuel a b copied w)).
Proof.
  induction fuel as [|f IH]; intros copied w Hc Hf; [lia|]. cbn [copy_chunks]. unfold fbind.
  destruct (or_fail (ReadAt _ _ _) _ _ w) as [[chunk|e] w1] eqn:E1; [|by apply or_fail_error in E1 as ->].
  destruct (String.eqb_spec chunk "") as [|Hne%chunk_longer]; [done|].
  destruct (ensureMediaAllowed w1) as [[[]|e] w2] eqn:E2; [|by apply allowed_error in E2].
  destruct (Z.leb_spec (slen copied + slen chunk) (maxSegmentBytes cfg)); [|done].
  destruct (or_fail (Write b chunk) _ _ w2) as [[[]|e] w3] eqn:E3; [|by apply or_fail_error in E3 as ->].
  destruct (ensureMediaAllowed w3) as [[[]|e] w4] eqn:E4; [|by apply allowed_error in E4].
  apply IH; rewrite slen_app; lia.
Qed.

Lemma call_error {A} broken (f : nat -> files -> result media_error A * files) e w w' :
  (forall n fs, fst (f n fs) <> Err out_of_fuel) -> call_with broken f w = (Err e, w') -> e <> out_of_fuel.
Proof.
  intros Hf. unfold call_with. destruct (io_fault _); [by intros [= <- _]|].
  specialize (Hf (w_step w) (others (w_step w) (w_files w))). destruct (f _ _) as [r fs]. intros [= -> _]. cbn in Hf. congruence.
Qed.

Lemma copy_limited_ends fuel a b : forall copied w, slen copied <= maxSegmentBytes cfg + 1 ->
  maxSegmentBytes cfg + 2 <= slen copied + Z.of_nat fuel ->
  bounded_copy (maxSegmentBytes cfg + 1) (fst (copy_limited cfg fuel a b copied w)).
Proof.
  induction fuel as [|f IH]; intros copied w Hc Hf; [lia|]. cbn [copy_limited]. unfold fbind.
  set (left := maxSegmentBytes cfg + 1 - slen copied).
  assert (Hr : forall r w', (if left <=? 0 then fret "" else ReadAt a (slen copied) (Z.min copy_buffer left)) w = (r, w') ->
    match r with Ok c => slen c <= Z.max 0 left | Err e => e <> out_of_fuel end).
  { intros r w' E. destruct (Z.leb_spec left 0); [injection E as <- <-; cbn; lia|].
    destruct r as [c|e]; [|eapply call_error; [|exact E]; intros n fs; unfold out_of_fuel; repeat case_match; cbn; congruence].
    unfold ReadAt, call, call_with in E. destruct (io_fault _); [done|].
    destruct (_ !! a) as [[c0 ?| |]|] in E; try done. injection E as <- _.
    assert (Ht : forall s n, 0 <= n -> slen (take_bytes n s) <= n).
    { induction s as [|x s IHs]; intros n Hn; cbn [take_bytes]; [done|].
      destruct (Z.ltb_spec 0 n); cbn [slen]; [|lia]. specialize (IHs (n - 1)). lia. }
    specialize (Ht (drop_bytes (slen copied) c0) (Z.min (Z.min copy_buffer left) (Z.max 1 (short_read (w_step w))))).
    unfold copy_buffer in *. lia. }
  destruct (_ w) as [[chunk|e] w1]; specialize (Hr _ _ eq_refl); [|done].
  destruct (String.eqb_spec chunk "") as [|Hne%chunk_longer]; [done|].
  destruct (ensureMediaAllowed w1) as [[[]|e] w2] eqn:E2; [|by apply allowed_error in E2].
  destruct (Write b chunk w2) as [[[]|e] w3] eqn:E3; [|by eapply call_error; [|exact E3]].
  apply IH; rewrite slen_app; unfold left in *; lia.
Qed.

(** C33: however the source grows while it is read, both copies of a media file
    end: the copy to staging keeps at most the configured size, the one to
    quarantine at most a byte more, and neither runs out of its rounds. *)
Theorem copies_end (Hmax : 0 <= maxSegmentBytes cfg) source target w :
  bounded_copy (maxSegmentBytes cfg) (fst (copy_chunks cfg (copy_fuel cfg) source target "" w)) /\
  bounded_copy (maxSegmentBytes cfg + 1) (fst (copy_limited cfg (copy_fuel cfg) source target "" w)).
Proof.
  split; [apply copy_chunks_ends|apply copy_limited_ends]; unfold copy_fuel; cbn [slen]; lia.
Qed.
End Copies.

(** ** A run *)
#[export] Instance calm_temporaries : Temporaries.
Proof.
  split; intros n.
  - exists (chr (48 + Z.of_nat n mod 10)). split; [|apply digit_chr, Z.mod_pos_bound; lia].
    cbn [temporary calm digits_pad]. by apply last_char_app.
  - cbn [temporary calm]. generalize 10%nat (Z.of_nat n). intros k. induction k as [|k IH]; intros z; [done|].
    cbn [digits_pad]. rewrite plain_name_app, IH. cbn [plain_name andb]. rewrite andb_true_r.
    assert (Hd : is_digit (chr (48 + z mod 10)) = true) by (apply digit_chr, Z.mod_pos_bound; lia).
    unfold plain_char. destruct (Ascii.eqb_spec (chr (48 + z mod 10)) "/") as [E|_]; [rewrite E in Hd; by vm_compute in Hd|].
    destruct (Ascii.eqb_spec (chr (48 + z mod 10)) "\") as [E|_]; [rewrite E in Hd; by vm_compute in Hd|done].
Qed.

Lemma sample_tidy : tidy sample_config empty_database.
Proof. intros r Hr. by apply elem_of_nil in Hr. Qed.

Lemma ProcessReady_accepts_witness :
  exists w' raw sidecar probe m, ProcessReady sample_config "/inbox/a.mp4.ready" sample_world = (Ok true, w') /\
    w_files sample_world !! "/inbox/a.mp4.sidecar.json" = Some (Regular raw m) /\
    parseSidecar raw (MediaMaxSegmentDuration sample_config) = Ok sidecar /\
    accepted_as sample_config (confirmation_path sample_config "/inbox/a.mp4.ready") sidecar probe w'.
Proof.
  destruct (ProcessReady sample_config "/inbox/a.mp4.ready" sample_world) as [[[|]|e] w'] eqn:E;
    [|exfalso; apply (f_equal fst) in E; vm_compute in E; discriminate..].
  destruct (ProcessReady_accepts sample_config "/inbox/a.mp4.ready" ltac:(by intros n fs) ltac:(by intros t _ n fs)
    sample_world w' sample_tidy E) as (raw & sidecar & probe & n & Hf & Hp & _ & _ & _ & Ha).
  destruct (Hf ltac:(by intros k fs)) as [m Hm].
  assert (Hpath : clean (sidecar_path sample_config "/inbox/a.mp4.ready") = "/inbox/a.mp4.sidecar.json")
    by (vm_compute; reflexivity).
  rewrite Hpath in Hm. exists w', raw, sidecar, probe, m.
  exact (conj eq_refl (conj Hm (conj Hp Ha))).
Defined.

Lemma copies_end_witness :
  bounded_copy 64 (fst (copy_chunks sample_config (copy_fuel sample_config) "/inbox/a.mp4" "data/media/staging/x" "" sample_world)).
Proof. refine (proj1 (copies_end sample_config _ "/inbox/a.mp4" "data/media/staging/x" sample_world)). vm_compute. discriminate. Defined.
