(* ===== verification/ActivityWatch.v ===== *)
(** * The ActivityWatch collector ([collectors/activitywatch.go])

    A poll reads the bucket and the pages of its events over HTTP, keeps the
    stable prefix, writes it batch by batch to the store, adds a revision where an
    event grew, and moves the checkpoint behind each batch.  The HTTP client, the
    clock, the storage gate and the text of driver errors are the environment's;
    the store is the database of the model. *)

From Stdlib Require Import ZArith Lia String Ascii.
From S2P Require Import Prelude GoStrings GoTime GoJson Sha256 StrictJson Base64 Sql Schema Keyed Events Heartbeats Query Platform Config OpsStore Timeline.
Open Scope string_scope.
Open Scope list_scope.
Open Scope result_scope.
Open Scope db_scope.
Open Scope Z_scope.

Definition StatusHealthy : string := "healthy".
Definition StatusDisabled : string := "disabled".
Definition StatusUnavailable : string := "unavailable".
Definition CodeRequestFailed : string := "ACTIVITYWATCH_REQUEST_FAILED".
Definition CodeResponseTooLarge : string := "ACTIVITYWATCH_RESPONSE_TOO_LARGE".
Definition CodeResponseInvalid : string := "ACTIVITYWATCH_RESPONSE_INVALID".
Definition CodePaginationStalled : string := "ACTIVITYWATCH_PAGINATION_STALLED".
Definition CodeBacklogLimit : string := "ACTIVITYWATCH_BACKLOG_LIMIT".
Definition CodeImportFailed : string := "ACTIVITYWATCH_WRITE_FAILED".   (* [CodeWriteFailed] of this package *)
Definition CodeStorageProtected : string := "ACTIVITYWATCH_STORAGE_PROTECTED".
Definition activityWatchPollByteBudget : Z := Z.shiftl 32 20.
Definition activityWatchPollEventLimit : Z := 10000.
Definition activityWatchPollConcurrency : Z := 2.

Record adapterError := AdapterError { ad_code : string; ad_err : string }.
Definition errorCode (e : adapterError) : string := ad_code e.

Record Status := MkStatus {
  cs_CollectorID : string; cs_Kind : string; cs_Status : string; cs_ErrorCode : string;
  cs_LastAttemptUTC : string; cs_LastSuccessUTC : string; cs_CheckpointUTC : string;
  cs_CheckpointEventID : Z; cs_Imported : Z; cs_Duplicates : Z }.
Definition zero_status : Status := MkStatus "" "" "" "" "" "" "" 0 0 0.

(** A call of [FaultRecorder.RecordFault]. *)
Record fault_report := FaultReport {
  fr_component : string; fr_severity : string; fr_status : string; fr_code : string; fr_text : string }.

(** ** The environment

    [response n url] is what the GET of step [n] gives: [None] where [Do] fails,
    else the status, the body up to its end or to where reading it fails, and
    whether it fails there.  A gate that gives a reason is closed. *)
Record http_response := HttpResponse { hr_status : Z; hr_body : string; hr_broken : bool }.
Inductive slot_outcome : Type := SlotAcquired | SlotTimeout | SlotCanceled.

Class Surroundings := {
  response : nat -> string -> option http_response;
  poll_clock : nat -> time;
  import_gate : nat -> option string;
  slot : nat -> slot_outcome;
  http_error_text : nat -> string;
  store_error_text : error -> string }.

(** Numbers as text: [strconv.FormatUint(math.Float64bits(x), 16)], and the JSON
    of a float64. *)
Class FloatText `{Float64} := { float_bits_hex : f64 -> string; float_json : f64 -> string }.

(** The text of a URL with another query, after [url.Parse]. *)
Class Urls := { url_with_query : string -> string -> string }.

Record pworld := PollWorld {
  p_db : database; p_oracle : oracle; p_step : nat;
  p_statuses : gmap string Status; p_faults : list fault_report }.

(** ** The monad *)
Definition P (A : Type) : Type := pworld -> result adapterError A * pworld.
Definition pret {A} (a : A) : P A := fun w => (Ok a, w).
Definition pfail {A} (code text : string) : P A := fun w => (Err (AdapterError code text), w).
Definition pbind {A B} (m : P A) (k : A -> P B) : P B := fun w =>
  let '(r, w') := m w in match r with Ok a => k a w' | Err e => (Err e, w') end.
Definition plift {A} (r : result adapterError A) : P A := fun w => (r, w).
Definition attempt {A} (m : P A) : P (result adapterError A) := fun w => let '(r, w') := m w in (Ok r, w').

Declare Scope poll_scope.
Delimit Scope poll_scope with poll.
Notation "'let^' x ':=' m 'in' k" := (pbind m (fun x => k))
  (at level 10, x pattern, m at level 100, k at level 200) : poll_scope.
Notation "'check^' b 'else' c '&' t 'in' k" := (if b then k else pfail c t)
  (at level 10, b at level 100, c at level 9, t at level 9, k at level 200) : poll_scope.
Open Scope poll_scope.

(** ** Escaping of URLs *)
Definition upper_hex_digit (z : Z) : ascii := if z <? 10 then chr (48 + z) else chr (55 + z).
Definition percent (c : Z) : string :=
  String "%" (String (upper_hex_digit (c / 16)) (String (upper_hex_digit (c mod 16)) "")).
Definition unreserved (c : Z) : bool :=
  in_range 97 122 c || in_range 65 90 c || in_range 48 57 c
  || (c =? 45) || (c =? 95) || (c =? 46) || (c =? 126).
(** [url.PathEscape]: "$", "&", "+", "=", ":" and "@" stay. *)
Definition PathEscape (s : string) : string :=
  fold_right (fun c acc =>
    (if unreserved c || existsb (Z.eqb c) [36; 38; 43; 61; 58; 64] then of_bytes [c] else percent c) +:+ acc)
    "" (bytes s).
(** [url.QueryEscape]: a space becomes "+". *)
Definition QueryEscape (s : string) : string :=
  fold_right (fun c acc =>
    (if unreserved c then of_bytes [c] else if c =? 32 then "+" else percent c) +:+ acc) "" (bytes s).

(** ** Decoding of responses *)
Record awBucket := AwBucket { bk_ID : string; bk_Type : string; bk_Client : string; bk_Hostname : string }.
Definition bucket_fields : list string :=
  ["id"; "created"; "name"; "type"; "client"; "hostname"; "data"; "first_seen"; "last_updated"].

(** The fields nothing reads must still be strings; [data] takes any value. *)
Definition decode_bucket (raw : string) : option awBucket :=
  let! (v, rest) := decode_first raw in
  let! ms := struct_members v in
  oguard (known_fields bucket_fields ms && at_eof rest)
  (let f name := decode_last string_of "" (field_values name ms) in
   let! id := f "id" in let! _ := f "created" in let! _ := f "name" in let! kind := f "type" in
   let! client := f "client" in let! host := f "hostname" in let! _ := f "first_seen" in
   let! _ := f "last_updated" in
   Some (AwBucket id kind client host)).

Section Events.
Context `{Float64}.

(** An event as it was decoded, and as the poll keeps it. *)
Record rawEvent := RawEvent {
  re_ID : option Z; re_Timestamp : string; re_Duration : option f64; re_Data : string }.
Record awEvent := AwEvent {
  ae_sourceID : Z; ae_Timestamp : string; ae_sourceDuration : f64; ae_Data : string; ae_parsed : time }.

Definition event_fields : list string := ["id"; "timestamp"; "duration"; "data"].

(** The last value of a [json.RawMessage] field, as text. *)
Definition raw_field (name : string) (ms : list (string * (string * json))) : string :=
  List.last (map (fun kv => fst (snd kv)) (List.filter (fun kv => names_field name (fst kv)) ms)) "".

Definition decode_event (item : string * json) : option rawEvent :=
  let '(text, v) := item in
  let! ms := struct_members v in
  oguard (known_fields event_fields ms)
  (let! id := pointer_of int_of (field_values "id" ms) in
   let! timestamp := decode_last string_of "" (field_values "timestamp" ms) in
   let! seconds := pointer_of float_of_json (field_values "duration" ms) in
   let texts := match raw_object text with Some l => l | None => [] end in
   Some (RawEvent id timestamp seconds (raw_field "data" texts))).

Definition decode_page (raw : string) : option (list rawEvent) :=
  let! (v, rest) := decode_first raw in
  oguard (at_eof rest)
  (match v with
   | JNull => Some []
   | JArr _ => let! items := raw_array raw in mapM decode_event items
   | _ => None
   end).
End Events.

Definition canonicalDataObject (raw : string) : result adapterError string :=
  guard? is_ok (ValidateObjectKeys raw 0)
    else AdapterError CodeResponseInvalid "ActivityWatch event data contains duplicate keys or invalid JSON" in
  match decode_first raw with
  | Some (JObj ms, _) => Ok (marshal (JObj ms))
  | _ => Err (AdapterError CodeResponseInvalid "ActivityWatch event data must be a JSON object")
  end.

Definition validActivityWatchIdentifier (value : string) (maximum : Z) : bool :=
  negb (String.eqb value "" || (maximum <? slen value) || negb (String.eqb (trim_space value) value)
        || negb (valid_utf8 value))
  && forallb (fun r => negb (is_control r)) (runes value).

Definition activityWatchPayloadFields : list string :=
  ["bucket_id"; "bucket_type"; "bucket_client"; "bucket_hostname"; "source_event_id"; "duration_seconds"; "data"].

(** The first eight bytes of the digest. *)
Definition activityWatchBaseKey (bucketID : string) (sourceID : Z) : string :=
  "activitywatch:" +:+ stake 16 (sha256_hex bucketID) +:+ ":" +:+ format_int sourceID.

(** A struct whose values are JSON texts already. *)
Definition struct_text (fields : list (string * string)) : string :=
  "{" +:+ join "," (map (fun kv => quote_string (fst kv) +:+ ":" +:+ snd kv) fields) +:+ "}".

(** ** Candidates *)
Section Candidates.
Context `{FT : FloatText}.

Definition activityWatchCandidateWithKey (collectorID : string) (bucket : awBucket) (event : awEvent)
    (clockErrorMS : Z) (key : string) : string :=
  let payload := struct_text
    [("bucket_id", quote_string (bk_ID bucket)); ("bucket_type", quote_string (bk_Type bucket));
     ("bucket_client", quote_string (bk_Client bucket)); ("bucket_hostname", quote_string (bk_Hostname bucket));
     ("source_event_id", format_int (ae_sourceID event));
     ("duration_seconds", float_json (ae_sourceDuration event)); ("data", ae_Data event)] in
  struct_text
    [("schema_version", format_int 1); ("collector_id", quote_string collectorID);
     ("event_type", quote_string "activitywatch.event");
     ("device_timestamp_raw", quote_string (ae_Timestamp event)); ("clock_offset_ms", format_int 0);
     ("clock_error_ms", format_int clockErrorMS); ("idempotency_key", quote_string key); ("payload", payload)].

Definition activityWatchCandidate (collectorID : string) (bucket : awBucket) (event : awEvent) (clockErrorMS : Z) : string :=
  activityWatchCandidateWithKey collectorID bucket event clockErrorMS
    (activityWatchBaseKey (bk_ID bucket) (ae_sourceID event)).

Record activityWatchPayload := ActivityWatchPayload {
  ap_BucketID : string; ap_BucketType : string; ap_BucketClient : string; ap_BucketHostname : string;
  ap_SourceEventID : Z; ap_DurationSeconds : f64; ap_Data : string }.

Definition decode_payload (raw : string) : option activityWatchPayload :=
  let! v := unmarshal raw in
  let! ms := struct_members v in
  let f name := decode_last string_of "" (field_values name ms) in
  let! id := f "bucket_id" in let! kind := f "bucket_type" in
  let! client := f "bucket_client" in let! host := f "bucket_hostname" in
  let! source := decode_last int_of 0 (field_values "source_event_id" ms) in
  let! seconds := decode_last float_of_json (float_of 0) (field_values "duration_seconds" ms) in
  let texts := match raw_object raw with Some l => l | None => [] end in
  Some (ActivityWatchPayload id kind client host source seconds (raw_field "data" texts)).

Definition duration_key (base : string) (seconds : f64) : string := base +:+ ":duration:" +:+ float_bits_hex seconds.
Definition float_le (a b : f64) : bool := negb (float_lt b a).

Record family_state := FamilyState { fs_baseFound : bool; fs_baseDuration : f64; fs_maximumDuration : f64 }.

Definition family_conflict {A} : result string A := Err "ActivityWatch event id conflicts with stored immutable content".

Section Family.
Context (collectorID : string) (bucket : awBucket) (event : awEvent) (clockErrorMS existingEventID : Z).
Let baseKey := activityWatchBaseKey (bk_ID bucket) (ae_sourceID event).

(** One stored event of the family. *)
Definition family_step (s : family_state) (stored : Event) : result string family_state :=
  if negb (ev_SchemaVersion stored =? EventSchemaVersion) || negb (String.eqb (ev_CollectorID stored) collectorID)
     || negb (String.eqb (ev_EventType stored) "activitywatch.event")
     || negb (String.eqb (ev_DeviceTimestampRaw stored) (ae_Timestamp event))
     || negb (ev_ClockOffsetMS stored =? 0) || negb (ev_ClockErrorMS stored =? clockErrorMS)
  then family_conflict
  else
    let? previous :=
      (if is_ok (ValidateExactRootObjectRequired (ev_Payload stored) 0 activityWatchPayloadFields)
       then match decode_payload (ev_Payload stored) with
            | Some p => Ok p | None => Err "stored ActivityWatch event payload is invalid" end
       else Err "stored ActivityWatch event payload is invalid") in
    let? previousData := (match canonicalDataObject (ap_Data previous) with
                          | Ok t => Ok t | Err _ => Err "stored ActivityWatch event data is invalid" end) in
    if negb (String.eqb (ap_BucketID previous) (bk_ID bucket)) || negb (String.eqb (ap_BucketType previous) (bk_Type bucket))
       || negb (String.eqb (ap_BucketClient previous) (bk_Client bucket))
       || negb (String.eqb (ap_BucketHostname previous) (bk_Hostname bucket))
       || negb (ap_SourceEventID previous =? ae_sourceID event) || negb (String.eqb previousData (ae_Data event))
    then family_conflict
    else
      let seconds := ap_DurationSeconds previous in
      let? s' :=
        (if String.eqb (ev_IdempotencyKey stored) baseKey then
           guard? negb (fs_baseFound s || negb (ev_ID stored =? existingEventID))
             else "ActivityWatch base event family is invalid" in
           Ok (FamilyState true seconds (fs_maximumDuration s))
         else
           guard? negb (negb (fs_baseFound s) || negb (String.eqb (ev_IdempotencyKey stored) (duration_key baseKey seconds))
                        || float_le seconds (fs_maximumDuration s))
             else "ActivityWatch duration revision family is invalid" in
           Ok s) in
      Ok (if float_lt (fs_maximumDuration s') seconds
          then FamilyState (fs_baseFound s') (fs_baseDuration s') seconds else s').

Fixpoint family_loop (s : family_state) (family : list Event) : result string family_state :=
  match family with
  | [] => Ok s
  | stored :: rest => let? s' := family_step s stored in family_loop s' rest
  end.

Definition activityWatchDurationRevisionCandidate (family : list Event) : result string string :=
  let? s := family_loop (FamilyState false (float_of 0) (float_of (-1))) family in
  guard? fs_baseFound s else "ActivityWatch base event is missing" in
  if float_le (ae_sourceDuration event) (fs_baseDuration s)
     || float_lt (ae_sourceDuration event) (fs_maximumDuration s)
  then family_conflict
  else Ok (activityWatchCandidateWithKey collectorID bucket event clockErrorMS
             (duration_key baseKey (ae_sourceDuration event))).
End Family.
End Candidates.

(** ** One poll *)
Section Poll.
Context `{SJ : SqliteJson} `{FL : Floats} `{FT : FloatText} {sur : Surroundings} `{UR : Urls} (st : Store).

(** Calls: each takes one step of the environment, except those of the store,
    which take their faults from the oracle. *)
Definition ask {A} (f : nat -> A) : P A := fun w =>
  (Ok (f (p_step w)), PollWorld (p_db w) (p_oracle w) (S (p_step w)) (p_statuses w) (p_faults w)).
Definition now : P time := ask poll_clock.
Definition store {A} (m : M database A) : P (result error A) := fun w =>
  let '(r, d, o) := m (p_db w) (p_oracle w) in (Ok r, PollWorld d o (p_step w) (p_statuses w) (p_faults w)).
(** An error of the store becomes one of the adapter. *)
Definition stored {A} (m : M database A) : P A :=
  let^ r := store m in
  match r with Ok a => pret a | Err e => pfail CodeImportFailed (store_error_text e) end.

(** [getJSON]; [limit + 1] bytes are read at most. *)
Definition getJSON {A} (endpoint : string) (limit : Z) (decode : string -> option A) : P A :=
  let^ r := ask (fun n => (response n endpoint, http_error_text n)) in
  match r with
  | (None, text) => pfail CodeRequestFailed text
  | (Some resp, text) =>
    check^ hr_status resp =? 200
      else CodeRequestFailed & ("ActivityWatch GET returned HTTP " +:+ format_int (hr_status resp)) in
    let raw := hr_body resp in
    if limit <? slen raw then pfail CodeResponseTooLarge "ActivityWatch response exceeds the configured byte limit"
    else if hr_broken resp then pfail CodeRequestFailed text
    else
      check^ valid_utf8 raw else CodeResponseInvalid & "ActivityWatch response must be valid UTF-8" in
      check^ is_ok (ValidateObjectKeys raw 0)
        else CodeResponseInvalid & "ActivityWatch response contains duplicate keys or invalid JSON" in
      match decode raw with
      | Some a => pret a
      | None => pfail CodeResponseInvalid "ActivityWatch response does not match the supported schema"
      end
  end.

Definition trim_slash (s : string) : string :=
  if has_suffix s "/" then stake (String.length s - 1) s else s.

Definition fetchBucket (aw : ActivityWatchConfig) : P awBucket :=
  let endpoint := trim_slash (aw_BaseURL aw) +:+ "/api/0/buckets/" +:+ PathEscape (aw_BucketID aw) in
  let^ bucket := getJSON endpoint (aw_MaxResponseBytes aw) decode_bucket in
  check^ String.eqb (bk_ID bucket) (aw_BucketID aw) && validActivityWatchIdentifier (bk_Type bucket) 128
    else CodeResponseInvalid & "ActivityWatch bucket metadata is invalid" in
  pret bucket.

(** [query.Encode] sorts the keys. *)
Definition page_endpoint (aw : ActivityWatchConfig) (queryStart pageEnd : time) : string :=
  url_with_query (trim_slash (aw_BaseURL aw) +:+ "/api/0/buckets/" +:+ PathEscape (aw_BucketID aw) +:+ "/events")
    ("end=" +:+ QueryEscape (fixedUTC pageEnd) +:+ "&limit=" +:+ QueryEscape (format_int (aw_PageSize aw))
     +:+ "&start=" +:+ QueryEscape (fixedUTC queryStart)).
Definition get_page (aw : ActivityWatchConfig) (queryStart pageEnd : time) : P (list rawEvent) :=
  getJSON (page_endpoint aw queryStart pageEnd) (aw_MaxResponseBytes aw) decode_page.

Definition invalid_response {A} (text : string) : result adapterError A := Err (AdapterError CodeResponseInvalid text).

(** The checks of one event of a page. *)
Definition check_event (queryStart end_ : time) (e : rawEvent) : result adapterError awEvent :=
  match re_ID e, re_Duration e with
  | Some id, Some seconds =>
    if (id <? 0) || float_lt seconds (float_of 0) || float_lt (float_of (366 * 24 * 60 * 60)) seconds
    then invalid_response "ActivityWatch event identity or duration is invalid"
    else match parse_rfc3339nano (re_Timestamp e) with
         | None => invalid_response "ActivityWatch event timestamp is invalid"
         | Some parsed =>
           guard? negb (has_suffix (re_Timestamp e) "-00:00")
             else AdapterError CodeResponseInvalid "ActivityWatch event timestamp is invalid" in
           guard? negb ((parsed <? queryStart) || (end_ <? parsed))
             else AdapterError CodeResponseInvalid "ActivityWatch returned an event outside the requested range" in
           let? data := canonicalDataObject (re_Data e) in
           Ok (AwEvent id (re_Timestamp e) seconds data parsed)
         end
  | _, _ => invalid_response "ActivityWatch event identity or duration is invalid"
  end.

(** What the loop over the pages holds, and what the loop over a page adds. *)
Record fetched := Fetched { ft_seen : gmap Z awEvent; ft_usedBytes : Z }.
Record page_state := PageState { ps_fetched : fetched; ps_oldest : time; ps_newIDs : Z; ps_reachedStart : bool }.

Definition keep_event (eventLimit byteBudget : Z) (s : page_state) (oldest : time) (event : awEvent)
    : result adapterError page_state :=
  let '(Fetched seen used) := ps_fetched s in
  match seen !! ae_sourceID event with
  | Some previous =>
    guard? String.eqb (ae_Timestamp previous) (ae_Timestamp event) && String.eqb (ae_Data previous) (ae_Data event)
      else AdapterError CodeResponseInvalid "ActivityWatch repeated an event id with different content" in
    Ok (PageState (if float_lt (ae_sourceDuration previous) (ae_sourceDuration event)
                   then Fetched (<[ae_sourceID event := event]> seen) used else Fetched seen used)
          oldest (ps_newIDs s) (ps_reachedStart s))
  | None =>
    let eventBytes := 256 + slen (ae_Timestamp event) + slen (ae_Data event) in
    guard? negb ((eventLimit <=? Z.of_nat (size seen)) || (byteBudget - used <? eventBytes))
      else AdapterError CodeBacklogLimit
             "ActivityWatch poll exceeds the fixed event or memory budget; no checkpoint was changed" in
    Ok (PageState (Fetched (<[ae_sourceID event := event]> seen) (used + eventBytes)) oldest (ps_newIDs s + 1)
          (ps_reachedStart s))
  end.

Definition page_event (queryStart start end_ : time) (eventLimit byteBudget : Z) (s : page_state) (e : rawEvent)
    : result adapterError page_state :=
  let? event := check_event queryStart end_ e in
  let oldest := if ae_parsed event <? ps_oldest s then ae_parsed event else ps_oldest s in
  if ae_parsed event <? start then Ok (PageState (ps_fetched s) oldest (ps_newIDs s) true)
  else keep_event eventLimit byteBudget s oldest event.

Fixpoint page_loop (queryStart start end_ : time) (eventLimit byteBudget : Z) (s : page_state) (page : list rawEvent)
    : result adapterError page_state :=
  match page with
  | [] => Ok s
  | e :: rest =>
    let? s' := page_event queryStart start end_ eventLimit byteBudget s e in
    page_loop queryStart start end_ eventLimit byteBudget s' rest
  end.

(** The loop over the pages, [pages] of them at most; [full] is [fullLastPage]. *)
Fixpoint fetch_pages (pages : nat) (aw : ActivityWatchConfig) (queryStart start end_ : time)
    (eventLimit byteBudget : Z) (pageEnd : time) (full : bool) (f : fetched) : P (bool * fetched) :=
  match pages with
  | O => pret (full, f)
  | S n =>
    let^ page := get_page aw queryStart pageEnd in
    if (length page =? 0)%nat then pret (false, f)
    else
      let^ s := plift (page_loop queryStart start end_ eventLimit byteBudget (PageState f pageEnd 0 false) page) in
      if ps_reachedStart s || negb (Z.of_nat (length page) =? aw_PageSize aw) then pret (false, ps_fetched s)
      else
        check^ (ps_oldest s <? pageEnd) && negb (ps_newIDs s =? 0)
          else CodePaginationStalled & "ActivityWatch pagination did not advance; no checkpoint was changed" in
        fetch_pages n aw queryStart start end_ eventLimit byteBudget (ps_oldest s) true (ps_fetched s)
  end.

Definition event_lt (a b : awEvent) : bool :=
  if ae_parsed a =? ae_parsed b then ae_sourceID a <? ae_sourceID b else ae_parsed a <? ae_parsed b.
Definition event_end (e : awEvent) : time := ae_parsed e + seconds_duration (ae_sourceDuration e).

(** The events before the first one that has not ended before [end_]. *)
Fixpoint stable_prefix (end_ : time) (l : list awEvent) : list awEvent :=
  match l with
  | [] => []
  | e :: rest => if event_end e <? end_ then e :: stable_prefix end_ rest else []
  end.

(** [Truncate] rounds down. *)
Definition query_start (start : time) : time := start - start mod millisecond - millisecond.

Definition fetchEvents (aw : ActivityWatchConfig) (start end_ : time) (eventLimit byteBudget : Z) : P (list awEvent) :=
  let^ r := fetch_pages (Z.to_nat (aw_MaxPagesPerPoll aw)) aw (query_start start) start end_ eventLimit byteBudget
              end_ false (Fetched ∅ 0) in
  let '(full, f) := r in
  check^ negb full
    else CodeBacklogLimit & "ActivityWatch backlog exceeds the bounded pages per poll; no checkpoint was changed" in
  pret (stable_prefix end_ (sort_by event_lt (map snd (map_to_list (ft_seen f))))).

Definition ensureCoreWritesAllowed : P unit :=
  let^ reason := ask import_gate in
  match reason with
  | None => pret tt
  | Some reason => pfail CodeStorageProtected ("ActivityWatch import paused by storage protection: " +:+ reason)
  end.

(** The two ends of the poll's heartbeat. *)
Definition heartbeat_end (c : CollectorConfig) (start end_ : time) : time :=
  let end_ := if start <? end_ then end_ else start + 1 in
  if HeartbeatPeriodDuration c <? Heartbeats.time_sub end_ start then start + HeartbeatPeriodDuration c else end_.

Definition poll_heartbeat (c : CollectorConfig) (aw : ActivityWatchConfig) (start end_ : time) : string :=
  marshal (JObj
    [("schema_version", JNum (format_int 1)); ("collector_id", JStr (co_ID c));
     ("state", JStr HeartbeatStateActive); ("device_start_raw", JStr (fixedUTC start));
     ("device_end_raw", JStr (fixedUTC end_)); ("clock_offset_ms", JNum (format_int 0));
     ("clock_error_ms", JNum (format_int (aw_ClockErrorMS aw)));
     ("idempotency_key", JStr ("activitywatch-poll:" +:+ fixedUTC start +:+ ":" +:+ fixedUTC end_));
     ("quality_flags", JArr [])]).

Definition written (r : WriteResult) : bool :=
  String.eqb (wr_Status r) StatusAccepted || String.eqb (wr_Status r) StatusDuplicate.

Definition appendPollHeartbeat (c : CollectorConfig) (aw : ActivityWatchConfig) (start end_ : time) : P unit :=
  let^ _ := ensureCoreWritesAllowed in
  let^ received := now in
  let^ results := stored (AppendHeartbeatBatch st received [poll_heartbeat c aw start (heartbeat_end c start end_)]) in
  match results with
  | [r] => check^ written r else CodeImportFailed & "ActivityWatch poll heartbeat was rejected" in pret tt
  | _ => pfail CodeImportFailed "ActivityWatch poll heartbeat was rejected"
  end.

Definition appendActivityWatchDurationRevision (c : CollectorConfig) (aw : ActivityWatchConfig) (bucket : awBucket)
    (event : awEvent) (existingEventID : Z) : P string :=
  let^ family := stored (QueryEventFamily (co_ID c) (activityWatchBaseKey (bk_ID bucket) (ae_sourceID event))) in
  match activityWatchDurationRevisionCandidate (co_ID c) bucket event (aw_ClockErrorMS aw) existingEventID family with
  | Err text => pfail CodeImportFailed text
  | Ok revision =>
    let^ _ := ensureCoreWritesAllowed in
    let^ received := now in
    let^ results := stored (AppendBatch st received [revision]) in
    match results with
    | [r] => check^ written r else CodeImportFailed & "ActivityWatch duration revision was rejected" in
             pret (wr_Status r)
    | _ => pfail CodeImportFailed "ActivityWatch duration revision was rejected"
    end
  end.

(** An unreadable checkpoint is before everything. *)
Definition tupleAfter (at_ : time) (id : Z) (checkpoint : ActivityWatchCheckpoint) : bool :=
  match parse_fixed (ac_SourceTimeUTC checkpoint) with
  | None => true
  | Some s => (s <? at_) || ((at_ =? s) && (ac_SourceEventID checkpoint <? id))
  end.

Record poll_state := PollState { po_imported : Z; po_duplicates : Z; po_checkpoint : option ActivityWatchCheckpoint }.
Definition count (imported : bool) (s : poll_state) : poll_state :=
  if imported then PollState (po_imported s + 1) (po_duplicates s) (po_checkpoint s)
  else PollState (po_imported s) (po_duplicates s + 1) (po_checkpoint s).

Definition write_failed {A} (r : WriteResult) : P A :=
  pfail CodeImportFailed ("ActivityWatch event write returned " +:+ wr_Status r +:+ " (" +:+ wr_ErrorCode r +:+ ")").

(** One result of a batch; an index out of the batch is an error. *)
Definition poll_result (c : CollectorConfig) (aw : ActivityWatchConfig) (bucket : awBucket) (page : list awEvent)
    (s : poll_state) (r : WriteResult) : P poll_state :=
  if String.eqb (wr_Status r) StatusAccepted then pret (count true s)
  else if String.eqb (wr_Status r) StatusDuplicate then pret (count false s)
  else if String.eqb (wr_Status r) StatusConflict then
    if negb (String.eqb (wr_ErrorCode r) CodeIdempotencyConflict) || (wr_Index r <? 0)
       || (Z.of_nat (length page) <=? wr_Index r)
    then write_failed r
    else match page !! Z.to_nat (wr_Index r) with
         | None => write_failed r
         | Some event =>
           let^ revisionStatus := appendActivityWatchDurationRevision c aw bucket event (wr_EventID r) in
           pret (count (String.eqb revisionStatus StatusAccepted) s)
         end
  else write_failed r.

Fixpoint poll_results (c : CollectorConfig) (aw : ActivityWatchConfig) (bucket : awBucket) (page : list awEvent)
    (s : poll_state) (results : list WriteResult) : P poll_state :=
  match results with
  | [] => pret s
  | r :: rest => let^ s' := poll_result c aw bucket page s r in poll_results c aw bucket page s' rest
  end.

(** The checkpoint is moved to the last event of the batch. *)
Definition move_checkpoint (c : CollectorConfig) (aw : ActivityWatchConfig) (last : awEvent) (s : poll_state)
    : P poll_state :=
  if match po_checkpoint s with None => true | Some k => tupleAfter (ae_parsed last) (ae_sourceID last) k end then
    let checkpoint := MkActivityWatchCheckpoint (aw_BucketID aw) (fixedUTC (ae_parsed last)) (ae_sourceID last) "" in
    let^ _ := ensureCoreWritesAllowed in
    let^ at_ := now in
    let^ _ := stored (SaveActivityWatchCheckpoint at_ (co_ID c) checkpoint) in
    pret (PollState (po_imported s) (po_duplicates s) (Some checkpoint))
  else pret s.

(** One batch of at most [aw_PageSize] events. *)
Definition write_batch (c : CollectorConfig) (aw : ActivityWatchConfig) (bucket : awBucket) (page : list awEvent)
    (s : poll_state) : P poll_state :=
  let candidates := map (fun e => activityWatchCandidate (co_ID c) bucket e (aw_ClockErrorMS aw)) page in
  let^ _ := ensureCoreWritesAllowed in
  let^ received := now in
  let^ results := stored (AppendBatch st received candidates) in
  poll_results c aw bucket page s results.

Definition poll_batch (c : CollectorConfig) (aw : ActivityWatchConfig) (bucket : awBucket) (page : list awEvent)
    (s : poll_state) : P poll_state :=
  let^ s' := write_batch c aw bucket page s in
  match list.last page with
  | None => pret s'
  | Some last => move_checkpoint c aw last s'
  end.

(** The loop over the offsets. *)
Fixpoint poll_batches (c : CollectorConfig) (aw : ActivityWatchConfig) (bucket : awBucket) (pages : list (list awEvent))
    (s : poll_state) : P poll_state :=
  match pages with
  | [] => pret s
  | page :: rest => let^ s' := poll_batch c aw bucket page s in poll_batches c aw bucket rest s'
  end.

(** Where the poll starts to read. *)
Definition poll_start (aw : ActivityWatchConfig) (at_ : time) (checkpoint : option ActivityWatchCheckpoint)
    : result adapterError time :=
  match checkpoint with
  | None => Ok (at_ - InitialLookbackDuration aw)
  | Some k => match parse_fixed (ac_SourceTimeUTC k) with
              | Some parsed => Ok (parsed - RescanWindowDuration aw)
              | None => Err (AdapterError CodeResponseInvalid "stored ActivityWatch checkpoint time is invalid")
              end
  end.

(** What is returned beside an error is not read by the caller. *)
Definition poll (c : CollectorConfig) (aw : ActivityWatchConfig) (eventLimit byteBudget : Z) (at_ : time) : P poll_state :=
  let^ bucket := fetchBucket aw in
  let^ checkpoint := stored (LoadActivityWatchCheckpoint (co_ID c) (aw_BucketID aw)) in
  let cutoff := at_ - AllowedLatenessDuration c in
  let^ start := plift (poll_start aw at_ checkpoint) in
  let s := PollState 0 0 checkpoint in
  if negb (start <? cutoff) then
    let^ end_ := now in
    let^ _ := appendPollHeartbeat c aw at_ end_ in
    pret s
  else
    let^ events := fetchEvents aw start cutoff eventLimit byteBudget in
    let^ s' := poll_batches c aw bucket (chunks (Z.to_nat (aw_PageSize aw)) events) s in
    let^ end_ := now in
    let^ _ := appendPollHeartbeat c aw at_ end_ in
    pret s'.

(** ** Status and faults *)
Definition record_fault (r : fault_report) : P unit := fun w =>
  (Ok tt, PollWorld (p_db w) (p_oracle w) (p_step w) (p_statuses w) (p_faults w ++ [r])).

Definition next_status (s : Status) (at_ : time) (r : result adapterError poll_state) : Status :=
  match r with
  | Err e => MkStatus (cs_CollectorID s) (cs_Kind s) StatusUnavailable (errorCode e) (fixedUTC at_)
               (cs_LastSuccessUTC s) (cs_CheckpointUTC s) (cs_CheckpointEventID s) (cs_Imported s) (cs_Duplicates s)
  | Ok p =>
    let '(t, id) := match po_checkpoint p with
                    | Some k => (ac_SourceTimeUTC k, ac_SourceEventID k) | None => ("", 0) end in
    MkStatus (cs_CollectorID s) (cs_Kind s) StatusHealthy "" (fixedUTC at_) (fixedUTC at_) t id
      (wrap64 (cs_Imported s + po_imported p)) (wrap64 (cs_Duplicates s + po_duplicates p))
  end.

(** A failure is reported when the status or the code changes, the recovery once. *)
Definition status_fault (collectorID : string) (previous : Status) (r : result adapterError poll_state)
    : option fault_report :=
  match r with
  | Err e =>
    if negb (String.eqb (cs_Status previous) StatusUnavailable) || negb (String.eqb (cs_ErrorCode previous) (errorCode e))
    then Some (FaultReport ("activitywatch:" +:+ collectorID) "P2" "degraded" (errorCode e) (ad_err e)) else None
  | Ok _ =>
    if String.eqb (cs_Status previous) StatusUnavailable && negb (String.eqb (cs_ErrorCode previous) "")
    then Some (FaultReport ("activitywatch:" +:+ collectorID) "P3" "recovered" "ACTIVITYWATCH_RECOVERED"
                 "collector poll recovered") else None
  end.

Definition recordPollStatus (c : CollectorConfig) (at_ : time) (r : result adapterError poll_state) : P unit := fun w =>
  let previous := default zero_status (p_statuses w !! co_ID c) in
  let w' := PollWorld (p_db w) (p_oracle w) (p_step w) (<[co_ID c := next_status previous at_ r]> (p_statuses w)) (p_faults w) in
  match status_fault (co_ID c) previous r with Some f => record_fault f w' | None => (Ok tt, w') end.

Definition pollAndRecord (c : CollectorConfig) (aw : ActivityWatchConfig) : P unit :=
  let^ gate := attempt ensureCoreWritesAllowed in
  match gate with
  | Err e => let^ at_ := now in recordPollStatus c at_ (Err e)
  | Ok _ =>
    let^ acquired := ask slot in
    match acquired with
    | SlotAcquired =>
      let^ at_ := now in
      let^ r := attempt (poll c aw activityWatchPollEventLimit activityWatchPollByteBudget at_) in
      recordPollStatus c at_ r
    | SlotCanceled => pret tt
    | SlotTimeout =>
      let^ at_ := now in
      recordPollStatus c at_ (Err (AdapterError CodeRequestFailed
        "ActivityWatch poll could not acquire the bounded worker slot before offline_after"))
    end
  end.

(** A configuration that loads gives every collector of the kind its settings. *)
Fixpoint PollOnce (configs : list CollectorConfig) : P unit :=
  match configs with
  | [] => pret tt
  | c :: rest =>
    let^ _ := match co_ActivityWatch c with Some aw => pollAndRecord c aw | None => pret tt end in
    PollOnce rest
  end.
End Poll.

(** ** The manager *)
Section Manager.
Context `{FL : Floats}.

Definition is_activitywatch (c : CollectorConfig) : bool := co_Enabled c && String.eqb (co_Kind c) CollectorActivityWatch.
Definition activitywatch_collectors (cfg : Config) : list CollectorConfig := List.filter is_activitywatch (Collectors cfg).

Definition initial_status (c : CollectorConfig) : Status :=
  MkStatus (co_ID c) (co_Kind c) StatusUnavailable "" "" "" "" 0 0 0.
Definition initial_statuses (cfg : Config) : gmap string Status :=
  foldl (fun m c => <[co_ID c := initial_status c]> m) ∅ (activitywatch_collectors cfg).

(** The smallest [offline_after], zero when there is no collector. *)
Definition shorter_offline (m : duration) (c : CollectorConfig) : duration :=
  if (m =? 0) || (OfflineAfterDuration c <? m) then OfflineAfterDuration c else m.
Definition min_offline (l : list CollectorConfig) : duration := foldl shorter_offline 0 l.
Definition waves (n : Z) : Z :=
  let w := Z.quot (n + activityWatchPollConcurrency - 1) activityWatchPollConcurrency in if w <? 1 then 1 else w.
(** [NewWithFaultRecorder]: the time one poll may take. *)
Definition pollExecutionLimit (cfg : Config) : duration :=
  let l := activitywatch_collectors cfg in Z.quot (min_offline l) (waves (Z.of_nat (length l))).

(** The statuses by collector id. *)
Definition CollectorStatus (statuses : gmap string Status) : list Status :=
  sort_by (fun a b => String.ltb (cs_CollectorID a) (cs_CollectorID b)) (map snd (map_to_list statuses)).
End Manager.

(** The waves of polls a full set of collectors needs fit in the shortest
    [offline_after]. *)
Section Waves.
Context `{FL : Floats}.
Lemma min_offline_le l : forall m, 0 <= m -> Forall (fun c : CollectorConfig => 0 < OfflineAfterDuration c) l ->
  0 <= foldl shorter_offline m l /\ (0 < m -> foldl shorter_offline m l <= m) /\
  forall c, c ∈ l -> foldl shorter_offline m l <= OfflineAfterDuration c.
Proof.
  induction l as [|c l IH]; intros m Hm Hl; cbn [foldl]; [split; [done|]; split; [lia|]; by intros c Hc%elem_of_nil|].
  apply Forall_cons in Hl as [Hc Hl]. change duration with Z in *.
  assert (Hm' : 0 < shorter_offline m c /\ (0 < m -> shorter_offline m c <= m) /\ shorter_offline m c <= OfflineAfterDuration c).
  { unfold shorter_offline. change duration with Z in *. destruct (Z.eqb_spec m 0), (Z.ltb_spec (OfflineAfterDuration c) m); cbn; lia. }
  destruct (IH (shorter_offline m c)) as (H1 & H2 & H3); [lia|done|].
  change duration with Z in *. split; [done|]. split; [lia|]. intros x [->|Hx]%elem_of_cons; [lia|by apply H3].
Qed.

Lemma pollExecutionLimit_fits cfg c : c ∈ activitywatch_collectors cfg ->
  Forall (fun c : CollectorConfig => 0 < OfflineAfterDuration c) (activitywatch_collectors cfg) ->
  0 <= pollExecutionLimit cfg /\
  pollExecutionLimit cfg * waves (Z.of_nat (length (activitywatch_collectors cfg))) <= OfflineAfterDuration c.
Proof.
  intros Hc Hl. unfold pollExecutionLimit. destruct (min_offline_le _ 0 (Z.le_refl 0) Hl) as (H1 & _ & H3).
  fold (min_offline (activitywatch_collectors cfg)) in *. specialize (H3 c Hc). set (n := waves _).
  assert (Hn : 1 <= n). { unfold n, waves. cbv zeta. match goal with |- context [?w <? 1] => destruct (Z.ltb_spec w 1) end; lia. }
  clearbody n. change duration with Z in *. rewrite Z.quot_div_nonneg by lia.
  pose proof (Z.mul_div_le (min_offline (activitywatch_collectors cfg)) n). split; [apply Z.div_pos; lia|lia].
Qed.
End Waves.
