(* ===== verification/ActivityWatchFetch.v ===== *)
(** * Reading the pages of a bucket

    What [fetchEvents] returns against a server that answers each request with
    the newest events of the range: every event of the range once, in order, up to
    the first one that may still change. *)

From Stdlib Require Import ZArith Lia String Ascii.
From S2P Require Import Prelude GoStrings GoTime GoJson Order StrictJson Sql Schema Events Config Timeline TimelineSync ActivityWatch.
Open Scope string_scope.
Open Scope list_scope.
Open Scope result_scope.
Open Scope Z_scope.
Open Scope poll_scope.

(** ** Inversion of the monad *)
Lemma pbind_inv {A B} (m : P A) (k : A -> P B) b w w' : pbind m k w = (Ok b, w') ->
  exists a w1, m w = (Ok a, w1) /\ k a w1 = (Ok b, w').
Proof. unfold pbind. destruct (m w) as [[a|e] w1]; [eauto|done]. Qed.
Lemma pret_inv {A} (a b : A) w w' : pret a w = (Ok b, w') -> b = a /\ w' = w.
Proof. by intros [= <- <-]. Qed.
Lemma plift_inv {A} (r : result adapterError A) b w w' : plift r w = (Ok b, w') -> r = Ok b /\ w' = w.
Proof. by intros [= <- <-]. Qed.
Lemma pguard_inv {A} (b : bool) code text (k : P A) a w w' :
  (if b then k else pfail code text) w = (Ok a, w') -> b = true /\ k w = (Ok a, w').
Proof. by destruct b. Qed.
Ltac inv_p H :=
  let a := fresh "a" in let w := fresh "w" in let Hm := fresh "Hm" in
  lazymatch type of H with
  | pbind _ _ _ = (Ok _, _) => apply pbind_inv in H; destruct H as (a & w & Hm & H)
  | pret _ _ = (Ok _, _) => apply pret_inv in H; destruct H as [-> ->]
  | (if _ then _ else pfail _ _) _ = (Ok _, _) => apply pguard_inv in H; destruct H as [Hm H]
  | pfail _ _ _ = (Ok _, _) => discriminate H
  end.

(** ** Sameness of representations

    ActivityWatch may cut the duration of an event at the boundary of a page. *)
Section Same.
Context `{Float64}.
Definition same_event (a b : awEvent) : Prop :=
  ae_sourceID a = ae_sourceID b /\ ae_Timestamp a = ae_Timestamp b /\ ae_Data a = ae_Data b /\ ae_parsed a = ae_parsed b.
#[export] Instance same_event_equiv : Equivalence same_event.
Proof. split; [done|by intros a b (?&?&?&?)|intros a b c (?&?&?&?) (?&?&?&?); repeat split; congruence]. Qed.
Lemma same_event_refl e : same_event e e.
Proof. done. Qed.
#[local] Hint Resolve same_event_refl : core.

Definition covers (seen seen' : gmap Z awEvent) : Prop :=
  forall i e, seen !! i = Some e -> exists e', seen' !! i = Some e' /\ same_event e e'.
#[export] Instance covers_preorder : PreOrder covers.
Proof.
  split; [intros s i e He; by exists e|]. intros a b c Hab Hbc i e He. destruct (Hab _ _ He) as (e1 & H1 & ?).
  destruct (Hbc _ _ H1) as (e2 & H2 & ?). exists e2. split; [done|by etransitivity].
Qed.
Lemma covers_insert seen i e : (forall p, seen !! i = Some p -> same_event p e) -> covers seen (<[i := e]> seen).
Proof.
  intros Hp j x Hx. destruct (decide (i = j)) as [<-|Hne].
  - exists e. rewrite lookup_insert_eq. split; [done|by apply Hp].
  - exists x. by rewrite lookup_insert_ne.
Qed.
End Same.

(** ** One page *)
Section Page.
Context `{Float64}.
Context (queryStart start end_ : time) (eventLimit byteBudget : Z).
Abbreviation check := (check_event queryStart end_).
Abbreviation step := (page_event queryStart start end_ eventLimit byteBudget).
Abbreviation loop := (page_loop queryStart start end_ eventLimit byteBudget).
Abbreviation seen_of s := (ft_seen (ps_fetched s)).

Definition event_ok (e : awEvent) : Prop :=
  parse_rfc3339nano (ae_Timestamp e) = Some (ae_parsed e) /\ start <= ae_parsed e <= end_.
Definition seen_ok (seen : gmap Z awEvent) : Prop := forall i e, seen !! i = Some e -> ae_sourceID e = i /\ event_ok e.

Lemma check_event_inv e x : check e = Ok x ->
  parse_rfc3339nano (ae_Timestamp x) = Some (ae_parsed x) /\ queryStart <= ae_parsed x <= end_ /\
  re_ID e = Some (ae_sourceID x) /\ 0 <= ae_sourceID x.
Proof.
  unfold check_event. intros Hc. destruct (re_ID e) as [id|]; [|done]. destruct (re_Duration e) as [s|]; [|done].
  destruct (_ || _) eqn:E1; [done|]. destruct (parse_rfc3339nano _) as [t|] eqn:Et; [|done].
  inv_oks Hc. injection Hc as <-. to_prop. cbn. change time with Z in *. split; [done|]. split; [lia|]. split; [done|lia].
Qed.

Lemma page_event_spec s e s' : seen_ok (seen_of s) -> step s e = Ok s' ->
  exists x, check e = Ok x /\ seen_ok (seen_of s') /\ covers (seen_of s) (seen_of s') /\
    ps_oldest s' = Z.min (ae_parsed x) (ps_oldest s) /\
    (ps_reachedStart s' = true <-> ps_reachedStart s = true \/ ae_parsed x < start) /\
    (start <= ae_parsed x -> exists y, seen_of s' !! ae_sourceID x = Some y /\ same_event x y) /\
    (forall i y, seen_of s' !! i = Some y ->
       (exists p, seen_of s !! i = Some p /\ same_event p y) \/ (start <= ae_parsed x /\ same_event x y)).
Proof.
  intros Hok. unfold page_event. intros Hs. inv_ok Hs. rename a into x. exists x. split; [done|].
  destruct (check_event_inv _ _ Ha) as (Ht & Hr & _).
  set (oldest := if ae_parsed x <? ps_oldest s then ae_parsed x else ps_oldest s) in *.
  assert (Ho : oldest = Z.min (ae_parsed x) (ps_oldest s)).
  { unfold oldest. destruct (Z.ltb_spec (ae_parsed x) (ps_oldest s)); lia. }
  clearbody oldest. destruct (Z.ltb_spec (ae_parsed x) start) as [Hb|Hb].
  { injection Hs as <-. cbn. split; [done|]. split; [reflexivity|]. split; [done|]. split; [split; auto|].
    split; [lia|]. intros i y Hy. left. by exists y. }
  unfold keep_event in Hs. destruct (ps_fetched s) as [seen used] eqn:Ef. cbn in *.
  assert (Hnew : seen_ok (<[ae_sourceID x := x]> seen)).
  { intros i y. destruct (decide (ae_sourceID x = i)) as [<-|]; [rewrite lookup_insert_eq|rewrite lookup_insert_ne by done].
    - intros [= <-]. unfold event_ok. split; [done|]. split; [done|lia].
    - apply Hok. }
  assert (Hins : forall p, (seen !! ae_sourceID x = Some p -> same_event p x) ->
    forall i y, <[ae_sourceID x := x]> seen !! i = Some y ->
      (exists p, seen !! i = Some p /\ same_event p y) \/ (start <= ae_parsed x /\ same_event x y)).
  { intros _ _ i y. destruct (decide (ae_sourceID x = i)) as [<-|]; [rewrite lookup_insert_eq|rewrite lookup_insert_ne by done].
    - intros [= <-]. by right.
    - intros Hy. left. by exists y. }
  destruct (seen !! ae_sourceID x) as [p|] eqn:Ep.
  - inv_ok Hs. injection Hs as <-. to_prop. destruct (Hok _ _ Ep) as [Hid [Hp _]].
    assert (Hsame : same_event p x). { split; [done|]. split; [done|]. split; [done|]. congruence. }
    destruct (float_lt _ _); cbn.
    + split; [done|]. split; [by apply covers_insert; intros ? [= <-]%(eq_trans (eq_sym Ep))|].
      split; [done|]. split; [split; [auto|intros [?|?]; [done|lia]]|].
      split; [intros _; exists x; by rewrite lookup_insert_eq|]. by apply (Hins x).
    + split; [done|]. split; [reflexivity|]. split; [done|]. split; [split; [auto|intros [?|?]; [done|lia]]|].
      split; [intros _; exists p; by rewrite Ep|]. intros i y Hy. left. by exists y.
  - inv_ok Hs. injection Hs as <-. cbn. split; [done|].
    split; [by apply covers_insert; intros ? [=]%(eq_trans (eq_sym Ep))|].
    split; [done|]. split; [split; [auto|intros [?|?]; [done|lia]]|].
    split; [intros _; exists x; by rewrite lookup_insert_eq|]. by apply (Hins x).
Qed.

Lemma page_loop_spec page : forall s s', seen_ok (seen_of s) -> loop s page = Ok s' ->
  seen_ok (seen_of s') /\ covers (seen_of s) (seen_of s') /\ ps_oldest s' <= ps_oldest s /\
  (ps_reachedStart s' = true -> ps_reachedStart s = true \/ exists e x, e ∈ page /\ check e = Ok x /\ ae_parsed x < start) /\
  (forall e, e ∈ page -> exists x, check e = Ok x /\
     (start <= ae_parsed x -> exists y, seen_of s' !! ae_sourceID x = Some y /\ same_event x y)) /\
  (forall i y, seen_of s' !! i = Some y -> (exists p, seen_of s !! i = Some p /\ same_event p y) \/
     exists e x, e ∈ page /\ check e = Ok x /\ start <= ae_parsed x /\ same_event x y) /\
  (forall t, t <= ps_oldest s -> (forall e x, e ∈ page -> check e = Ok x -> t <= ae_parsed x) -> t <= ps_oldest s').
Proof.
  induction page as [|e rest IH]; intros s s' Hok Hl; cbn in Hl.
  - injection Hl as <-. split; [done|]. split; [reflexivity|]. split; [lia|]. split; [auto|].
    split; [by intros e He%elem_of_nil|]. split; [|auto]. intros i y Hy. left. by exists y.
  - inv_ok Hl. rename a into s1.
    destruct (page_event_spec _ _ _ Hok Ha) as (x & Hx & Hok1 & Hc1 & Ho1 & Hr1 & Hin1 & Hsrc1).
    destruct (IH _ _ Hok1 Hl) as (Hok2 & Hc2 & Ho2 & Hr2 & Hin2 & Hsrc2 & Hlow2).
    split; [done|]. split; [by etransitivity|]. split; [lia|]. split; [|split; [|split]].
    + intros Hr. destruct (Hr2 Hr) as [Hr'|(e' & x' & ? & ? & ?)].
      * apply Hr1 in Hr' as [?|?]; [by left|]. right. exists e, x. split; [left|done].
      * right. exists e', x'. split; [by right|done].
    + intros e' [->|He']%elem_of_cons; [|by apply Hin2]. exists x. split; [done|]. intros Hs.
      destruct (Hin1 Hs) as (y & Hy & Hxy). destruct (Hc2 _ _ Hy) as (y' & Hy' & Hyy').
      exists y'. split; [done|by etransitivity].
    + intros i y Hy. destruct (Hsrc2 _ _ Hy) as [(p & Hp & Hpy)|(e' & x' & ? & ?)].
      * destruct (Hsrc1 _ _ Hp) as [(p0 & Hp0 & ?)|[? ?]].
        -- left. exists p0. split; [done|by etransitivity].
        -- right. exists e, x. split; [left|]. split; [done|]. split; [done|by etransitivity].
      * right. exists e', x'. split; [by right|done].
    + intros t Ht Hall. apply Hlow2; [|intros; eapply Hall; [by right|done]].
      rewrite Ho1. assert (t <= ae_parsed x) by (eapply Hall; [left|done]). lia.
Qed.
End Page.

(** ** The pages *)
Section Fetch.
Context `{FT : FloatText} {sur : Surroundings} `{UR : Urls}.
Context (aw : ActivityWatchConfig) (start end_ : time) (eventLimit byteBudget : Z) (history : list awEvent).
Abbreviation check := (check_event (query_start start) end_).

(** A server that holds [history] answers a request for the events from [qs]
    with events of it, an event that begins earlier being cut to begin at [qs],
    and with every event from [qs] to [pageEnd] unless it has filled the page
    with later ones. *)
Definition serves (qs : time) : Prop := forall n pageEnd resp page,
  response n (page_endpoint aw qs pageEnd) = Some resp -> decode_page (hr_body resp) = Some page ->
  (forall e x, e ∈ page -> check_event qs end_ e = Ok x ->
     (exists h, h ∈ history /\ same_event h x) \/ ae_parsed x = qs) /\
  (forall h, h ∈ history -> qs <= ae_parsed h <= pageEnd ->
     (exists e x, e ∈ page /\ check_event qs end_ e = Ok x /\ same_event h x)
     \/ (Z.of_nat (length page) = aw_PageSize aw
         /\ forall e x, e ∈ page -> check_event qs end_ e = Ok x -> ae_parsed h <= ae_parsed x)).

Lemma query_start_before : query_start start < start.
Proof. unfold query_start. pose proof (Z.mod_pos_bound start millisecond eq_refl). change time with Z in *. unfold millisecond in *. lia. Qed.

(** Asked from [query_start start], what it answers from [start] on is whole. *)
Lemma serves_from n pageEnd resp page : serves (query_start start) ->
  response n (page_endpoint aw (query_start start) pageEnd) = Some resp -> decode_page (hr_body resp) = Some page ->
  (forall e x, e ∈ page -> check e = Ok x -> start <= ae_parsed x -> exists h, h ∈ history /\ same_event h x) /\
  (forall h, h ∈ history -> start <= ae_parsed h <= pageEnd ->
     (exists e x, e ∈ page /\ check e = Ok x /\ same_event h x)
     \/ (Z.of_nat (length page) = aw_PageSize aw
         /\ forall e x, e ∈ page -> check e = Ok x -> ae_parsed h <= ae_parsed x)).
Proof.
  intros Hs Hr Hp. destruct (Hs _ _ _ _ Hr Hp) as [H1 H2]. pose proof query_start_before as Hb. change time with Z in *.
  split; [|intros h Hh Ht; apply H2; [done|lia]]. intros e x He Hx Ht. destruct (H1 _ _ He Hx) as [?|E]; [done|lia].
Qed.

Lemma getJSON_inv {A} endpoint limit (dec : string -> option A) a w w' :
  getJSON endpoint limit dec w = (Ok a, w') ->
  exists resp, response (p_step w) endpoint = Some resp /\ dec (hr_body resp) = Some a /\ p_step w' = S (p_step w).
Proof.
  unfold getJSON. intros Hr. inv_p Hr. injection Hm as <- <-. cbv beta iota in Hr.
  destruct (response (p_step w) endpoint) as [resp|]; [|done]. inv_p Hr.
  destruct (_ <? _); [done|]. destruct (hr_broken resp); [done|]. inv_p Hr. inv_p Hr.
  destruct (dec (hr_body resp)) eqn:E; [|done]. inv_p Hr. eauto.
Qed.

Lemma fetch_pages_seen pages : forall pageEnd full f w full' f' w', seen_ok start end_ (ft_seen f) ->
  fetch_pages pages aw (query_start start) start end_ eventLimit byteBudget pageEnd full f w = (Ok (full', f'), w') ->
  seen_ok start end_ (ft_seen f').
Proof.
  induction pages as [|n IH]; intros pageEnd full f w full' f' w' Hok Hr; cbn [fetch_pages] in Hr.
  - by injection Hr as _ <- _.
  - inv_p Hr. destruct (_ =? _)%nat; [by injection Hr as _ <- _|]. inv_p Hr. apply plift_inv in Hm0 as [Hl ->].
    apply page_loop_spec in Hl as [Hok' _]; [|done]. destruct (_ || _); [by injection Hr as _ <- _|]. inv_p Hr. by eapply IH.
Qed.

Context (Hserves : serves (query_start start)).
Definition found (seen : gmap Z awEvent) (h : awEvent) : Prop :=
  exists y, seen !! ae_sourceID h = Some y /\ same_event h y.
Record pages_ok (pageEnd : time) (seen : gmap Z awEvent) : Prop := {
  po_ok : seen_ok start end_ seen;
  po_source : forall i y, seen !! i = Some y -> exists h, h ∈ history /\ same_event h y;
  po_end : pageEnd <= end_;
  po_found : forall h, h ∈ history -> start <= ae_parsed h <= end_ -> found seen h \/ ae_parsed h <= pageEnd }.

Lemma found_covers seen seen' h : covers seen seen' -> found seen h -> found seen' h.
Proof.
  intros Hc (y & Hy & Hs). destruct (Hc _ _ Hy) as (y' & Hy' & ?). exists y'. split; [done|by etransitivity].
Qed.

(** After a page either everything is found, or what is not lies before the new
    end. *)
Lemma page_ok n pageEnd resp page f s :
  response n (page_endpoint aw (query_start start) pageEnd) = Some resp -> decode_page (hr_body resp) = Some page ->
  pages_ok pageEnd (ft_seen f) ->
  page_loop (query_start start) start end_ eventLimit byteBudget (PageState f pageEnd 0 false) page = Ok s ->
  pages_ok (ps_oldest s) (ft_seen (ps_fetched s)) /\
  (ps_reachedStart s = true \/ Z.of_nat (length page) <> aw_PageSize aw ->
   forall h, h ∈ history -> start <= ae_parsed h <= end_ -> found (ft_seen (ps_fetched s)) h).
Proof.
  intros Hresp Hpage [Hok Hsrc Hend Hfound] Hl.
  destruct (serves_from _ _ _ _ Hserves Hresp Hpage) as [Hfrom Hall].
  destruct (page_loop_spec _ _ _ _ _ page (PageState f pageEnd 0 false) s Hok Hl) as (Hok' & Hc & Ho & Hr & Hin & Hsrc' & Hlow). cbn in *.
  assert (Hput : forall h e x, e ∈ page -> check e = Ok x -> same_event h x -> start <= ae_parsed h ->
    found (ft_seen (ps_fetched s)) h).
  { intros h e x He Hx Hs Hst. destruct (Hin _ He) as (x' & Hx' & Hk). rewrite Hx in Hx'. injection Hx' as <-.
    destruct Hs as (E1 & E2 & E3 & E4). destruct Hk as (y & Hy & Hxy); [by rewrite <- E4|].
    exists y. rewrite E1. split; [done|]. transitivity x; [done|done]. }
  split; [split|].
  - done.
  - intros i y Hy. destruct (Hsrc' _ _ Hy) as [(p & Hp & Hpy)|(e & x & He & Hx & Hs & Hxy)].
    + destruct (Hsrc _ _ Hp) as (h & Hh & ?). exists h. split; [done|by etransitivity].
    + destruct (Hfrom _ _ He Hx Hs) as (h & Hh & ?). exists h. split; [done|by etransitivity].
  - change time with Z in *. lia.
  - intros h Hh Ht. destruct (Hfound h Hh Ht) as [Hf|Hle]; [left; by eapply found_covers|].
    destruct (Hall h Hh) as [(e & x & He & Hx & Hs)|[_ Hmin]]; [change time with Z in *; lia|..].
    + left. eapply Hput; [done..|]. apply Ht.
    + right. by apply Hlow.
  - intros Hstop h Hh Ht. destruct (Hfound h Hh Ht) as [Hf|Hle]; [by eapply found_covers|].
    destruct (Hall h Hh) as [(e & x & He & Hx & Hs)|[Hlen Hmin]]; [change time with Z in *; lia| |].
    + eapply Hput; [done..|]. apply Ht.
    + destruct Hstop as [Hstop|]; [|done]. destruct (Hr Hstop) as [?|(e & x & He & Hx & Hlt)]; [done|].
      specialize (Hmin _ _ He Hx). change time with Z in *. lia.
Qed.

Context (Hsize : 0 < aw_PageSize aw).

Lemma fetch_pages_ok pages : forall pageEnd full f w f' w',
  (pages = O -> full = true) -> pages_ok pageEnd (ft_seen f) ->
  fetch_pages pages aw (query_start start) start end_ eventLimit byteBudget pageEnd full f w = (Ok (false, f'), w') ->
  seen_ok start end_ (ft_seen f') /\ (forall i y, ft_seen f' !! i = Some y -> exists h, h ∈ history /\ same_event h y) /\
  (forall h, h ∈ history -> start <= ae_parsed h <= end_ -> found (ft_seen f') h) /\
  (p_step w' <= p_step w + pages)%nat.
Proof.
  induction pages as [|n IH]; intros pageEnd full f w f' w' Hz Hok Hr; cbn [fetch_pages] in Hr.
  - injection Hr as Hf <- <-. by rewrite Hz in Hf.
  - inv_p Hr. rename a into page. apply getJSON_inv in Hm as (resp & Hresp & Hpage & Hstep).
    destruct (Nat.eqb_spec (length page) 0) as [E|E].
    + apply pret_inv in Hr as [[= ->] ->]. apply nil_length_inv in E as ->.
      destruct (page_ok _ _ _ _ _ _ Hresp Hpage Hok eq_refl) as [[H1 H2 _ _] H3].
      split; [done|]. split; [done|]. split; [apply H3; right; cbn; lia|lia].
    + inv_p Hr. apply plift_inv in Hm as [Hl ->]. rename a into s.
      destruct (page_ok _ _ _ _ _ _ Hresp Hpage Hok Hl) as [Hok' Hall].
      destruct (_ || _) eqn:Estop.
      * apply pret_inv in Hr as [[= ->] ->]. destruct Hok' as [H1 H2 _ _].
        split; [done|]. split; [done|]. split; [apply Hall|lia].
        apply orb_true_iff in Estop as [?|Hlen]; [by left|]. right. to_prop. done.
      * inv_p Hr. apply IH in Hr as (H1 & H2 & H3 & H4); [|done|done]. split; [done|]. split; [done|]. split; [done|lia].
Qed.

Lemma fetched_keys_distinct seen : seen_ok start end_ seen ->
  NoDup (map (fun e => (ae_parsed e, ae_sourceID e)) (map snd (map_to_list seen))).
Proof.
  intros Hok. apply (NoDup_fmap_1 snd). change (map ?f ?l) with (f <$> l). rewrite <- !list_fmap_compose.
  erewrite list_fmap_ext; [apply NoDup_fst_map_to_list|]. intros i [k e] Hi. cbn.
  apply list_elem_of_lookup_2, elem_of_map_to_list in Hi. by apply Hok.
Qed.
End Fetch.

(** ** The list that is returned *)
Section Order.
Context `{Float64}.
Abbreviation tuple_of := (fun e => (ae_parsed e, ae_sourceID e)).
Abbreviation tuple_compare := (lex_compare Z.compare Z.compare).
Definition in_order (l : list awEvent) : Prop := StronglySorted (fun a b => event_lt a b = true) l.

Lemma event_lt_before a b : event_lt a b = before tuple_compare (tuple_of a) (tuple_of b).
Proof.
  unfold event_lt, before, lex_compare. cbn. destruct (Z.compare_spec (ae_parsed a) (ae_parsed b)) as [E|E|E].
  - rewrite (proj2 (Z.eqb_eq _ _) E). cbn. unfold Z.ltb. by destruct (_ ?= _).
  - rewrite (proj2 (Z.eqb_neq _ _)) by lia. by rewrite (proj2 (Z.ltb_lt _ _) E).
  - rewrite (proj2 (Z.eqb_neq _ _)) by lia. apply Z.ltb_ge. lia.
Qed.
Lemma sort_events_in_order l : NoDup (map tuple_of l) -> in_order (sort_by event_lt l).
Proof.
  intros Hd. pose proof (by_key_strict tuple_compare tuple_of l Hd) as Hs. unfold by_key in Hs.
  assert (E : sort_by event_lt l = sort_by (fun x y => before tuple_compare (tuple_of x) (tuple_of y)) l).
  { apply sort_by_ext. intros a b. apply event_lt_before. }
  unfold in_order. rewrite E. eapply StronglySorted_impl; [|exact Hs]. intros a b Hab. rewrite event_lt_before. exact Hab.
Qed.

(** The stable prefix: it ends where the list ends or before an event that has
    not ended. *)
Lemma stable_prefix_spec end_ l : exists rest, l = stable_prefix end_ l ++ rest /\
  Forall (fun e => event_end e < end_) (stable_prefix end_ l) /\
  (forall e tail, rest = e :: tail -> end_ <= event_end e).
Proof.
  induction l as [|e l (rest & E & Hf & Hr)]; cbn; [by exists []|].
  destruct (Z.ltb_spec (event_end e) end_).
  - exists rest. cbn. split; [by f_equal|]. split; [by constructor|done].
  - exists (e :: l). split; [done|]. split; [constructor|]. intros e' t [= <- <-]. done.
Qed.
End Order.

Section Fetched.
Context `{FT : FloatText} {sur : Surroundings} `{UR : Urls}.

(** C21: against a server that holds [history] ([serves]), with a page size and a page bound that are
    positive, a fetch that succeeds has read every event of the bucket in the range
    from [start] to [end_] exactly once, and nothing else: in the order of time and
    id they form a list whose part before the first event that has not ended is
    what the fetch returns.  It sends at most [aw_MaxPagesPerPoll] requests. *)
Theorem fetchEvents_complete aw start end_ eventLimit byteBudget history w l w'
    (Hserves : serves aw end_ history (query_start start)) (Hsize : 0 < aw_PageSize aw) (Hpages : 0 < aw_MaxPagesPerPoll aw)
    (Hrun : fetchEvents aw start end_ eventLimit byteBudget w = (Ok l, w')) :
  (p_step w' <= p_step w + Z.to_nat (aw_MaxPagesPerPoll aw))%nat /\
  exists rest, in_order (l ++ rest) /\
    (forall e, e ∈ l ++ rest -> start <= ae_parsed e <= end_ /\ exists h, h ∈ history /\ same_event h e) /\
    (forall h, h ∈ history -> start <= ae_parsed h <= end_ -> exists e, e ∈ l ++ rest /\ same_event h e) /\
    Forall (fun e => event_end e < end_) l /\ (forall e tail, rest = e :: tail -> end_ <= event_end e).
Proof.
  unfold fetchEvents in Hrun. inv_p Hrun. destruct a as [full f]. inv_p Hrun. to_prop. subst full. inv_p Hrun.
  apply (fetch_pages_ok _ _ _ _ _ history Hserves Hsize) in Hm as (Hok & Hsrc & Hall & Hstep).
  2: { intros E. lia. }
  2: { split; cbn; [by intros i e He|by intros i e He|done|intros h _ Hh; right; apply Hh]. }
  split; [done|].
  set (all := sort_by event_lt (map snd (map_to_list (ft_seen f)))).
  assert (Hin : forall e, e ∈ all <-> exists i, ft_seen f !! i = Some e).
  { intros e. unfold all. rewrite (sort_by_perm event_lt). split.
    - intros ([i x] & -> & Hx)%list_elem_of_fmap. apply elem_of_map_to_list in Hx. by exists i.
    - intros [i Hi]. apply list_elem_of_fmap. exists (i, e). split; [done|]. by apply elem_of_map_to_list. }
  destruct (stable_prefix_spec end_ all) as (rest & E & Hended & Hnext). exists rest. rewrite <- E. split; [|split; [|split; [|done]]].
  - by apply sort_events_in_order, (fetched_keys_distinct start end_).
  - intros e [i Hi]%Hin. split; [apply (Hok _ _ Hi)|]. by eapply Hsrc.
  - intros h Hh Ht. destruct (Hall h Hh Ht) as (y & Hy & Hs). exists y. split; [apply Hin; eauto|done].
Qed.
End Fetched.

(** ** A bucket of three events read in pages of two *)
#[export] Instance whole_texts : FloatText := {| float_bits_hex := format_int; float_json := format_int |}.
#[export] Instance plain_urls : Urls := {| url_with_query u q := u +:+ "?" +:+ q |}.

Definition page_text (l : list (Z * string)) : string :=
  "[" +:+ join "," (map (fun e => quoted ("{'id':" +:+ format_int (fst e) +:+ ",'timestamp':'2024-02-29T12:00:"
     +:+ snd e +:+ "Z','duration':5,'data':{}}")) l) +:+ "]".
Definition window_bucket (pageSize : Z) : ActivityWatchConfig :=
  MkActivityWatch "http://127.0.0.1:5600" "window" "10s" "1s" "1h" "1m" pageSize 4 65536 0.
Definition minute_end : time := noon + minute.
Definition three_events : list (Z * string) := [(3, "03"); (2, "02"); (1, "01")].
(** The newest events up to the end that is asked for, two at a time. *)
Definition three_pages (url : string) : string :=
  let at_ e := String.eqb url (page_endpoint (window_bucket 2) (query_start noon) e) in
  if at_ minute_end || at_ (noon + 8 * second) then page_text (take 2 three_events)
  else if at_ (noon + 2 * second) then page_text (drop 1 three_events)
  else page_text (drop 2 three_events).
Definition answering (f : string -> string) : Surroundings := {|
  response _ url := Some (HttpResponse 200 (f url) false); poll_clock n := minute_end + Z.of_nat n;
  import_gate _ := None; slot _ := SlotAcquired; http_error_text _ := "connection refused";
  store_error_text := ErrorCode |}.
Definition start_world (d : database) : pworld := PollWorld d [] 0 ∅ [].

Example three_pages_example :
  let run := fetchEvents (sur := answering three_pages) (window_bucket 2) noon minute_end 100 65536 (start_world empty_database) in
  (rmap (map ae_sourceID) (fst run), p_step (snd run)) = (Ok [1; 2; 3], 3%nat).
Proof. reflexivity. Qed.
(** The event that still runs at the end of the range is left for a later poll. *)
Example open_event_example :
  rmap (map ae_sourceID) (fst (fetchEvents (sur := answering three_pages) (window_bucket 2) noon (noon + 8 * second) 100 65536
    (start_world empty_database))) = Ok [1; 2].
Proof. reflexivity. Qed.

(** A bucket whose events fit one page. *)
Definition one_page (url : string) : string := page_text three_events.
Definition three_history : list awEvent :=
  map (fun e => AwEvent (fst e) ("2024-02-29T12:00:" +:+ snd e +:+ "Z") 5 "{}" (noon + fst e * second)) three_events.

Definition raw_of (h : awEvent) : rawEvent := RawEvent (Some (ae_sourceID h)) (ae_Timestamp h) (Some (ae_sourceDuration h)) (ae_Data h).

Lemma one_page_serves : serves (sur := answering one_page) (window_bucket 5) minute_end three_history (query_start noon).
Proof.
  intros n pageEnd resp page [= <-] Hpage.
  assert (E : decode_page (page_text three_events) = Some (map raw_of three_history)) by reflexivity.
  assert (page = map raw_of three_history) as ->.
  { change (decode_page (page_text three_events) = Some page) in Hpage. rewrite E in Hpage. by injection Hpage. }
  clear Hpage E.
  assert (Hc : Forall (fun h => check_event (query_start noon) minute_end (raw_of h) = Ok h) three_history)
    by (repeat (constructor; [reflexivity|]); constructor).
  rewrite Forall_forall in Hc. split.
  - intros e x (h & -> & Hh)%list_elem_of_fmap Hx. left. rewrite (Hc h Hh) in Hx. injection Hx as <-. by exists h.
  - intros h Hh _. left. eexists _, h. split; [by apply list_elem_of_fmap; exists h|]. by split; [apply Hc|].
Qed.

Definition one_page_run :=
  fetchEvents (sur := answering one_page) (window_bucket 5) noon minute_end 100 65536 (start_world empty_database).
Lemma fetchEvents_complete_witness :
  exists l w', one_page_run = (Ok l, w') /\ map ae_sourceID l = [1; 2; 3] /\ (p_step w' <= 0 + 4)%nat.
Proof.
  assert (Hids : rmap (map ae_sourceID) (fst one_page_run) = Ok [1; 2; 3]) by (vm_compute; reflexivity).
  destruct one_page_run as [[l|e] w'] eqn:E; [|discriminate Hids].
  destruct (fetchEvents_complete _ _ _ _ _ _ _ _ _ one_page_serves eq_refl eq_refl E) as [Hstep _].
  exists l, w'. split; [reflexivity|]. split; [|exact Hstep]. by injection Hids.
Defined.
