(* ===== verification/ActivityWatchPoll.v ===== *)
(** * What a poll leaves in the store

    Whatever fails in the middle of it, a poll only adds events, and the checkpoint
    never passes an event that is not in the store. *)

From Stdlib Require Import ZArith Lia String Ascii.
From S2P Require Import Prelude GoStrings GoTime GoJson Order StrictJson FlatJson GoTimeFacts Sql Schema Keyed Events Heartbeats Query Platform Config OpsStore Timeline TimelineSync ActivityWatch ActivityWatchFetch.
Open Scope string_scope.
Open Scope list_scope.
Open Scope result_scope.
Open Scope Z_scope.
Open Scope poll_scope.

(** ** The fixed layout has four digits for the year *)
Lemma num_digits_five (a : Z) : 9999 < a -> exists n, Nat.max 4 (num_digits 20 a) = (5 + n)%nat.
Proof.
  intros Ha. assert (exists n, num_digits 20 a = (5 + n)%nat) as [n ->]; [|exists n; lia].
  assert (Hs : forall f z, 10 <= z -> num_digits (S f) z = S (num_digits f (z / 10))).
  { intros f z Hz. cbn [num_digits]. by rewrite (proj2 (Z.ltb_ge z 10)) by lia. }
  assert (10 <= a / 10) by (apply Z.div_le_lower_bound; lia).
  assert (10 <= a / 10 / 10) by (rewrite Z.div_div by lia; apply Z.div_le_lower_bound; lia).
  assert (10 <= a / 10 / 10 / 10) by (rewrite !Z.div_div by lia; apply Z.div_le_lower_bound; lia).
  rewrite !Hs by lia. destruct (num_digits_pos 16 (a / 10 / 10 / 10 / 10)) as [n ->]. by exists n.
Qed.

Lemma fifth_digit n z s : exists d t, sdrop 4 (digits_pad (5 + n) z +:+ s) = String d t /\ is_digit d = true.
Proof.
  revert z s. induction n as [|n IH]; intros z s; cbn [Nat.add]; rewrite digits_pad_succ; [|apply IH].
  rewrite sdrop_pad. eexists _, _. split; [reflexivity|]. apply digit_chr. apply Z.mod_pos_bound. lia.
Qed.

Lemma expect_digit d u : is_digit d = true -> expect "-" (String d u) = None.
Proof.
  intros Hd. unfold expect.
  change (String.prefix "-" (String d u)) with (if ascii_dec "-" d then String.prefix "" u else false).
  destruct (ascii_dec "-" d) as [<-|]; done.
Qed.

Lemma parse_fixed_year t t' : parse_fixed (format_fixed t) = Some t' -> four_digit_year t.
Proof.
  unfold four_digit_year. rewrite <- yr_civil_of. unfold format_fixed, date_time_string, parse_fixed. cbv zeta.
  rewrite sappend_assoc.
  match goal with |- context [(format_year _ ++ ?r)%string] => generalize r end. intros rest.
  generalize (yr (civil_of t)). intros y Hp. apply obind_Some in Hp as ([c s] & Hp & _).
  unfold parse_date_time in Hp. apply oguard_Some in Hp as [Hd Hp]. apply obind_Some in Hp as (n & _ & Hp).
  apply obind_Some in Hp as (s1 & Hp & _). unfold format_year in *. destruct (Z.ltb_spec y 0); [done|].
  destruct (Z.le_gt_cases y 9999) as [?|Hy]; [lia|]. rewrite Z.abs_eq in Hp by lia.
  destruct (num_digits_five y) as [k Hk]; [lia|]. rewrite Hk in Hp.
  destruct (fifth_digit k y rest) as (d & u & E & Hdig). rewrite E in Hp.
  by rewrite (expect_digit d u Hdig) in Hp.
Qed.

(** ** What the steps of a poll do to the database *)
Section Keeps.
Context `{SJ : SqliteJson}.

Definition tables_ok (d : database) : Prop := table_ok events_table d /\ table_ok heartbeats_table d.
(** Events are only added, and the checkpoints stay. *)
Definition adds (d d' : database) : Prop :=
  tables_ok d -> tables_ok d' /\ raw_events d `prefix_of` raw_events d' /\
    activitywatch_checkpoints d' = activitywatch_checkpoints d.
#[export] Instance adds_preorder : PreOrder adds.
Proof.
  split; [by intros d ?|]. intros a b c Hab Hbc Ha. destruct (Hab Ha) as (Hb & Hp & E). destruct (Hbc Hb) as (Hc & Hp' & E').
  split; [done|]. split; [by etransitivity|congruence].
Qed.

Lemma adds_AppendBatch st t cs d o r d' o' : AppendBatch st t cs d o = (r, d', o') -> adds d d'.
Proof.
  intros Hrun [Hok Hh]. destruct r as [rs|e].
  - destruct (append_batch_correct events_table _ _ _ _ _ _ _ _ _ _ Hok Hrun) as (Hok' & [rows ->] & _).
    split; [by split|]. split; [by exists rows|done].
  - apply append_batch_atomic in Hrun as ->. done.
Qed.
Lemma adds_AppendHeartbeatBatch st t cs d o r d' o' : AppendHeartbeatBatch st t cs d o = (r, d', o') -> adds d d'.
Proof.
  intros Hrun [Hok Hh]. destruct r as [rs|e].
  - destruct (append_batch_correct heartbeats_table _ _ _ _ _ _ _ _ _ _ Hh Hrun) as (Hok' & [rows ->] & _). done.
  - apply append_batch_atomic in Hrun as ->. done.
Qed.

(** A computation whose every run, failing ones too, only adds. *)
Definition adding {A} (m : P A) : Prop := forall w r w', m w = (r, w') -> adds (p_db w) (p_db w').

Lemma adding_bind {A B} (m : P A) (k : A -> P B) : adding m -> (forall a, adding (k a)) -> adding (pbind m k).
Proof.
  intros Hm Hk w r w'. unfold pbind. destruct (m w) as [[a|e] w1] eqn:E.
  - intros Hr. etransitivity; [by eapply Hm|by eapply Hk].
  - intros [= _ <-]. by eapply Hm.
Qed.
Lemma adding_same {A} (m : P A) : (forall w, p_db (snd (m w)) = p_db w) -> adding m.
Proof. intros Hm w r w' E. specialize (Hm w). rewrite E in Hm. cbn in Hm. by rewrite Hm. Qed.
Lemma adding_pret {A} (a : A) : adding (pret a).
Proof. by apply adding_same. Qed.
Lemma adding_pfail {A} code text : adding (@pfail A code text).
Proof. by apply adding_same. Qed.
Lemma adding_plift {A} (r : result adapterError A) : adding (plift r).
Proof. by apply adding_same. Qed.
Lemma adding_attempt {A} (m : P A) : adding m -> adding (attempt m).
Proof. intros Hm w r w'. unfold attempt. destruct (m w) eqn:E. intros [= _ <-]. by eapply Hm. Qed.
Lemma adding_ask {A} (f : nat -> A) : adding (ask f).
Proof. by apply adding_same. Qed.
Lemma adding_store {A} (m : M database A) :
  (forall d o r d' o', m d o = (r, d', o') -> adds d d') -> adding (store m).
Proof. intros Hm w r w'. unfold store. destruct (m _ _) as [[r' d'] o'] eqn:E. intros [= _ <-]. by eapply Hm. Qed.
Lemma adding_query {A} (m : M database A) :
  (forall d o r d' o', m d o = (r, d', o') -> d' = d) -> adding (store m).
Proof. intros Hm. apply adding_store. intros d o r d' o' ->%Hm. reflexivity. Qed.
End Keeps.

Lemma Load_same id b d o r d' o' : LoadActivityWatchCheckpoint id b d o = (r, d', o') -> d' = d.
Proof.
  unfold LoadActivityWatchCheckpoint, mbind, query, stmt. destruct o as [|[f|] o]; cbn; [|by intros [= _ <- _]|];
    (destruct (find_checkpoint id d) as [k|]; [destruct (String.eqb _ _)|]; by intros [= _ <- _]).
Qed.
Lemma QueryEventFamily_same id k d o r d' o' : QueryEventFamily id k d o = (r, d', o') -> d' = d.
Proof.
  unfold QueryEventFamily, mbind, query, stmt. destruct o as [|[f|] o]; cbn [tail]; [|by intros [= _ <- _]|];
    (destruct (1024 <? _); by intros [= _ <- _]).
Qed.

Create HintDb adding.
#[export] Hint Resolve adding_pret adding_pfail adding_plift adding_ask adding_attempt : adding.
Ltac add_step :=
  lazymatch goal with
  | |- adding (pbind _ _) => apply adding_bind; [|intros ?]
  | |- adding (match ?x with _ => _ end) => destruct x eqn:?
  | |- adding (let '(_, _) := ?x in _) => destruct x
  | |- adding _ => solve [auto with adding]
  end.
Ltac add := repeat (cbv beta zeta; add_step).

Section Steps.
Context `{SJ : SqliteJson} `{FL : Floats} `{FT : FloatText} {sur : Surroundings} `{UR : Urls} (st : Store).

Lemma adding_stored_batch t cs : adding (stored (AppendBatch st t cs)).
Proof. unfold stored. apply adding_bind; [|intros ?; add]. apply adding_store. intros *. apply adds_AppendBatch. Qed.
Lemma adding_stored_heartbeat t cs : adding (stored (AppendHeartbeatBatch st t cs)).
Proof. unfold stored. apply adding_bind; [|intros ?; add]. apply adding_store. intros *. apply adds_AppendHeartbeatBatch. Qed.
Lemma adding_stored_load id b : adding (stored (LoadActivityWatchCheckpoint id b)).
Proof. unfold stored. apply adding_bind; [|intros ?; add]. apply adding_query. intros *. apply Load_same. Qed.
Lemma adding_stored_family id k : adding (stored (QueryEventFamily id k)).
Proof. unfold stored. apply adding_bind; [|intros ?; add]. apply adding_query. intros *. apply QueryEventFamily_same. Qed.
#[local] Hint Resolve adding_stored_batch adding_stored_heartbeat adding_stored_load adding_stored_family : adding.

Lemma adding_ensure : adding ensureCoreWritesAllowed.
Proof. unfold ensureCoreWritesAllowed. add. Qed.
Lemma adding_now : adding now.
Proof. apply adding_ask. Qed.
#[local] Hint Resolve adding_ensure adding_now : adding.
Lemma adding_getJSON {A} url limit (dec : string -> option A) : adding (getJSON url limit dec).
Proof. unfold getJSON. add. Qed.
Lemma adding_fetchBucket aw : adding (fetchBucket aw).
Proof. unfold fetchBucket. apply adding_bind; [apply adding_getJSON|]. intros b. add. Qed.
Lemma adding_heartbeat c aw s e : adding (appendPollHeartbeat st c aw s e).
Proof. unfold appendPollHeartbeat. add. Qed.
Lemma adding_revision c aw b e i : adding (appendActivityWatchDurationRevision st c aw b e i).
Proof. unfold appendActivityWatchDurationRevision. add. Qed.
#[local] Hint Resolve adding_getJSON adding_fetchBucket adding_heartbeat adding_revision : adding.
Lemma adding_fetch_pages pages : forall aw qs s e l b pe full f, adding (fetch_pages pages aw qs s e l b pe full f).
Proof. induction pages as [|n IH]; intros; cbn [fetch_pages]; unfold get_page; add. Qed.
#[local] Hint Resolve adding_fetch_pages : adding.
Lemma adding_fetchEvents aw s e l b : adding (fetchEvents aw s e l b).
Proof. unfold fetchEvents. add. Qed.
Lemma adding_results c aw b page rs : forall s, adding (poll_results st c aw b page s rs).
Proof. induction rs as [|r rs IH]; intros s; cbn [poll_results]; unfold poll_result, write_failed; add. Qed.
#[local] Hint Resolve adding_results : adding.
Lemma adding_write_batch c aw b page s : adding (write_batch st c aw b page s).
Proof. unfold write_batch. add. Qed.

(** ** What is recorded *)

(** The table has a row with the key and the content of the candidate. *)
Definition stored_candidate (raw : string) (d : database) : Prop :=
  exists t item row, prepare st raw t = Ok item /\ row ∈ raw_events d /\
    k_key events_table (rval row) = k_key events_table item /\ pe_ContentHash (rval row) = pe_ContentHash item.
(** The event itself, or the revision with its duration. *)
Definition recorded_event (c : CollectorConfig) (aw : ActivityWatchConfig) (bucket : awBucket) (d : database) (e : awEvent) : Prop :=
  let base := activityWatchBaseKey (bk_ID bucket) (ae_sourceID e) in
  exists key, (key = base \/ key = duration_key base (ae_sourceDuration e)) /\
    stored_candidate (activityWatchCandidateWithKey (co_ID c) bucket e (aw_ClockErrorMS aw) key) d.

Lemma recorded_adds c aw b e d d' : adds d d' -> tables_ok d -> recorded_event c aw b d e -> recorded_event c aw b d' e.
Proof.
  intros Ha Hok (key & Hkey & t & item & row & Hp & Hr & Hrest). destruct (Ha Hok) as (_ & [l E] & _).
  exists key. split; [done|]. exists t, item, row. split; [done|]. split; [|done]. rewrite E. apply elem_of_app. by left.
Qed.

Lemma prepare_all_lookup {A} (prep : string -> result error A) cs slots i raw slot :
  prepare_all prep cs = Ok slots -> cs !! i = Some raw -> slots !! i = Some slot -> prepare_slot prep raw = Ok slot.
Proof.
  revert slots i. induction cs as [|x cs IH]; intros slots i Hp Hc Hs; [done|]. cbn in Hp. inv_oks Hp. injection Hp as <-.
  destruct i as [|i]; cbn in *; [congruence|by eapply IH].
Qed.
Lemma prepare_all_length {A} (prep : string -> result error A) cs slots : prepare_all prep cs = Ok slots -> length slots = length cs.
Proof.
  revert slots. induction cs as [|x cs IH]; intros slots Hp; cbn in Hp; [by injection Hp as <-|]. inv_oks Hp.
  injection Hp as <-. cbn. by rewrite (IH _ Ha0).
Qed.
Lemma indexed_lookup {B} (l : list B) (i : nat) x : l !! i = Some x -> indexed l !! i = Some (Z.of_nat i, x).
Proof.
  intros Hx. unfold indexed. rewrite lookup_zip_with, list_lookup_fmap, lookup_seq_lt by (by eapply lookup_lt_Some).
  cbn. rewrite Hx. done.
Qed.

(** The result of every candidate stands under its index, and one that was
    written is in the table. *)
Lemma batch_results t cs d o rs d' o' : tables_ok d -> AppendBatch st t cs d o = (Ok rs, d', o') ->
  length rs = length cs /\
  forall i raw r, cs !! i = Some raw -> rs !! i = Some r -> wr_Index r = Z.of_nat i /\ (written r = true -> stored_candidate raw d').
Proof.
  intros [Hok _] Hrun.
  destruct (append_batch_correct events_table _ _ _ _ _ _ _ _ _ _ Hok Hrun) as (_ & _ & slots & Hp & Hf).
  pose proof (Forall2_length _ _ _ Hf) as Hl. unfold indexed in Hl. rewrite length_zip_with, List.length_map, length_seq in Hl.
  pose proof (prepare_all_length _ _ _ Hp). split; [lia|]. intros i raw r Hraw Hr.
  destruct (lookup_lt_is_Some_2 slots i) as [slot Hslot]; [apply lookup_lt_Some in Hraw; lia|].
  pose proof (Forall2_lookup_lr _ _ _ _ _ _ Hf (indexed_lookup _ _ _ Hslot) Hr) as [Hi Hs]. cbn in Hi, Hs. split; [done|].
  intros Hw. pose proof (prepare_all_lookup _ _ _ _ _ _ Hp Hraw Hslot) as Hprep. unfold prepare_slot in Hprep.
  destruct slot as [code|item]; [by rewrite Hs in Hw|]. destruct (prepare st raw _) as [it|[]] eqn:E; [|done..].
  injection Hprep as ->. destruct Hs as (row & Hrow & _ & Hkey & Hs). eexists _, item, row. split; [exact E|]. split; [done|].
  split; [done|]. destruct Hs as [(_ & _ & -> & _)|[(_ & _ & ?)|(Hst & _)]]; [done|done|].
  unfold written in Hw. rewrite Hst in Hw. done.
Qed.

Lemma poll_store_inv {A} (m : M database A) r w w' : store m w = (Ok r, w') ->
  exists o, m (p_db w) (p_oracle w) = (r, p_db w', o).
Proof. unfold store. destruct (m _ _) as [[r' d'] o']. intros [= <- <-]. by exists o'. Qed.
Lemma poll_stored_inv {A} (m : M database A) a w w' : stored m w = (Ok a, w') ->
  exists o, m (p_db w) (p_oracle w) = (Ok a, p_db w', o).
Proof.
  unfold stored. intros Hr. inv_p Hr. apply poll_store_inv in Hm as [o Hm]. destruct a0 as [x|e]; inv_p Hr. by exists o.
Qed.
Lemma ask_inv {A} (f : nat -> A) a w w' : ask f w = (Ok a, w') -> p_db w' = p_db w.
Proof. by intros [= _ <-]. Qed.

Lemma revision_recorded c aw bucket e i status w w' : tables_ok (p_db w) ->
  appendActivityWatchDurationRevision st c aw bucket e i w = (Ok status, w') -> recorded_event c aw bucket (p_db w') e.
Proof.
  intros Hok. unfold appendActivityWatchDurationRevision. intros Hr. inv_p Hr.
  pose proof (adding_stored_family _ _ _ _ _ Hm Hok) as (Hok1 & _). clear Hm.
  destruct (activityWatchDurationRevisionCandidate _ _ _ _ _ _) as [raw|] eqn:Eraw; [|done].
  assert (Hraw : raw = activityWatchCandidateWithKey (co_ID c) bucket e (aw_ClockErrorMS aw)
    (duration_key (activityWatchBaseKey (bk_ID bucket) (ae_sourceID e)) (ae_sourceDuration e))).
  { unfold activityWatchDurationRevisionCandidate in Eraw. inv_oks Eraw. destruct (_ || _); [done|]. by injection Eraw. }
  inv_p Hr. apply adding_ensure in Hm as Hm0. destruct (Hm0 Hok1) as (Hok2 & _). inv_p Hr. apply ask_inv in Hm1. inv_p Hr.
  apply poll_stored_inv in Hm2 as [o Hbatch]. rewrite Hm1 in Hbatch.
  destruct (batch_results _ _ _ _ _ _ _ Hok2 Hbatch) as [_ Hres].
  destruct a2 as [|r [|]]; [done| |done]. inv_p Hr. inv_p Hr. destruct (Hres O raw r eq_refl eq_refl) as [_ Hs].
  exists (duration_key (activityWatchBaseKey (bk_ID bucket) (ae_sourceID e)) (ae_sourceDuration e)).
  split; [by right|]. rewrite <- Hraw. by apply Hs.
Qed.

Lemma results_recorded c aw bucket page rs : forall s s' w w', tables_ok (p_db w) ->
  (forall r e, r ∈ rs -> written r = true -> page !! Z.to_nat (wr_Index r) = Some e -> recorded_event c aw bucket (p_db w) e) ->
  poll_results st c aw bucket page s rs w = (Ok s', w') ->
  forall r e, r ∈ rs -> page !! Z.to_nat (wr_Index r) = Some e -> recorded_event c aw bucket (p_db w') e.
Proof.
  induction rs as [|x rs IH]; intros s s' w w' Hok Hw Hrun r e Hr He; [by apply elem_of_nil in Hr|].
  cbn [poll_results] in Hrun. inv_p Hrun.
  assert (Ha : adding (poll_result st c aw bucket page s x)) by (unfold poll_result, write_failed; add).
  pose proof (Ha _ _ _ Hm) as Hadd. destruct (Hadd Hok) as (Hok' & _).
  pose proof (adding_results c aw bucket page rs _ _ _ _ Hrun) as Hadd'.
  assert (Hx : forall e, page !! Z.to_nat (wr_Index x) = Some e -> recorded_event c aw bucket (p_db w0) e).
  { intros y Hy. destruct (written x) eqn:Ew; [eapply recorded_adds; [exact Hadd|done|]; eapply Hw; [left|done|done]|].
    unfold written in Ew. apply orb_false_iff in Ew as [E1 E2]. unfold poll_result, write_failed in Hm. rewrite E1, E2 in Hm.
    destruct (String.eqb (wr_Status x) StatusConflict); [|done]. destruct (_ || _ || _); [done|]. rewrite Hy in Hm.
    inv_p Hm. inv_p Hm. eapply revision_recorded; [exact Hok|exact Hm0]. }
  apply elem_of_cons in Hr as [->|Hr].
  - eapply recorded_adds; [exact Hadd'|done|]. by apply Hx.
  - eapply IH; [exact Hok'| |exact Hrun|exact Hr|done]. intros r' e' Hr' Hwr He'.
    eapply recorded_adds; [exact Hadd|done|]. eapply Hw; [by right|done|done].
Qed.

Lemma batch_recorded c aw bucket page s s' w w' : tables_ok (p_db w) ->
  write_batch st c aw bucket page s w = (Ok s', w') -> forall e, e ∈ page -> recorded_event c aw bucket (p_db w') e.
Proof.
  intros Hok Hrun e He. unfold write_batch in Hrun. inv_p Hrun. destruct (adding_ensure _ _ _ Hm Hok) as (Hok1 & _).
  inv_p Hrun. apply ask_inv in Hm0. inv_p Hrun. rename a1 into rs. pose proof (adding_stored_batch _ _ _ _ _ Hm1) as Hadd.
  rewrite Hm0 in Hadd. destruct (Hadd Hok1) as (Hok2 & _). apply poll_stored_inv in Hm1 as [o Hb]. rewrite Hm0 in Hb.
  destruct (batch_results _ _ _ _ _ _ _ Hok1 Hb) as [Hlen Hres]. rewrite List.length_map in Hlen.
  assert (Hcand : forall i y, page !! i = Some y -> (map (fun e => activityWatchCandidate (co_ID c) bucket e (aw_ClockErrorMS aw)) page) !! i
    = Some (activityWatchCandidate (co_ID c) bucket y (aw_ClockErrorMS aw))) by (intros i y Hy; by rewrite list_lookup_fmap, Hy).
  apply list_elem_of_lookup_1 in He as [i Hi].
  destruct (lookup_lt_is_Some_2 rs i) as [r Hr]; [apply lookup_lt_Some in Hi; lia|].
  destruct (Hres i _ r (Hcand _ _ Hi) Hr) as [Hidx _].
  eapply results_recorded; [exact Hok2| |exact Hrun|by eapply list_elem_of_lookup_2|rewrite Hidx, Nat2Z.id; exact Hi].
  intros r' e' [j Hj]%list_elem_of_lookup_1 Hw He'.
  assert (Hlt : (j < length page)%nat) by (apply lookup_lt_Some in Hj; lia).
  destruct (lookup_lt_is_Some_2 page j Hlt) as [y Hy]. destruct (Hres j _ r' (Hcand _ _ Hy) Hj) as [Hidx' Hs].
  rewrite Hidx', Nat2Z.id, Hy in He'. injection He' as <-. eexists. split; [by left|]. by apply Hs.
Qed.

(** ** The checkpoint *)
Lemma save_checkpoint t id k d o r d' o' : SaveActivityWatchCheckpoint t id k d o = (r, d', o') ->
  raw_events d' = raw_events d /\ collector_heartbeats d' = collector_heartbeats d /\
  (find_checkpoint id d' = find_checkpoint id d \/
   exists at_ x, parse_fixed (ac_SourceTimeUTC k) = Some at_ /\ find_checkpoint id d' = Some x /\
     ac_SourceTimeUTC x = fixedUTC at_ /\ ac_SourceEventID x = ac_SourceEventID k).
Proof.
  unfold SaveActivityWatchCheckpoint. destruct (parse_fixed (ac_SourceTimeUTC k)) as [at_|]; [|intros [= _ <- _]; auto].
  destruct (_ || _); [intros [= _ <- _]; auto|]. set (n := MkActivityWatchCheckpoint _ _ _ _).
  unfold mbind at 1, stmt at 1. destruct o as [|[f|] o]; [|intros [= _ <- _]; auto|]; cbn [tail].
  all: destruct (check_activitywatch_checkpoint id n); [|intros [= _ <- _]; auto].
  all: pose proof (upsert_checkpoint_find id n (activitywatch_checkpoints d)) as [H1 _]; cbv zeta in H1.
  all: destruct (upsert_checkpoint id n (activitywatch_checkpoints d)) as [tab b]; cbn [fst snd] in H1; cbv beta iota.
  all: intros Hrun; assert (Hd : d' = with_activitywatch_checkpoints d tab).
  1, 3: destruct b; [by injection Hrun|]; unfold mbind in Hrun; destruct (LoadActivityWatchCheckpoint _ _ _ _) as [[r1 d1] o1] eqn:El;
    apply Load_same in El as ->; destruct r1 as [[e|]|e]; [destruct (negb _)|..]; by injection Hrun.
  all: rewrite Hd; split; [done|]; split; [done|]; unfold find_checkpoint; cbn [activitywatch_checkpoints with_activitywatch_checkpoints].
  all: rewrite H1; destruct (option_map snd (find_first _ (activitywatch_checkpoints d))) as [e|]; [destruct b|].
  all: first [by left | right; by eexists at_, _].
Qed.

Section Behind.
Context (c : CollectorConfig) (aw : ActivityWatchConfig) (bucket : awBucket) (events : list awEvent) (d0 : database).

(** The order of the events: by time, then by id. *)
Definition upto (e x : awEvent) : Prop :=
  ae_parsed e < ae_parsed x \/ (ae_parsed e = ae_parsed x /\ ae_sourceID e <= ae_sourceID x).
(** Events were only added, and a checkpoint that moved is at an event of the poll,
    and that event and every one before it are recorded. *)
Definition checkpoint_covered (d : database) : Prop :=
  exists k x, find_checkpoint (co_ID c) d = Some k /\ x ∈ events /\
    ac_SourceTimeUTC k = fixedUTC (ae_parsed x) /\ ac_SourceEventID k = ae_sourceID x /\
    forall e, e ∈ events -> upto e x -> recorded_event c aw bucket d e.
Record behind (d : database) : Prop := {
  bh_ok : tables_ok d;
  bh_rows : raw_events d0 `prefix_of` raw_events d;
  bh_checkpoint : find_checkpoint (co_ID c) d = find_checkpoint (co_ID c) d0 \/ checkpoint_covered d }.

Lemma find_adds d d' : adds d d' -> tables_ok d -> find_checkpoint (co_ID c) d' = find_checkpoint (co_ID c) d.
Proof. intros Ha Hok. destruct (Ha Hok) as (_ & _ & E). unfold find_checkpoint. by rewrite E. Qed.
Lemma behind_adds d d' : adds d d' -> behind d -> behind d'.
Proof.
  intros Ha [Hok Hp Hc]. destruct (Ha Hok) as (Hok' & Hp' & _). pose proof (find_adds _ _ Ha Hok) as Ef.
  split; [done|by etransitivity|]. destruct Hc as [Hc|(k & x & Hk & Hx & Ht & Hi & Hall)]; [left; by rewrite Ef|].
  right. exists k, x. rewrite Ef. repeat (split; [done|]). intros e He Hu. eapply recorded_adds; [exact Ha|done|by apply Hall].
Qed.

Context (Horder : in_order events).

(** The events up to one of the list are those before it in the list. *)
Lemma in_order_upto l1 x l2 e : events = l1 ++ x :: l2 -> e ∈ events -> upto e x -> e ∈ l1 ++ [x].
Proof.
  intros E He Hu.
  rewrite E in He. apply elem_of_app in He as [He|[->|He]%elem_of_cons]; [apply elem_of_app; by left|apply elem_of_app; right; left|].
  exfalso. unfold in_order in Horder. rewrite E, cons_middle, app_assoc in Horder. apply sorted_app_lt in Horder as [_ Hlt].
  specialize (Hlt x e). rewrite elem_of_app in Hlt. specialize (Hlt ltac:(right; left) He). unfold event_lt in Hlt. unfold upto in Hu.
  change time with Z in *. destruct (Z.eqb_spec (ae_parsed x) (ae_parsed e)) as [Ep|Ep]; to_prop; lia.
Qed.

Lemma move_behind l1 x l2 s w r w' : events = l1 ++ x :: l2 -> (forall e, e ∈ l1 ++ [x] -> recorded_event c aw bucket (p_db w) e) ->
  behind (p_db w) -> move_checkpoint c aw x s w = (r, w') -> behind (p_db w') /\
  (forall e, recorded_event c aw bucket (p_db w) e -> recorded_event c aw bucket (p_db w') e).
Proof.
  intros E Hrec Hb. unfold move_checkpoint. destruct (match po_checkpoint s with Some _ => _ | None => _ end); [|by intros [= _ <-]].
  set (k := MkActivityWatchCheckpoint _ _ _ _). unfold pbind.
  destruct (ensureCoreWritesAllowed w) as [r1 w1] eqn:E1. pose proof (adding_ensure _ _ _ E1) as Ha1.
  assert (Hb1 : behind (p_db w1)) by (by eapply behind_adds).
  assert (Hr1 : forall e, recorded_event c aw bucket (p_db w) e -> recorded_event c aw bucket (p_db w1) e)
    by (intros e; apply recorded_adds; [done|apply Hb]).
  destruct r1 as [[]|er]; [|by intros [= _ <-]].
  unfold stored, pbind, store, now, ask. cbn [p_db p_oracle p_step p_statuses p_faults].
  destruct (SaveActivityWatchCheckpoint _ _ _ _ _) as [[rs d'] o'] eqn:Es.
  intros Hrun. assert (p_db w' = d') as ->.
  { destruct rs; by injection Hrun as _ <-. }
  clear Hrun. destruct (save_checkpoint _ _ _ _ _ _ _ _ Es) as (Eraw & Ehb & Hk).
  assert (Hrec' : forall e, recorded_event c aw bucket (p_db w1) e -> recorded_event c aw bucket d' e).
  { intros e (key & Hkey & t & item & row & Hp & Hrow & Hrest). exists key. split; [done|]. exists t, item, row. by rewrite Eraw. }
  split; [|intros e He; by apply Hrec', Hr1]. destruct Hb1 as [[Hok1 Hok2] Hp Hc]. split.
  - split; [unfold table_ok, ids_sorted in *; cbn; by rewrite Eraw|unfold table_ok, ids_sorted in *; cbn; by rewrite Ehb].
  - by rewrite Eraw.
  - destruct Hk as [Hk|(t & y & Ht & Hy & Htime & Hid)].
    + destruct Hc as [Hc|(k0 & x0 & Hk0 & Hx0 & Ht0 & Hi0 & Hall)]; [left; by rewrite Hk|right]. exists k0, x0. rewrite Hk.
      repeat (split; [done|]). intros e He Hu. by apply Hrec', Hall.
    + right. exists y, x. split; [done|]. split; [rewrite E; apply elem_of_app; right; left|].
      cbn in Ht. pose proof (parse_fixed_year _ _ Ht) as Hyear. unfold fixedUTC in Ht. rewrite (parse_fixed_format _ Hyear) in Ht.
      injection Ht as <-. split; [done|]. split; [done|]. intros e He Hu. apply Hrec', Hr1, Hrec. by eapply in_order_upto.
Qed.

Lemma batch_behind l1 page l2 s w r w' : events = l1 ++ page ++ l2 -> (forall e, e ∈ l1 -> recorded_event c aw bucket (p_db w) e) ->
  behind (p_db w) -> poll_batch st c aw bucket page s w = (r, w') ->
  behind (p_db w') /\ (is_ok r = true -> forall e, e ∈ l1 ++ page -> recorded_event c aw bucket (p_db w') e).
Proof.
  intros E Hrec Hb. unfold poll_batch, pbind. destruct (write_batch st c aw bucket page s w) as [r1 w1] eqn:Ew.
  pose proof (adding_write_batch _ _ _ _ _ _ _ _ Ew) as Ha. pose proof (behind_adds _ _ Ha Hb) as Hb1.
  destruct r1 as [s1|er]; [|by intros [= <- <-]].
  assert (Hrec1 : forall e, e ∈ l1 ++ page -> recorded_event c aw bucket (p_db w1) e).
  { intros e [He|He]%elem_of_app; [eapply recorded_adds; [exact Ha|apply Hb|by apply Hrec]|].
    by eapply batch_recorded; [apply Hb|exact Ew|]. }
  destruct (list.last page) as [x|] eqn:El; [|by intros [= <- <-]]. apply last_Some in El as [page' ->].
  intros Hrun. rewrite <- app_assoc in E. cbn in E. rewrite app_assoc in E.
  destruct (move_behind (l1 ++ page') x l2 s1 w1 r w') as [Hb2 Hmono]; [done| |done..|].
  - intros e He. apply Hrec1. by rewrite app_assoc.
  - split; [done|]. intros _ e He. by apply Hmono, Hrec1.
Qed.

Lemma batches_behind pages : forall l1 s w r w', events = l1 ++ concat pages ->
  (forall e, e ∈ l1 -> recorded_event c aw bucket (p_db w) e) -> behind (p_db w) ->
  poll_batches st c aw bucket pages s w = (r, w') ->
  behind (p_db w') /\ (is_ok r = true -> forall e, e ∈ events -> recorded_event c aw bucket (p_db w') e).
Proof.
  induction pages as [|page pages IH]; intros l1 s w r w' E Hrec Hb Hrun; cbn in E, Hrun.
  - injection Hrun as <- <-. rewrite app_nil_r in E. rewrite E. auto.
  - unfold pbind in Hrun. destruct (poll_batch st c aw bucket page s w) as [r1 w1] eqn:Ep.
    destruct (batch_behind _ _ _ _ _ _ _ E Hrec Hb Ep) as [Hb1 Hrec1].
    destruct r1 as [s1|er]; [|by injection Hrun as <- <-]. rewrite app_assoc in E. exact (IH _ _ _ _ _ E (Hrec1 eq_refl) Hb1 Hrun).
Qed.
End Behind.
End Steps.

(** ** The whole poll *)
Section Poll.
Context `{SJ : SqliteJson} `{FL : Floats} `{FT : FloatText} {sur : Surroundings} `{UR : Urls} (st : Store).

Lemma fetched_in_order aw start end_ limit budget w l w' :
  fetchEvents aw start end_ limit budget w = (Ok l, w') -> in_order l.
Proof.
  unfold fetchEvents. intros Hr. inv_p Hr. destruct a as [full f]. inv_p Hr. inv_p Hr.
  destruct (stable_prefix_spec end_ (sort_by event_lt (map snd (map_to_list (ft_seen f))))) as (rest & E & _).
  assert (Hs : in_order (sort_by event_lt (map snd (map_to_list (ft_seen f))))).
  { apply sort_events_in_order, (fetched_keys_distinct start end_).
    eapply fetch_pages_seen; [|exact Hm]. by intros i e He. }
  unfold in_order in *. rewrite E in Hs. by apply sorted_app_lt in Hs as [Hs _].
Qed.

Definition cutoff_of (c : CollectorConfig) (at_ : time) : time := at_ - AllowedLatenessDuration c.
(** What the poll that starts in the world [w] reads: the bucket, the checkpoint of
    the collector, and the events from where it begins up to the cutoff. *)
Definition poll_read (c : CollectorConfig) (aw : ActivityWatchConfig) (limit budget : Z) (at_ : time) (w : pworld)
    (bucket : awBucket) (events : list awEvent) : Prop :=
  bk_ID bucket = aw_BucketID aw /\
  exists start w1 w2 w3, fetchBucket aw w = (Ok bucket, w1) /\
    stored (LoadActivityWatchCheckpoint (co_ID c) (aw_BucketID aw)) w1 = (Ok (find_checkpoint (co_ID c) (p_db w)), w2) /\
    poll_start aw at_ (find_checkpoint (co_ID c) (p_db w)) = Ok start /\ start < cutoff_of c at_ /\
    fetchEvents aw start (cutoff_of c at_) limit budget w2 = (Ok events, w3).

Lemma bucket_id aw b w w' : fetchBucket aw w = (Ok b, w') -> bk_ID b = aw_BucketID aw.
Proof. unfold fetchBucket. intros Hr. inv_p Hr. inv_p Hr. inv_p Hr. by to_prop. Qed.

Lemma loaded_checkpoint id b k w w' : stored (LoadActivityWatchCheckpoint id b) w = (Ok k, w') ->
  k = find_checkpoint id (p_db w).
Proof.
  intros (o & Hl)%poll_stored_inv. unfold LoadActivityWatchCheckpoint in Hl. inv_m Hl. apply query_inv in Hm as [-> _].
  destruct (find_checkpoint id (p_db w)) as [x|]; [|by inv_m Hl]. destruct (String.eqb _ _); [by inv_m Hl|done].
Qed.

Lemma adding_end c aw at_ (s : poll_state) :
  adding (pbind now (fun end_ => pbind (appendPollHeartbeat st c aw at_ end_) (fun _ => pret s))).
Proof. apply adding_bind; [apply adding_now|]. intros e. apply adding_bind; [apply adding_heartbeat|]. intros _. apply adding_pret. Qed.

(** What a run of the poll from [w] to the database [d'] with result [r] guarantees. *)
Definition poll_safe (c : CollectorConfig) (aw : ActivityWatchConfig) (limit budget : Z) (at_ : time) (w : pworld)
    (d' : database) (r : result adapterError poll_state) : Prop :=
  let d := p_db w in
  tables_ok d' /\ raw_events d `prefix_of` raw_events d' /\
  (find_checkpoint (co_ID c) d' = find_checkpoint (co_ID c) d \/
   exists bucket events, poll_read c aw limit budget at_ w bucket events /\ checkpoint_covered st c aw bucket events d') /\
  (is_ok r = true ->
   (exists start, poll_start aw at_ (find_checkpoint (co_ID c) d) = Ok start /\ cutoff_of c at_ <= start) \/
   exists bucket events, poll_read c aw limit budget at_ w bucket events /\
     forall e, e ∈ events -> recorded_event st c aw bucket d' e).

Lemma nothing_moved c aw limit budget at_ w d' e : adds (p_db w) d' -> tables_ok (p_db w) ->
  poll_safe c aw limit budget at_ w d' (Err e).
Proof.
  intros Ha Hok. pose proof (find_adds c _ _ Ha Hok). destruct (Ha Hok) as (Hok' & Hp & _).
  split; [done|]. split; [done|]. split; [by left|done].
Qed.

(** The part of the poll after the fetch. *)
Lemma poll_written c aw limit budget at_ bucket events w0 s w r w' : 0 < aw_PageSize aw -> tables_ok (p_db w0) ->
  poll_read c aw limit budget at_ w0 bucket events -> in_order events -> adds (p_db w0) (p_db w) ->
  pbind (poll_batches st c aw bucket (chunks (Z.to_nat (aw_PageSize aw)) events) s)
    (fun s' => pbind now (fun end_ => pbind (appendPollHeartbeat st c aw at_ end_) (fun _ => pret s'))) w = (r, w') ->
  poll_safe c aw limit budget at_ w0 (p_db w') r.
Proof.
  intros Hsize Hok Hread Horder Ha. unfold pbind at 1. destruct (poll_batches _ _ _ _ _ s w) as [r1 w1] eqn:E. intros Hrun.
  destruct (Ha Hok) as (Hokw & Hpw & _).
  destruct (batches_behind st c aw bucket events (p_db w0) Horder (chunks (Z.to_nat (aw_PageSize aw)) events) [] s w r1 w1) as [Hb Hrec].
  - cbn. symmetry. apply chunks_concat. lia.
  - by intros e He%elem_of_nil.
  - split; [done..|]. left. by apply find_adds.
  - exact E.
  - assert (Hadd : adds (p_db w1) (p_db w')).
    { destruct r1 as [s1|e1]; [|by injection Hrun as _ <-]. exact (adding_end _ _ _ _ _ _ _ Hrun). }
    destruct (behind_adds _ _ _ _ _ _ _ _ Hadd Hb) as [H1 H2 H3]. split; [done|]. split; [done|]. split.
    + destruct H3 as [H3|H3]; [by left|right]. by exists bucket, events.
    + intros Hr. destruct r1 as [s1|e1]; [|by injection Hrun as <- _]. right. exists bucket, events.
      split; [done|]. intros e He. eapply recorded_adds; [exact Hadd|apply Hb|by apply Hrec].
Qed.

(** C10: whatever fails in the middle of it, a poll only adds events to the store,
    and moves the checkpoint of its collector, if at all, to an event it has read:
    that event and every one it has read before it are recorded, each as itself or
    as its revision, a row with the key and the content hash of its candidate.
    When it succeeds and there was something to read, every event it has read is
    recorded.  What it has read is what its own requests answered, from the world
    it started in. *)
Theorem poll_checkpoint_safe c aw limit budget at_ w r w' (Hok : tables_ok (p_db w)) (Hsize : 0 < aw_PageSize aw)
    (Hrun : poll st c aw limit budget at_ w = (r, w')) :
  poll_safe c aw limit budget at_ w (p_db w') r.
Proof.
  unfold poll in Hrun. unfold pbind at 1 in Hrun. destruct (fetchBucket aw w) as [r1 w1] eqn:E1.
  pose proof (adding_fetchBucket _ _ _ _ E1) as Ha1.
  destruct r1 as [bucket|er]; [|injection Hrun as <- <-; by apply nothing_moved].
  unfold pbind at 1 in Hrun. destruct (stored (LoadActivityWatchCheckpoint _ _) w1) as [r2 w2] eqn:E2.
  pose proof (transitivity Ha1 (adding_stored_load _ _ _ _ _ E2)) as Ha2.
  destruct r2 as [checkpoint|er]; [|injection Hrun as <- <-; by apply nothing_moved].
  apply loaded_checkpoint in E2 as Ek. rewrite (find_adds c _ _ Ha1 Hok) in Ek. unfold pbind at 1, plift at 1 in Hrun.
  cbv zeta in Hrun. rewrite Ek in Hrun, E2.
  destruct (poll_start aw at_ _) as [start|er] eqn:Es; [|injection Hrun as <- <-; by apply nothing_moved].
  fold (cutoff_of c at_) in Hrun. destruct (Z.ltb_spec start (cutoff_of c at_)) as [Hlt|Hge]; cbn [negb] in Hrun.
  - unfold pbind at 1 in Hrun. destruct (fetchEvents _ _ _ _ _ w2) as [r3 w3] eqn:E3.
    pose proof (transitivity Ha2 (adding_fetchEvents _ _ _ _ _ _ _ _ E3)) as Ha3.
    destruct r3 as [events|er]; [|injection Hrun as <- <-; by apply nothing_moved].
    eapply (poll_written _ _ _ _ _ bucket events); [done|done| | |exact Ha3|exact Hrun].
    + split; [by eapply bucket_id|]. by exists start, w1, w2, w3.
    + by eapply fetched_in_order.
  - assert (Ha : adds (p_db w) (p_db w')).
    { etransitivity; [exact Ha2|]. exact (adding_end _ _ _ _ _ _ _ Hrun). }
    destruct (nothing_moved c aw limit budget at_ w _ (AdapterError "" "") Ha Hok) as (H1 & H2 & H3 & _).
    split; [done|]. split; [done|]. split; [done|]. intros _. left. by exists start.
Qed.
End Poll.

(** ** A concrete poll: three events of one page *)
Definition bucket_text : string :=
  quoted "{'id':'window','created':'','name':'','type':'currentwindow','client':'aw','hostname':'pc','data':{},'first_seen':'','last_updated':''}".
Definition window_server (url : string) : string :=
  if contains_sub url "/events" then page_text three_events else bucket_text.
Definition window_collector : CollectorConfig :=
  MkCollector "aw" CollectorActivityWatch true "60s" "5s" "2m" (MkSchedule "UTC" []) None.
Definition poll_store : Store :=
  MkStore 10 65536 16 10 65536 {[ "aw" := MkCollectorPolicy CollectorActivityWatch minute ]}.
Definition sample_poll : result adapterError poll_state * pworld :=
  poll (sur := answering window_server) poll_store window_collector (window_bucket 5) 100 65536 minute_end (start_world empty_database).

Lemma poll_checkpoint_safe_witness :
  poll_safe (sur := answering window_server) poll_store window_collector (window_bucket 5) 100 65536 minute_end
    (start_world empty_database) (p_db (snd sample_poll)) (fst sample_poll)
  /\ option_map ac_SourceEventID (find_checkpoint "aw" (p_db (snd sample_poll))) = Some 3
  /\ rmap (fun s => (po_imported s, po_duplicates s)) (fst sample_poll) = Ok (3, 0).
Proof.
  split; [|vm_compute; done]. destruct sample_poll as [r w'] eqn:E.
  apply (poll_checkpoint_safe poll_store window_collector (window_bucket 5) 100 65536 minute_end (start_world empty_database) r w');
    [split; by apply empty_table_ok|done|exact E].
Defined.

(** The same events with longer durations become revisions. *)
Definition longer (url : string) : string :=
  if contains_sub url "/events" then
    quoted "[{'id':3,'timestamp':'2024-02-29T12:00:03Z','duration':9,'data':{}},{'id':2,'timestamp':'2024-02-29T12:00:02Z','duration':5,'data':{}}]"
  else bucket_text.
Example revision_example :
  let run := poll (sur := answering longer) poll_store window_collector (window_bucket 5) 100 65536 (minute_end + minute)
    (snd sample_poll) in
  (rmap (fun s => (po_imported s, po_duplicates s)) (fst run),
   map (fun r => pe_IdempotencyKey (rval r)) (drop 3 (raw_events (p_db (snd run)))))
  = (Ok (1, 1), ["activitywatch:44ff7b02c80d38b2:3:duration:9"]).
Proof. vm_compute. reflexivity. Qed.
