(* ===== verification/Operations.v ===== *)
(** * Storage protection and retention ([operations/manager.go], [operations/disk.go])

    The disk levels and the write gates they close, the logs of faults and modules,
    the cleanup of staging files and the deletion of media that a full backup
    covers, in the world of [MediaFiles]: a file system other processes change too,
    the store, and calls that may fail. *)

From Stdlib Require Import ZArith Lia String Ascii.
From S2P Require Import Prelude GoStrings GoTime GoJson Base64 Sha256 Sql Schema Platform Config OpsStore Order Sidecar MediaFiles MediaIngest.
Open Scope string_scope.
Open Scope list_scope.
Open Scope result_scope.
Open Scope Z_scope.
Open Scope io_scope.

Definition CodeDiskProbeFailed : string := "STORAGE_DISK_PROBE_FAILED".
Definition CodeDiskWarning : string := "STORAGE_DISK_WARNING".
Definition CodeDiskCritical : string := "STORAGE_DISK_CRITICAL".
Definition CodeDiskReserve : string := "STORAGE_DATABASE_RESERVE_THREATENED".
Definition CodeRetentionOff : string := "RETENTION_DISABLED".
Definition CodeBackupMissing : string := "RETENTION_FULL_BACKUP_REQUIRED".
Definition CodeBackupInvalid : string := "RETENTION_BACKUP_INVALID".
Definition CodeRetentionCommit : string := "RETENTION_CONFIRM_FAILED".
Definition CodeCleanupFailed : string := "TEMP_CLEANUP_FAILED".
Definition CodeCheckpointFailed : string := "WAL_CHECKPOINT_FAILED".
Definition DiskNormal : string := "normal".
Definition DiskWarning : string := "warning".
Definition DiskCritical : string := "critical".
Definition DiskReserve : string := "reserve".

(** What the disk probe answers at a step, [None] for an error; and the text of
    an error. *)
Class Disk := { free_bytes : nat -> option Z; error_text : media_error -> string }.

(** The part of [Status] that changes, and [reportedDiskLevel]. *)
Record ops_state := OpsState {
  op_DiskLevel : string; op_FreeBytes : Z; op_ErrorCode : string; op_CheckedAtUTC : string;
  op_reportedDiskLevel : string }.
Definition initial_ops : ops_state := OpsState DiskNormal 0 "" "" DiskNormal.

Definition truncateRunes (value : string) (maximum : nat) : string :=
  if (length (runes value) <=? maximum)%nat then value
  else of_bytes (flat_map encode_rune (take maximum (runes value))).

(** ** The full backup *)
Record backupMarker := BackupMarker { bm_SchemaVersion : Z; bm_ManifestPath : string; bm_ManifestSHA256 : string }.
Record backupFile := BackupFile {
  bf_RelativePath : string; bf_BackupPath : string; bf_SHA256 : string; bf_Kind : string; bf_SizeBytes : Z;
  bf_Included : bool }.
Record backupManifest := BackupManifest { bp_SchemaVersion : Z; bp_Type : string; bp_Files : list backupFile }.
Record backupCoverage := BackupCoverage { bc_BackupPath : string; bc_SHA256 : string; bc_SizeBytes : Z }.

Definition decode_marker (raw : string) : option backupMarker :=
  let! v := unmarshal raw in
  let! ms := struct_members v in
  let! version := decode_last int_of 0 (field_values "schema_version" ms) in
  let! path := decode_last string_of "" (field_values "manifest_path" ms) in
  let! digest := decode_last string_of "" (field_values "manifest_sha256" ms) in
  Some (BackupMarker version path digest).

Definition zero_file : backupFile := BackupFile "" "" "" "" 0 false.
(** An element is decoded over the one a repeated key left there. *)
Definition decode_backup_file (old : backupFile) (v : json) : option backupFile :=
  match v with
  | JNull => Some old
  | JObj ms =>
    let! relative := decode_last string_of (bf_RelativePath old) (field_values "relative_path" ms) in
    let! backup := decode_last string_of (bf_BackupPath old) (field_values "backup_path" ms) in
    let! digest := decode_last string_of (bf_SHA256 old) (field_values "sha256" ms) in
    let! kind := decode_last string_of (bf_Kind old) (field_values "kind" ms) in
    let! size := decode_last int_of (bf_SizeBytes old) (field_values "size_bytes" ms) in
    let! included := decode_last bool_of (bf_Included old) (field_values "included" ms) in
    Some (BackupFile relative backup digest kind size included)
  | _ => None
  end.
Fixpoint decode_backup_files (old : list backupFile) (l : list json) : option (list backupFile) :=
  match l with
  | [] => Some []
  | v :: rest =>
    let! f := decode_backup_file (List.hd zero_file old) v in
    let! fs := decode_backup_files (List.tl old) rest in Some (f :: fs)
  end.
Fixpoint decode_files_field (old : list backupFile) (l : list json) : option (list backupFile) :=
  match l with
  | [] => Some old
  | JNull :: rest => decode_files_field [] rest
  | JArr vs :: rest => let! fs := decode_backup_files old vs in decode_files_field fs rest
  | _ => None
  end.
Definition decode_manifest (raw : string) : option backupManifest :=
  let! v := unmarshal raw in
  let! ms := struct_members v in
  let! version := decode_last int_of 0 (field_values "schema_version" ms) in
  let! kind := decode_last string_of "" (field_values "type" ms) in
  let! files := decode_files_field [] (field_values "files" ms) in
  Some (BackupManifest version kind files).

Section Backup.
Context `{Paths} `{FilePaths}.

Definition escapes (relative : string) : bool :=
  String.eqb relative ".." || has_prefix relative (".." +:+ path_separator).

(** The entry of a file of the manifest, [None] where it is skipped. *)
Definition covered_file (manifestPath : string) (f : backupFile) : option (string * backupCoverage) :=
  if negb (String.eqb (bf_Kind f) "media") || negb (bf_Included f) || negb (slen (bf_SHA256 f) =? 64)
     || (bf_SizeBytes f <? 1) || String.eqb (bf_BackupPath f) "" then None
  else
    let relativePath := ToSlash (clean (FromSlash (bf_RelativePath f))) in
    if negb (String.eqb relativePath (bf_RelativePath f)) || String.eqb relativePath "."
       || has_prefix relativePath "../" || negb (has_prefix relativePath "accepted/") then None
    else
      let cleaned := clean (FromSlash (bf_BackupPath f)) in
      if is_abs cleaned || escapes cleaned then None
      else Some (relativePath, BackupCoverage (path_join [Dir manifestPath; cleaned]) (ToLower (bf_SHA256 f)) (bf_SizeBytes f)).

Fixpoint collect_coverage (manifestPath : string) (l : list backupFile) (coverage : gmap string backupCoverage)
    : result media_error (gmap string backupCoverage) :=
  match l with
  | [] => Ok coverage
  | f :: rest =>
    match covered_file manifestPath f with
    | None => collect_coverage manifestPath rest coverage
    | Some (relativePath, entry) =>
      match coverage !! relativePath with
      | Some _ => Err (Message "full backup manifest has duplicate media path")
      | None => collect_coverage manifestPath rest (<[relativePath := entry]> coverage)
      end
    end
  end.

(** What the marker says, where it is valid. *)
Definition valid_marker (raw : string) : option backupMarker :=
  match decode_marker raw with
  | Some m => if (bm_SchemaVersion m =? 1) && is_abs (bm_ManifestPath m) && (slen (bm_ManifestSHA256 m) =? 64)
              then Some m else None
  | None => None
  end.
(** The media files a manifest of that digest covers. *)
Definition manifest_coverage (m : backupMarker) (manifestRaw : string) : result media_error (gmap string backupCoverage) :=
  guard? String.eqb (sha256_hex manifestRaw) (ToLower (bm_ManifestSHA256 m)) else Message "backup manifest checksum mismatch" in
  match decode_manifest manifestRaw with
  | Some manifest =>
    guard? (bp_SchemaVersion manifest =? 1) && String.eqb (bp_Type manifest) "full" else Message "full backup manifest is invalid" in
    collect_coverage (bm_ManifestPath m) (bp_Files manifest) ∅
  | None => Err (Message "full backup manifest is invalid")
  end.
End Backup.

(** ** The manager *)

(** [uint64(n)] of an [int64]. *)
Definition u64 (n : Z) : Z := n mod 2 ^ 64.

Section Manager.
Context `{Paths} `{Zones} `{Network} `{Floats} `{FilePaths} {env : Environment} `{Disk} (cfg : Config).

(** *** Status *)
Definition disk_level (available : Z) : string * string :=
  if available <=? u64 (so_DatabaseReserveBytes (Storage cfg)) then (DiskReserve, CodeDiskReserve)
  else if available <=? u64 (so_CriticalFreeBytes (Storage cfg)) then (DiskCritical, CodeDiskCritical)
  else if available <=? u64 (so_WarningFreeBytes (Storage cfg)) then (DiskWarning, CodeDiskWarning)
  else (DiskNormal, "").

Record disk_report := DiskReport { dk_level : string; dk_code : string; dk_failed : bool }.
Definition report_of (available : option Z) : disk_report :=
  match available with
  | None => DiskReport DiskWarning CodeDiskProbeFailed true
  | Some n => let '(level, code) := disk_level n in DiskReport level code false
  end.

(** A failing probe answers no bytes. *)
Definition refreshDiskStatus (s : ops_state) : F (ops_state * disk_report) :=
  let^ available := ask free_bytes in
  let^ now := now_text in
  let r := report_of available in
  fret (OpsState (dk_level r) (default 0 available) (dk_code r) now (op_reportedDiskLevel s), r).

(** The answer of a gate: [None] when it is open. *)
Definition MediaAllowed (s : ops_state) : F (ops_state * option string) :=
  let^ (s, r) := refreshDiskStatus s in
  fret (s, if String.eqb (dk_level r) DiskNormal then None else Some (dk_code r)).
Definition CoreWritesAllowed (s : ops_state) : F (ops_state * option string) :=
  let^ (s, r) := refreshDiskStatus s in
  fret (s, if String.eqb (dk_level r) DiskReserve then Some (dk_code r) else None).

(** *** Records *)
Definition appendFault (module severity status code detail now : string) : F unit :=
  ignore (store (AppendFaultEvent (MkFaultEvent module severity status code (truncateRunes detail 1024) now))).
Definition recordError (module severity code : string) (e : media_error) : F unit :=
  let^ now := now_text in
  appendFault module severity "active" code (error_text e) now.
Definition appendModule (module status reason now : string) : F unit :=
  ignore (store (AppendModuleStateEvent (MkModuleStateEvent module status reason now))).

Definition RecordFault (module severity status code detail : string) : F unit :=
  let^ now := now_text in appendFault module severity status code detail now.
Definition RecordModuleState (module status reason : string) : F unit :=
  let^ now := now_text in appendModule module status reason now.
Definition RecordRuntimeMode (mode operator trigger reason : string) : F unit :=
  let^ now := now_text in
  let^ r := attempt (store (AppendModeTransition mode operator trigger reason now)) in
  match r with
  | Ok _ => fret tt
  | Err e => recordError "runtime_mode" "P2" "MODE_TRANSITION_WRITE_FAILED" e
  end.

(** *** The disk *)
Definition disk_severity (level : string) : string * string :=
  if String.eqb level DiskReserve then ("P0", "active")
  else if String.eqb level DiskCritical then ("P1", "active")
  else if String.eqb level DiskWarning then ("P2", "degraded")
  else ("P3", "recovered").

Definition ScanDiskOnce (s : ops_state) : F ops_state :=
  let^ (s, r) := refreshDiskStatus s in
  let previous := op_reportedDiskLevel s in
  let s := OpsState (op_DiskLevel s) (op_FreeBytes s) (op_ErrorCode s) (op_CheckedAtUTC s) (dk_level r) in
  let^ _ :=
    if negb (String.eqb previous (dk_level r)) || dk_failed r then
      let '(severity, status) := disk_severity (dk_level r) in
      appendFault "storage" severity status
        (if String.eqb (dk_code r) "" then "STORAGE_DISK_RECOVERED" else dk_code r)
        ("free_bytes=" +:+ format_int (op_FreeBytes s)) (op_CheckedAtUTC s)
    else fret tt in
  fret s.

Definition Initialize (s : ops_state) : F ops_state :=
  let^ now := now_text in
  let '(reason, state) :=
    if re_Enabled (Retention cfg) then ("RETENTION_ENABLED", "healthy") else (CodeRetentionOff, "disabled") in
  let^ _ := appendModule "retention" state reason now in
  ScanDiskOnce s.

(** *** The write-ahead log *)
Definition Stat (p : string) : F node := call (fun _ fs =>
  match resolve link_limit fs p with
  | Some q => match fs !! q with Some x => (Ok x, fs) | None => (Err NotExist, fs) end
  | None => (Err OsFailure, fs)
  end).

Definition CheckpointOnce : F unit :=
  let^ info := attempt (Stat (DatabasePath cfg +:+ "-wal")) in
  let truncate := match info with Ok x => op_WALMaxBytes (Operations cfg) <? Size x | Err _ => false end in
  let^ r := attempt (store (Checkpoint truncate)) in
  match r with
  | Ok _ => fret tt
  | Err e => recordError "storage" "P2" CodeCheckpointFailed e
  end.

(** *** Staging files *)

(** [os.ReadDir]: the entries by name, in one call. *)
Definition entries_at (fs : files) (directory : string) : list (string * node) :=
  sort_by (fun a b => String.ltb (fst a) (fst b))
    (map (fun px => (Base (fst px), snd px))
       (List.filter (fun px => String.eqb (Dir (fst px)) directory && negb (String.eqb (fst px) directory))
          (map_to_list fs))).
Definition ReadDir (p : string) : F (list (string * node)) := call (fun _ fs =>
  match resolve link_limit fs p with
  | Some q => match fs !! q with
              | Some (Directory _ _) => (Ok (entries_at fs q), fs)
              | Some _ => (Err OsFailure, fs)
              | None => (Err NotExist, fs)
              end
  | None => (Err OsFailure, fs)
  end).

Definition hex_char (a : ascii) : bool :=
  let n := Z.of_nat (nat_of_ascii a) in ((48 <=? n) && (n <=? 57)) || ((97 <=? n) && (n <=? 102)).
(** [partialName]: 64 lower-case hexadecimal digits before ".partial". *)
Definition partialName (name : string) : bool :=
  has_suffix name ".partial"
  && let stem := trim_suffix name ".partial" in (slen stem =? 64) && forallb hex_char (list_ascii_of_string stem).

Definition staging_name (name : string) : string := ToSlash (path_join ["staging"; name]).

(** The body of the loop, and whether the file was removed. *)
Definition clean_entry (root : string) (cutoff : time) (entry : string * node) : F bool :=
  let '(name, x) := entry in
  if match x with Directory _ _ | Symlink _ _ => true | Regular _ _ => false end || negb (partialName name)
  then fret false
  else
    let^ info := attempt (Lstat (path_join [root; name])) in
    match info with
    | Err _ => fret false
    | Ok x =>
      if negb (IsRegular x) || negb (ModTime x <? cutoff) then fret false
      else
        let^ referenced := attempt (store (TemporaryPathReferenced (staging_name name))) in
        match referenced with
        | Ok false =>
          let^ removed := attempt (Remove (path_join [root; name])) in
          fret (match removed with Ok _ => true | Err _ => false end)
        | _ => fret false
        end
    end.
Fixpoint clean_entries (root : string) (cutoff : time) (removed : Z) (l : list (string * node)) : F unit :=
  match l with
  | [] => fret tt
  | entry :: rest =>
    if op_TempMaxFiles (Operations cfg) <=? removed then clean_entries root cutoff removed rest
    else
      let^ gone := clean_entry root cutoff entry in
      clean_entries root cutoff (if gone : bool then removed + 1 else removed) rest
  end.

Definition CleanupTempOnce : F unit :=
  let root := stagingRoot cfg in
  let^ entries := attempt (ReadDir root) in
  match entries with
  | Err e => if is_not_exist e then fret tt else recordError "media_ingest" "P2" CodeCleanupFailed e
  | Ok entries =>
    let^ t := now in
    clean_entries root (t - TempMaxAge cfg) 0 entries
  end.

(** *** The backup *)
Definition ReadAll (h : string) : F string := call (fun _ fs =>
  match fs !! h with Some (Regular c _) => (Ok c, fs) | _ => (Err OsFailure, fs) end).
(** [os.ReadFile], and the content [fileSHA256] hashes. *)
Definition ReadFile (p : string) : F string := let^ h := Open p in ReadAll h.
Definition fileSHA256 (p : string) : F string := let^ content := ReadFile p in fret (sha256_hex content).

Definition marker_path : string := path_join [pt_DataDirectory (PathsOf cfg); "backup"; "latest-full.json"].

Definition loadBackupCoverage : F (gmap string backupCoverage) :=
  if negb (re_RequireFullBackup (Retention cfg)) then fret ∅
  else
    let^ raw := attempt (ReadFile marker_path) in
    match raw with
    | Err e => ffail (Message (CodeBackupMissing +:+ ": " +:+ error_text e))
    | Ok raw =>
      match valid_marker raw with
      | None => ffail (Message "backup marker is invalid")
      | Some marker =>
        let^ info := attempt (Lstat (bm_ManifestPath marker)) in
        match info with
        | Ok (Regular _ _) =>
          let^ manifestRaw := ReadFile (bm_ManifestPath marker) in
          flift (manifest_coverage marker manifestRaw)
        | _ => ffail (Message "backup manifest is not a regular file")
        end
      end
    end.

Definition backupBodyVerified (backup : backupCoverage) : F bool :=
  let^ info := attempt (Lstat (bc_BackupPath backup)) in
  match info with
  | Ok (Regular c _) =>
    if negb (slen c =? bc_SizeBytes backup) then fret false
    else
      let^ actual := attempt (fileSHA256 (bc_BackupPath backup)) in
      fret (match actual with Ok h => String.eqb h (bc_SHA256 backup) | Err _ => false end)
  | _ => fret false
  end.

(** *** Retention *)
Definition retention_event (c : RetentionCandidate) (status reason at_ : string) : RetentionEvent :=
  MkRetentionEvent (rc_MediaSegmentID c) status reason (rc_ManagedRelativePath c) at_.

Definition confirmRetentionDeletion (c : RetentionCandidate) : F unit :=
  let^ deletedAt := now_text in
  store (CommitRetentionDeletion (retention_event c "deleted" "RETENTION_POLICY" deletedAt)).
Definition recordRetentionFailure (c : RetentionCandidate) (e : media_error) : F unit :=
  let^ now := now_text in
  let^ _ := ignore (store (AppendRetentionEvent (retention_event c "failed" "RETENTION_DELETE_FAILED" now))) in
  recordError "retention" "P1" "RETENTION_DELETE_FAILED" e.

(** The managed file of a relative path. *)
Definition media_path (relative : string) : string :=
  clean (path_join [storageRoot cfg; clean (FromSlash relative)]).
Definition in_accepted (path : string) : bool :=
  match path_rel (clean (acceptedRoot cfg)) path with
  | Some rel => negb (String.eqb rel "." || escapes rel)
  | None => false
  end.

(** The entry of the backup that covers the candidate. *)
Definition covering (coverage : gmap string backupCoverage) (c : RetentionCandidate) : option backupCoverage :=
  let! backup := coverage !! rc_ManagedRelativePath c in
  oguard (String.eqb (bc_SHA256 backup) (ToLower (rc_SHA256 c)) && (bc_SizeBytes backup =? rc_SizeBytes c)) (Some backup).
Definition backed_up (coverage : gmap string backupCoverage) (c : RetentionCandidate) : F bool :=
  if negb (re_RequireFullBackup (Retention cfg)) then fret true
  else match covering coverage c with Some backup => backupBodyVerified backup | None => fret false end.

Definition confirm (c : RetentionCandidate) : F unit :=
  let^ confirmed := attempt (confirmRetentionDeletion c) in
  match confirmed with
  | Ok _ => fret tt
  | Err e => recordError "retention" "P1" CodeRetentionCommit e
  end.

Definition delete_file (path : string) (c : RetentionCandidate) : F unit :=
  let^ removed := attempt (Remove path) in
  match removed with
  | Err e => recordRetentionFailure c e
  | Ok _ => confirm c
  end.
(** The deletion of a file that was found as the store describes it. *)
Definition delete_planned (path : string) (c : RetentionCandidate) : F unit :=
  let^ now := now_text in
  let^ planned := attempt (store (AppendRetentionEvent (retention_event c "planned" "RETENTION_POLICY" now))) in
  match planned with
  | Err _ => fret tt
  | Ok _ => delete_file path c
  end.

(** The body of the loop. *)
Definition retain_candidate (coverage : gmap string backupCoverage) (c : RetentionCandidate) : F unit :=
  let path := media_path (rc_ManagedRelativePath c) in
  if negb (in_accepted path) then fret tt
  else
    let^ backed := backed_up coverage c in
    if negb backed then fret tt
    else
      let^ plannedBefore := attempt (store (RetentionDeletionPlanned (rc_MediaSegmentID c) (rc_ManagedRelativePath c))) in
      match plannedBefore with
      | Err _ => fret tt
      | Ok plannedBefore =>
        let^ info := attempt (Lstat path) in
        match info with
        | Err e => if is_not_exist e && plannedBefore then confirm c else fret tt
        | Ok x =>
          if negb (IsRegular x) || negb (Size x =? rc_SizeBytes c) then fret tt
          else
            let^ actual := attempt (fileSHA256 path) in
            match actual with
            | Ok h => if negb (String.eqb h (rc_SHA256 c)) then fret tt else delete_planned path c
            | Err _ => fret tt
            end
        end
      end.
Fixpoint retain_candidates (coverage : gmap string backupCoverage) (l : list RetentionCandidate) : F unit :=
  match l with
  | [] => fret tt
  | c :: rest => let^ _ := retain_candidate coverage c in retain_candidates coverage rest
  end.

Definition RetentionOnce (s : ops_state) : F ops_state :=
  if negb (re_Enabled (Retention cfg)) then fret s
  else
    let^ (s, reason) := MediaAllowed s in
    match reason with
    | None => fret s
    | Some _ =>
      let^ coverage := attempt loadBackupCoverage in
      let^ _ := match coverage with
        | Err e => recordError "retention" "P1" CodeBackupInvalid e
        | Ok coverage =>
          let^ t := now in
          let cutoff := format_rfc3339nano (t - RetentionMinimumAge cfg) in
          let^ candidates := attempt (store (RetentionCandidates cutoff (re_MaxDeletesPerRun (Retention cfg)))) in
          match candidates with
          | Err e => recordError "retention" "P1" "RETENTION_QUERY_FAILED" e
          | Ok candidates => retain_candidates coverage candidates
          end
        end in
      fret s
    end.

(** *** The loop: the tickers fire in any order until the context ends *)
Inductive tick := DiskTick | CheckpointTick | CleanupTick | RetentionTick.
Definition on_tick (s : ops_state) (k : tick) : F ops_state :=
  match k with
  | DiskTick => ScanDiskOnce s
  | CheckpointTick => let^ _ := CheckpointOnce in fret s
  | CleanupTick => let^ _ := CleanupTempOnce in fret s
  | RetentionTick => RetentionOnce s
  end.
Fixpoint Run (ticks : list tick) (s : ops_state) : F ops_state :=
  match ticks with
  | [] => fret s
  | k :: rest => let^ s := on_tick s k in Run rest s
  end.
End Manager.
