(* ===== verification/PlatformCalls.v ===== *)
(** * The platform files ([operations/disk_*.go], [mediaingest/stamp_*.go],
      [mediaingest/path_windows.go], [version/version.go])

    The free space of a volume, the identity and the attributes of a file, on
    Windows and elsewhere, over the system calls as an interface; and what the rest
    of the development asks of them: instances of [Disk], an identity that tells
    two files apart, and a width that multiplication respects. *)

From Stdlib Require Import ZArith Lia String Ascii.
From S2P Require Import Prelude GoStrings GoJson Platform MediaStore Sidecar MediaFiles Operations.
Open Scope string_scope.
Open Scope list_scope.
Open Scope result_scope.
Open Scope Z_scope.

(** ** System calls *)

(** [UTF16PtrFromString] refuses a string with a NUL; the pointer it returns stands
    for the string. *)
Fixpoint has_nul (s : string) : bool :=
  match s with EmptyString => false | String a t => (code a =? 0) || has_nul t end.
Definition UTF16PtrFromString (s : string) : option string := if has_nul s then None else Some s.

(** [ByHandleFileInformation], the fields the code reads, and [fileBasicInfo]. *)
Record FileInformation := MkFileInformation { VolumeSerialNumber : Z; FileIndexHigh : Z; FileIndexLow : Z }.
Record fileBasicInfo := MkFileBasicInfo {
  CreationTime : Z; LastAccessTime : Z; LastWriteTime : Z; ChangeTime : Z; Attributes : Z }.

(** The answers of the system at a step, [None] for an error. *)
Class WindowsCalls := {
  VolumeName : string -> string;
  GetDiskFreeSpaceEx : nat -> string -> option Z;
  CreateFile : nat -> string -> option Z;
  GetFileInformationByHandle : nat -> Z -> option FileInformation;
  GetFileInformationByHandleEx : nat -> Z -> option fileBasicInfo;
  GetFileAttributes : nat -> string -> option Z }.
(** [Statfs] gives [Bavail] and [Bsize]; the text of [info.Sys()] is Go syntax. *)
Class UnixCalls := {
  Statfs : nat -> string -> option (Z * Z);
  Sys_syntax : nat -> string -> string }.

(** ** Free space *)
Inductive probe_error := errDiskProbe | StatfsFailed.
(** The probe of the tests. *)
Definition fixedProbe (bytes : result probe_error Z) (path : string) : result probe_error Z := bytes.

Section Windows.
Context `{Paths} `{WindowsCalls}.

Definition windows_FreeBytes (step : nat) (path : string) : result probe_error Z :=
  let volume := VolumeName (clean path) +:+ "\" in
  let root := if String.eqb volume "\" then clean path else volume in
  match UTF16PtrFromString root with
  | None => Err errDiskProbe
  | Some pointer =>
    match GetDiskFreeSpaceEx step pointer with
    | None => Err errDiskProbe
    | Some freeAvailable => Ok freeAvailable
    end
  end.

(** The verb [%08x]. *)
Fixpoint hex_pad (n : nat) (z : Z) : string :=
  match n with O => "" | S n' => hex_pad n' (z / 16) +:+ String (hex_digit (z mod 16)) "" end.
Definition file_identity_text (i : FileInformation) : string :=
  hex_pad 8 (VolumeSerialNumber i) +:+ ":" +:+ hex_pad 8 (FileIndexHigh i) +:+ hex_pad 8 (FileIndexLow i).
Definition windows_platformFileStamp (step : nat) (path : string) : result media_error (string * Z) :=
  match UTF16PtrFromString path with
  | None => Err OsFailure
  | Some pathPointer =>
    match CreateFile step pathPointer with
    | None => Err OsFailure
    | Some handle =>
      match GetFileInformationByHandle step handle with
      | None => Err OsFailure
      | Some identified =>
        match GetFileInformationByHandleEx step handle with
        | None => Err OsFailure
        | Some basic => Ok (file_identity_text identified, ChangeTime basic)
        end
      end
    end
  end.

Definition fileAttributeReparsePoint : Z := 1024.
Definition windows_isReparsePoint (step : nat) (path : string) : result media_error bool :=
  match UTF16PtrFromString path with
  | None => Err OsFailure
  | Some pointer =>
    match GetFileAttributes step pointer with
    | None => Err OsFailure
    | Some attributes => Ok (negb (Z.land attributes fileAttributeReparsePoint =? 0))
    end
  end.
End Windows.

Section Unix.
Context `{UnixCalls}.
(** [stat.Bavail * uint64(stat.Bsize)]: the product wraps around. *)
Definition unix_FreeBytes (step : nat) (path : string) : result probe_error Z :=
  match Statfs step path with
  | None => Err StatfsFailed
  | Some (Bavail, Bsize) => Ok (u64 (Bavail * u64 Bsize))
  end.
Definition unix_platformFileStamp (step : nat) (path : string) : result media_error (string * Z) :=
  Ok (Sys_syntax step path, 0).
End Unix.

(** ** Build information *)
Record Info := MkInfo { in_Version : string; in_Commit : string; in_BuildTime : string; in_GoVersion : string }.
(** The variables before the linker replaces them. *)
Definition Version : string := "dev".
Definition Commit : string := "unknown".
Definition BuildTime : string := "unknown".
Definition Current (go_version : string) : Info := MkInfo Version Commit BuildTime go_version.

(** ** What the operations manager is told *)
Definition platform_disk (probe : nat -> string -> result probe_error Z) (directory : string)
    (text : media_error -> string) : Disk :=
  {| free_bytes n := match probe n directory with Ok b => Some b | Err _ => None end; error_text := text |}.

Section FreeSpace.
Context `{UnixCalls}.
(** The product is exact as long as it fits, and otherwise smaller by a multiple of
    2^64, so that a volume of 2^64 bytes looks full. *)
Lemma unix_FreeBytes_exact n path blocks size : Statfs n path = Some (blocks, size) ->
  0 <= size < 2 ^ 64 -> 0 <= blocks * size < 2 ^ 64 -> unix_FreeBytes n path = Ok (blocks * size).
Proof. intros E Hs Hp. unfold unix_FreeBytes, u64. rewrite E, (Z.mod_small size) by lia. by rewrite Z.mod_small by lia. Qed.
Lemma unix_FreeBytes_width n path b : unix_FreeBytes n path = Ok b -> 0 <= b < 2 ^ 64.
Proof. unfold unix_FreeBytes. destruct (Statfs n path) as [[k z]|]; intros [= <-]. by apply Z.mod_pos_bound. Qed.
Lemma unix_FreeBytes_wraps n path : Statfs n path = Some (2 ^ 52, 4096) -> unix_FreeBytes n path = Ok 0.
Proof. intros E. unfold unix_FreeBytes. by rewrite E. Qed.

(** Such a volume puts the recorder into the reserve. *)
Lemma wrapped_reserve cfg n directory text : Statfs n directory = Some (2 ^ 52, 4096) ->
  dk_level (report_of cfg (free_bytes (Disk := platform_disk unix_FreeBytes directory text) n)) = DiskReserve.
Proof.
  intros E. cbn [free_bytes platform_disk]. rewrite (unix_FreeBytes_wraps _ _ E). unfold report_of, disk_level, u64.
  by rewrite (proj2 (Z.leb_le 0 _)) by (apply Z.mod_pos_bound; lia).
Qed.
End FreeSpace.

(** ** The identity of a file tells files apart *)
Lemma hex_digit_inj a b : 0 <= a < 16 -> 0 <= b < 16 -> hex_digit a = hex_digit b -> a = b.
Proof.
  intros Ha Hb E. apply (f_equal code) in E. unfold hex_digit in E.
  destruct (Z.ltb_spec a 10), (Z.ltb_spec b 10); rewrite !code_chr in E by lia; lia.
Qed.

Lemma length_snoc s a : String.length (s +:+ String a "") = S (String.length s).
Proof. induction s as [|b s IH]; [done|]. exact (f_equal S IH). Qed.
Lemma hex_pad_length n z : String.length (hex_pad n z) = n.
Proof. revert z. induction n as [|n IH]; intros z; [done|]. cbn [hex_pad]. by rewrite length_snoc, IH. Qed.
Lemma append_cut s1 s2 t1 t2 : String.length s1 = String.length s2 -> s1 +:+ t1 = s2 +:+ t2 -> s1 = s2 /\ t1 = t2.
Proof.
  revert s2. induction s1 as [|a s1 IH]; intros [|b s2]; try done. cbn. intros [= El] [= -> E].
  by destruct (IH _ El E) as [-> ->].
Qed.
Lemma hex_pad_inj n a b : 0 <= a < 16 ^ Z.of_nat n -> 0 <= b < 16 ^ Z.of_nat n -> hex_pad n a = hex_pad n b -> a = b.
Proof.
  revert a b. induction n as [|n IH]; intros a b Ha Hb E; [change (16 ^ Z.of_nat 0) with 1 in *; lia|].
  rewrite Nat2Z.inj_succ, Z.pow_succ_r in Ha, Hb by lia. cbn [hex_pad] in E.
  apply append_cut in E as [Eq Er]; [|by rewrite !hex_pad_length]. injection Er as Er.
  apply IH in Eq; [|split; [apply Z.div_pos; lia|apply Z.div_lt_upper_bound; lia]..].
  apply hex_digit_inj in Er; [|apply Z.mod_pos_bound; lia..].
  rewrite (Z.div_mod a 16), (Z.div_mod b 16), Eq, Er; lia.
Qed.

Definition wide_information (i : FileInformation) : Prop :=
  0 <= VolumeSerialNumber i < 2 ^ 32 /\ 0 <= FileIndexHigh i < 2 ^ 32 /\ 0 <= FileIndexLow i < 2 ^ 32.
Lemma file_identity_text_inj i j : wide_information i -> wide_information j ->
  file_identity_text i = file_identity_text j -> i = j.
Proof.
  intros (Hv & Hh & Hl) (Hv' & Hh' & Hl') E. destruct i as [v h l], j as [v' h' l']. unfold file_identity_text in E.
  cbn [VolumeSerialNumber FileIndexHigh FileIndexLow] in *.
  apply append_cut in E as [Ev E]; [|by rewrite !hex_pad_length].
  change (":" +:+ ?u) with (String ":" u) in E. apply (f_equal (fun s => match s with String _ t => t | "" => "" end)) in E.
  apply append_cut in E as [Eh El]; [|by rewrite !hex_pad_length].
  by rewrite (hex_pad_inj 8 v v'), (hex_pad_inj 8 h h'), (hex_pad_inj 8 l l').
Qed.
(** Two stamps with the same identity are of the same file. *)
Lemma windows_stamps_same `{WindowsCalls} n m p q x y i j a b k l :
  CreateFile n p = Some x -> CreateFile m q = Some y ->
  GetFileInformationByHandle n x = Some i -> GetFileInformationByHandle m y = Some j ->
  wide_information i -> wide_information j ->
  windows_platformFileStamp n p = Ok (a, k) -> windows_platformFileStamp m q = Ok (b, l) -> a = b -> i = j.
Proof.
  unfold windows_platformFileStamp, UTF16PtrFromString. intros Ex Ey Ei Ej Hi Hj.
  destruct (has_nul p), (has_nul q); try done. rewrite Ex, Ey, Ei, Ej.
  destruct (GetFileInformationByHandleEx n x), (GetFileInformationByHandleEx m y); try done.
  intros [= <- _] [= <- _]. by apply file_identity_text_inj.
Qed.
(** A reparse point is a file with bit 10 of its attributes. *)
Lemma windows_isReparsePoint_bit `{WindowsCalls} n p attributes : has_nul p = false -> GetFileAttributes n p = Some attributes ->
  windows_isReparsePoint n p = Ok (Z.testbit attributes 10).
Proof.
  intros Hp E. unfold windows_isReparsePoint, UTF16PtrFromString. rewrite Hp, E. f_equal.
  change fileAttributeReparsePoint with (2 ^ 10). apply eq_true_iff_eq. rewrite negb_true_iff, Z.eqb_neq. split.
  - intros Hn. destruct (Z.testbit attributes 10) eqn:Eb; [done|]. destruct Hn. apply Z.bits_inj'. intros k Hk.
    rewrite Z.land_spec, Z.bits_0, Z.pow2_bits_eqb by lia. destruct (Z.eqb_spec 10 k) as [<-|]; [by rewrite Eb|by rewrite andb_false_r].
  - intros Eb Ez. apply (f_equal (fun z => Z.testbit z 10)) in Ez. by rewrite Z.land_spec, Eb in Ez.
Qed.

(** ** A system of each kind *)
Definition sample_windows : WindowsCalls :=
  {| VolumeName p := "C:"; GetDiskFreeSpaceEx _ root := if String.eqb root "C:\" then Some 500 else None;
     CreateFile _ _ := Some 7; GetFileInformationByHandle _ _ := Some (MkFileInformation 43981 1 4096);
     GetFileInformationByHandleEx _ _ := Some (MkFileBasicInfo 1 2 3 4 32); GetFileAttributes _ _ := Some 1040 |}.
Definition sample_unix : UnixCalls := {| Statfs _ _ := Some (3, 4096); Sys_syntax _ p := "&syscall.Stat_t{}" |}.
#[local] Existing Instances sample_windows sample_unix.
Example windows_stamp : windows_platformFileStamp 0 "C:\in\a.mp4" = Ok ("0000abcd:0000000100001000", 4).
Proof. reflexivity. Qed.
Example windows_reparse : windows_isReparsePoint 0 "C:\in" = Ok true.
Proof. reflexivity. Qed.
Example windows_refused : windows_platformFileStamp 0 (String (chr 0) "") = Err OsFailure.
Proof. reflexivity. Qed.
Example unix_free : unix_FreeBytes 0 "/data" = Ok 12288.
Proof. reflexivity. Qed.
