(* ===== verification/Retention.v ===== *)
(** * What retention may delete

    The only file a retention run removes is an accepted one that is still as the
    store describes it, old enough, short of disk space, announced in the retention
    log before, and covered by a full backup whose copy was read and has the same
    digest. *)

From Stdlib Require Import ZArith Lia String Ascii.
From S2P Require Import Prelude GoStrings GoTime GoJson Base64 GoTimeFacts Sha256 Sql Schema Platform Config MediaStore OpsStore Sidecar MediaScan MediaFiles MediaIngest PathFacts MediaFrame MediaAccept Operations.
Open Scope string_scope.
Open Scope list_scope.
Open Scope Z_scope.
Open Scope io_scope.

(** ** Properties of the database an operation keeps *)
Definition db_keeps (P : database -> Prop) {A} (m : F A) : Prop :=
  triple (fun w => P (w_db w)) m (fun _ w => P (w_db w)).

Section Database.
Context (P : database -> Prop).
Lemma db_keeps_bind {A B} (m : F A) (k : A -> F B) : db_keeps P m -> (forall a, db_keeps P (k a)) -> db_keeps P (fbind m k).
Proof. intros Hm Hk. eapply triple_bind; [exact Hm|exact Hk|done]. Qed.
Lemma db_keeps_same {A} (m : F A) : keeps_db m -> db_keeps P m.
Proof. intros Hm w Hw. by rewrite Hm. Qed.
Lemma db_keeps_attempt {A} (m : F A) : db_keeps P m -> db_keeps P (attempt m).
Proof. intros Hm w Hw. specialize (Hm w Hw). unfold attempt. by destruct (m w). Qed.
Lemma db_keeps_ignore {A} (m : F A) : db_keeps P m -> db_keeps P (ignore m).
Proof. intros Hm w Hw. specialize (Hm w Hw). unfold ignore. by destruct (m w). Qed.
Lemma db_keeps_store {A} (m : M database A) : preserves P m -> db_keeps P (store m).
Proof.
  intros Hm w Hw. specialize (Hm (w_db w) (w_oracle w) Hw). unfold store, state_after in *.
  by destruct (m (w_db w) (w_oracle w)) as [[? ?] ?].
Qed.
End Database.

Create HintDb db_keeping.
Ltac db_keep :=
  repeat (cbv beta zeta;
  lazymatch goal with
  | |- db_keeps _ (fbind _ _) => apply db_keeps_bind; [|intros ?]
  | |- db_keeps _ (fret _) => apply db_keeps_same; by intros ?
  | |- db_keeps _ (ffail _) => apply db_keeps_same; by intros ?
  | |- db_keeps _ (ask _) => apply db_keeps_same; by intros ?
  | |- db_keeps _ (attempt _) => apply db_keeps_attempt
  | |- db_keeps _ (ignore _) => apply db_keeps_ignore
  | |- db_keeps _ (store _) => apply db_keeps_store
  | |- db_keeps _ (call _) => apply db_keeps_same, keeps_db_call
  | |- db_keeps _ (match ?x with _ => _ end) => destruct x
  | |- db_keeps _ _ => solve [auto with db_keeping]
  | |- preserves _ _ => solve [auto with db_keeping]
  end).

(** *** The retention log only grows *)
Definition has_key (key : string) (d : database) : Prop :=
  exists e, e ∈ retention_events d /\ fst (rval e) = key.

Lemma log_keeps_key {A} get put ok key' (x : A) key :
  (forall d t, retention_events (put d t) = retention_events d) -> preserves (has_key key) (log_stmt get put ok key' x).
Proof.
  intros Hput. apply preserves_stmt. intros d a d' Hd. destruct (log_keyed _ _ _ _) as [t|]; [|done].
  intros [= _ <-]. unfold has_key. by rewrite Hput.
Qed.
Lemma fault_keeps_key key e : preserves (has_key key) (AppendFaultEvent e).
Proof. by apply log_keeps_key. Qed.
Lemma retention_log_keeps_key key ok key' e :
  preserves (has_key key) (log_stmt retention_events with_retention_events ok key' e).
Proof.
  apply preserves_stmt. intros d a d' (r & Hr & Hk). unfold log_keyed. destruct (negb _); [done|].
  destruct (existsb _ _); intros [= _ <-]; exists r; (split; [|done]); [done|].
  unfold insert_row. apply elem_of_app. by left.
Qed.
Lemma planned_keeps_key key id p : preserves (has_key key) (RetentionDeletionPlanned id p).
Proof. apply preserves_mbind; [apply preserves_query|intros ?; apply preserves_mret]. Qed.
Lemma projection_keeps_key key id : preserves (has_key key) (applyMediaSegmentProjection id).
Proof. apply preserves_stmt. intros d a d' Hd [= _ <-]. by case_match. Qed.
Lemma commit_keeps_key key e : preserves (has_key key) (CommitRetentionDeletion e).
Proof.
  apply preserves_transaction, preserves_mbind; [apply retention_log_keeps_key|]. intros ?.
  apply preserves_mbind.
  { apply preserves_stmt. intros d x d' Hd. unfold insert_state_keyed. repeat case_match; try done; intros [= _ <-]; exact Hd. }
  intros ?. apply preserves_mbind; [|intros ?; apply projection_keeps_key].
  apply preserves_stmt. intros d x d' Hd. unfold state_id. case_match; [|done]. by intros [= _ <-].
Qed.
#[export] Hint Resolve fault_keeps_key planned_keeps_key commit_keeps_key : db_keeping.
#[export] Hint Extern 1 (preserves _ (AppendRetentionEvent _)) => apply retention_log_keeps_key : db_keeping.

(** ** Runs of retention *)
Section Retention.
Context `{Paths} `{Zones} `{Network} `{Floats} `{FilePaths} {laws : PathLaws} {env : Environment} `{Disk} (cfg : Config).

Lemma db_keeps_recordError P module severity code e : (forall e, preserves P (AppendFaultEvent e)) ->
  db_keeps P (recordError module severity code e).
Proof. intros HP. unfold recordError, appendFault, now_text, now. db_keep. Qed.
#[local] Hint Resolve db_keeps_recordError : db_keeping.
Lemma keeps_db_ReadFile p : keeps_db (ReadFile p).
Proof. unfold ReadFile, Open, ReadAll. keep_db. Qed.
#[local] Hint Resolve keeps_db_ReadFile : keeping_db.
Lemma keeps_db_fileSHA256 p : keeps_db (fileSHA256 p).
Proof. unfold fileSHA256. keep_db. Qed.
#[local] Hint Resolve keeps_db_fileSHA256 keeps_db_Lstat : keeping_db.
Lemma keeps_db_backed_up cov c : keeps_db (backed_up cfg cov c).
Proof. unfold backed_up, backupBodyVerified. keep_db. Qed.
Lemma keeps_db_load : keeps_db (loadBackupCoverage cfg).
Proof. unfold loadBackupCoverage. keep_db. Qed.

Lemma key_confirm key c : db_keeps (has_key key) (confirm c).
Proof. unfold confirm, confirmRetentionDeletion, now_text, now. db_keep. Qed.
Lemma key_failure key c e : db_keeps (has_key key) (recordRetentionFailure c e).
Proof. unfold recordRetentionFailure, now_text, now. db_keep. Qed.
#[local] Hint Resolve key_confirm key_failure : db_keeping.
Lemma key_delete_file key p c : db_keeps (has_key key) (delete_file p c).
Proof. unfold delete_file, Remove. db_keep. Qed.
#[local] Hint Resolve key_delete_file : db_keeping.
Lemma key_delete key p c : db_keeps (has_key key) (delete_planned p c).
Proof. unfold delete_planned, now_text, now. db_keep. Qed.
#[local] Hint Resolve key_delete : db_keeping.
Lemma key_retain key cov c : db_keeps (has_key key) (retain_candidate cfg cov c).
Proof.
  unfold retain_candidate. db_keep; apply db_keeps_same; [apply keeps_db_backed_up|apply keeps_db_Lstat|apply keeps_db_fileSHA256].
Qed.

(** *** The files a run leaves alone *)
Section Keeping.
Context (q : string) (P : option node -> Prop) (Hq : quiet q).
#[local] Hint Resolve Hq : keeping.

Lemma keeps_ReadFile p : keeps q P (ReadFile p).
Proof. unfold ReadFile. keep. apply keeps_look; [done|]. intros n fs. by repeat case_match. Qed.
#[local] Hint Resolve keeps_ReadFile : keeping.
Lemma keeps_fileSHA256 p : keeps q P (fileSHA256 p).
Proof. unfold fileSHA256. keep. Qed.
#[local] Hint Resolve keeps_fileSHA256 : keeping.
Lemma keeps_recordError module severity code e : keeps q P (recordError module severity code e).
Proof. unfold recordError, appendFault, now_text. keep. Qed.
#[local] Hint Resolve keeps_recordError : keeping.
Lemma keeps_backed_up cov c : keeps q P (backed_up cfg cov c).
Proof. unfold backed_up, backupBodyVerified. keep. Qed.
Lemma keeps_load : keeps q P (loadBackupCoverage cfg).
Proof. unfold loadBackupCoverage. keep. Qed.
Lemma keeps_MediaAllowed s : keeps q P (MediaAllowed cfg s).
Proof. unfold MediaAllowed, refreshDiskStatus, now_text. keep. Qed.
Lemma keeps_confirm c : keeps q P (confirm c).
Proof. unfold confirm, confirmRetentionDeletion, now_text. keep. Qed.
#[local] Hint Resolve keeps_backed_up keeps_confirm : keeping.
Lemma keeps_delete_file p c : clean p <> q -> keeps q P (delete_file p c).
Proof. intros Hp. unfold delete_file, recordRetentionFailure, now_text. keep. by apply keeps_Remove. Qed.
Lemma keeps_delete p c : clean p <> q -> keeps q P (delete_planned p c).
Proof. intros Hp. unfold delete_planned, now_text. keep. by apply keeps_delete_file. Qed.

Lemma keeps_retain cov c : media_path cfg (rc_ManagedRelativePath c) <> q -> keeps q P (retain_candidate cfg cov c).
Proof.
  intros Hc. unfold retain_candidate. keep. apply keeps_delete. unfold media_path in *. by rewrite clean_idem.
Qed.
End Keeping.

(** *** What the checks establish *)
Lemma read_regular p c m w r w' : quiet (clean p) -> w_files w !! clean p = Some (Regular c m) ->
  ReadFile p w = (Ok r, w') -> r = c.
Proof.
  intros Hq Hc Hr. unfold ReadFile in Hr. inv_f Hr. apply (opened_regular p c m) in Hm as [-> E1]; [|done..].
  unfold ReadAll, call, call_with in Hr. destruct (io_fault _); [done|].
  rewrite Hq, E1 in Hr. by injection Hr as <- _.
Qed.
Lemma hashed_regular p c m w h w' : quiet (clean p) -> w_files w !! clean p = Some (Regular c m) ->
  fileSHA256 p w = (Ok h, w') -> h = sha256_hex c.
Proof. intros Hq Hc Hr. unfold fileSHA256 in Hr. inv_f Hr. by rewrite (read_regular _ _ _ _ _ _ Hq Hc Hm). Qed.

Lemma body_verified b w w' : quiet (clean (bc_BackupPath b)) -> backupBodyVerified b w = (Ok true, w') ->
  holds (bc_SizeBytes b) (bc_SHA256 b) (w_files w' !! clean (bc_BackupPath b)).
Proof.
  intros Hq Hr. unfold backupBodyVerified in Hr. inv_f Hr. apply attempt_inv in Hm.
  destruct a as [[c m| |]|]; try done. apply Lstat_Ok in Hm. destruct (slen c =? _) eqn:Es; [|done]. cbn [negb] in Hr.
  inv_f Hr. apply attempt_inv in Hm0. destruct a as [h|]; [|done].
  assert (Hb : String.eqb h (bc_SHA256 b) = true) by congruence.
  apply (hashed_regular _ c m) in Hm0 as E; [|done..]. subst h.
  apply String.eqb_eq in Hb. apply Z.eqb_eq in Es.
  eapply keeps_run; [by apply keeps_fileSHA256|exact Hm0|]. rewrite Hm. by exists c, m.
Qed.

(** A removed file, described in the database [d0] the run started with. *)
Definition planned_key (c : RetentionCandidate) (at_ : string) : string :=
  eventKey [format_int (rc_MediaSegmentID c); "planned"; "RETENTION_POLICY"; rc_ManagedRelativePath c; at_].
Definition managed_in (d0 : database) (p : string) : Prop :=
  exists r, r ∈ media_segments d0 /\ media_path cfg (mm_ManagedRelativePath (rval r)) = p.

(** The copy in the backup, which is still there when the backup is not itself a
    file the store manages. *)
Definition copy_there (d0 : database) (b : backupCoverage) (w : world) : Prop :=
  quiet (clean (bc_BackupPath b)) -> ~ managed_in d0 (clean (bc_BackupPath b)) ->
  holds (bc_SizeBytes b) (bc_SHA256 b) (w_files w !! clean (bc_BackupPath b)).
Definition covered (d0 : database) (coverage : gmap string backupCoverage) (c : RetentionCandidate) (w : world) : Prop :=
  re_RequireFullBackup (Retention cfg) = true ->
  exists b, coverage !! rc_ManagedRelativePath c = Some b /\ bc_SHA256 b = ToLower (rc_SHA256 c) /\
    bc_SizeBytes b = rc_SizeBytes c /\ copy_there d0 b w.
Definition removable (d0 : database) (coverage : gmap string backupCoverage) (x : node) (c : RetentionCandidate) (w : world) : Prop :=
  (exists content modified, x = Regular content modified /\ slen content = rc_SizeBytes c /\
     sha256_hex content = rc_SHA256 c) /\
  in_accepted cfg (media_path cfg (rc_ManagedRelativePath c)) = true /\ covered d0 coverage c w /\
  exists t, has_key (planned_key c t) (w_db w).

Section Candidate.
Context (d0 : database) (coverage : gmap string backupCoverage).

(** An operation that leaves what is not managed alone keeps the copies. *)
Lemma covered_kept {A} (m : F A) c :
  (forall b P, quiet (clean (bc_BackupPath b)) -> ~ managed_in d0 (clean (bc_BackupPath b)) ->
     keeps (clean (bc_BackupPath b)) P m) -> triple (covered d0 coverage c) m (fun _ => covered d0 coverage c).
Proof.
  intros Hm w Hw Hr. destruct (Hw Hr) as (b & E1 & E2 & E3 & Hc). exists b. repeat (split; [done|]).
  intros Hq Hn. apply (Hm b _ Hq Hn), Hc; done.
Qed.

Lemma removable_kept {A} (m : F A) x c :
  (forall b P, quiet (clean (bc_BackupPath b)) -> ~ managed_in d0 (clean (bc_BackupPath b)) ->
     keeps (clean (bc_BackupPath b)) P m) -> (forall key, db_keeps (has_key key) m) ->
  triple (removable d0 coverage x c) m (fun _ => removable d0 coverage x c).
Proof.
  intros Hm Hk w (G1 & G2 & G3 & t & G4). split; [done|]. split; [done|]. split; [by apply covered_kept|].
  exists t. by apply Hk.
Qed.

Lemma retain_elsewhere r p : r ∈ media_segments d0 -> ~ managed_in d0 p ->
  media_path cfg (rc_ManagedRelativePath (candidate r)) <> p.
Proof. intros Hr Hn E. apply Hn. by exists r. Qed.

Lemma retain_keeps_removable x c r : r ∈ media_segments d0 ->
  triple (removable d0 coverage x c) (retain_candidate cfg coverage (candidate r)) (fun _ => removable d0 coverage x c).
Proof.
  intros Hr. apply removable_kept; [|intros key; apply key_retain].
  intros b P Hq Hn. apply keeps_retain; [done|]. by apply retain_elsewhere.
Qed.

(** The copy is there after a check of the backup. *)
Lemma backed_up_covered c w w' : backed_up cfg coverage c w = (Ok true, w') -> covered d0 coverage c w'.
Proof.
  unfold backed_up. intros Hr Hf. rewrite Hf in Hr. cbn [negb] in Hr.
  destruct (covering coverage c) as [b|] eqn:Eb; [|done]. unfold covering in Eb.
  apply obind_Some in Eb as (b' & Ec & Eb). apply oguard_Some in Eb as [Eg [= ->]]. to_prop.
  exists b. repeat (split; [done|]). intros Hq _. by apply (body_verified b w).
Qed.

(** The steps before the announcement: the file is there and its copy too. *)
Section Here.
Context (q : string) (x : node) (r : row MediaMetadata) (Hq : quiet q).
Definition here (w : world) : Prop := at_ q (eq (Some x)) w /\ covered d0 coverage (candidate r) w.
Definition done_with (w : world) : Prop := at_ q (eq (Some x)) w \/ removable d0 coverage x (candidate r) w.

Lemma here_kept {A} (m : F A) (Q : result media_error A -> Prop) :
  (forall q P, quiet q -> keeps q P m) -> (forall w, at_ q (eq (Some x)) w -> Q (fst (m w))) ->
  triple here m (fun r w => here w /\ Q r).
Proof.
  intros Hm HQ w [Hx Hc]. split; [|by apply HQ]. split; [by apply (Hm q _ Hq)|].
  refine (covered_kept m _ _ w Hc). intros b P Hb _. by apply Hm.
Qed.
Lemma here_bind {A B} (m : F A) (k : A -> F B) (Q : result media_error A -> Prop) :
  triple here m (fun r w => here w /\ Q r) -> (forall a, Q (Ok a) -> triple here (k a) (fun _ => done_with)) ->
  triple here (fbind m k) (fun _ => done_with).
Proof.
  intros Hm Hk. eapply triple_bind; [exact Hm| |].
  - intros a w [Hw HQ]. by apply Hk.
  - intros e w [[Hx _] _]. by left.
Qed.
Lemma here_ret : triple here (fret tt) (fun _ => done_with).
Proof. intros w [Hx _]. by left. Qed.

Context (Hr : r ∈ media_segments d0) (Hp : media_path cfg (rc_ManagedRelativePath (candidate r)) = q).
Lemma path_clean : clean q = q.
Proof. rewrite <- Hp. apply clean_idem. Qed.

Lemma Lstat_here w : at_ q (eq (Some x)) w -> fst (Lstat q w) = Ok x \/ fst (Lstat q w) = Err OsFailure.
Proof.
  unfold at_. intros Hx. unfold Lstat, call, call_with, node_at. rewrite path_clean, Hq, <- Hx.
  destruct (io_fault _); [by right|by left].
Qed.

(** After the announcement the file may go. *)
Lemma delete_removable : in_accepted cfg q = true ->
  (exists content modified, x = Regular content modified /\ slen content = rc_SizeBytes (candidate r) /\
     sha256_hex content = rc_SHA256 (candidate r)) ->
  triple here (delete_planned q (candidate r)) (fun _ => done_with).
Proof.
  intros Ha Hcontent. unfold delete_planned.
  eapply (here_bind _ _ (fun _ => True)); [apply here_kept; [|done]; intros; unfold now_text; keep|]. intros at_ _.
  eapply (triple_bind _ _ (fun a w => here w /\ (a = Ok (Ok tt) -> has_key (planned_key (candidate r) at_) (w_db w)))).
  { intros w Hw. split; [apply (here_kept _ (fun _ => True)); [intros; apply keeps_attempt, keeps_store|done..]|].
    unfold attempt. destruct (store _ w) as [[[]|] w'] eqn:Es; [intros _|done]. apply store_inv in Es as [Es _].
    apply log_stmt_inv in Es as [_ Ed]. cbn. unfold has_key. rewrite Ed. apply logged_key. }
  2:{ by intros e w [[Hx _] _]; left. }
  intros [[]|e]; [|by intros w [[Hx _] _]; left]. intros w [[Hx Hc] Hk]. right.
  refine (removable_kept _ x (candidate r) _ _ w _).
  - intros b P Hb Hn. apply keeps_delete_file; [done|]. rewrite path_clean, <- Hp. by apply retain_elsewhere.
  - intros key. apply key_delete_file.
  - split; [done|]. split; [by rewrite Hp|]. split; [done|]. exists at_. by apply Hk.
Qed.

Lemma hash_here content modified w h : x = Regular content modified -> at_ q (eq (Some x)) w ->
  fst (fileSHA256 q w) = Ok h -> h = sha256_hex content.
Proof.
  intros Ex Hx. destruct (fileSHA256 q w) as [a w'] eqn:E. cbn. intros ->.
  apply (hashed_regular q content modified) in E; [done|by rewrite path_clean|rewrite path_clean; by rewrite <- Ex, <- Hx].
Qed.

Lemma retain_removable : triple (at_ q (eq (Some x))) (retain_candidate cfg coverage (candidate r)) (fun _ => done_with).
Proof.
  unfold retain_candidate. rewrite Hp. destruct (in_accepted cfg q) eqn:Ha; [|by left]. cbn [negb].
  eapply (triple_bind _ _ (fun a w => at_ q (eq (Some x)) w /\ (a = Ok true -> covered d0 coverage (candidate r) w))).
  { intros w Hx. split; [by apply keeps_backed_up|]. intros Hb.
    destruct (backed_up _ _ _ w) as [a w'] eqn:E. cbn in *. subst a. by apply backed_up_covered in E. }
  2:{ intros e w [Hx _]. by left. }
  intros [|]; cbn [negb]; [|intros w [Hx _]; by left].
  eapply triple_weaken; [|intros w [Hx Hc]; exact (conj Hx (Hc eq_refl))|intros a w Hw; exact Hw]. fold here.
  eapply (here_bind _ _ (fun _ => True)); [apply here_kept; [|done]; intros; apply keeps_attempt, keeps_store|].
  intros [planned|e] _; [|apply here_ret].
  eapply (here_bind _ _ (fun a => a = Ok (Ok x) \/ a = Ok (Err OsFailure))).
  { apply here_kept; [intros; by apply keeps_attempt, keeps_Lstat|]. intros w Hx. unfold attempt.
    destruct (Lstat_here w Hx) as [E|E]; destruct (Lstat q w) as [? ?]; cbn in E |- *; subst; [by left|by right]. }
  intros a [[= ->]|[= ->]]; [|apply here_ret]. destruct (IsRegular x) eqn:Er; [|apply here_ret].
  destruct x as [content modified| |] eqn:Ex; try done. cbn [negb orb Size].
  destruct (Z.eqb_spec (slen content) (rc_SizeBytes (candidate r))) as [Es|]; [|apply here_ret]. cbn [negb].
  eapply (here_bind _ _ (fun a => forall h, a = Ok (Ok h) -> h = sha256_hex content)).
  { apply here_kept; [intros; by apply keeps_attempt, keeps_fileSHA256|]. intros w Hx h. unfold attempt.
    pose proof (hash_here content modified w h Ex Hx) as Hh. destruct (fileSHA256 q w) as [? ?]. cbn in *.
    intros [= ->]. by apply Hh. }
  intros [h|e] Hh; [|apply here_ret]. rewrite (Hh h eq_refl).
  destruct (String.eqb_spec (sha256_hex content) (rc_SHA256 (candidate r))) as [Ed|]; [|apply here_ret].
  apply delete_removable; [done|]. by exists content, modified.
Qed.
End Here.
End Candidate.

(** *** The loop and the run *)
Definition justified (d0 : database) (coverage : gmap string backupCoverage) (cutoff q : string) (x : node) (w : world) : Prop :=
  at_ q (eq (Some x)) w \/
  exists r, r ∈ candidate_rows cutoff d0 /\ media_path cfg (mm_ManagedRelativePath (rval r)) = q /\
    removable d0 coverage x (candidate r) w.

Lemma retain_justified d0 coverage cutoff q x r : quiet q -> r ∈ candidate_rows cutoff d0 ->
  triple (justified d0 coverage cutoff q x) (retain_candidate cfg coverage (candidate r))
    (fun _ => justified d0 coverage cutoff q x).
Proof.
  intros Hq Hr. pose proof Hr as Hs. apply elem_of_candidate_rows in Hs as [Hs _].
  intros w [Hx|(r' & H1' & H2' & Hrem)].
  - destruct (decide (media_path cfg (mm_ManagedRelativePath (rval r)) = q)) as [E|E].
    + destruct (retain_removable d0 coverage q x r Hq Hs E w Hx) as [G|G]; [by left|right; by exists r].
    + left. by apply keeps_retain.
  - right. exists r'. split; [done|]. split; [done|]. by apply retain_keeps_removable.
Qed.

Lemma retain_all_justified d0 coverage cutoff q x l : quiet q ->
  (forall c, c ∈ l -> exists r, r ∈ candidate_rows cutoff d0 /\ c = candidate r) ->
  triple (justified d0 coverage cutoff q x) (retain_candidates cfg coverage l) (fun _ => justified d0 coverage cutoff q x).
Proof.
  intros Hq. induction l as [|c l IH]; intros Hl; cbn [retain_candidates]; [by intros w Hw|].
  destruct (Hl c) as (r & Hr & ->); [left|].
  eapply triple_bind; [by apply retain_justified|intros a; apply IH; intros c' Hc; apply Hl; by right|done].
Qed.

(** What the backup covers, as a manifest says. *)
Definition loaded (coverage : gmap string backupCoverage) : Prop :=
  re_RequireFullBackup (Retention cfg) = true ->
  exists marker raw, bm_SchemaVersion marker = 1 /\ manifest_coverage marker raw = Ok coverage.

Lemma load_loaded w coverage w' : loadBackupCoverage cfg w = (Ok coverage, w') -> loaded coverage.
Proof.
  unfold loadBackupCoverage. intros Hl Hf. rewrite Hf in Hl. cbn [negb] in Hl. inv_f Hl.
  destruct a as [raw|]; [|done]. destruct (valid_marker raw) as [m|] eqn:Em; [|done]. inv_f Hl.
  destruct a as [[]|]; try done. inv_f Hl. apply flift_inv in Hl as [Hl _]. exists m, a. split; [|done].
  unfold valid_marker in Em. destruct (decode_marker raw); [|done].
  destruct (_ && _) eqn:Eg; [|done]. injection Em as <-. by to_prop.
Qed.

Lemma keeps_at q P {A} (m : F A) w r w' : keeps q P m -> m w = (r, w') -> at_ q P w -> at_ q P w'.
Proof. intros Hk E Hw. specialize (Hk w Hw). by rewrite E in Hk. Qed.
Lemma RetentionCandidates_rows cutoff limit w cs w' : store (RetentionCandidates cutoff limit) w = (Ok cs, w') ->
  w_db w' = w_db w /\ forall c, c ∈ cs -> exists r, r ∈ candidate_rows cutoff (w_db w) /\ c = candidate r.
Proof.
  intros Hs. apply store_inv in Hs as [Hs _]. apply query_inv in Hs as [-> Hd]. split; [done|].
  intros c Hc. apply elem_of_sql_limit in Hc. apply list_elem_of_fmap in Hc as (r & -> & Hc). by exists r.
Qed.

(** The free space a run starts with is unknown, or within one of the thresholds, of
    which the warning threshold is the largest in a configuration that loads. *)
Definition short_of_space (n : nat) : Prop :=
  free_bytes n = None \/ exists b limit, free_bytes n = Some b /\ b <= u64 limit /\
    limit ∈ [so_DatabaseReserveBytes (Storage cfg); so_CriticalFreeBytes (Storage cfg); so_WarningFreeBytes (Storage cfg)].
Lemma not_normal n : dk_level (report_of cfg (free_bytes n)) <> DiskNormal -> short_of_space n.
Proof.
  unfold short_of_space, report_of, disk_level. destruct (free_bytes n) as [b|]; [|by left]. intros Hn. right. exists b.
  destruct (Z.leb_spec b (u64 (so_DatabaseReserveBytes (Storage cfg)))); [eexists; split; [done|]; split; [done|]; left|].
  destruct (Z.leb_spec b (u64 (so_CriticalFreeBytes (Storage cfg)))); [eexists; split; [done|]; split; [done|]; by right; left|].
  destruct (Z.leb_spec b (u64 (so_WarningFreeBytes (Storage cfg)))); [|done].
  eexists. split; [done|]. split; [done|]. by right; right; left.
Qed.

Lemma MediaAllowed_closed s w s' reason w' : MediaAllowed cfg s w = (Ok (s', Some reason), w') ->
  short_of_space (w_step w) /\ w_db w' = w_db w.
Proof.
  unfold MediaAllowed, refreshDiskStatus, now_text, now, ask, fbind, fret. cbn.
  destruct (String.eqb_spec (dk_level (report_of cfg (free_bytes (w_step w)))) DiskNormal); [done|].
  intros [= _ _ <-]. split; [by apply not_normal|done].
Qed.

(** The query and the loop. *)
Definition retain_all (coverage : gmap string backupCoverage) : F unit :=
  let^ t := now in
  let cutoff := format_rfc3339nano (t - RetentionMinimumAge cfg) in
  let^ candidates := attempt (store (RetentionCandidates cutoff (re_MaxDeletesPerRun (Retention cfg)))) in
  match candidates with
  | Err e => recordError "retention" "P1" "RETENTION_QUERY_FAILED" e
  | Ok candidates => retain_candidates cfg coverage candidates
  end.
Definition cutoff_at (n : nat) : string := format_rfc3339nano (clock n - RetentionMinimumAge cfg).

Lemma advances_retain_candidates coverage l : advances (retain_candidates cfg coverage l).
Proof. induction l as [|c l IH]; cbn [retain_candidates]; advance. Qed.
#[local] Hint Resolve advances_retain_candidates : advancing.

Lemma retention_justified coverage q x w : quiet q -> at_ q (eq (Some x)) w ->
  (w_step w < w_step (snd (retain_all coverage w)))%nat /\
  justified (w_db w) coverage (cutoff_at (w_step w)) q x (snd (retain_all coverage w)).
Proof.
  intros Hq Hx. unfold retain_all, now. unfold fbind at 1 3, ask. cbv beta iota zeta. fold (cutoff_at (w_step w)).
  set (w1 := World _ _ _ _). assert (X1 : at_ q (eq (Some x)) w1) by exact Hx. change (w_db w) with (w_db w1). split.
  { refine (Nat.lt_le_trans _ (w_step w1) _ (Nat.lt_succ_diag_r _) _).
    match goal with |- (_ <= w_step (snd (?m w1)))%nat => enough (Ha : advances m) by apply Ha end. advance. }
  unfold fbind at 1, attempt at 1. destruct (store _ w1) as [a w2] eqn:Es.
  assert (X2 : at_ q (eq (Some x)) w2) by (eapply keeps_at; [|exact Es|exact X1]; by apply keeps_store).
  destruct a as [cs|e]; [|left; by apply keeps_recordError].
  apply RetentionCandidates_rows in Es as [_ Hcs]. apply (retain_all_justified _ _ _ q x cs Hq Hcs). by left.
Qed.

(** What a run does to a file nobody else touches. *)
Lemma RetentionOnce_kept s q x w (Hq : quiet q) (Hx : w_files w !! q = Some x) :
  let w' := snd (RetentionOnce cfg s w) in
  w_files w' !! q = Some x \/
  re_Enabled (Retention cfg) = true /\ short_of_space (w_step w) /\
  exists coverage n r, (w_step w <= n < w_step w')%nat /\ loaded coverage /\
    r ∈ candidate_rows (cutoff_at n) (w_db w) /\
    media_path cfg (mm_ManagedRelativePath (rval r)) = q /\ removable (w_db w) coverage x (candidate r) w'.
Proof.
  cbv zeta. symmetry in Hx. remember (snd (RetentionOnce cfg s w)) as w' eqn:Ew. unfold RetentionOnce in Ew.
  destruct (re_Enabled _); [|subst w'; by left]. cbn [negb] in Ew.
  unfold fbind at 1 in Ew. destruct (MediaAllowed cfg s w) as [[[s1 [reason|]]|e] w1] eqn:Ea;
    (assert (X1 : at_ q (eq (Some x)) w1) by (eapply keeps_at; [|exact Ea|exact Hx]; by apply keeps_MediaAllowed));
    [|subst w'; by left..].
  assert (A1 : (w_step w <= w_step w1)%nat) by (eapply advances_run; [|exact Ea]; advance).
  apply MediaAllowed_closed in Ea as [Hdisk <-]. unfold fbind at 1, attempt at 1 in Ew.
  destruct (loadBackupCoverage cfg w1) as [a w2] eqn:El. 
  assert (A2 : (w_step w1 <= w_step w2)%nat) by (eapply advances_run; [|exact El]; advance).
  assert (X2 : at_ q (eq (Some x)) w2) by (eapply keeps_at; [|exact El|exact X1]; by apply keeps_load).
  pose proof (keeps_db_load w1) as D2. rewrite El in D2. cbn in D2. rewrite <- D2.
  destruct a as [coverage|e].
  - fold (retain_all coverage) in Ew. apply load_loaded in El.
    destruct (retention_justified coverage q x w2 Hq X2) as [Hlt Hj].
    unfold fbind in Ew. destruct (retain_all coverage w2) as [a w3]. cbn [snd] in Hj, Hlt.
    assert (w' = w3) as -> by (by destruct a). destruct Hj as [Hj|(r & J1 & J2 & J3)]; [by left|].
    right. split; [done|]. split; [done|]. exists coverage, (w_step w2), r. split; [lia|].
    exact (conj El (conj J1 (conj J2 J3))).
  - left. symmetry. unfold fbind in Ew. destruct (recordError _ _ _ _ w2) as [a w3] eqn:Er.
    assert (w' = w3) as -> by (by destruct a).
    change (at_ q (eq (Some x)) w3). eapply keeps_at; [|exact Er|exact X2]. by apply keeps_recordError.
Qed.

(** A stored time before a limit, as the database compares the two: as texts, and
    that is less than a second after it at most. *)
Definition received_before (text : string) (limit : time) : Prop :=
  String.ltb text (format_rfc3339nano limit) = true /\
  (forall t, text = format_rfc3339nano t -> four_digit_year t -> four_digit_year limit -> t < limit + second).
(** The segment is one the database counts as in place. *)
Definition in_place (d : database) (id : Z) : Prop :=
  exists s, status_of_segment id d = Some s /\ (ss_Status s = "accepted" \/ ss_Status s = "restored").

Lemma candidate_facts limit d r : r ∈ candidate_rows (format_rfc3339nano limit) d ->
  r ∈ media_segments d /\ in_place d (rid r) /\ received_before (mm_ReceivedAtUTC (rval r)) limit.
Proof.
  intros Hr. unfold candidate_rows in Hr. apply elem_of_sort_by in Hr. rewrite list_elem_of_In in Hr.
  apply filter_In in Hr as [Hin Hr]. apply list_elem_of_In in Hin. apply andb_true_iff in Hr as [Hk Hlt].
  split; [done|]. split.
  - unfold kept in Hk. unfold in_place. destruct (status_of_segment (rid r) d) as [s|]; [|done]. exists s. split; [done|].
    unfold one_of in Hk. cbn in Hk. rewrite orb_false_r in Hk. apply orb_true_iff in Hk as [E|E]; to_prop; auto.
  - split; [done|]. intros t E Ht Hl. rewrite E in Hlt. by apply format_rfc3339nano_second.
Qed.

End Retention.

(** ** A run that deletes *)
#[export] Instance full_disk : Disk := {| free_bytes _ := Some 0; error_text _ := "failed" |}.
Definition retention_config : Config :=
  with_Retention sample_config (MkRetention true "1h" "24h" true 10).
Definition kept_media : MediaMetadata :=
  MkMediaMetadata "camera" "clip-1" "accepted/clip-1.media" "2024-02-01T20:34:56+08:00" "2024-02-01T20:35:56+08:00"
    "2024-02-01T12:34:56Z" "2024-02-01T12:35:56Z" "2024-02-01T12:40:00Z" 0 5 6 60000 "h264" "mp4" "video"
    (sha256_hex sample_bytes) (sample_hash "metadata") 1.
Definition manifest_text : string := quoted
  ("{'schema_version':1,'type':'full','files':[{'relative_path':'accepted/clip-1.media','backup_path':'media/clip-1',"
   +:+ "'sha256':'" +:+ sha256_hex sample_bytes +:+ "','kind':'media','size_bytes':6,'included':true}]}").
Definition marker_text : string := quoted
  ("{'schema_version':1,'manifest_path':'/backup/manifest.json','manifest_sha256':'" +:+ sha256_hex manifest_text +:+ "'}").
Definition backed_files (copy : string) : files :=
  <["data/media/accepted/clip-1.media" := Regular sample_bytes 7]>
  (<["data/backup/latest-full.json" := Regular marker_text 8]>
  (<["/backup/manifest.json" := Regular manifest_text 8]>
  (<["/backup/media/clip-1" := Regular copy 8]> sample_directories))).
Definition segment_kept : database :=
  state_after (AcceptMedia kept_media (sample_ingest "validated") (sample_hash "state")) empty_database [].
Definition retention_run (copy : string) : world :=
  snd (RetentionOnce retention_config initial_ops (World (backed_files copy) segment_kept [] 0)).
Definition shown (w : world) : bool * list string * option string :=
  (bool_decide (is_Some (w_files w !! "data/media/accepted/clip-1.media")),
   map (fun r => rt_Status (snd (rval r))) (retention_events (w_db w)),
   option_map ss_Status (status_of_segment 1 (w_db w))).

(** The file goes when the copy is as the manifest says, and stays when not. *)
Example retention_example : map (fun c => shown (retention_run c)) [sample_bytes; "framed"]
  = [(false, ["planned"; "deleted"], Some "retention_deleted"); (true, [], Some "accepted")].
Proof. vm_compute. reflexivity. Qed.

