(* ===== verification/HttpApi.v ===== *)
(** * The HTTP API ([httpapi/handler.go]) and its wiring ([app/server.go])

    Requests and responses, the checks before a handler takes a slot, and the
    handlers on the store and the operations manager, in the world of [MediaFiles].
    A handler that is waiting on the store holds its slot; the server is a step
    relation over the requests in flight. *)

From Stdlib Require Import ZArith Lia String Ascii.
From S2P Require Import Prelude GoStrings GoTime GoJson StrictJson Sql Schema Keyed Events Heartbeats Query Platform Config MediaStore OpsStore Timeline CoverageStore Sidecar ActivityWatch MediaFiles MediaIngest Operations.
Open Scope string_scope.
Open Scope list_scope.
Open Scope result_scope.
Open Scope Z_scope.
Open Scope io_scope.

Definition APISchemaVersion : Z := 1.
Definition CodeMethodNotAllowed : string := "API_METHOD_NOT_ALLOWED".
Definition CodeMediaTypeInvalid : string := "API_MEDIA_TYPE_INVALID".
Definition CodeOriginForbidden : string := "API_ORIGIN_FORBIDDEN".
Definition CodeBodyTooLarge : string := "API_BODY_TOO_LARGE".
Definition CodeJSONInvalid : string := "API_JSON_INVALID".
Definition CodeSchemaInvalid : string := "API_SCHEMA_UNSUPPORTED".
Definition CodeQueryInvalid : string := "API_QUERY_INVALID".
Definition CodeWriteLimit : string := "API_WRITE_CONCURRENCY_LIMIT".
Definition CodeProjectionLimit : string := "API_PROJECTION_CONCURRENCY_LIMIT".
Definition CodeModuleDisabled : string := "API_MODULE_DISABLED".
Definition CodeStorageOffline : string := "API_STORAGE_UNAVAILABLE".

(** A request; the body may fail to arrive. *)
Record request := Request {
  rq_Method : string; rq_Path : string; rq_Origin : string; rq_ContentType : string;
  rq_Query : list (string * list string); rq_Body : result unit string }.

Record SummaryBodyT := MkSummary {
  su_GeneratedAtUTC : string; su_RuntimeMode : string; su_Operations : ops_state;
  su_Media : module_state * option MediaIngestSummaryT; su_Collectors : list Status;
  su_ExternalBacklogs : list string; su_History : DashboardHistory }.

Inductive payload : Type :=
  | ErrorBody (code message : string)
  | LivenessBody (version mode : string)
  | ReadinessBody (r : Readiness)
  | ResultsBody (results : list WriteResult)
  | PageBody (page : Page)
  | TimelineBody (page : TimelinePage)
  | CoverageBody (result : CoverageResult)
  | CollectorsBody (l : list Status)
  | MediaBody (m : module_state * option MediaIngestSummaryT)
  | OperationsBody (s : ops_state)
  | SummaryBody (s : SummaryBodyT).
Record response := Response { rs_Status : Z; rs_Allow : string; rs_Body : option payload }.

(** What becomes of a handler: it answers, panics, or never comes back. *)
Inductive outcome_of_handler : Type := Answer (r : response) | Panic | Hang.

(** ** Responses *)
Definition writeJSON (req : request) (status : Z) (value : payload) : response :=
  Response status "" (if String.eqb (rq_Method req) "HEAD" then None else Some value).
Definition writeError (req : request) (status : Z) (code message : string) : response :=
  writeJSON req status (ErrorBody code message).
Definition writeMethodError (req : request) (allow : string) : response :=
  Response 405 allow (rs_Body (writeError req 405 CodeMethodNotAllowed "method is not allowed")).
Definition allowReadMethod (req : request) : result response unit :=
  if one_of ["GET"; "HEAD"] (rq_Method req) then Ok tt else Err (writeMethodError req "GET, HEAD").

Definition store_status (code : string) : Z :=
  if one_of [CodeBusy; CodeReadOnly; CodeCanceled; CodeWriteFailed; CodeQueryFailed; CodeTimelineSyncBusy] code
  then 503 else 500.
Definition writeStoreError (req : request) (e : error) : response :=
  writeError req (store_status (Sql.ErrorCode e)) (Sql.ErrorCode e) "event storage operation failed".

(** ** Query strings *)
Definition query_get (key : string) (req : request) : string :=
  match member key (rq_Query req) with Some (v :: _) => v | _ => "" end.
(** Only these keys, each once. *)
Definition query_keys (allowed : list string) (req : request) : bool :=
  forallb (fun kv => one_of allowed (fst kv) && (length (snd kv) =? 1)%nat) (rq_Query req).

Section Requests.
Context `{Floats} (cfg : Config).

Definition page_limit (req : request) : result response Z :=
  let text := query_get "limit" req in
  if String.eqb text "" then Ok (ap_DefaultPageSize (API cfg))
  else match parse_int text with
       | Some n => if (n <? 1) || (ap_MaxPageSize (API cfg) <? n)
                   then Err (writeError req 400 CodePageLimitInvalid "page limit is invalid") else Ok n
       | None => Err (writeError req 400 CodePageLimitInvalid "page limit is invalid")
       end.

(** [time.Time.Sub] saturates. *)
Definition sub_saturated (finish start : time) : duration := Z.max int64_min (Z.min int64_max (finish - start)).

Definition parseRangeQuery (req : request) (allowCursor : bool) : result response (time * time * Z * string) :=
  guard? query_keys (["start"; "end"] ++ (if allowCursor then ["limit"; "cursor"] else ["collector_id"])) req
    else writeError req 400 CodeQueryInvalid "query parameters are invalid" in
  let startText := query_get "start" req in
  let endText := query_get "end" req in
  guard? negb (has_suffix startText "-00:00" || has_suffix endText "-00:00")
    else writeError req 400 CodeQueryInvalid "range timestamps require known RFC3339 offsets" in
  let invalid := writeError req 400 CodeQueryInvalid "range is invalid or exceeds the configured maximum" in
  match parse_rfc3339nano startText, parse_rfc3339nano endText with
  | Some start, Some finish =>
    guard? (start <? finish) && (sub_saturated finish start <=? TimelineMaxQueryRange cfg) else invalid in
    let? limit := page_limit req in
    Ok (start, finish, limit, query_get "cursor" req)
  | _, _ => Err invalid
  end.
End Requests.

(** ** The handler *)

(** The interface value [handler.store]: nil, a nil pointer of the store's type,
    or an open store.  Only the first is equal to nil. *)
Inductive store_value := NoStore | NilStore | OpenStore (st : Store).
Definition is_nil (s : store_value) : bool := match s with NoStore => true | _ => false end.

Record StorageFailure := MkStorageFailure { sf_Status : string; sf_SchemaVersion : Z; sf_ErrorCode : string }.

(** [hd_operations]: an operations manager is among the providers, as gate, fault
    and module recorder and status; [hd_media]: a media manager is; [hd_dashboard]:
    the dashboard is. *)
Record Handler := MkHandler {
  hd_store : store_value; hd_storageFailure : StorageFailure;
  hd_operations : bool; hd_media : bool; hd_dashboard : bool; hd_build : string }.

(** The part of the server that requests change: the status of the operations
    manager, the slots taken, and [coverageDegraded]. *)
Record api_state := ApiState {
  hs_operations : ops_state; hs_writes : Z; hs_projections : Z; hs_coverageDegraded : bool }.
Definition with_operations (s : api_state) (o : ops_state) : api_state :=
  ApiState o (hs_writes s) (hs_projections s) (hs_coverageDegraded s).
Definition with_writes (s : api_state) (n : Z) : api_state :=
  ApiState (hs_operations s) n (hs_projections s) (hs_coverageDegraded s).
Definition with_projections (s : api_state) (n : Z) : api_state :=
  ApiState (hs_operations s) (hs_writes s) n (hs_coverageDegraded s).
Definition with_degraded (s : api_state) (b : bool) : api_state :=
  ApiState (hs_operations s) (hs_writes s) (hs_projections s) b.

(** What the handlers ask of their surroundings: [mime.ParseMediaType], the state
    of the media module and of the collectors, the turn at the timeline lock, what
    the probe of the store answers, and the circumstances of a rebuild. *)
Class Requests := {
  parse_media_type : string -> option string;
  media_module : nat -> module_state;
  collector_statuses : nat -> list Status;
  sync_turn : nat -> turn;
  store_probe : nat -> OpsStore.probe;
  rebuild_surroundings : nat -> CollectorConfig -> rebuild_env }.

Inductive route := Liveness | ReadinessRoute | EventBatch | EventQuery | HeartbeatBatch | CollectorStatusRoute
  | TimelineRoute | CoverageRoute | MediaIngestStatus | OperationsStatus | DashboardSummary.
#[export] Instance route_eq_dec : EqDecision route.
Proof. solve_decision. Defined.

(** The patterns of the mux; [None] is left to it or to the dashboard. *)
Definition route_of (h : Handler) (path : string) : option route :=
  let! r := member path
    [("/health/live", Liveness); ("/health/ready", ReadinessRoute); ("/api/v1/events/batch", EventBatch);
     ("/api/v1/evidence/batch", EventBatch); ("/api/v1/events", EventQuery);
     ("/api/v1/collectors/heartbeats/batch", HeartbeatBatch); ("/api/v1/collectors/status", CollectorStatusRoute);
     ("/api/v1/timeline", TimelineRoute); ("/api/v1/coverage", CoverageRoute);
     ("/api/v1/media/ingest/status", MediaIngestStatus); ("/api/v1/operations/status", OperationsStatus);
     ("/api/v1/dashboard/summary", DashboardSummary)] in
  oguard (hd_dashboard h || negb (bool_decide (r = DashboardSummary))) (Some r).

(** ** Before the slot *)
Section Begin.
Context `{Requests} `{Floats} (cfg : Config) (h : Handler).

(** The two batch handlers differ in these. *)
Record batch_kind := BatchKind {
  bk_field : string; bk_disabled : string; bk_unconfirmed : string; bk_trailing : string; bk_size : string;
  bk_failed : string }.
Definition event_batch : batch_kind := BatchKind "events" "generic Evidence input is disabled in minimum mode"
  "storage reserve is protected; write was not confirmed" "request JSON contains trailing data"
  "event batch size is invalid" "event_batch_failed".
Definition heartbeat_batch : batch_kind := BatchKind "heartbeats" "external heartbeat input is disabled in minimum mode"
  "storage reserve is protected; heartbeat was not confirmed" "request JSON is invalid"
  "heartbeat batch size is invalid" "heartbeat_batch_failed".

Definition begin_batch (k : batch_kind) (s : api_state) (req : request) : result response api_state :=
  guard? String.eqb (rq_Method req) "POST" else writeMethodError req "POST" in
  guard? negb (String.eqb (ru_Mode (Runtime cfg)) ModeMinimum)
    else writeError req 404 CodeModuleDisabled (bk_disabled k) in
  guard? String.eqb (rq_Origin req) ""
    else writeError req 403 CodeOriginForbidden "browser-origin writes are not accepted" in
  guard? bool_decide (parse_media_type (rq_ContentType req) = Some "application/json")
    else writeError req 415 CodeMediaTypeInvalid "Content-Type must be application/json" in
  guard? hs_writes s <? ap_MaxConcurrentWrites (API cfg)
    else writeError req 429 CodeWriteLimit "write concurrency limit reached" in
  Ok (with_writes s (hs_writes s + 1)).

Definition offline (req : request) : response :=
  writeError req 503 CodeStorageOffline "event storage is unavailable".
Definition read_range (req : request) (allowCursor : bool) : result response (time * time * Z * string) :=
  let? _ := allowReadMethod req in
  guard? negb (is_nil (hd_store h)) else offline req in
  parseRangeQuery cfg req allowCursor.

Definition acquireProjection (s : api_state) (req : request) : result response api_state :=
  guard? hs_projections s <? 1
    else writeError req 429 CodeProjectionLimit "timeline or coverage projection is already running" in
  Ok (with_projections s (hs_projections s + 1)).

Definition begin_timeline (s : api_state) (req : request) : result response api_state :=
  let? (start, finish, limit, cursor) := read_range req true in
  if String.eqb cursor "" then acquireProjection s req else Ok s.

(** The collectors a coverage request is about. *)
Definition coverage_collectors (req : request) : result response (list CollectorConfig) :=
  let collectorID := query_get "collector_id" req in
  if String.eqb collectorID "" then Ok (Collectors cfg)
  else
    let chosen := List.filter (fun c => co_Enabled c && String.eqb (co_ID c) collectorID) (Collectors cfg) in
    guard? negb (length chosen =? 0)%nat
      else writeError req 400 CodeQueryInvalid "collector_id is not an enabled collector" in
    Ok chosen.
Definition begin_coverage (s : api_state) (req : request) : result response api_state :=
  let? _ := read_range req false in
  let? _ := coverage_collectors req in
  acquireProjection s req.

(** What a handler does until it holds its slot, if it takes one. *)
Definition begin (r : route) (s : api_state) (req : request) : result response api_state :=
  match r with
  | EventBatch => begin_batch event_batch s req
  | HeartbeatBatch => begin_batch heartbeat_batch s req
  | TimelineRoute => begin_timeline s req
  | CoverageRoute => begin_coverage s req
  | _ => Ok s
  end.

(** The slots a request holds once it has begun. *)
Definition writes_held (r : route) : Z :=
  match r with EventBatch | HeartbeatBatch => 1 | _ => 0 end.
Definition projections_held (r : route) (req : request) : Z :=
  match r with
  | CoverageRoute => 1
  | TimelineRoute => if String.eqb (query_get "cursor" req) "" then 1 else 0
  | _ => 0
  end.
Definition release (r : route) (req : request) (s : api_state) : api_state :=
  with_projections (with_writes s (hs_writes s - writes_held r)) (hs_projections s - projections_held r req).
End Begin.

(** ** With the slot *)

(** A call of a method of the store: on a nil pointer it panics, and a loop that
    does not end keeps the caller waiting. *)
Inductive returned (A : Type) : Type := Returned (a : A) | Failed (e : error) | Panicked | Hangs.
Arguments Returned {A} _.
Arguments Failed {A} _.
Arguments Panicked {A}.
Arguments Hangs {A}.

Definition run_store {A} (m : M database A) : F (result error A) := fun w =>
  let '(r, d, o) := m (w_db w) (w_oracle w) in (Ok r, World (w_files w) d o (w_step w)).
Definition call_store {A} (s : store_value) (m : Store -> M database A) : F (returned A) :=
  match s with
  | OpenStore st =>
    let^ r := run_store (m st) in
    fret (match r with
          | Ok a => Returned a
          | Err e => if String.eqb (Sql.ErrorCode e) NoReturn then Hangs else Failed e
          end)
  | _ => fret Panicked
  end.

(** The bytes of a batch: the items as the client sent them. *)
Definition envelope_items (field : string) (raw : string) : option (list string) :=
  let! ms := raw_object raw in
  match member field ms with
  | None | Some (_, JNull) => Some []
  | Some (text, JArr _) => let! l := raw_array text in Some (map fst l)
  | _ => None
  end.
Definition decode_envelope (field : string) (raw : string) : option (Z * list string * string) :=
  let! (v, rest) := decode_first raw in
  match v with
  | JNull => Some (0, [], rest)
  | JObj ms =>
    let! version := int_field (member "schema_version" ms) in
    let! items := envelope_items field raw in Some (version, items, rest)
  | _ => None
  end.

Section Finish.
Context `{Paths} `{Zones} `{Network} `{Floats} `{FilePaths} {env : Environment} `{Disk} `{Requests} `{SqliteJson} `{Float64} `{SqliteReal}.
Context (cfg : Config) (h : Handler).

Definition answer (s : api_state) (r : response) : F (api_state * outcome_of_handler) := fret (s, Answer r).

(** [writeGate.CoreWritesAllowed]; without a gate writes are allowed. *)
Definition write_gate (s : api_state) : F (api_state * option string) :=
  if hd_operations h then
    let^ (o, reason) := CoreWritesAllowed cfg (hs_operations s) in fret (with_operations s o, reason)
  else fret (s, None).

Definition read_body (req : request) : result response string :=
  match rq_Body req with
  | Err _ => Err (writeError req 400 CodeJSONInvalid "request JSON cannot be read")
  | Ok body => guard? slen body <=? ap_MaxRequestBytes (API cfg)
                 else writeError req 413 CodeBodyTooLarge "request body exceeds configured limit" in Ok body
  end.

Definition decode_batch (k : batch_kind) (req : request) (raw : string) : result response (list string) :=
  let invalid := writeError req 400 CodeJSONInvalid "request JSON is invalid" in
  match ValidateExactRootObject raw 1 ["schema_version"; bk_field k], decode_envelope (bk_field k) raw with
  | Ok _, Some (version, items, rest) =>
    guard? at_eof rest else writeError req 400 CodeJSONInvalid (bk_trailing k) in
    guard? version =? APISchemaVersion else writeError req 400 CodeSchemaInvalid "API schema version is unsupported" in
    guard? negb (length items =? 0)%nat else writeError req 400 CodeBatchEmpty (bk_size k) in
    guard? Z.of_nat (length items) <=? ap_MaxBatchEvents (API cfg) else writeError req 400 CodeBatchTooLarge (bk_size k) in
    Ok items
  | _, _ => Err invalid
  end.
Definition read_batch (k : batch_kind) (req : request) : result response (list string) :=
  let? raw := read_body req in decode_batch k req raw.

Definition finish_batch (k : batch_kind) (append : Store -> time -> list string -> M database (list WriteResult))
    (s : api_state) (req : request) : F (api_state * outcome_of_handler) :=
  if is_nil (hd_store h) then answer s (offline req)
  else
    let^ (s, reason) := write_gate s in
    match reason with
    | Some code => answer s (writeError req 507 code (bk_unconfirmed k))
    | None =>
      match read_batch k req with
      | Err r => answer s r
      | Ok candidates =>
        let^ (s, reason) := write_gate s in
        match reason with
        | Some code => answer s (writeError req 507 code (bk_unconfirmed k))
        | None =>
          let^ t := now in
          let^ results := call_store (hd_store h) (fun st => append st t candidates) in
          match results with
          | Returned results => answer s (writeJSON req 200 (ResultsBody results))
          | Failed e => answer s (writeStoreError req e)
          | Panicked => fret (s, Panic)
          | Hangs => fret (s, Hang)
          end
        end
      end
    end.

Definition handleEventBatch : api_state -> request -> F (api_state * outcome_of_handler) :=
  finish_batch event_batch AppendBatch.
Definition handleHeartbeatBatch : api_state -> request -> F (api_state * outcome_of_handler) :=
  finish_batch heartbeat_batch AppendHeartbeatBatch.

Definition handleEventQuery (s : api_state) (req : request) : F (api_state * outcome_of_handler) :=
  let checked : result response Z :=
    (let? _ := allowReadMethod req in
     guard? negb (is_nil (hd_store h)) else offline req in
     guard? query_keys ["cursor"; "limit"] req
       else writeError req 400 CodeQueryInvalid "query parameters are invalid" in
     page_limit cfg req) in
  match checked with
  | Err r => answer s r
  | Ok limit =>
    let^ page := call_store (hd_store h) (fun st => QueryPage st (query_get "cursor" req) limit) in
    match page with
    | Returned page => answer s (writeJSON req 200 (PageBody page))
    | Failed e =>
      let code := Sql.ErrorCode e in
      answer s (if one_of [CodeCursorInvalid; CodePageLimitInvalid] code
                then writeError req 400 code "event query is invalid" else writeStoreError req e)
    | Panicked => fret (s, Panic)
    | Hangs => fret (s, Hang)
    end
  end.

Definition finish_timeline (s : api_state) (req : request) : F (api_state * outcome_of_handler) :=
  match read_range cfg h req true with
  | Err r => answer s r
  | Ok (start, finish, limit, cursor) =>
    let^ wait := ask sync_turn in
    let^ page := call_store (hd_store h) (fun st =>
      QueryTimeline st wait start finish cursor limit (ClockUncertainAfter cfg) (tl_MaxProjectionFacts (Timeline cfg))) in
    match page with
    | Returned page => answer s (writeJSON req 200 (TimelineBody page))
    | Failed e =>
      let code := Sql.ErrorCode e in
      answer s (if one_of [CodeTimelineRangeInvalid; CodeTimelineCursor; CodePageLimitInvalid; CodeTimelineFactLimit;
                           CodeTimelineByteLimit] code
                then writeError req 400 code "timeline query is invalid" else writeStoreError req e)
    | Panicked => fret (s, Panic)
    | Hangs => fret (s, Hang)
    end
  end.

(** *** Coverage *)

(** [RebuildCoverage] on the interface value: on a nil pointer the loop over no
    enabled collector does not touch the store. *)
Definition call_rebuild (collectors : list CollectorConfig) (start finish now : time)
    (rebuild : CollectorConfig -> rebuild_env) : F (returned CoverageResult) :=
  let maxFacts := tl_MaxProjectionFacts (Timeline cfg) in
  match hd_store h with
  | NilStore =>
    if negb (start <? finish) || (maxFacts <? 1) then fret (Failed (StoreError CodeCoverageRangeInvalid))
    else if (length (List.filter co_Enabled collectors) =? 0)%nat
    then fret (Returned (MkCoverageResult (fixedUTC start) (fixedUTC finish) [] []))
    else fret Panicked
  | s => call_store s (fun st =>
           RebuildCoverage st rebuild collectors start finish now (ClockUncertainAfter cfg) maxFacts)
  end.

(** What the recorders note, when the operations manager is there. *)
Definition record_coverage (severity status moduleStatus code detail : string) : F unit :=
  if hd_operations h then
    let^ _ := RecordFault "coverage" severity status code detail in
    RecordModuleState "coverage" moduleStatus code
  else fret tt.

Definition finish_coverage (s : api_state) (req : request) : F (api_state * outcome_of_handler) :=
  match read_range cfg h req false, coverage_collectors cfg req with
  | Err r, _ | _, Err r => answer s r
  | Ok (start, finish, _, _), Ok collectors =>
    let^ t := now in
    let^ rebuild := ask rebuild_surroundings in
    let^ result := call_rebuild collectors start finish t rebuild in
    match result with
    | Failed e =>
      let code := Sql.ErrorCode e in
      if String.eqb code CodeCoverageRangeInvalid then answer s (writeError req 400 code "coverage query is invalid")
      else
        let^ _ := if hs_coverageDegraded s then fret tt
                  else record_coverage "P2" "degraded" "degraded" code (error_text (StoreFailure e)) in
        answer (with_degraded s true) (writeStoreError req e)
    | Returned result =>
      let^ _ := if hs_coverageDegraded s
                then record_coverage "P3" "recovered" "healthy" "COVERAGE_RECOVERED" "coverage rebuild recovered"
                else fret tt in
      answer (with_degraded s false) (writeJSON req 200 (CoverageBody result))
    | Panicked => fret (s, Panic)
    | Hangs => fret (s, Hang)
    end
  end.

(** *** Status *)
Definition mediaStatus : F (module_state * option MediaIngestSummaryT) :=
  let^ m := ask media_module in if hd_media h then StatusOf m else fret (m, None).
(** [fixedOperationsStatus] without a manager. *)
Definition operationsStatus (s : api_state) : ops_state :=
  if hd_operations h then hs_operations s
  else let code := sf_ErrorCode (hd_storageFailure h) in
       OpsState (if String.eqb code "" then DiskNormal else "unavailable") 0 code "" DiskNormal.

Definition handleLiveness (s : api_state) (req : request) : F (api_state * outcome_of_handler) :=
  answer s (match allowReadMethod req with
            | Err r => r
            | Ok _ => writeJSON req 200 (LivenessBody (hd_build h) (ru_Mode (Runtime cfg)))
            end).

(** The readiness of the store, or of its failure to open. *)
Definition store_readiness : F (returned Readiness) :=
  match hd_store h with
  | NoStore => fret (Returned (MkReadiness (sf_Status (hd_storageFailure h)) (sf_SchemaVersion (hd_storageFailure h))
                                 (sf_ErrorCode (hd_storageFailure h))))
  | NilStore => fret Panicked
  | OpenStore _ => let^ p := ask store_probe in fret (Returned (readiness p))
  end.
Definition gated (r : Readiness) (reason : option string) : Readiness :=
  let r := match reason with
           | Some code => MkReadiness ReadinessUnavailable (rd_SchemaVersion r) code
           | None => r
           end in
  if String.eqb (rd_Status r) "" then MkReadiness ReadinessUnavailable (rd_SchemaVersion r) CodeStorageOffline else r.
Definition handleReadiness (s : api_state) (req : request) : F (api_state * outcome_of_handler) :=
  match allowReadMethod req with
  | Err r => answer s r
  | Ok _ =>
    let^ r := store_readiness in
    match r with
    | Returned r =>
      let^ (s, reason) := write_gate s in
      let r := gated r reason in
      answer s (writeJSON req (if String.eqb (rd_Status r) ReadinessWritable then 200 else 503) (ReadinessBody r))
    | _ => fret (s, Panic)
    end
  end.

Definition handleCollectorStatus (s : api_state) (req : request) : F (api_state * outcome_of_handler) :=
  match allowReadMethod req with
  | Err r => answer s r
  | Ok _ => let^ l := ask collector_statuses in answer s (writeJSON req 200 (CollectorsBody l))
  end.
Definition handleMediaIngestStatus (s : api_state) (req : request) : F (api_state * outcome_of_handler) :=
  match allowReadMethod req with
  | Err r => answer s r
  | Ok _ => let^ m := mediaStatus in answer s (writeJSON req 200 (MediaBody m))
  end.
Definition handleOperationsStatus (s : api_state) (req : request) : F (api_state * outcome_of_handler) :=
  answer s (match allowReadMethod req with
            | Err r => r
            | Ok _ => writeJSON req 200 (OperationsBody (operationsStatus s))
            end).

(** The collectors whose backlog is listed: the enabled ones, then those that
    have a status and are not among them. *)
Definition external_backlogs (statuses : list Status) : list string :=
  let seen := map co_ID (List.filter co_Enabled (Collectors cfg)) in
  seen ++ List.filter (fun id => negb (one_of seen id)) (map cs_CollectorID statuses).
Definition handleDashboardSummary (s : api_state) (req : request) : F (api_state * outcome_of_handler) :=
  match allowReadMethod req with
  | Err r => answer s r
  | Ok _ =>
    if is_nil (hd_store h)
    then answer s (writeError req 503 CodeStorageOffline "dashboard history storage is unavailable")
    else
      let^ history := call_store (hd_store h) (fun _ => QueryDashboardHistory 20) in
      match history with
      | Returned history =>
        let^ l := ask collector_statuses in
        let^ generated := now_text in
        let^ media := mediaStatus in
        answer s (writeJSON req 200 (SummaryBody
          (MkSummary generated (ru_Mode (Runtime cfg)) (operationsStatus s) media l (external_backlogs l) history)))
      | Failed e => answer s (writeStoreError req e)
      | Panicked => fret (s, Panic)
      | Hangs => fret (s, Hang)
      end
  end.

(** *** A handler as a whole *)
Definition finish (r : route) (s : api_state) (req : request) : F (api_state * outcome_of_handler) :=
  match r with
  | Liveness => handleLiveness s req
  | ReadinessRoute => handleReadiness s req
  | EventBatch => handleEventBatch s req
  | EventQuery => handleEventQuery s req
  | HeartbeatBatch => handleHeartbeatBatch s req
  | CollectorStatusRoute => handleCollectorStatus s req
  | TimelineRoute => finish_timeline s req
  | CoverageRoute => finish_coverage s req
  | MediaIngestStatus => handleMediaIngestStatus s req
  | OperationsStatus => handleOperationsStatus s req
  | DashboardSummary => handleDashboardSummary s req
  end.

(** The deferred release runs when the handler answers and when it panics. *)
Definition complete (r : route) (s : api_state) (req : request) : F (api_state * outcome_of_handler) :=
  let^ (s, o) := finish r s req in
  fret (match o with Hang => s | _ => release r req s end, o).
Definition handle (r : route) (s : api_state) (req : request) : F (api_state * outcome_of_handler) :=
  match begin cfg h r s req with
  | Err resp => answer s resp
  | Ok s => complete r s req
  end.
End Finish.
