(* ===== verification/Server.v ===== *)
(** * The server: startup and the requests in flight ([app/server.go])

    How [Run] puts the components together when the store opens and when it does
    not, what it records at startup, and the server as a step relation in which
    requests begin, wait and finish in any order, among the background work of the
    managers. *)

From Stdlib Require Import ZArith Lia String Ascii.
From S2P Require Import Prelude GoStrings GoTime GoJson StrictJson Sql Schema Keyed Events Heartbeats Query Platform Config MediaStore OpsStore Timeline CoverageStore Sidecar ActivityWatch MediaFiles MediaIngest PathFacts MediaFrame MediaAccept Operations Retention HttpApi.
Open Scope string_scope.
Open Scope list_scope.
Open Scope result_scope.
Open Scope Z_scope.
Open Scope io_scope.

Definition CodeListenFailed : string := "APP_LISTEN_FAILED".
Definition CodeServeFailed : string := "APP_SERVE_FAILED".
Definition CodeShutdownFailed : string := "APP_SHUTDOWN_FAILED".

(** ** Startup *)
Definition classifyStorageFailure (e : error) : StorageFailure :=
  let code := Sql.ErrorCode e in
  MkStorageFailure
    (if one_of [CodeMigrationFailed; CodeMigrationUnsupported] code then ReadinessMigrationFailed
     else if String.eqb code CodeReadOnly then ReadinessReadOnly
     else if String.eqb code CodeBusy then ReadinessBusy
     else ReadinessUnavailable) 0 code.

(** The policies the store gets. *)
Definition collector_policies `{Floats} (cfg : Config) : gmap string CollectorPolicy :=
  foldl (fun m c => if co_Enabled c then <[co_ID c := MkCollectorPolicy (co_Kind c) (HeartbeatPeriodDuration c)]> m else m)
    ∅ (Collectors cfg).
Definition store_of `{Floats} (cfg : Config) : Store :=
  MkStore (ap_MaxBatchEvents (API cfg)) (ap_MaxEventBytes (API cfg)) (ap_MaxPayloadDepth (API cfg))
    (ap_MaxPageSize (API cfg)) (Z.shiftl 32 20) (collector_policies cfg).

(** The handler [Run] serves with.  [eventstore.Open] returns a nil pointer beside
    its error, and [NewServer] takes it as an interface value. *)
Definition run_handler `{Floats} (cfg : Config) (build : string) (dashboard : bool) (opened : result error unit) : Handler :=
  match opened with
  | Ok _ => MkHandler (OpenStore (store_of cfg)) (MkStorageFailure "" 0 "") true (me_Enabled (MediaIngest cfg)) dashboard build
  | Err e => MkHandler NilStore (classifyStorageFailure e) false false dashboard build
  end.

Section Startup.
Context `{Paths} `{Zones} `{Network} `{Floats} `{FilePaths} {env : Environment} `{Disk} (cfg : Config).

Definition dashboard_state (dashboard : bool) : string * string :=
  if String.eqb (ru_Mode (Runtime cfg)) ModeMinimum then ("disabled", "MINIMUM_MODE")
  else if DashboardIsEnabled cfg then
    if dashboard then ("healthy", "EMBEDDED_ASSETS_READY") else ("unavailable", "DASHBOARD_ASSETS_INVALID")
  else ("disabled", "CONFIG_DISABLED").
Definition generic_state : string * string :=
  if String.eqb (ru_Mode (Runtime cfg)) ModeMinimum then ("disabled", "MINIMUM_MODE")
  else ("healthy", "GENERIC_JSON_ENABLED").
(** The module states [Run] records, in order. *)
Definition startup_modules (dashboard : bool) : list (string * (string * string)) :=
  [("dashboard", dashboard_state dashboard); ("coverage", ("healthy", "ON_DEMAND_PROJECTION_ENABLED"));
   ("generic_json", generic_state)]
  ++ map (fun c => ("collector:" +:+ co_ID c,
                    if co_Enabled c then ("healthy", "CONFIG_ENABLED") else ("disabled", "CONFIG_DISABLED"))) (Collectors cfg)
  ++ [("media_ingest", if me_Enabled (MediaIngest cfg) then ("unavailable", "INITIALIZING") else ("disabled", "CONFIG_DISABLED"))].
Fixpoint record_modules (l : list (string * (string * string))) : F unit :=
  match l with
  | [] => fret tt
  | (module, (status, reason)) :: rest => let^ _ := RecordModuleState module status reason in record_modules rest
  end.

(** What [Run] does once the store is open, before it serves. *)
Definition startup (dashboard : bool) : F ops_state :=
  let^ s := Operations.Initialize cfg initial_ops in
  let^ _ := RecordRuntimeMode (ru_Mode (Runtime cfg)) "current-user" "startup_config" "CONFIG_MODE" in
  let^ _ := record_modules (startup_modules dashboard) in
  fret s.

(** The start of the media module beside the server. *)
Definition start_media (m : module_state) : F module_state :=
  let^ (m, failed) := MediaIngest.Initialize cfg m in
  match failed with
  | Some e =>
    let code := Sidecar.ErrorCode e in
    let^ _ := RecordModuleState "media_ingest" "unavailable" code in
    let^ _ := RecordFault "media_ingest" "P2" "degraded" code (error_text e) in
    fret m
  | None =>
    let^ _ := RecordModuleState "media_ingest" "healthy" "INITIALIZED" in fret m
  end.
End Startup.

(** ** [Serve]: how the listener or the context ends it *)
Inductive serve_error := ServerClosed | OtherServeError.
Inductive serve_end := ListenerEnds (e : option serve_error) | ContextEnds (shutdown_failed : bool) (e : option serve_error).
Definition Serve (x : serve_end) : result string unit :=
  let ended e := match e with Some OtherServeError => Err CodeServeFailed | _ => Ok tt end in
  match x with
  | ListenerEnds e => ended e
  | ContextEnds shutdown_failed e => if shutdown_failed then Err CodeShutdownFailed else ended e
  end.

(** ** Computations that always come back *)
Definition runs {A} (m : F A) (Q : A -> Prop) : Prop := forall w, exists a w', m w = (Ok a, w') /\ Q a.
Definition any {A} : A -> Prop := fun _ => True.

Section Runs.
Lemma runs_bind {A B} (m : F A) (k : A -> F B) (Q : A -> Prop) (R : B -> Prop) :
  runs m Q -> (forall a, Q a -> runs (k a) R) -> runs (fbind m k) R.
Proof. intros Hm Hk w. destruct (Hm w) as (a & w' & E & Ha). unfold fbind. rewrite E. by apply Hk. Qed.
Lemma runs_ret {A} (a : A) (Q : A -> Prop) : Q a -> runs (fret a) Q.
Proof. intros Ha w. by exists a, w. Qed.
Lemma runs_attempt {A} (m : F A) (Q : result media_error A -> Prop) : (forall r, Q r) -> runs (attempt m) Q.
Proof. intros HQ w. unfold attempt. destruct (m w) as [r w']. by exists r, w'. Qed.
Lemma runs_ignore {A} (m : F A) (Q : unit -> Prop) : Q tt -> runs (ignore m) Q.
Proof. intros HQ w. unfold ignore. destruct (m w) as [r w']. by exists tt, w'. Qed.
Lemma runs_ask `{Environment} {A} (f : nat -> A) (Q : A -> Prop) : (forall a, Q a) -> runs (ask f) Q.
Proof. intros HQ w. by eexists _, _. Qed.
Lemma runs_store {A} (m : M database A) (Q : result error A -> Prop) : (forall r, Q r) -> runs (run_store m) Q.
Proof. intros HQ w. unfold run_store. destruct (m (w_db w) (w_oracle w)) as [[r d] o]. by eexists _, _. Qed.
Lemma runs_weaken {A} (m : F A) (Q R : A -> Prop) : runs m Q -> (forall a, Q a -> R a) -> runs m R.
Proof. intros Hm HQ w. destruct (Hm w) as (a & w' & E & Ha). exists a, w'. auto. Qed.
End Runs.

Create HintDb running.
Ltac run_step :=
  lazymatch goal with
  | |- runs (fbind (write_gate _ _ _) _) _ => fail
  | |- runs (fbind _ _) _ => eapply (runs_bind _ _ any); [|intros ? _]
  | |- runs (attempt _) any => by apply runs_attempt
  | |- runs (ignore _) any => by apply runs_ignore
  | |- runs (ask _) any => by apply runs_ask
  | |- runs (run_store _) any => by apply runs_store
  | |- runs (fret _) any => by apply runs_ret
  | |- runs (match ?x with _ => _ end) _ => destruct x eqn:?
  | |- runs (let '(_, _) := ?x in _) _ => destruct x
  | |- runs _ _ => solve [auto with running]
  end.
Ltac run := repeat (cbv beta zeta; run_step).

(** A handler comes back with the slots as they were. *)
Definition same_slots (s : api_state) (x : api_state * outcome_of_handler) : Prop :=
  hs_writes (fst x) = hs_writes s /\ hs_projections (fst x) = hs_projections s.

Section Handlers.
Context `{Paths} `{Zones} `{Network} `{Floats} `{FilePaths} {env : Environment} `{Disk} `{Requests} `{SqliteJson} `{Float64} `{SqliteReal}.
Context (cfg : Config) (h : Handler).

Lemma runs_now_text : runs now_text any.
Proof. unfold now_text, now. run. Qed.
#[local] Hint Resolve runs_now_text : running.
Lemma runs_RecordFault a b c d e : runs (RecordFault a b c d e) any.
Proof. unfold RecordFault, appendFault. run. Qed.
Lemma runs_RecordModuleState a b c : runs (RecordModuleState a b c) any.
Proof. unfold RecordModuleState, appendModule. run. Qed.
#[local] Hint Resolve runs_RecordFault runs_RecordModuleState : running.
Lemma runs_record_coverage a b c d e : runs (record_coverage h a b c d e) any.
Proof. unfold record_coverage. run. Qed.
Lemma runs_call_store {A} v (m : Store -> M database A) : runs (call_store v m) any.
Proof. unfold call_store. run. Qed.
#[local] Hint Resolve runs_record_coverage runs_call_store : running.
Lemma runs_call_rebuild cs a b c d : runs (call_rebuild cfg h cs a b c d) any.
Proof. unfold call_rebuild. run. Qed.
Lemma runs_mediaStatus : runs (mediaStatus h) any.
Proof. unfold mediaStatus, StatusOf. run. Qed.
Lemma runs_store_readiness : runs (store_readiness h) any.
Proof. unfold store_readiness. run. Qed.
Lemma runs_now : runs now any.
Proof. by apply runs_ask. Qed.
#[local] Hint Resolve runs_call_rebuild runs_mediaStatus runs_store_readiness runs_now : running.

(** The gate changes the status of the manager only. *)
Lemma runs_gate s : runs (write_gate cfg h s) (fun x => same_slots s (fst x, Panic)).
Proof.
  unfold write_gate. destruct (hd_operations h); [|by apply runs_ret].
  eapply (runs_bind _ _ any); [unfold CoreWritesAllowed, refreshDiskStatus; run|].
  intros [o reason] _. by apply runs_ret.
Qed.
Lemma runs_answer s s' r : hs_writes s' = hs_writes s -> hs_projections s' = hs_projections s ->
  runs (answer s' r) (same_slots s).
Proof. intros Ew Ep. by apply runs_ret. Qed.
Lemma runs_outcome s s' o : hs_writes s' = hs_writes s -> hs_projections s' = hs_projections s ->
  runs (fret (s', o)) (same_slots s).
Proof. intros Ew Ep. by apply runs_ret. Qed.
#[local] Hint Resolve runs_answer runs_outcome : running.

Lemma runs_finish_batch k append s req : runs (finish_batch cfg h k append s req) (same_slots s).
Proof.
  unfold finish_batch. run. eapply runs_bind; [apply runs_gate|]. intros [s1 reason] [E1 E2]. cbn in E1, E2.
  run. eapply runs_bind; [apply runs_gate|]. intros [s2 reason2] [E3 E4]. cbn in E3, E4.
  assert (hs_writes s2 = hs_writes s /\ hs_projections s2 = hs_projections s) as [? ?] by (split; congruence). run.
Qed.

Lemma runs_finish r s req : runs (finish cfg h r s req) (same_slots s).
Proof.
  destruct r; cbn [finish]; try apply runs_finish_batch;
    unfold handleLiveness, handleEventQuery, handleCollectorStatus, finish_timeline, finish_coverage,
      handleMediaIngestStatus, handleOperationsStatus, handleDashboardSummary; try solve [run].
  unfold handleReadiness. run. eapply runs_bind; [apply runs_gate|]. intros [s1 reason] [E1 E2]. cbn in E1, E2. run.
Qed.
End Handlers.

(** ** Requests in flight *)

(** [sv_waiting]: the requests that have begun; [sv_stuck]: those whose handler
    never comes back. *)
Record server := MkServer {
  sv_state : api_state; sv_world : world; sv_waiting : list (route * request); sv_stuck : list (route * request) }.

Inductive api_event : Type :=
  | Refused (r : route) (req : request) (resp : response)
  | Begun (r : route) (req : request)
  | Finished (r : route) (req : request) (o : outcome_of_handler)
  | Background.

#[export] Instance outcome_eq_hang (o : outcome_of_handler) : Decision (o = Hang).
Proof. destruct o; [right|right|left]; done. Defined.

Section Serving.
Context `{Paths} `{Zones} `{Network} `{Floats} `{FilePaths} {env : Environment} `{Disk} `{Requests} `{SqliteJson} `{Float64} `{SqliteReal}.
Context (cfg : Config) (h : Handler).

(** A request is refused or begins; any request that has begun finishes, in any
    order; and the managers and collectors change the world and the status of the
    operations manager. *)
Inductive serve : server -> api_event -> server -> Prop :=
  | serve_refuse r req resp s w p q : begin cfg h r s req = Err resp ->
      serve (MkServer s w p q) (Refused r req resp) (MkServer s w p q)
  | serve_begin r req s s' w p q : begin cfg h r s req = Ok s' ->
      serve (MkServer s w p q) (Begun r req) (MkServer s' w (p ++ [(r, req)]) q)
  | serve_finish r req s s' w w' p1 p2 q o : complete cfg h r s req w = (Ok (s', o), w') -> o <> Hang ->
      serve (MkServer s w (p1 ++ (r, req) :: p2) q) (Finished r req o) (MkServer s' w' (p1 ++ p2) q)
  | serve_hang r req s s' w w' p1 p2 q : complete cfg h r s req w = (Ok (s', Hang), w') ->
      serve (MkServer s w (p1 ++ (r, req) :: p2) q) (Finished r req Hang) (MkServer s' w' (p1 ++ p2) ((r, req) :: q))
  | serve_background s w w' o p q :
      serve (MkServer s w p q) Background (MkServer (with_operations s o) w' p q).

Inductive serves : server -> list api_event -> server -> Prop :=
  | serves_nil sv : serves sv [] sv
  | serves_snoc sv l sv1 e sv2 : serves sv l sv1 -> serve sv1 e sv2 -> serves sv (l ++ [e]) sv2.

(** The server before its first request. *)
Definition fresh (o : ops_state) (w : world) : server := MkServer (ApiState o 0 0 false) w [] [].

(** *** The slots *)
Fixpoint total (f : route * request -> Z) (l : list (route * request)) : Z :=
  match l with [] => 0 | x :: l => f x + total f l end.
Definition in_flight (sv : server) : list (route * request) := sv_waiting sv ++ sv_stuck sv.
Definition writes_of (x : route * request) : Z := writes_held (fst x).
Definition projections_of (x : route * request) : Z := projections_held (fst x) (snd x).
Definition slots_ok (sv : server) : Prop :=
  hs_writes (sv_state sv) = total writes_of (in_flight sv) /\
  hs_projections (sv_state sv) = total projections_of (in_flight sv) /\
  hs_writes (sv_state sv) <= ap_MaxConcurrentWrites (API cfg) /\ hs_projections (sv_state sv) <= 1.

Lemma total_app f l1 l2 : total f (l1 ++ l2) = total f l1 + total f l2.
Proof. induction l1 as [|x l IH]; [done|]. cbn [total app]. rewrite IH. lia. Qed.

Lemma range_cursor req allow x : parseRangeQuery cfg req allow = Ok x -> snd x = query_get "cursor" req.
Proof.
  unfold parseRangeQuery. destruct (query_keys _ req); [|done]. destruct (negb _); [|done].
  destruct (parse_rfc3339nano _); [|done]. destruct (parse_rfc3339nano _); [|done].
  destruct (_ && _); [|done]. destruct (page_limit cfg req); [|done]. by intros [= <-].
Qed.

(** What beginning takes. *)
Lemma begin_slots r s req s' : begin cfg h r s req = Ok s' ->
  hs_writes s' = hs_writes s + writes_held r /\
  hs_projections s' = hs_projections s + projections_held r req /\
  (hs_writes s' = hs_writes s \/ hs_writes s' <= ap_MaxConcurrentWrites (API cfg)) /\
  (hs_projections s' = hs_projections s \/ hs_projections s' <= 1).
Proof.
  assert (Hbatch : forall k, begin_batch cfg k s req = Ok s' ->
    hs_writes s' = hs_writes s + 1 /\ hs_projections s' = hs_projections s /\ hs_writes s' <= ap_MaxConcurrentWrites (API cfg)).
  { intros k. unfold begin_batch. destruct (String.eqb _ _); [|done]. destruct (negb _); [|done].
    destruct (String.eqb _ _); [|done]. destruct (bool_decide _); [|done].
    destruct (Z.ltb_spec (hs_writes s) (ap_MaxConcurrentWrites (API cfg))); [|done]. intros [= <-]. cbn. lia. }
  assert (Hacq : acquireProjection s req = Ok s' ->
    hs_writes s' = hs_writes s /\ hs_projections s' = hs_projections s + 1 /\ hs_projections s' <= 1).
  { unfold acquireProjection. destruct (Z.ltb_spec (hs_projections s) 1); [|done]. intros [= <-]. cbn. lia. }
  destruct r; cbn [begin writes_held projections_held]; try (intros [= <-]; lia);
    try (intros E; apply Hbatch in E; lia).
  - unfold begin_timeline. destruct (read_range cfg h req true) as [[[[a b] c] d]|] eqn:Er; [|done]. cbn [rbind].
    unfold read_range in Er. destruct (allowReadMethod req); [|done]. cbn [rbind] in Er. destruct (negb _); [|done].
    apply range_cursor in Er. cbn in Er. rewrite <- Er. destruct (String.eqb d ""); [|intros [= <-]; lia].
    intros E. apply Hacq in E. lia.
  - unfold begin_coverage. destruct (read_range _ _ _ _); [|done]. cbn [rbind].
    destruct (coverage_collectors _ _); [|done]. cbn [rbind]. intros E. apply Hacq in E. lia.
Qed.

Lemma complete_slots r s req w s' o w' : complete cfg h r s req w = (Ok (s', o), w') ->
  let back := match o with Hang => 0 | _ => 1 end in
  hs_writes s' = hs_writes s - back * writes_held r /\ hs_projections s' = hs_projections s - back * projections_held r req.
Proof.
  unfold complete, fbind. destruct (runs_finish cfg h r s req w) as ([s1 o1] & w1 & E & [Ew Ep]). rewrite E.
  cbn in Ew, Ep. intros [= <- <- <-]. destruct o1; cbn; lia.
Qed.

Lemma held_nonneg x : 0 <= writes_of x /\ 0 <= projections_of x.
Proof. destruct x as [[] req]; unfold writes_of, projections_of; cbn; repeat case_match; lia. Qed.

Lemma serve_slots sv e sv' : slots_ok sv -> serve sv e sv' -> slots_ok sv'.
Proof.
  unfold slots_ok, in_flight. intros (Ew & Ep & Lw & Lp) Hs. destruct Hs; cbn [sv_state sv_waiting sv_stuck hs_writes hs_projections with_operations] in *;
    rewrite ?total_app in *; cbn [total] in *; rewrite ?total_app in *; unfold writes_of, projections_of in *; cbn [fst snd] in *.
  - done.
  - apply begin_slots in H9 as (A1 & A2 & A3 & A4). lia.
  - pose proof (held_nonneg (r, req)) as [N1 N2]. unfold writes_of, projections_of in N1, N2. cbn in N1, N2.
    apply complete_slots in H9 as [A1 A2]. destruct o; [..|done]; cbn in A1, A2; lia.
  - apply complete_slots in H9 as [A1 A2]. cbn in A1, A2. lia.
  - done.
Qed.

(** A refusal for want of a slot. *)
Lemma refused_429 r s req resp : begin cfg h r s req = Err resp -> rs_Status resp = 429 ->
  ap_MaxConcurrentWrites (API cfg) <= hs_writes s \/ 1 <= hs_projections s.
Proof.
  assert (Hread : forall allow, read_range cfg h req allow = Err resp -> rs_Status resp = 429 -> False).
  { intros allow. unfold read_range, allowReadMethod. destruct (one_of _ _); cbn [rbind]; [|intros [= <-]; done].
    destruct (negb _); [|by intros [= <-]]. unfold parseRangeQuery. destruct (query_keys _ req); [|by intros [= <-]].
    destruct (negb _); [|by intros [= <-]]. destruct (parse_rfc3339nano _); [|by intros [= <-]].
    destruct (parse_rfc3339nano _); [|by intros [= <-]]. destruct (_ && _); [|by intros [= <-]].
    unfold page_limit. destruct (String.eqb _ ""); [done|]. destruct (parse_int _); [|by intros [= <-]].
    destruct (_ || _); [by intros [= <-]|done]. }
  assert (Hacq : acquireProjection s req = Err resp -> 1 <= hs_projections s).
  { unfold acquireProjection. destruct (Z.ltb_spec (hs_projections s) 1); [done|]. lia. }
  assert (Hbatch : forall k, begin_batch cfg k s req = Err resp -> rs_Status resp = 429 ->
    ap_MaxConcurrentWrites (API cfg) <= hs_writes s).
  { intros k. unfold begin_batch. destruct (String.eqb _ _); [|by intros [= <-]]. destruct (negb _); [|by intros [= <-]].
    destruct (String.eqb _ _); [|by intros [= <-]]. destruct (bool_decide _); [|by intros [= <-]].
    destruct (Z.ltb_spec (hs_writes s) (ap_MaxConcurrentWrites (API cfg))); [done|]. lia. }
  destruct r; cbn [begin]; try done; intros E Es; [left; by eapply Hbatch|left; by eapply Hbatch| |].
  - unfold begin_timeline in E. destruct (read_range _ _ _ _) as [[[[a b] c] d]|] eqn:Er; cbn [rbind] in E.
    + destruct (String.eqb d ""); [right; by apply Hacq|done].
    + injection E as ->. by destruct (Hread _ Er Es).
  - unfold begin_coverage in E. destruct (read_range _ _ _ _) eqn:Er; cbn [rbind] in E.
    + destruct (coverage_collectors _ _) eqn:Ec; cbn [rbind] in E; [right; by apply Hacq|].
      unfold coverage_collectors in Ec. destruct (String.eqb _ ""); [done|]. destruct (negb _); [done|].
      injection Ec as <-. injection E as <-. done.
    + injection E as ->. by destruct (Hread _ Er Es).
Qed.

Lemma serves_slots sv l sv' : slots_ok sv -> serves sv l sv' -> slots_ok sv'.
Proof. intros Hsv Hl. induction Hl as [|? ? ? ? ? Hl IH Hs]; [done|]. eapply serve_slots; [by apply IH|exact Hs]. Qed.

End Serving.
