(* ===== verification/ApiBatch.v ===== *)
(** * What a batch answer promises

    The handler of event batches from the bytes of the request to the rows of the
    store: an answer with status 200 lists, item by item, what the store then
    holds, and any other outcome leaves the store as it was. *)

From Stdlib Require Import ZArith Lia String Ascii.
From S2P Require Import Prelude GoStrings GoTime GoJson StrictJson Sql Schema Keyed Events Heartbeats Query Platform Config MediaStore OpsStore Timeline TimelineSync CoverageStore Sidecar ActivityWatch MediaFiles MediaIngest PathFacts MediaFrame MediaAccept Operations Retention HttpApi Server.
Open Scope string_scope.
Open Scope list_scope.
Open Scope result_scope.
Open Scope Z_scope.
Open Scope io_scope.

(** Stepping through a computation that comes back. *)
Lemma fbind_Ok {A B} (m : F A) (k : A -> F B) w a w1 : m w = (Ok a, w1) -> fbind m k w = k a w1.
Proof. unfold fbind. by intros ->. Qed.

Section Batch.
Context `{Paths} `{Zones} `{Network} `{Floats} `{FilePaths} {env : Environment} `{Disk} `{Requests} `{SqliteJson} `{Float64} `{SqliteReal}.
Context (cfg : Config) (h : Handler).

(** The gate looks at the disk and leaves files, rows and driver alone. *)
Lemma gate_run s w : exists s' reason w1, write_gate cfg h s w = (Ok (s', reason), w1) /\
  w_db w1 = w_db w /\ w_oracle w1 = w_oracle w /\
  (reason = None -> hd_operations h = true -> exists n, dk_level (report_of cfg (free_bytes n)) <> DiskReserve).
Proof.
  unfold write_gate. destruct (hd_operations h).
  - unfold CoreWritesAllowed, refreshDiskStatus, now_text, now, ask, fbind, fret. cbn. do 3 eexists. split; [reflexivity|].
    split; [done|]. split; [done|]. intros Hn _. exists (w_step w).
    by destruct (String.eqb_spec (dk_level (report_of cfg (free_bytes (w_step w)))) DiskReserve).
  - by exists s, None, w.
Qed.

Definition confirmed (o : outcome_of_handler) : Prop := exists resp, o = Answer resp /\ rs_Status resp = 200.

Lemma error_not_confirmed req status code message : status <> 200 ->
  ~ confirmed (Answer (writeError req status code message)).
Proof. by intros Hs (resp & [= <-] & E). Qed.
Lemma store_error_not_confirmed req e : ~ confirmed (Answer (writeStoreError req e)).
Proof. apply error_not_confirmed. unfold store_status. by destruct (one_of _ _). Qed.
Lemma read_not_confirmed k req resp : read_batch cfg k req = Err resp -> ~ confirmed (Answer resp).
Proof.
  intros E (r & [= <-] & Es). unfold read_batch, read_body in E. destruct (rq_Body req) as [body|]; [|by injection E as <-].
  destruct (slen body <=? _); [|by injection E as <-]. cbn [rbind] in E. unfold decode_batch in E.
  destruct (ValidateExactRootObject _ _ _); [|by injection E as <-].
  destruct (decode_envelope _ _) as [[[version items] rest]|]; [|by injection E as <-].
  repeat (match type of E with (if ?b then _ else _) = _ => destruct b end; [|by injection E as <-]). done.
Qed.

(** The ways a batch handler ends. *)
Lemma finish_batch_cases k append st s req w s' o w' : hd_store h = OpenStore st ->
  finish_batch cfg h k append s req w = (Ok (s', o), w') ->
  (exists items t rs o', read_batch cfg k req = Ok items /\
     append st t items (w_db w) (w_oracle w) = (Ok rs, w_db w', o') /\ o = Answer (writeJSON req 200 (ResultsBody rs)) /\
     (hd_operations h = true -> exists n, dk_level (report_of cfg (free_bytes n)) <> DiskReserve)) \/
  (~ confirmed o /\ (w_db w' = w_db w \/
     exists items t e o', append st t items (w_db w) (w_oracle w) = (Err e, w_db w', o'))).
Proof.
  intros Hst Hr. unfold finish_batch in Hr. rewrite Hst in Hr. cbn [is_nil] in Hr.
  destruct (gate_run s w) as (s1 & reason & w1 & E1 & D1 & O1 & _). rewrite (fbind_Ok _ _ _ _ _ E1) in Hr.
  destruct reason as [code|]; [injection Hr as _ <- <-; right; split; [by apply error_not_confirmed|by left]|].
  destruct (read_batch cfg k req) as [items|resp] eqn:Eb;
    [|injection Hr as _ <- <-; right; split; [by eapply read_not_confirmed|by left]].
  destruct (gate_run s1 w1) as (s2 & reason2 & w2 & E2 & D2 & O2 & Hgate). rewrite (fbind_Ok _ _ _ _ _ E2) in Hr.
  destruct reason2 as [code|];
    [injection Hr as _ <- <-; right; split; [by apply error_not_confirmed|left; by rewrite D2]|].
  unfold now in Hr. unfold fbind at 1, ask in Hr. cbv beta iota zeta in Hr. set (w3 := World _ _ _ _) in Hr.
  unfold fbind at 1, call_store in Hr. unfold fbind at 1, run_store in Hr.
  assert (D3 : w_db w3 = w_db w /\ w_oracle w3 = w_oracle w) by (subst w3; cbn; rewrite D2, O2; done).
  destruct D3 as [D3 O3]. rewrite D3, O3 in Hr.
  destruct (append st _ items (w_db w) (w_oracle w)) as [[[rs|e] d] o1] eqn:Ea; cbn in Hr.
  - injection Hr as _ <- <-. left. exists items, (clock (w_step w2)), rs, o1. split; [done|]. split; [exact Ea|].
    split; [done|]. by apply Hgate.
  - right. destruct (String.eqb _ NoReturn); injection Hr as _ <- <-; (split; [|right; by exists items, (clock (w_step w2)), e, o1]).
    + by intros (? & ? & _).
    + apply store_error_not_confirmed.
Qed.

End Batch.

(** ** Requests on an empty store *)
#[export] Instance plain_requests : Requests := {|
  parse_media_type s := if one_of ["application/json"; "text/plain"] s then Some s else None;
  media_module _ := ready_module; collector_statuses _ := []; sync_turn _ := Acquired;
  store_probe _ := Probe (Ok tt) (Ok 0) (Ok tt) (Ok 1) (Ok tt);
  rebuild_surroundings _ _ := RebuildEnv Acquired false "2024-03-10T00:00:00.000000000Z" |}.
Definition roomy : Disk := {| free_bytes _ := Some (Z.shiftl 1 40); error_text _ := "failed" |}.

Definition sample_body : string :=
  quoted "{'schema_version':1,'events':[" +:+ sample_event +:+ quoted ", {'schema_version':2}]}".
Definition post (path body : string) : request := Request "POST" path "" "application/json" [] (Ok body).
Definition get (path : string) (query : list (string * list string)) : request :=
  Request "GET" path "" "" query (Ok "").
Definition open_handler : Handler := run_handler sample_config "1.0" false (Ok tt).
Definition idle : api_state := ApiState initial_ops 0 0 false.

(** What a client sees: the status, and the code or the number of results. *)
Definition seen (o : outcome_of_handler) : option (Z * string * nat) :=
  match o with
  | Answer r => Some (rs_Status r, match rs_Body r with Some (ErrorBody c _) => c | _ => "" end,
                      match rs_Body r with Some (ResultsBody l) => length l | _ => 0%nat end)
  | _ => None
  end.
Definition ask_server (disk : Disk) (h : Handler) (r : route) (req : request) : option (Z * string * nat) * nat :=
  match handle (H4 := disk) sample_config h r idle req (World ∅ empty_database [] 0) with
  | (Ok (_, o), w) => (seen o, length (raw_events (w_db w)))
  | (Err _, w) => (None, length (raw_events (w_db w)))
  end.

Example batch_example : ask_server roomy open_handler EventBatch (post "/api/v1/events/batch" sample_body) = (Some (200, "", 2%nat), 1%nat).
Proof. vm_compute. reflexivity. Qed.
Example full_example : ask_server full_disk open_handler EventBatch (post "/api/v1/events/batch" sample_body)
  = (Some (507, CodeDiskReserve, 0%nat), 0%nat).
Proof. vm_compute. reflexivity. Qed.

(** *** Other requests *)
Example refusals : map (fun x => fst (ask_server roomy open_handler EventBatch x))
    [get "/api/v1/events/batch" []; Request "POST" "/" "http://x" "application/json" [] (Ok ""); Request "POST" "/" "" "text/plain" [] (Ok "");
     post "/" "{}"; post "/" (sample_body +:+ "x"); post "/" (quoted "{'schema_version':1,'events':[],'more':1}");
     post "/" (quoted "{'schema_version':2,'events':[]}"); post "/" (quoted "{'schema_version':1,'events':[]}")]
  = [Some (405, CodeMethodNotAllowed, 0%nat); Some (403, CodeOriginForbidden, 0%nat); Some (415, CodeMediaTypeInvalid, 0%nat);
     Some (400, CodeSchemaInvalid, 0%nat); Some (400, CodeJSONInvalid, 0%nat); Some (400, CodeJSONInvalid, 0%nat);
     Some (400, CodeSchemaInvalid, 0%nat); Some (400, CodeBatchEmpty, 0%nat)].
Proof. vm_compute. reflexivity. Qed.
Example queries : map (fun x => fst (ask_server roomy open_handler (fst x) (snd x)))
    [(EventQuery, get "/api/v1/events" [("limit", ["501"])]); (EventQuery, get "/api/v1/events" [("page", ["1"])]);
     (TimelineRoute, get "/" [("start", ["2024-03-10T00:00:00Z"]); ("end", ["2024-03-11T00:00:00Z"])]);
     (TimelineRoute, get "/" [("start", ["2024-03-10T00:00:00-00:00"]); ("end", ["2024-03-11T00:00:00Z"])]);
     (CoverageRoute, get "/" [("start", ["2024-03-10T00:00:00Z"]); ("end", ["2024-03-11T00:00:00Z"]); ("collector_id", ["x"])]);
     (ReadinessRoute, get "/health/ready" [])]
  = [Some (400, CodePageLimitInvalid, 0%nat); Some (400, CodeQueryInvalid, 0%nat); Some (200, "", 0%nat);
     Some (400, CodeQueryInvalid, 0%nat); Some (400, CodeQueryInvalid, 0%nat); Some (200, "", 0%nat)].
Proof. vm_compute. reflexivity. Qed.

(** ** A store that does not open *)
Section Unopened.
Context `{Paths} `{Zones} `{Network} `{Floats} `{FilePaths} {env : Environment} `{Disk} `{Requests} `{SqliteJson} `{Float64} `{SqliteReal}.
Context (cfg : Config).

Lemma failure_status e : String.eqb (sf_Status (classifyStorageFailure e)) "" = false /\
  String.eqb (sf_Status (classifyStorageFailure e)) ReadinessWritable = false.
Proof. unfold classifyStorageFailure. cbn [sf_Status]. by repeat case_match. Qed.

(** C35: after the store failed to open, [Run] serves with a nil pointer inside a
    non-nil interface value: a readiness probe, which is meant to answer 503 with
    the status and code of the failure, panics instead; the same handler without
    a store value answers as meant. *)
Theorem readiness_without_store build dashboard e s req w (Hread : rq_Method req = "GET") :
  let h := run_handler cfg build dashboard (Err e) in
  let meant := MkHandler NoStore (hd_storageFailure h) false false dashboard build in
  (exists w', handle cfg h ReadinessRoute s req w = (Ok (release ReadinessRoute req s, Panic), w')) /\
  (exists w', handle cfg meant ReadinessRoute s req w =
     (Ok (release ReadinessRoute req s,
          Answer (Response 503 "" (Some (ReadinessBody
            (MkReadiness (sf_Status (classifyStorageFailure e)) 0 (Sql.ErrorCode e)))))), w')).
Proof.
  cbv zeta. unfold run_handler. cbn [hd_storageFailure]. pose proof (failure_status e) as [E1 E2].
  assert (sf_SchemaVersion (classifyStorageFailure e) = 0 /\ sf_ErrorCode (classifyStorageFailure e) = Sql.ErrorCode e)
    as [Ev Ec] by done. destruct (classifyStorageFailure e) as [status version code]. cbn in E1, E2, Ev, Ec. subst version code.
  unfold handle. cbn [begin]. unfold complete, finish, handleReadiness, allowReadMethod, writeJSON. rewrite Hread. cbn.
  split; [by eexists|]. eexists. unfold fbind, fret, gated. cbn. rewrite E1. cbn. unfold ReadinessWritable in *. by rewrite E2.
Qed.
End Unopened.

(** ** Witnesses *)
Definition empty_world : world := World ∅ empty_database [] 0.
Definition batch_request : request := post "/api/v1/events/batch" sample_body.
Definition confirmed_run : result media_error (api_state * outcome_of_handler) * world :=
  complete (H4 := roomy) sample_config open_handler EventBatch (with_writes idle 1) batch_request empty_world.

Lemma readiness_without_store_witness :
  exists w', handle (H4 := roomy) sample_config (run_handler sample_config "1.0" false (Err (StoreError CodeBusy)))
    ReadinessRoute idle (get "/health/ready" []) empty_world = (Ok (release ReadinessRoute (get "/health/ready" []) idle, Panic), w').
Proof.
  apply (readiness_without_store (H4 := roomy) sample_config "1.0" false (StoreError CodeBusy) idle
           (get "/health/ready" []) empty_world eq_refl).
Defined.

Lemma seen_confirmed o code n : seen o = Some (200, code, n) -> confirmed o.
Proof. destruct o as [resp| |]; [|done..]. cbn. intros [= E _ _]. by exists resp. Qed.


(** One batch is in flight, and a second one waits its turn in the pool. *)
Definition one_begun : server :=
  MkServer (with_writes idle 1) empty_world [(EventBatch, batch_request)] [].
