(* ===== verification/Migration.v ===== *)
(** * Schema migrations ([eventstore/migration.go])

    The four migration ledgers, the version of the core schema, and the loops
    that bring a database to the schema of the program: each set of migrations in
    one transaction, under the checks that refuse a database of another program.
    What a script does to the tables is an interface; so are the embedded files. *)

From Stdlib Require Import ZArith Lia String Ascii.
From S2P Require Import Prelude GoStrings GoTime GoJson Sha256 Sql Schema.
Open Scope string_scope.
Open Scope list_scope.
Open Scope result_scope.
Open Scope db_scope.
Open Scope Z_scope.

Definition CurrentSchemaVersion : Z := 1.
Definition currentMediaSchemaVersion : Z := 2.
Definition currentM3SchemaVersion : Z := 1.
Definition currentM4SchemaVersion : Z := 1.

Record migration := Migration { mg_version : Z; mg_name : string; mg_contents : string; mg_checksum : string }.
Record ledger_row := LedgerRow { lr_version : Z; lr_name : string; lr_checksum : string; lr_applied_at_utc : string }.

(** A database file: [PRAGMA user_version], the ledgers that exist, under their
    table names, and the tables the scripts create. *)
Record catalog (T : Type) := Catalog { user_version : Z; ledgers : gmap string (list ledger_row); tables : T }.
Arguments Catalog {T} user_version ledgers tables.
Arguments user_version {T} c.
Arguments ledgers {T} c.
Arguments tables {T} c.

(** The embedded files ([migrations.Files]), [None] where there is none, and
    what SQLite does with a script. *)
Class Scripts (T : Type) := { ReadFile : string -> option string; run_script : string -> T -> result fault T }.
(** The order in which Go ranges over a map, and the clock when a row of a ledger
    is written. *)
Class Ranges := {
  entries : string -> gmap Z string -> list (Z * string);
  entries_perm : forall l m, entries l m ≡ₚ map_to_list m;
  applied_at : string -> Z -> time }.

Section Files.
Context {T : Type} `{Scripts T}.

Fixpoint load_files (index : Z) (files : list string) : option (list migration) :=
  match files with
  | [] => Some []
  | name :: rest =>
    let! raw := ReadFile name in
    let! migrations := load_files (index + 1) rest in
    Some (Migration (index + 1) name raw (sha256_hex raw) :: migrations)
  end.
Definition loadMigrations (files : list string) : option (list migration) := load_files 0 files.

Definition repositoryMigrations : option (list migration) := loadMigrations ["001_raw_events.sql"].
Definition repositoryMediaMigrations : option (list migration) :=
  loadMigrations ["002_media_ingest.sql"; "003_media_file_checks.sql"].
Definition repositoryM3Migrations : option (list migration) := loadMigrations ["004_collectors_timeline.sql"].
Definition repositoryM4Migrations : option (list migration) := loadMigrations ["005_operations.sql"].
End Files.

Definition version_lt (a b : migration) : bool := mg_version a <? mg_version b.
Definition ledger_rows {T} (ledger : string) (c : catalog T) : list ledger_row := default [] (ledgers c !! ledger).
(** [ORDER BY version] *)
Definition by_version (l : list ledger_row) : list ledger_row := sort_by (fun a b => lr_version a <? lr_version b) l.

(** [recorded] and [known]: a later entry replaces an earlier one. *)
Definition record_row (m : gmap Z string) (r : ledger_row) : gmap Z string := <[lr_version r := lr_checksum r]> m.
Definition recorded_map (rows : list ledger_row) : gmap Z string := fold_left record_row rows ∅.
Definition known_map (migrations : list migration) : gmap Z migration :=
  fold_left (fun m item => <[mg_version item := item]> m) migrations ∅.

(** The range over [recorded]. *)
Fixpoint check_recorded (known : gmap Z migration) (targetVersion : Z) (l : list (Z * string)) : result error unit :=
  match l with
  | [] => Ok tt
  | (version, checksum) :: rest =>
    match known !! version with
    | None => Err (StoreError CodeMigrationUnsupported)
    | Some item =>
      guard? version <=? targetVersion else StoreError CodeMigrationUnsupported in
      guard? String.eqb checksum (mg_checksum item) else StoreError CodeMigrationFailed in
      check_recorded known targetVersion rest
    end
  end.

(** [for version := 1; version <= targetVersion; version++]: the versions without
    a gap; [fuel] is the number of versions. *)
Fixpoint contiguous (recorded : gmap Z string) (fuel : nat) (version applied : Z) : Z :=
  match fuel with
  | O => applied
  | S f => match recorded !! version with
           | None => applied
           | Some _ => contiguous recorded f (version + 1) version
           end
  end.
Definition appliedVersion (recorded : gmap Z string) (targetVersion : Z) : Z :=
  contiguous recorded (Z.to_nat targetVersion) 1 0.

Section Apply.
Context {T : Type} `{Scripts T} `{Ranges}.
Abbreviation DB := (M (catalog T)).

Definition migration_failed : error := StoreError CodeMigrationFailed.

(** [CREATE TABLE IF NOT EXISTS] and the two triggers that make it append-only. *)
Definition create_ledger (ledger : string) : DB unit :=
  stmt CodeMigrationFailed (fun c =>
    Ok (tt, Catalog (user_version c) (<[ledger := ledger_rows ledger c]> (ledgers c)) (tables c))).

Definition read_ledger (ledger : string) : DB (list ledger_row) :=
  query CodeMigrationFailed (fun c => by_version (ledger_rows ledger c)).

(** [INSERT INTO ledger]: the primary key and the CHECK of the table. *)
Definition insert_ledger (ledger : string) (r : ledger_row) : DB unit :=
  stmt CodeMigrationFailed (fun c =>
    let rows := ledger_rows ledger c in
    if existsb (fun x => lr_version x =? lr_version r) rows || negb (text_between 64 64 (lr_checksum r))
    then Err constraint_fault
    else Ok (tt, Catalog (user_version c) (<[ledger := rows ++ [r]]> (ledgers c)) (tables c))).

Definition exec_script (contents : string) : DB unit :=
  stmt CodeMigrationFailed (fun c =>
    match run_script contents (tables c) with
    | Ok t => Ok (tt, Catalog (user_version c) (ledgers c) t)
    | Err e => Err e
    end).
Definition set_user_version (v : Z) : DB unit :=
  stmt CodeMigrationFailed (fun c => Ok (tt, Catalog v (ledgers c) (tables c))).

(** The loop over the sorted migrations; [advance] sets the schema version where
    there is one.  The result is the version reached. *)
Fixpoint apply_items (ledger : string) (advance : Z -> DB unit) (targetVersion current : Z) (items : list migration)
    : DB Z :=
  match items with
  | [] => mret current
  | item :: rest =>
    if targetVersion <? mg_version item then mret current
    else if mg_version item <=? current then apply_items ledger advance targetVersion current rest
    else if negb (mg_version item =? current + 1) then mfail migration_failed
    else
      let* _ := exec_script (mg_contents item) in
      let* _ := insert_ledger ledger (LedgerRow (mg_version item) (mg_name item) (mg_checksum item)
                  (format_rfc3339nano (applied_at ledger (mg_version item)))) in
      let* _ := advance (mg_version item) in
      apply_items ledger advance targetVersion (mg_version item) rest
  end.

Definition core_ledger : string := "schema_migrations".

Definition applyMigrationsThrough (migrations : list migration) (targetVersion : Z) : DB unit :=
  let migrations := sort_by version_lt migrations in
  transaction CodeMigrationFailed CodeMigrationFailed
    (let* _ := create_ledger core_ledger in
     let* userVersion := query CodeMigrationFailed user_version in
     if targetVersion <? userVersion then mfail (StoreError CodeMigrationUnsupported)
     else
       let* rows := read_ledger core_ledger in
       let recorded := recorded_map rows in
       let* _ := mlift (check_recorded (known_map migrations) targetVersion (entries core_ledger recorded)) in
       if negb (Z.of_nat (size recorded) =? userVersion) then mfail migration_failed
       else
         let* reached := apply_items core_ledger set_user_version targetVersion userVersion migrations in
         if negb (reached =? targetVersion) then mfail migration_failed else mret tt).
Definition applyMigrations (migrations : list migration) : DB unit :=
  applyMigrationsThrough migrations CurrentSchemaVersion.

Definition applyIndependentMigrations (migrations : list migration) (ledger : string) (targetVersion : Z) : DB unit :=
  let migrations := sort_by version_lt migrations in
  transaction CodeMigrationFailed CodeMigrationFailed
    (let* _ := create_ledger ledger in
     let* rows := read_ledger ledger in
     let recorded := recorded_map rows in
     let* _ := mlift (check_recorded (known_map migrations) targetVersion (entries ledger recorded)) in
     let applied := appliedVersion recorded targetVersion in
     if negb (Z.of_nat (size recorded) =? applied) then mfail migration_failed
     else
       let* reached := apply_items ledger (fun _ => mret tt) targetVersion applied migrations in
       if negb (reached =? targetVersion) then mfail migration_failed else mret tt).

Definition media_ledger : string := "media_schema_migrations".
Definition m3_ledger : string := "m3_schema_migrations".
Definition m4_ledger : string := "m4_schema_migrations".
Definition applyMediaMigrations (migrations : list migration) : DB unit :=
  applyIndependentMigrations migrations media_ledger currentMediaSchemaVersion.
Definition applyM3Migrations (migrations : list migration) : DB unit :=
  applyIndependentMigrations migrations m3_ledger currentM3SchemaVersion.
Definition applyM4Migrations (migrations : list migration) : DB unit :=
  applyIndependentMigrations migrations m4_ledger currentM4SchemaVersion.

Definition loaded (migrations : option (list migration)) : DB (list migration) :=
  match migrations with Some l => mret l | None => mfail migration_failed end.

Definition migrate : DB unit :=
  let* migrations := loaded repositoryMigrations in
  let* _ := applyMigrations migrations in
  let* mediaMigrations := loaded repositoryMediaMigrations in
  let* _ := applyMediaMigrations mediaMigrations in
  let* m3Migrations := loaded repositoryM3Migrations in
  let* _ := applyM3Migrations m3Migrations in
  let* m4Migrations := loaded repositoryM4Migrations in
  applyM4Migrations m4Migrations.
End Apply.

(** ** The known migrations *)
Definition ledger_key (r : ledger_row) : Z * string * string := (lr_version r, lr_name r, lr_checksum r).
Definition migration_key (m : migration) : Z * string * string := (mg_version m, mg_name m, mg_checksum m).
(** What the loops compare: the version and the checksum. *)
Definition stamp_of_row (r : ledger_row) : Z * string := (lr_version r, lr_checksum r).
Definition stamp_of (m : migration) : Z * string := (mg_version m, mg_checksum m).

(** Numbered from [i + 1]. *)
Fixpoint numbered (i : Z) (l : list migration) : Prop :=
  match l with [] => True | m :: rest => mg_version m = i + 1 /\ numbered (i + 1) rest end.

Lemma load_files_numbered {T} `{Scripts T} files : forall i l, load_files i files = Some l -> numbered i l.
Proof.
  induction files as [|name rest IH]; intros i l; simpl; [by intros [= <-]|].
  destruct (ReadFile name) as [raw|]; [|done]. simpl. destruct (load_files (i + 1) rest) as [l'|] eqn:E; [|done].
  intros [= <-]. split; [done|]. by apply IH.
Qed.

Lemma numbered_bound l : forall i m, numbered i l -> m ∈ l -> i < mg_version m <= i + Z.of_nat (length l).
Proof.
  induction l as [|x l IH]; intros i m Hn Hm; [by apply elem_of_nil in Hm|]. destruct Hn as [Hx Hn].
  apply elem_of_cons in Hm as [->|Hm]; simpl length; [lia|]. specialize (IH _ _ Hn Hm). lia.
Qed.
Lemma numbered_sorted l : forall i, numbered i l -> sort_by version_lt l = l.
Proof.
  induction l as [|x l IH]; intros i Hn; [done|]. destruct Hn as [Hx Hn]. simpl. rewrite (IH _ Hn).
  destruct l as [|y l]; [done|]. destruct Hn as [Hy _]. simpl. unfold version_lt.
  rewrite (proj2 (Z.ltb_ge _ _)) by lia. done.
Qed.
Lemma numbered_NoDup l : forall i, numbered i l -> NoDup (map mg_version l).
Proof.
  induction l as [|x l IH]; intros i Hn; [constructor|]. destruct Hn as [Hx Hn]. simpl. constructor; [|by eapply IH].
  intros (m & E & Hm)%list_elem_of_fmap. pose proof (numbered_bound _ _ _ Hn Hm). lia.
Qed.

(** ** The maps of the loops *)
Lemma fold_insert_lookup {A B} (key : A -> Z) (val : A -> B) l : forall (m : gmap Z B) k v,
  NoDup (map key l) ->
  (fold_left (fun m x => <[key x := val x]> m) l m !! k = Some v <->
   (exists x, x ∈ l /\ key x = k /\ val x = v) \/ (m !! k = Some v /\ k ∉ map key l)).
Proof.
  induction l as [|x l IH]; intros m k v Hd; simpl.
  - split; [intros; right; split; [done|apply not_elem_of_nil]|]. by intros [(x & Hx%elem_of_nil & _)|[? _]].
  - inversion Hd as [|? ? Hx Hd']; subst. rewrite (IH _ _ _ Hd'). split.
    + intros [(y & Hy & E)|[Hm Hk]]; [left; exists y; split; [by right|done]|].
      destruct (decide (key x = k)) as [<-|Hne].
      * rewrite lookup_insert_eq in Hm. injection Hm as <-. left. exists x. split; [left|done].
      * rewrite lookup_insert_ne in Hm by done. right. split; [done|]. apply not_elem_of_cons. split; [congruence|done].
    + intros [(y & Hy & <- & <-)|[Hm [Hne Hk]%not_elem_of_cons]].
      * apply elem_of_cons in Hy as [->|Hy]; [|left; by exists y]. right. by rewrite lookup_insert_eq.
      * right. by rewrite lookup_insert_ne.
Qed.
Lemma recorded_lookup rows k v : NoDup (map lr_version rows) ->
  recorded_map rows !! k = Some v <-> (k, v) ∈ map stamp_of_row rows.
Proof.
  intros Hd. unfold recorded_map, record_row. rewrite (fold_insert_lookup lr_version lr_checksum _ _ _ _ Hd). split.
  - intros [(x & Hx & <- & <-)|[? _]]; [|done]. apply list_elem_of_fmap. by exists x.
  - intros (x & [= -> ->] & Hx)%list_elem_of_fmap. left. by exists x.
Qed.
Lemma known_lookup l k m : NoDup (map mg_version l) -> known_map l !! k = Some m <-> m ∈ l /\ mg_version m = k.
Proof.
  intros Hd. unfold known_map. rewrite (fold_insert_lookup mg_version id _ _ _ _ Hd). split.
  - intros [(x & Hx & <- & <-)|[? _]]; [|done]. done.
  - intros [Hm <-]. left. by exists m.
Qed.
Lemma recorded_perm rows : NoDup (map lr_version rows) -> map_to_list (recorded_map rows) ≡ₚ map stamp_of_row rows.
Proof.
  intros Hd. apply NoDup_Permutation; [apply NoDup_map_to_list| |].
  - apply (NoDup_fmap_1 fst). change (map ?f ?l) with (f <$> l). by rewrite <- list_fmap_compose.
  - intros [k v]. rewrite elem_of_map_to_list. by apply recorded_lookup.
Qed.
Lemma recorded_size rows : NoDup (map lr_version rows) -> size (recorded_map rows) = length rows.
Proof.
  intros Hd. rewrite <- length_map_to_list, (recorded_perm _ Hd). apply length_map.
Qed.

(** The check passes exactly when every recorded row is of a known migration of
    the target or before, with its checksum. *)
Lemma check_recorded_Ok known target l : check_recorded (known_map known) target l = Ok tt <->
  Forall (fun e => exists m, known_map known !! fst e = Some m /\ fst e <= target /\ snd e = mg_checksum m) l.
Proof.
  induction l as [|[v c] l IH]; simpl; [split; [by constructor|done]|].
  rewrite Forall_cons, <- IH. simpl. split.
  - destruct (known_map known !! v) as [m|]; [|done]. intros Hc. inv_oks Hc. to_prop. split; [|done]. eauto.
  - intros [(m & -> & Hv & ->) Hl]. rewrite (proj2 (Z.leb_le _ _) Hv), String.eqb_refl. done.
Qed.

(** ** The loop *)
Definition rows_sound (known : list migration) (rows : list ledger_row) : Prop :=
  NoDup (map lr_version rows) /\ forall e, e ∈ map stamp_of_row rows -> e ∈ map stamp_of known.

Section Loop.
Context {T : Type} `{Scripts T} `{Ranges}.

(** The scripts of a list of migrations, one after the other. *)
Fixpoint run_scripts (l : list migration) (t : T) : option T :=
  match l with
  | [] => Some t
  | m :: rest => match run_script (mg_contents m) t with Ok t' => run_scripts rest t' | Err _ => None end
  end.
Lemma run_scripts_app l1 l2 t : run_scripts (l1 ++ l2) t = obind (run_scripts l1 t) (run_scripts l2).
Proof. revert t. induction l1 as [|m l1 IH]; intros t; simpl; [done|]. by destruct (run_script (mg_contents m) t). Qed.

Definition others_kept (ledger : string) (c c' : catalog T) : Prop :=
  forall l, l <> ledger -> ledgers c' !! l = ledgers c !! l.

Lemma ledger_rows_put (l l' : string) rows u (c : catalog T) (t : T) :
  ledger_rows l (Catalog u (<[l' := rows]> (ledgers c)) t) = if decide (l = l') then rows else ledger_rows l c.
Proof.
  unfold ledger_rows; simpl; destruct (decide (l = l')) as [->|Hne]; [by rewrite lookup_insert_eq|by rewrite lookup_insert_ne].
Qed.
Lemma others_kept_rows l ledger c c' : others_kept ledger c c' -> l <> ledger -> ledger_rows l c' = ledger_rows l c.
Proof. intros Hk Hne. unfold ledger_rows. by rewrite (Hk _ Hne). Qed.

Lemma exec_script_inv contents (c : catalog T) o u c' o' : exec_script contents c o = (Ok u, c', o') ->
  exists t, run_script contents (tables c) = Ok t /\ c' = Catalog (user_version c) (ledgers c) t.
Proof.
  unfold exec_script. intros Hr. apply stmt_inv in Hr. destruct (run_script contents (tables c)) as [t|]; [|done].
  injection Hr as _ <-. eauto.
Qed.
Lemma insert_ledger_inv ledger r (c : catalog T) o u c' o' : insert_ledger ledger r c o = (Ok u, c', o') ->
  (lr_version r ∉ map lr_version (ledger_rows ledger c)) /\
  c' = Catalog (user_version c) (<[ledger := ledger_rows ledger c ++ [r]]> (ledgers c)) (tables c).
Proof.
  unfold insert_ledger. intros Hr. apply stmt_inv in Hr. destruct (existsb _ _ || _) eqn:Eb; [done|].
  injection Hr as _ <-. to_prop. split; [|done]. intros (x & Ex & Hx)%list_elem_of_fmap.
  apply not_true_iff_false in H1. apply H1. apply existsb_exists. exists x. rewrite <- list_elem_of_In.
  split; [done|]. apply Z.eqb_eq. by rewrite <- Ex.
Qed.

(** Where the version is advanced: a relation between the version the loop has
    reached and [user_version]. *)
Context (ledger : string) (advance : Z -> M (catalog T) unit) (P : Z -> Z -> Prop).
Context (advance_ok : forall cur v c o c' o', P cur (user_version c) -> advance v c o = (Ok tt, c', o') ->
  ledgers c' = ledgers c /\ tables c' = tables c /\ P v (user_version c')).

Lemma apply_items_inv items : forall i cur c o reached c' o', numbered i items -> i <= cur ->
  NoDup (map lr_version (ledger_rows ledger c)) -> P cur (user_version c) ->
  apply_items ledger advance (i + Z.of_nat (length items)) cur items c o = (Ok reached, c', o') ->
  let todo := drop (Z.to_nat (cur - i)) items in
  reached = Z.max cur (i + Z.of_nat (length items)) /\ P reached (user_version c') /\ others_kept ledger c c' /\
  NoDup (map lr_version (ledger_rows ledger c')) /\
  map ledger_key (ledger_rows ledger c') = map ledger_key (ledger_rows ledger c) ++ map migration_key todo /\
  run_scripts todo (tables c) = Some (tables c').
Proof.
  induction items as [|m items IH]; intros i cur c o reached c' o' Hn Hi Hd Hp Hr; cbn [apply_items length] in Hr.
  - inv_m Hr. cbv zeta. cbn [length]. rewrite Z.add_0_r, drop_nil. cbn [map]. rewrite app_nil_r. split; [lia|]. done.
  - destruct Hn as [Hv Hn]. replace (i + Z.of_nat (S (length items))) with (i + 1 + Z.of_nat (length items)) in * by lia.
    rewrite (proj2 (Z.ltb_ge _ _)) in Hr by lia.
    assert (Es : Z.of_nat (length (m :: items)) = 1 + Z.of_nat (length items)) by (simpl length; lia).
    destruct (Z.leb_spec (mg_version m) cur) as [Hle|Hgt].
    + assert (Hi' : i + 1 <= cur) by lia. destruct (IH _ _ _ _ _ _ _ Hn Hi' Hd Hp Hr) as (H1 & H2). rewrite Es, Z.add_assoc. split; [done|].
      by replace (Z.to_nat (cur - i)) with (S (Z.to_nat (cur - (i + 1)))) by lia.
    + rewrite (proj2 (Z.eqb_eq _ _)) in Hr by lia. cbn [negb] in Hr. assert (cur = i) as -> by lia.
      rewrite Z.sub_diag. cbn [Z.to_nat drop map]. inv_m Hr.
      apply exec_script_inv in Hm as (t & Et & ->). apply insert_ledger_inv in Hm0 as [Hnew ->].
      destruct a1. apply (advance_ok i) in Hm1 as (El & Et' & Hp'); [|done]. cbn [ledgers tables user_version] in El, Et', Hnew.
      unfold ledger_rows in Hnew at 1. cbn [ledgers] in Hnew. fold (ledger_rows ledger c) in Hnew.
      set (r := LedgerRow _ _ _ _) in *.
      assert (Er : ledger_rows ledger d1 = ledger_rows ledger c ++ [r]).
      { unfold ledger_rows. rewrite El, lookup_insert_eq. done. }
      assert (Hd1 : NoDup (map lr_version (ledger_rows ledger d1))).
      { rewrite Er, map_app. apply NoDup_app. split; [done|]. split; [|by repeat constructor; apply not_elem_of_nil].
        intros z Hz [->|Hz']%elem_of_cons; [|by apply elem_of_nil in Hz'].
        done. }
      assert (Hi' : i + 1 <= mg_version m) by lia.
      destruct (IH _ _ d1 _ _ _ _ Hn Hi' Hd1 Hp' Hr) as (H4 & H5 & H6 & H7 & H8 & H9).
      replace (Z.to_nat (mg_version m - (i + 1))) with 0%nat in * by lia. rewrite drop_0 in H8, H9.
      rewrite Es. split; [lia|]. split; [done|]. split.
      { intros l Hl. rewrite (H6 l Hl), El. by rewrite lookup_insert_ne. }
      split; [done|]. split.
      { rewrite H8, Er, map_app, <- app_assoc. simpl. unfold ledger_key at 2, migration_key at 2. simpl. by rewrite Hv. }
      simpl. rewrite Et, <- Et'. done.
Qed.

(** A ledger that holds the rows of the known migrations, names aside. *)
Definition ledger_keyed (l : string) (c : catalog T) : Prop := NoDup (map lr_version (ledger_rows l c)).
Definition ledger_exact (known : list migration) (l : string) (c : catalog T) : Prop :=
  map stamp_of_row (ledger_rows l c) ≡ₚ map stamp_of known.
(** What a successful set of migrations does: the migrations past the rows that
    were there are run and recorded, in order. *)
Definition filled (known : list migration) (l : string) (c c' : catalog T) : Prop :=
  let todo := drop (length (ledger_rows l c)) known in
  ledger_keyed l c' /\ ledger_exact known l c' /\ others_kept l c c' /\
  map ledger_key (ledger_rows l c') = map ledger_key (ledger_rows l c) ++ map migration_key todo /\
  run_scripts todo (tables c) = Some (tables c').

Lemma by_version_perm rows : by_version rows ≡ₚ rows.
Proof. apply sort_by_perm. Qed.
Lemma by_version_keyed l (c : catalog T) : ledger_keyed l c -> NoDup (map lr_version (by_version (ledger_rows l c))).
Proof. unfold ledger_keyed. by rewrite by_version_perm. Qed.

Lemma stamps_of_keys rows known : map ledger_key rows = map migration_key known -> map stamp_of_row rows = map stamp_of known.
Proof.
  intros E. apply (f_equal (map (fun k => (fst (fst k), snd k)))) in E. by rewrite !map_map in E.
Qed.

Lemma ledger_filled known c cur reached c' o o' : numbered 0 known -> ledger_keyed ledger c ->
  let recorded := recorded_map (by_version (ledger_rows ledger c)) in
  check_recorded (known_map known) (Z.of_nat (length known)) (entries ledger recorded) = Ok tt ->
  Z.of_nat (size recorded) = cur -> P cur (user_version c) ->
  apply_items ledger advance (Z.of_nat (length known)) cur known c o = (Ok reached, c', o') ->
  reached = Z.of_nat (length known) ->
  P (Z.of_nat (length known)) (user_version c') /\ filled known ledger c c'.
Proof.
  intros Hn Hd recorded Hc Hs Hp Hr Ereached. subst recorded.
  pose proof (by_version_keyed _ _ Hd) as Hd'. rewrite (recorded_size _ Hd'), by_version_perm in Hs.
  apply (apply_items_inv known 0) in Hr as (Hreach & Hp' & Hk & Hd1 & Hkeys & Hrun); [|done|lia|done|done].
  rewrite <- Ereached. split; [done|]. rewrite Z.sub_0_r in Hkeys, Hrun. subst cur. rewrite Nat2Z.id in Hkeys, Hrun.
  split; [done|]. split; [|done]. unfold ledger_exact.
  assert (Hstamps : map stamp_of_row (ledger_rows ledger c') =
    map stamp_of_row (ledger_rows ledger c) ++ map stamp_of (drop (length (ledger_rows ledger c)) known)).
  { apply (f_equal (map (fun k => (fst (fst k), snd k)))) in Hkeys. by rewrite map_app, !map_map in Hkeys. }
  assert (Hin : forall e, e ∈ map stamp_of_row (ledger_rows ledger c) -> e ∈ map stamp_of known).
  { intros e He. apply check_recorded_Ok in Hc. rewrite entries_perm, (recorded_perm _ Hd'), by_version_perm in Hc.
    rewrite Forall_forall in Hc. destruct (Hc e He) as (m & Hm & _ & Ec). destruct e as [v cs]. cbn in *. subst cs.
    apply known_lookup in Hm as [Hm <-]; [|by eapply numbered_NoDup]. apply list_elem_of_fmap. by exists m. }
  apply submseteq_length_Permutation.
  - apply NoDup_submseteq; [by apply (NoDup_fmap_1 fst); change (map ?f ?l) with (f <$> l); rewrite <- list_fmap_compose|].
    rewrite Hstamps. intros e [He|He]%elem_of_app; [by apply Hin|].
    apply list_elem_of_fmap in He as (m & -> & Hm). apply list_elem_of_fmap. exists m. split; [done|].
    eapply elem_of_submseteq; [exact Hm|]. apply sublist_submseteq, sublist_drop.
  - rewrite Hstamps, length_app, !length_map, length_drop. lia.
Qed.
End Loop.

(** ** One set of migrations *)
Section Sets.
Context {T : Type} `{Scripts T} `{Ranges}.

Lemma create_ledger_inv ledger (c : catalog T) o u c' o' : create_ledger ledger c o = (Ok u, c', o') ->
  user_version c' = user_version c /\ ledger_rows ledger c' = ledger_rows ledger c /\ others_kept ledger c c' /\
  tables c' = tables c.
Proof.
  unfold create_ledger. intros Hr. apply stmt_inv in Hr. injection Hr as _ <-. split; [done|]. split; [|split; [|done]].
  - unfold ledger_rows at 1. simpl. by rewrite lookup_insert_eq.
  - intros l Hl. simpl. by rewrite lookup_insert_ne.
Qed.

Lemma filled_created known ledger (c c1 c' : catalog T) : ledger_rows ledger c1 = ledger_rows ledger c ->
  others_kept ledger c c1 -> tables c1 = tables c -> filled known ledger c1 c' -> filled known ledger c c'.
Proof.
  unfold filled. intros Er Ho Et. rewrite Er, Et. intros (H1 & H2 & H3 & H4). split; [done|]. split; [done|]. split; [|done].
  intros l Hl. by rewrite (H3 l Hl), (Ho l Hl).
Qed.

Lemma applyMigrationsThrough_inv known (c : catalog T) o u c' o' : numbered 0 known -> ledger_keyed core_ledger c ->
  applyMigrationsThrough known (Z.of_nat (length known)) c o = (Ok u, c', o') ->
  user_version c = Z.of_nat (length (ledger_rows core_ledger c)) /\
  user_version c' = Z.of_nat (length known) /\ filled known core_ledger c c'.
Proof.
  unfold applyMigrationsThrough. intros Hn Hd Hr. rewrite (numbered_sorted _ _ Hn) in Hr.
  apply transaction_inv in Hr as (o1 & o2 & Hr). inv_m Hr. apply create_ledger_inv in Hm as (Eu & Er & Ho & Et).
  apply query_inv in Hm0 as [-> ->]. destruct (_ <? _); [by apply mfail_inv in Hr|]. inv_m Hr.
  match goal with Hx : read_ledger _ _ _ = _ |- _ => apply query_inv in Hx as [-> ->] end.
  destruct (negb (_ =? _)) eqn:Es; [by apply mfail_inv in Hr|]. inv_m Hr.
  match goal with Hx : mlift _ _ _ = _ |- _ => apply mlift_inv in Hx as [Hcheck ->] end.
  match goal with Hx : apply_items _ _ _ _ _ _ _ = _ |- _ => rename Hx into Hitems end.
  destruct (negb (_ =? Z.of_nat (length known))) eqn:Ereach; [by apply mfail_inv in Hr|]. inv_m Hr. to_prop.
  match type of Hcheck with _ = Ok ?x => destruct x end.
  assert (Hd' : ledger_keyed core_ledger d) by (unfold ledger_keyed; by rewrite Er).
  apply (ledger_filled core_ledger set_user_version (fun cur v => v = cur) ltac:(
    intros cur v x p x' p' _ Hx; apply stmt_inv in Hx; by injection Hx as <-) known) in Hitems as [Hu Hf]; try done.
  split; [|split; [done|]]; [|by eapply filled_created].
  rewrite <- Eu, <- Es, (recorded_size _ (by_version_keyed _ _ Hd')), by_version_perm. by rewrite Er.
Qed.

Lemma applyIndependentMigrations_inv known ledger (c : catalog T) o u c' o' : numbered 0 known -> ledger_keyed ledger c ->
  applyIndependentMigrations known ledger (Z.of_nat (length known)) c o = (Ok u, c', o') ->
  user_version c' = user_version c /\ filled known ledger c c'.
Proof.
  unfold applyIndependentMigrations. intros Hn Hd Hr. rewrite (numbered_sorted _ _ Hn) in Hr.
  apply transaction_inv in Hr as (o1 & o2 & Hr). inv_m Hr. apply create_ledger_inv in Hm as (Eu & Er & Ho & Et).
  match goal with Hx : read_ledger _ _ _ = _ |- _ => apply query_inv in Hx as [-> ->] end.
  destruct (negb (_ =? _)) eqn:Es; [by apply mfail_inv in Hr|]. inv_m Hr.
  match goal with Hx : mlift _ _ _ = _ |- _ => apply mlift_inv in Hx as [Hcheck ->] end.
  match goal with Hx : apply_items _ _ _ _ _ _ _ = _ |- _ => rename Hx into Hitems end.
  destruct (negb (_ =? Z.of_nat (length known))) eqn:Ereach; [by apply mfail_inv in Hr|]. inv_m Hr. to_prop.
  match type of Hcheck with _ = Ok ?x => destruct x end.
  assert (Hd' : ledger_keyed ledger d) by (unfold ledger_keyed; by rewrite Er).
  apply (ledger_filled ledger (fun _ => mret tt) (fun _ v => v = user_version c) ltac:(
    intros cur v x p x' p' ? Hx; by apply mret_inv in Hx as [_ ->]) known) in Hitems as [Hu Hf]; try done.
  split; [done|]. by eapply filled_created.
Qed.

(** *** A complete set changes nothing *)
Lemma apply_items_skip ledger advance target items : forall i cur (c : catalog T) o,
  numbered i items -> i + Z.of_nat (length items) <= cur -> apply_items ledger advance target cur items c o = (Ok cur, c, o).
Proof.
  induction items as [|m items IH]; intros i cur c o Hn Hc; [done|]. destruct Hn as [Hv Hn]. cbn [length] in Hc. cbn [apply_items].
  destruct (_ <? _); [done|]. rewrite (proj2 (Z.leb_le _ _)) by lia. apply (IH (i + 1)); [done|lia].
Qed.

Lemma contiguous_full recorded fuel : forall v applied,
  (forall k, v <= k < v + Z.of_nat fuel -> is_Some (recorded !! k)) ->
  contiguous recorded fuel v applied = if (fuel =? 0)%nat then applied else v + Z.of_nat fuel - 1.
Proof.
  induction fuel as [|f IH]; intros v applied Hall; [done|]. cbn [contiguous Nat.eqb].
  destruct (Hall v) as [x Hx]; [lia|]. rewrite Hx, IH by (intros; apply Hall; lia). destruct f; cbn [Nat.eqb]; lia.
Qed.

Definition ledger_complete (known : list migration) (l : string) (c : catalog T) : Prop :=
  ledger_keyed l c /\ ledger_exact known l c.

Lemma complete_check known l (c : catalog T) : numbered 0 known -> ledger_complete known l c ->
  let recorded := recorded_map (by_version (ledger_rows l c)) in
  check_recorded (known_map known) (Z.of_nat (length known)) (entries l recorded) = Ok tt /\
  size recorded = length known /\ appliedVersion recorded (Z.of_nat (length known)) = Z.of_nat (length known).
Proof.
  intros Hn [Hd He] recorded. pose proof (by_version_keyed _ _ Hd) as Hd'.
  assert (Hperm : map_to_list recorded ≡ₚ map stamp_of known) by (unfold recorded; by rewrite (recorded_perm _ Hd'), by_version_perm).
  split; [|split].
  - apply check_recorded_Ok. rewrite entries_perm, Hperm, Forall_fmap, Forall_forall. intros m Hm. exists m.
    split; [|split; [|done]]; [by apply known_lookup; [by eapply numbered_NoDup|]|].
    pose proof (numbered_bound _ _ _ Hn Hm). simpl. lia.
  - by rewrite <- length_map_to_list, Hperm, length_map.
  - unfold appliedVersion. rewrite Nat2Z.id, contiguous_full.
    + destruct (length known); cbn [Nat.eqb]; lia.
    + intros k Hk. assert (Hin : (Z.to_nat (k - 1) < length known)%nat) by lia.
      destruct (lookup_lt_is_Some_2 _ _ Hin) as [m Hm].
      assert (Hv : mg_version m = k).
      { clear -Hn Hm Hk. assert (E : forall l i j m, numbered i l -> l !! j = Some m -> mg_version m = i + 1 + Z.of_nat j).
        { induction l as [|x l IH]; intros i j m' Hn' Hl; [done|]. destruct Hn' as [Hx Hn']. destruct j as [|j].
          - injection Hl as <-. lia.
          - simpl in Hl. rewrite (IH _ _ _ Hn' Hl). lia. }
        rewrite (E _ _ _ _ Hn Hm). lia. }
      exists (mg_checksum m). apply elem_of_map_to_list. rewrite Hperm. apply list_elem_of_fmap. exists m.
      split; [by rewrite <- Hv|]. by eapply list_elem_of_lookup_2.
Qed.

Lemma complete_exists known l (c : catalog T) : known <> [] -> ledger_complete known l c -> <[l := ledger_rows l c]> (ledgers c) = ledgers c.
Proof.
  intros Hne [_ He]. apply insert_id. unfold ledger_exact, ledger_rows in *. destruct (ledgers c !! l) as [rows|]; [done|].
  apply Permutation_nil in He. by destruct known.
Qed.
Lemma catalog_eta (c : catalog T) : Catalog (user_version c) (ledgers c) (tables c) = c.
Proof. by destruct c. Qed.

Lemma applyIndependentMigrations_idle known l (c : catalog T) : known <> [] -> numbered 0 known -> ledger_complete known l c ->
  applyIndependentMigrations known l (Z.of_nat (length known)) c [] = (Ok tt, c, []).
Proof.
  intros Hne Hn Hc. destruct (complete_check _ _ _ Hn Hc) as (E1 & E2 & E3).
  unfold applyIndependentMigrations, transaction, create_ledger, read_ledger, query, mbind, stmt. cbn [tail].
  rewrite (complete_exists _ _ _ Hne Hc), catalog_eta, (numbered_sorted _ _ Hn), E1. cbn [mlift mret].
  unfold mret at 1. rewrite E2, E3, Z.eqb_refl. cbn [negb].
  rewrite (apply_items_skip l _ _ known 0) by (done || lia). by rewrite Z.eqb_refl.
Qed.
Lemma applyMigrationsThrough_idle known (c : catalog T) : known <> [] -> numbered 0 known ->
  ledger_complete known core_ledger c -> user_version c = Z.of_nat (length known) ->
  applyMigrationsThrough known (Z.of_nat (length known)) c [] = (Ok tt, c, []).
Proof.
  intros Hne Hn Hc Hu. destruct (complete_check _ _ _ Hn Hc) as (E1 & E2 & E3).
  unfold applyMigrationsThrough, transaction, create_ledger, read_ledger, query, mbind, stmt. cbn [tail].
  rewrite (complete_exists _ _ _ Hne Hc), catalog_eta, (numbered_sorted _ _ Hn), Hu, Z.ltb_irrefl.
  rewrite E1. cbn [mlift mret]. unfold mret at 1. rewrite E2, Z.eqb_refl. cbn [negb].
  rewrite (apply_items_skip core_ledger _ _ known 0) by (done || lia). by rewrite Z.eqb_refl.
Qed.
End Sets.

(** ** The four sets *)
Section Migrate.
Context {T : Type} `{Scripts T} `{Ranges}.

Definition sets : list (string * option (list migration)) :=
  [(core_ledger, repositoryMigrations); (media_ledger, repositoryMediaMigrations);
   (m3_ledger, repositoryM3Migrations); (m4_ledger, repositoryM4Migrations)].

Definition primary_keys (c : catalog T) : Prop := forall l, ledger_keyed l c.
(** The schema of the program: the version, and every ledger with the rows of its
    migrations. *)
Definition up_to_date (c : catalog T) : Prop :=
  user_version c = CurrentSchemaVersion /\
  forall l known, (l, Some known) ∈ sets -> ledger_complete known l c.
(** The migrations of some sets that a database lacks, in the order they are run. *)
Definition missing (c : catalog T) (l : list (string * option (list migration))) : list migration :=
  concat (map (fun s => drop (length (ledger_rows (fst s) c)) (default [] (snd s))) l).

Lemma load_files_length files : forall i l, load_files i files = Some l -> length l = length files.
Proof.
  induction files as [|name rest IH]; intros i l; simpl; [by intros [= <-]|].
  destruct (ReadFile name); [|done]. simpl. destruct (load_files (i + 1) rest) as [l'|] eqn:E; [|done].
  intros [= <-]. simpl. f_equal. by eapply IH.
Qed.

Lemma others_keyed l (c c' : catalog T) : ledger_keyed l c' -> others_kept l c c' -> primary_keys c -> primary_keys c'.
Proof.
  intros Hd Ho Hk l'. destruct (decide (l' = l)) as [->|Hne]; [done|]. unfold ledger_keyed.
  rewrite (others_kept_rows _ _ _ _ Ho Hne). apply Hk.
Qed.
Lemma complete_kept known l l' (c c' : catalog T) : others_kept l' c c' -> l <> l' -> ledger_complete known l c -> ledger_complete known l c'.
Proof. intros Ho Hne. unfold ledger_complete, ledger_keyed, ledger_exact. by rewrite (others_kept_rows _ _ _ _ Ho Hne). Qed.

(** The runs of [migrate]: how far it gets, whatever fails. *)
Definition set_step (s : string * option (list migration)) (known : list migration) (c c' : catalog T) : Prop :=
  snd s = Some known /\ filled known (fst s) c c' /\
  (if String.eqb (fst s) core_ledger then user_version c' = CurrentSchemaVersion else user_version c' = user_version c).
Inductive migrated : list (string * option (list migration)) -> catalog T -> catalog T -> Prop :=
  | migrated_nil c : migrated [] c c
  | migrated_snoc done s known c c1 c2 :
      migrated done c c1 -> primary_keys c1 -> set_step s known c1 c2 -> migrated (done ++ [s]) c c2.

Lemma set_step_keyed s known c c' : set_step s known c c' -> primary_keys c -> primary_keys c'.
Proof. intros (_ & (Hd & _ & Ho & _) & _). by eapply others_keyed. Qed.
Lemma migrated_keyed done c c' : migrated done c c' -> primary_keys c -> primary_keys c'.
Proof. induction 1; [done|]. intros Hk. by eapply set_step_keyed. Qed.

Lemma applyMigrations_step known c o c' o' : repositoryMigrations = Some known -> primary_keys c ->
  applyMigrations known c o = (Ok tt, c', o') -> set_step (core_ledger, repositoryMigrations) known c c'.
Proof.
  intros E Hk Hr. pose proof (load_files_numbered _ _ _ E) as Hn. pose proof (load_files_length _ _ _ E) as Hl. cbn in Hl.
  unfold applyMigrations in Hr. assert (Ev : CurrentSchemaVersion = Z.of_nat (length known)) by (by rewrite Hl).
  rewrite Ev in Hr. apply applyMigrationsThrough_inv in Hr as (_ & Hu & Hf); [|done|apply Hk].
  split; [done|]. split; [done|]. by rewrite Hu.
Qed.
Lemma applyIndependent_step s files known target c o c' o' : loadMigrations files = Some known ->
  target = Z.of_nat (length files) -> snd s = Some known -> fst s <> core_ledger -> primary_keys c ->
  applyIndependentMigrations known (fst s) target c o = (Ok tt, c', o') -> set_step s known c c'.
Proof.
  intros El -> E Hne Hk Hr. rewrite <- (load_files_length _ _ _ El) in Hr.
  apply applyIndependentMigrations_inv in Hr as [Hu Hf]; [|by eapply load_files_numbered|apply Hk].
  split; [done|]. split; [done|]. by rewrite (proj2 (String.eqb_neq _ _) Hne).
Qed.

(** One more set: it is applied, or nothing changes. *)
Lemma next_set {A} done s rest (c c1 : catalog T) (m : list migration -> M (catalog T) unit) (k : M (catalog T) A) o r c' o' :
  sets = done ++ s :: rest -> primary_keys c -> migrated done c c1 ->
  (forall known o o' e c2, m known c1 o = (Err e, c2, o') -> c2 = c1) ->
  (forall known o o' c2, snd s = Some known -> m known c1 o = (Ok tt, c2, o') -> set_step s known c1 c2) ->
  (let* known := loaded (snd s) in let* _ := m known in k) c1 o = (r, c', o') ->
  (c' = c1 /\ is_ok r = false) \/ exists c2 o2, migrated (done ++ [s]) c c2 /\ k c2 o2 = (r, c', o').
Proof.
  intros Es Hk Hm Herr Hok Hr. unfold loaded in Hr. destruct (snd s) as [known|] eqn:Ek.
  2: { left. unfold mbind, mfail in Hr. by injection Hr as <- <- _. }
  unfold mbind at 1, mret at 1 in Hr. unfold mbind in Hr. destruct (m known c1 o) as [[[[]|e] c2] o2] eqn:E.
  - right. exists c2, o2. split; [|done]. eapply migrated_snoc; [done|by eapply migrated_keyed|by eapply Hok].
  - left. injection Hr as <- <- _. split; [by eapply Herr|done].
Qed.

Lemma migrate_run (c : catalog T) o r c' o' : primary_keys c -> migrate c o = (r, c', o') ->
  exists done rest, sets = done ++ rest /\ migrated done c c' /\ (is_ok r = true -> rest = []).
Proof.
  intros Hk Hr. unfold migrate in Hr. set (s0 := (core_ledger, repositoryMigrations)). set (s1 := (media_ledger, repositoryMediaMigrations)).
  set (s2 := (m3_ledger, repositoryM3Migrations)). set (s3 := (m4_ledger, repositoryM4Migrations)).
  apply (next_set [] s0 [s1; s2; s3] c c applyMigrations) in Hr; [|done|done|constructor|intros; by eapply transaction_err|].
  2: { intros known p p' c2 E. apply (applyMigrations_step known c p c2 p'); [exact E|done]. }
  destruct Hr as [[-> Hno]|(c1 & o1 & Hm1 & Hr)]; [exists [], sets; split; [done|]; split; [constructor|by rewrite Hno]|].
  apply (next_set [s0] s1 [s2; s3] c c1 applyMediaMigrations) in Hr; [|done|done|done|intros; by eapply transaction_err|].
  2: { intros known p p' c2 E. by eapply (applyIndependent_step s1 _ _ _ _ _ _ _ E); [..|by eapply migrated_keyed]. }
  destruct Hr as [[-> Hno]|(c2 & o2 & Hm2 & Hr)]; [exists [s0], [s1; s2; s3]; split; [done|]; split; [done|by rewrite Hno]|].
  apply (next_set [s0; s1] s2 [s3] c c2 applyM3Migrations) in Hr; [|done|done|done|intros; by eapply transaction_err|].
  2: { intros known p p' c3 E. by eapply (applyIndependent_step s2 _ _ _ _ _ _ _ E); [..|by eapply migrated_keyed]. }
  destruct Hr as [[-> Hno]|(c3 & o3 & Hm3 & Hr)]; [exists [s0; s1], [s2; s3]; split; [done|]; split; [done|by rewrite Hno]|].
  assert (Hr' : (let* known := loaded (snd s3) in let* _ := applyM4Migrations known in mret tt) c3 o3 = (r, c', o')).
  { rewrite <- Hr. unfold mbind. cbn [snd s3]. destruct (loaded _ c3 o3) as [[[k|] ?] ?]; [|done].
    by destruct (applyM4Migrations k _ _) as [[[[]|] ?] ?]. }
  apply (next_set [s0; s1; s2] s3 [] c c3 applyM4Migrations) in Hr'; [|done|done|done|intros; by eapply transaction_err|].
  2: { intros known p p' c4 E. by eapply (applyIndependent_step s3 _ _ _ _ _ _ _ E); [..|by eapply migrated_keyed]. }
  destruct Hr' as [[-> Hno]|(c4 & o4 & Hm4 & Hr')]; [exists [s0; s1; s2], [s3]; split; [done|]; split; [done|by rewrite Hno]|].
  unfold mret in Hr'. injection Hr' as _ <- _. exists sets, []. by rewrite app_nil_r.
Qed.

Lemma migrated_spec done c c' : migrated done c c' -> NoDup (map fst done) ->
  (forall l known, (l, Some known) ∈ done -> ledger_complete known l c') /\
  (forall l, l ∉ map fst done -> ledgers c' !! l = ledgers c !! l) /\
  (core_ledger ∈ map fst done -> user_version c' = CurrentSchemaVersion) /\
  (core_ledger ∉ map fst done -> user_version c' = user_version c) /\
  run_scripts (missing c done) (tables c) = Some (tables c').
Proof.
  induction 1 as [c|done s known c c1 c2 Hm IH Hk1 (Es & (Hd & He & Ho & _ & Hrun) & Hu)].
  { intros _. split; [by intros l k ?%elem_of_nil|]. split; [done|]. split; [by intros ?%elem_of_nil|]. done. }
  rewrite map_app. intros (Hnd & Hs & _)%NoDup_app. destruct (IH Hnd) as (I1 & I2 & I3 & I4 & I5). clear IH.
  assert (Hnew : fst s ∉ map fst done) by (intros Hin; apply (Hs _ Hin); left).
  split; [|split; [|split; [|split]]].
  - intros l k [Hin|Hin]%elem_of_app.
    + eapply complete_kept; [exact Ho| |by apply I1]. intros ->. apply Hnew. apply list_elem_of_fmap. by exists (fst s, Some k).
    + apply list_elem_of_singleton in Hin. subst s. injection Es as <-. done.
  - intros l [Hl Hl']%not_elem_of_app. rewrite Ho, I2; [done|done|]. intros ->. apply Hl'. left.
  - intros [Hin|Hin]%elem_of_app.
    + destruct (String.eqb_spec (fst s) core_ledger) as [E|E]; [by rewrite E in Hnew|]. rewrite Hu. by apply I3.
    + apply list_elem_of_singleton in Hin. by rewrite <- Hin, String.eqb_refl in Hu.
  - intros [Hl Hl']%not_elem_of_app. destruct (String.eqb_spec (fst s) core_ledger) as [E|E].
    + destruct Hl'. rewrite <- E. left.
    + rewrite Hu. by apply I4.
  - unfold missing. rewrite map_app, concat_app, run_scripts_app. fold (missing c done). rewrite I5. simpl.
    rewrite app_nil_r, Es. simpl. assert (Er : ledger_rows (fst s) c1 = ledger_rows (fst s) c) by (unfold ledger_rows; by rewrite I2).
    by rewrite <- Er.
Qed.

Lemma sets_NoDup : NoDup (map fst sets).
Proof. apply (bool_decide_unpack _). exact I. Qed.

(** C15: however far a migration gets, the sets of migrations it has applied are
    complete, with the scripts that were missing run once each in order, and the
    rest of the database is as it was; and when it succeeds that is every set: the
    database is up to date. *)
Theorem migrate_exact c o r c' o' (Hk : primary_keys c) (Hrun : migrate c o = (r, c', o')) :
  exists done rest, sets = done ++ rest /\
    (forall l known, (l, Some known) ∈ done -> ledger_complete known l c') /\
    (forall l, l ∉ map fst done -> ledgers c' !! l = ledgers c !! l) /\
    run_scripts (missing c done) (tables c) = Some (tables c') /\ primary_keys c' /\
    (is_ok r = true -> rest = [] /\ up_to_date c').
Proof.
  destruct (migrate_run _ _ _ _ _ Hk Hrun) as (done & rest & Es & Hm & Hok). exists done, rest.
  assert (Hnd : NoDup (map fst done)) by (pose proof sets_NoDup as Hs; rewrite Es, map_app in Hs; by apply NoDup_app in Hs as [? _]).
  destruct (migrated_spec _ _ _ Hm Hnd) as (H1 & H2 & H3 & _ & H5).
  split; [done|]. split; [done|]. split; [done|]. split; [done|]. split; [by eapply migrated_keyed|].
  intros E. specialize (Hok E). subst rest. split; [done|]. rewrite app_nil_r in Es. subst done. split; [|done].
  apply H3. left.
Qed.

(** *** The tables are what the recorded scripts make *)
Definition of_ledger (l : string) (log : list (string * migration)) : list migration :=
  map snd (List.filter (fun e => String.eqb (fst e) l) log).
Definition accounted (t0 : T) (c : catalog T) : Prop :=
  exists log, run_scripts (map snd log) t0 = Some (tables c) /\
    forall l, map ledger_key (ledger_rows l c) = map migration_key (of_ledger l log).

Lemma of_ledger_app l log1 log2 : of_ledger l (log1 ++ log2) = of_ledger l log1 ++ of_ledger l log2.
Proof. unfold of_ledger. by rewrite List.filter_app, map_app. Qed.
Lemma of_ledger_same l todo : of_ledger l (map (pair l) todo) = todo.
Proof. unfold of_ledger. induction todo as [|m todo IH]; [done|]. simpl. rewrite String.eqb_refl. simpl. by rewrite IH. Qed.
Lemma of_ledger_other l l' todo : l <> l' -> of_ledger l' (map (pair l) todo) = [].
Proof.
  intros Hne. unfold of_ledger. induction todo as [|m todo IH]; [done|]. simpl. by rewrite (proj2 (String.eqb_neq _ _) Hne).
Qed.

Lemma set_step_accounted t0 s known c c' : set_step s known c c' -> accounted t0 c -> accounted t0 c'.
Proof.
  intros (_ & (_ & _ & Ho & Hkeys & Hrun) & _) (log & Hlog & Hrows).
  set (todo := drop _ known) in *. exists (log ++ map (pair (fst s)) todo). split.
  - rewrite map_app, run_scripts_app, Hlog, map_map, map_id. exact Hrun.
  - intros l. rewrite of_ledger_app, map_app, <- Hrows. destruct (decide (fst s = l)) as [<-|Hne].
    + by rewrite of_ledger_same, Hkeys.
    + by rewrite (of_ledger_other _ _ _ Hne), app_nil_r, (others_kept_rows _ _ _ _ Ho (not_eq_sym Hne)).
Qed.

(** C36: if the tables of a database are what the scripts recorded in its ledgers
    make of an empty database, in some order that keeps the order of each ledger,
    they are so after a migration, whatever statement fails: no script is applied
    without its row, and no row is written without its script. *)
Theorem migrate_accounted t0 c o (Hk : primary_keys c) (Ha : accounted t0 c) :
  accounted t0 (state_after migrate c o).
Proof.
  unfold state_after. destruct (migrate c o) as [[r c'] o'] eqn:E. cbn.
  destruct (migrate_run _ _ _ _ _ Hk E) as (done & rest & _ & Hm & _). clear E o o' r rest.
  induction Hm as [c|done s known c c1 c2 Hm IH _ Hstep]; [done|]. eapply set_step_accounted; [done|]. by apply IH.
Qed.

(** *** A database that is up to date is left alone *)
Definition embedded : Prop := forall s, s ∈ sets -> snd s <> None.

Lemma load_files_nonempty name files i l : load_files i (name :: files) = Some l -> l <> [].
Proof. simpl. destruct (ReadFile name); [|done]. simpl. destruct (load_files _ _); [|done]. by intros [= <-]. Qed.

Lemma migrate_idle c : embedded -> up_to_date c -> migrate c [] = (Ok tt, c, []).
Proof.
  intros He [Hu Hc]. unfold migrate.
  assert (Hget : forall s, s ∈ sets -> exists known, snd s = Some known).
  { intros s Hs. specialize (He s Hs). destruct (snd s) as [k|]; [by exists k|done]. }
  assert (Hidle : forall l name files known target, loadMigrations (name :: files) = Some known ->
    (l, loadMigrations (name :: files)) ∈ sets -> target = Z.of_nat (S (length files)) ->
    applyIndependentMigrations known l target c [] = (Ok tt, c, [])).
  { intros l name files known target E Hin ->. pose proof (load_files_length _ _ _ E) as Hl. cbn [length] in Hl. rewrite <- Hl.
    apply applyIndependentMigrations_idle; [by eapply load_files_nonempty|by eapply load_files_numbered|].
    apply Hc. by rewrite <- E. }
  destruct (Hget (core_ledger, repositoryMigrations)) as [k0 E0]; [left|].
  destruct (Hget (media_ledger, repositoryMediaMigrations)) as [k1 E1]; [right; left|].
  destruct (Hget (m3_ledger, repositoryM3Migrations)) as [k2 E2]; [right; right; left|].
  destruct (Hget (m4_ledger, repositoryM4Migrations)) as [k3 E3]; [right; right; right; left|].
  cbn [snd] in E0, E1, E2, E3. rewrite E0, E1, E2, E3. unfold mbind, loaded, mret.
  pose proof (load_files_length _ _ _ E0) as L0. cbn [length] in L0.
  assert (Ev : CurrentSchemaVersion = Z.of_nat (length k0)) by (by rewrite L0).
  unfold applyMigrations. rewrite Ev, applyMigrationsThrough_idle;
    [|by eapply load_files_nonempty|by eapply load_files_numbered|apply Hc; rewrite <- E0; left|by rewrite Hu].
  unfold applyMediaMigrations, applyM3Migrations, applyM4Migrations.
  rewrite (Hidle media_ledger "002_media_ingest.sql" ["003_media_file_checks.sql"] _ _ E1) by (done || (right; left)).
  rewrite (Hidle m3_ledger "004_collectors_timeline.sql" [] _ _ E2) by (done || (right; right; left)).
  apply (Hidle m4_ledger "005_operations.sql" [] _ _ E3); [right; right; right; left|done].
Qed.
End Migrate.

(** ** A database created, and one whose upgrade is interrupted *)
#[export] Instance named_scripts : Scripts (list string) := {|
  ReadFile name := Some ("-- " +:+ name);
  run_script contents t := if existsb (String.eqb contents) t then Err (SqliteCode 1) else Ok (t ++ [contents]) |}.
#[export] Program Instance listed_ranges : Ranges := {| entries _ m := map_to_list m; applied_at _ _ := 0 |}.
Next Obligation. done. Qed.

Definition new_file : catalog (list string) := Catalog 0 ∅ [].
Definition failing_at (n : nat) : oracle := repeat None n ++ [Some (SqliteCode 13)].
Definition created_run := migrate new_file [].
(** The disk fills up while the second media migration is run. *)
Definition interrupted_run := migrate new_file (failing_at 14).
Definition versions_of (c : catalog (list string)) : list (list Z) :=
  map (fun s => map lr_version (ledger_rows (fst s) c)) sets.
Definition summary {A} (r : result error A * catalog (list string) * oracle) : result error A * Z * list (list Z) * nat :=
  let '(x, c, _) := r in (x, user_version c, versions_of c, length (tables c)).

Example created_example : summary created_run = (Ok tt, 1, [[1]; [1; 2]; [1]; [1]], 5%nat).
Proof. vm_compute. reflexivity. Qed.
Example interrupted_example : summary interrupted_run = (Err migration_failed, 1, [[1]; []; []; []], 1%nat).
Proof. vm_compute. reflexivity. Qed.
(** The next start completes it; a row that is not the program's is refused. *)
Example resumed_example : summary (migrate (snd (fst interrupted_run)) []) = summary created_run.
Proof. vm_compute. reflexivity. Qed.
Definition tampered (version : Z) (checksum : string) : catalog (list string) :=
  Catalog 1 {[core_ledger := [LedgerRow version "x" checksum ""]]} [].
Example refused_example :
  (fst (fst (migrate (tampered 2 "") [])), fst (fst (migrate (tampered 1 "") [])),
   fst (fst (migrate (Catalog 2 ∅ []) []))) =
  (Err (StoreError CodeMigrationUnsupported), Err migration_failed, Err (StoreError CodeMigrationUnsupported)).
Proof. vm_compute. reflexivity. Qed.

Lemma new_file_keys : primary_keys new_file.
Proof. intros l. constructor. Qed.
Lemma migrate_exact_witness : exists c' o',
  interrupted_run = (Err migration_failed, c', o') /\ primary_keys c' /\
  exists done rest, sets = done ++ rest /\ run_scripts (missing new_file done) [] = Some (tables c').
Proof.
  assert (Hs : fst (fst interrupted_run) = Err migration_failed) by (vm_compute; reflexivity).
  destruct interrupted_run as [[r c'] o'] eqn:E. cbn in Hs. subst r. exists c', o'. split; [reflexivity|].
  unfold interrupted_run in E. destruct (migrate_exact _ _ _ _ _ new_file_keys E) as (d & rest & Es & _ & _ & Hr & Hk & _).
  split; [exact Hk|]. exists d, rest. split; [exact Es|exact Hr].
Defined.
Lemma migrate_accounted_witness :
  let c := state_after migrate new_file (failing_at 14) in accounted [] c /\ tables c = ["-- 001_raw_events.sql"].
Proof.
  split; [|vm_compute; reflexivity]. refine (migrate_accounted [] new_file (failing_at 14) new_file_keys _).
  exists []. split; [reflexivity|]. intros l. reflexivity.
Defined.
