(* ===== verification/DatabaseFiles.v ===== *)
(** * Database files ([eventstore/store.go], [eventstore/operations.go])

    Opening a store, the data source names and the files they name, the schema a
    file has, its verification, and a backup.  A volume is a map from cleaned
    paths to databases; what a failed [VACUUM INTO] leaves and what SQLite's
    integrity check says are interfaces. *)

From Stdlib Require Import ZArith Lia String Ascii.
From S2P Require Import Prelude GoStrings GoTime GoJson Sql Schema Events Platform OpsStore MediaFiles PathFacts ActivityWatch Migration.
Open Scope string_scope.
Open Scope list_scope.
Open Scope result_scope.
Open Scope Z_scope.
Open Scope db_scope.

(** ** Data source names *)
Class Volumes := { VolumeName : string -> string }.

(** The path of a URL ([URL.EscapedPath]). *)
Definition path_byte (c : Z) : bool := unreserved c || existsb (Z.eqb c) [36; 38; 43; 44; 47; 58; 59; 61; 64].
Definition escape_path (s : string) : string :=
  fold_right (fun c acc => (if path_byte c then of_bytes [c] else percent c) +:+ acc) "" (bytes s).
(** [url.Values.Encode] of pairs sorted by key. *)
Definition encode_values (l : list (string * string)) : string :=
  join "&" (map (fun kv => QueryEscape (fst kv) +:+ "=" +:+ QueryEscape (snd kv)) l).
Definition Milliseconds (d : duration) : Z := Z.quot d millisecond.

Section Names.
Context `{FilePaths} `{Volumes}.

Definition uri_path (path : string) : string :=
  let uriPath := ToSlash path in
  if negb (String.eqb (VolumeName path) "") && negb (has_prefix uriPath "/") then "/" +:+ uriPath else uriPath.

Definition sqliteDSN (databasePath : string) (busyTimeout : duration) : string :=
  "file://" +:+ escape_path (uri_path databasePath) +:+ "?" +:+ encode_values
    [("_pragma", "foreign_keys(1)"); ("_pragma", "journal_mode(WAL)"); ("_pragma", "synchronous(FULL)");
     ("_pragma", "busy_timeout(" +:+ format_int (Milliseconds busyTimeout) +:+ ")");
     ("_pragma", "wal_autocheckpoint(1000)")].
Definition inspectionDSN (path : string) (busyTimeout : duration) : string :=
  "file://" +:+ escape_path (uri_path path) +:+ "?" +:+ encode_values
    [("_pragma", "foreign_keys(1)"); ("_pragma", "busy_timeout(" +:+ format_int (Milliseconds busyTimeout) +:+ ")");
     ("mode", "ro")].
End Names.

(** The file a URI with an empty authority names: the path up to "?" or "#", with
    "%HH" decoded. *)
Fixpoint uri_decode (s : string) : string :=
  match s with
  | EmptyString => EmptyString
  | String c r =>
    if Ascii.eqb c "?" || Ascii.eqb c "#" then EmptyString
    else match c, r with
         | "%"%char, String a (String b r') =>
           match hex_val a, hex_val b with
           | Some x, Some y => String (chr (16 * x + y)) (uri_decode r')
           | _, _ => String c (uri_decode r)
           end
         | _, _ => String c (uri_decode r)
         end
  end.
Definition uri_file (dsn : string) : string :=
  if has_prefix dsn "file://" then uri_decode (sdrop 7 dsn) else dsn.

(** ** SQL string literals *)
Fixpoint double_quotes (s : string) : string :=
  match s with
  | EmptyString => EmptyString
  | String "'" r => String "'" (String "'" (double_quotes r))
  | String c r => String c (double_quotes r)
  end.
(** The literal after its opening quote, which the text must end. *)
Fixpoint sql_literal (s : string) : option string :=
  match s with
  | String "'" EmptyString => Some EmptyString
  | String "'" (String "'" r) => option_map (String "'") (sql_literal r)
  | String "'" _ | EmptyString => None
  | String c r => option_map (String c) (sql_literal r)
  end.

(** ** Volumes *)
Record dbfile := DbFile { df_catalog : catalog database; df_integrity : string }.
Abbreviation volume := (gmap string dbfile).

(** What a [VACUUM INTO] that fails leaves under its target, what the integrity
    check says of a snapshot, and what a connection answers for its pragmas. *)
Class Engine := {
  leftover : string -> option dbfile;
  snapshot_integrity : dbfile -> string;
  journal_mode : string -> string;
  foreign_keys : string -> Z;
  busy_timeout : string -> Z }.

(** A call of the operating system. *)
Definition syscall {A} (code : string) (f : volume -> result error (A * volume)) : M volume A := fun w o =>
  match o with
  | Some _ :: o' => (Err (StoreError code), w, o')
  | _ => match f w with Ok (a, w') => (Ok a, w', tail o) | Err e => (Err e, w, tail o) end
  end.
(** Statements on a connection to a file; SQLITE_CANTOPEN where there is none. *)
Definition connected {A} (file : string) (m : M dbfile A) : M volume A := fun w o =>
  match w !! file with
  | Some f => let '(r, f', o') := m f o in (r, <[file := f']> w, o')
  | None => stmt CodeQueryFailed (fun _ => Err (SqliteCode 14)) w o
  end.
Definition on_catalog {A} (m : M (catalog database) A) : M dbfile A := fun f o =>
  let '(r, c, o') := m (df_catalog f) o in (r, DbFile c (df_integrity f), o').
Definition reading {A} (code : string) (f : dbfile -> result fault A) : M dbfile A :=
  stmt code (fun d => match f d with Ok a => Ok (a, d) | Err e => Err e end).

Definition no_such_table : fault := SqliteCode 1.

(** ** The schema of a file *)
Record SchemaInfo := MkSchemaInfo { si_Core : Z; si_Media : Z; si_M3 : Z; si_M4 : Z }.

Definition table_exists (name : string) (f : dbfile) : bool :=
  match ledgers (df_catalog f) !! name with Some _ => true | None => false end.
(** [SELECT COALESCE(MAX(version), 0) FROM name] *)
Definition max_version (name : string) (f : dbfile) : result fault Z :=
  match ledgers (df_catalog f) !! name with
  | Some [] => Ok 0
  | Some (r :: rows) => Ok (foldr (fun x m => Z.max (lr_version x) m) (lr_version r) rows)
  | None => Err no_such_table
  end.

Definition read_version (name : string) (optional : bool) : M dbfile Z :=
  if optional then
    let* exists_ := reading CodeQueryFailed (fun f => Ok (table_exists name f)) in
    if exists_ : bool then reading CodeQueryFailed (max_version name) else mret 0
  else reading CodeQueryFailed (max_version name).
Definition readSchemaInfo : M dbfile SchemaInfo :=
  let* core := read_version core_ledger false in
  let* media := read_version media_ledger false in
  let* m3 := read_version m3_ledger false in
  let* m4 := read_version m4_ledger true in
  mret (MkSchemaInfo core media m3 m4).

(** ** Verification *)
Section Verify.
Context `{Scripts database}.

(** The loop over the rows of a ledger: the number that match. *)
Fixpoint verify_rows (expected : list migration) (index : nat) (rows : list ledger_row) : result error nat :=
  match rows with
  | [] => Ok index
  | r :: rest =>
    match expected !! index with
    | None => Err migration_failed
    | Some m =>
      if negb (lr_version r =? mg_version m) || negb (String.eqb (lr_name r) (mg_name m))
         || negb (String.eqb (lr_checksum r) (mg_checksum m))
      then Err migration_failed
      else verify_rows expected (S index) rest
    end
  end.

Definition verify_set (table : string) (load : option (list migration)) : M dbfile unit :=
  match load with
  | None => mfail migration_failed
  | Some expected =>
    let* rows := reading CodeMigrationFailed (fun f =>
      match ledgers (df_catalog f) !! table with Some rows => Ok (by_version rows) | None => Err no_such_table end) in
    let* index := mlift (verify_rows expected 0 rows) in
    if (index =? length expected)%nat then mret tt else mfail migration_failed
  end.

Definition verifyCurrentMigrationLedgers : M dbfile unit :=
  let* userVersion := reading CodeQueryFailed (fun f => Ok (user_version (df_catalog f))) in
  if negb (userVersion =? CurrentSchemaVersion) then mfail migration_failed
  else miter (fun s => verify_set (fst s) (snd s)) sets.

Definition verify_file : M dbfile unit :=
  let* integrity := reading CodeQueryFailed (fun f => Ok (df_integrity f)) in
  if negb (String.eqb integrity "ok") then mfail (StoreError CodeQueryFailed)
  else
    let* _ := readSchemaInfo in
    verifyCurrentMigrationLedgers.
End Verify.

Section Files.
Context `{Paths} `{FilePaths} `{Volumes} `{Scripts database} `{Ranges} `{Engine}.

Definition inspection (path : string) : string := clean (uri_file (inspectionDSN path (5 * second))).
(** [sql.Open]: it reads nothing. *)
Definition sql_open : M volume unit := syscall CodeOpenFailed (fun w => Ok (tt, w)).

Definition ReadSchemaInfo (path : string) : M volume SchemaInfo :=
  if negb (is_abs path) then mfail (StoreError CodePathInvalid)
  else
    let* _ := sql_open in
    connected (inspection path) readSchemaInfo.

Definition VerifyDatabase (path : string) : M volume unit :=
  if negb (is_abs path) then mfail (StoreError CodePathInvalid)
  else
    let* _ := sql_open in
    connected (inspection path) verify_file.

Definition ReadMediaManifest (path : string) : M volume (list MediaManifestEntry) :=
  let* _ := VerifyDatabase path in
  let* _ := sql_open in
  connected (inspection path) (reading CodeQueryFailed (fun f => Ok (media_manifest (tables (df_catalog f))))).

(** ** Backups *)

(** The statement the text is, and the file it names. *)
Definition vacuum_prefix : string := "VACUUM INTO '".
Definition vacuum_target (sql : string) : option string :=
  if has_prefix sql vacuum_prefix then sql_literal (sdrop 13 sql) else None.

(** [VACUUM INTO] on the connection to [file]: a snapshot of its database, under
    a name nothing has. *)
Definition vacuum_into (file sql : string) : M volume unit := fun w o =>
  match vacuum_target sql, w !! file with
  | Some target, Some f =>
    match w !! clean target with
    | Some _ => stmt CodeWriteFailed (fun _ => Err (SqliteCode 1)) w o
    | None =>
      match o with
      | Some e :: o' =>
        (Err (classifySQLiteError CodeWriteFailed e),
         match leftover target with Some x => <[clean target := x]> w | None => w end, o')
      | _ => (Ok tt, <[clean target := DbFile (df_catalog f) (snapshot_integrity f)]> w, tail o)
      end
    end
  | _, _ => stmt CodeWriteFailed (fun _ => Err (SqliteCode 1)) w o
  end.

(** [os.Remove], whose error is dropped. *)
Definition remove_quietly (path : string) : M volume unit := fun w o =>
  match o with Some _ :: o' => (Ok tt, w, o') | _ => (Ok tt, delete (clean path) w, tail o) end.

(** Where [m] fails the file is removed. *)
Definition or_remove (target : string) (m : M volume unit) : M volume unit := fun w o =>
  let '(r, w', o') := m w o in
  match r with
  | Ok _ => (Ok tt, w', o')
  | Err e => (let* _ := remove_quietly target in mfail e) w' o'
  end.

(** The backup of the database of the store, the file [file]. *)
Definition BackupTo (file target : string) : M volume unit :=
  if negb (is_abs target) then mfail (StoreError CodePathInvalid)
  else
    let* _ := syscall CodeOpenFailed (fun w =>
      match w !! clean target with Some _ => Err (StoreError CodePathInvalid) | None => Ok (tt, w) end) in
    let* _ := syscall CodeOpenFailed (fun w => Ok (tt, w)) in
    let* _ := vacuum_into file (vacuum_prefix +:+ double_quotes (clean target) +:+ "'") in
    or_remove target (VerifyDatabase target).

(** ** Opening a store *)
Record Options := MkOptions {
  op_BusyTimeout : duration; op_MaxOpenConnections : Z; op_MaxBatchEvents : Z; op_MaxEventBytes : Z;
  op_MaxPayloadDepth : Z; op_MaxPageSize : Z; op_CollectorPolicies : gmap string CollectorPolicy }.

Definition options_valid (o : Options) : bool :=
  negb ((op_BusyTimeout o <? 100 * millisecond) || (30 * second <? op_BusyTimeout o)
        || (op_MaxOpenConnections o <? 1) || (op_MaxBatchEvents o <? 1) || (op_MaxEventBytes o <? 1)
        || (op_MaxPayloadDepth o <? 1) || (op_MaxPageSize o <? 1)).

Definition verifyPragmas (dsn : string) (busyTimeout : duration) : M dbfile unit :=
  let* mode := reading CodePragmaFailed (fun _ => Ok (journal_mode dsn)) in
  if negb (String.eqb mode "wal") then mfail (StoreError CodePragmaFailed)
  else
    let* foreignKeys := reading CodePragmaFailed (fun _ => Ok (foreign_keys dsn)) in
    if negb (foreignKeys =? 1) then mfail (StoreError CodePragmaFailed)
    else
      let* configured := reading CodePragmaFailed (fun _ => Ok (busy_timeout dsn)) in
      if negb (configured =? Milliseconds busyTimeout) then mfail (StoreError CodePragmaFailed)
      else mret tt.

(** The first statement creates the file where there is none. *)
Definition ping (file : string) : M volume unit :=
  stmt CodeOpenFailed (fun w =>
    Ok (tt, match w !! file with Some _ => w | None => <[file := DbFile (Catalog 0 ∅ empty_database) "ok"]> w end)).

Definition Open (databasePath : string) (options : Options) : M volume Store :=
  if negb (is_abs databasePath) then mfail (StoreError CodePathInvalid)
  else if negb (options_valid options) then mfail (StoreError CodeOpenFailed)
  else
    let* _ := syscall CodeOpenFailed (fun w => Ok (tt, w)) in
    let dsn := sqliteDSN databasePath (op_BusyTimeout options) in
    let file := clean (uri_file dsn) in
    let* _ := sql_open in
    let* _ := ping file in
    let* _ := connected file (verifyPragmas dsn (op_BusyTimeout options)) in
    let* _ := connected file (on_catalog migrate) in
    mret (MkStore (op_MaxBatchEvents options) (op_MaxEventBytes options) (op_MaxPayloadDepth options)
            (op_MaxPageSize options) (Z.shiftl 32 20) (op_CollectorPolicies options)).
End Files.

(** ** Names: what is escaped is read back *)
Lemma percent_decode (c : ascii) r : uri_decode (percent (code c) +:+ r) = String c (uri_decode r).
Proof.
  destruct c as [[] [] [] [] [] [] [] []]; reflexivity.
Qed.
Lemma path_byte_decode (c : ascii) r : path_byte (code c) = true -> uri_decode (String c r) = String c (uri_decode r).
Proof.
  destruct c as [[] [] [] [] [] [] [] []]; intros Hb; first [discriminate Hb | reflexivity].
Qed.

Lemma escape_path_cons c s : escape_path (String c s) = (if path_byte (code c) then String c "" else percent (code c)) +:+ escape_path s.
Proof. unfold escape_path. cbn [bytes fold_right]. destruct (path_byte (code c)); [|done]. unfold of_bytes at 1. by rewrite chr_code. Qed.
Lemma escape_path_decode s r : uri_decode (escape_path s +:+ "?" +:+ r) = s.
Proof.
  induction s as [|c s IH]; [reflexivity|]. rewrite escape_path_cons, sappend_assoc.
  destruct (path_byte (code c)) eqn:Eb.
  - change (String c "" +:+ ?x) with (String c x). by rewrite path_byte_decode, IH.
  - by rewrite percent_decode, IH.
Qed.

Definition unix_path `{FilePaths} `{Volumes} (path : string) : Prop :=
  VolumeName path = "" /\ ToSlash path = path.

Lemma has_prefix_app p s : has_prefix (p +:+ s) p = true.
Proof.
  unfold has_prefix. induction p as [|c p IH]; [by destruct s|]. change (String c p +:+ s) with (String c (p +:+ s)).
  cbn [String.prefix]. destruct (ascii_dec c c); done.
Qed.

Section DSN.
Context `{FilePaths} `{Volumes}.

Lemma dsn_file path query : unix_path path -> uri_file ("file://" +:+ escape_path (uri_path path) +:+ "?" +:+ query) = path.
Proof.
  intros [Hv Hs]. unfold uri_path. rewrite Hv, Hs, String.eqb_refl. cbn [negb andb].
  unfold uri_file. rewrite has_prefix_app. cbn [sdrop String.append]. apply escape_path_decode.
Qed.
Lemma inspectionDSN_file path t : unix_path path -> uri_file (inspectionDSN path t) = path.
Proof. apply dsn_file. Qed.
Lemma sqliteDSN_file path t : unix_path path -> uri_file (sqliteDSN path t) = path.
Proof. apply dsn_file. Qed.
End DSN.

(** A literal is read back as it was quoted. *)
Lemma sql_literal_quoted s : sql_literal (double_quotes s +:+ "'") = Some s.
Proof.
  induction s as [|c s IH]; [reflexivity|].
  destruct (decide (c = "'"%char)) as [->|Hne].
  - change (option_map (String "'") (sql_literal (double_quotes s +:+ "'")) = Some (String "'" s)). by rewrite IH.
  - assert (E : double_quotes (String c s) = String c (double_quotes s)) by (destruct c as [[] [] [] [] [] [] [] []]; done).
    rewrite E. change (String c ?x +:+ ?y) with (String c (x +:+ y)).
    assert (E' : forall r, sql_literal (String c r) = option_map (String c) (sql_literal r)) by (intros; destruct c as [[] [] [] [] [] [] [] []]; done).
    by rewrite E', IH.
Qed.
Lemma vacuum_target_quoted s : vacuum_target (vacuum_prefix +:+ double_quotes s +:+ "'") = Some s.
Proof. unfold vacuum_target. rewrite has_prefix_app. apply sql_literal_quoted. Qed.

(** ** What a verified file is *)
Section Verified.
Context `{Scripts database} `{Ranges}.

Definition ledger_verified (f : dbfile) (s : string * option (list migration)) : Prop :=
  exists known rows, snd s = Some known /\ ledgers (df_catalog f) !! fst s = Some rows /\
    map ledger_key (by_version rows) = map migration_key known.
(** SQLite finds no damage, and the schema is exactly that of the program. *)
Definition verified (f : dbfile) : Prop :=
  df_integrity f = "ok" /\ user_version (df_catalog f) = CurrentSchemaVersion /\ Forall (ledger_verified f) sets.

Lemma verify_rows_spec expected rows : forall i, (i <= length expected)%nat ->
  verify_rows expected i rows = Ok (length expected) <-> map ledger_key rows = map migration_key (drop i expected).
Proof.
  induction rows as [|r rows IH]; intros i Hi; cbn [verify_rows map].
  - split.
    + intros [= ->]. by rewrite drop_all.
    + intros E. symmetry in E. apply map_eq_nil in E. apply (f_equal length) in E. rewrite length_drop in E. cbn in E. f_equal. lia.
  - destruct (expected !! i) as [m|] eqn:Em.
    + rewrite (drop_S _ _ _ Em). cbn [map]. apply lookup_lt_Some in Em.
      assert (Hne : ledger_key r <> migration_key m ->
        Err (A := nat) migration_failed = Ok (length expected) <->
        ledger_key r :: map ledger_key rows = migration_key m :: map migration_key (drop (S i) expected)).
      { intros Hn. split; [done|]. intros E. destruct Hn. exact (f_equal (List.hd (ledger_key r)) E). }
      unfold ledger_key at 1, migration_key at 1 in Hne.
      destruct (Z.eqb_spec (lr_version r) (mg_version m)) as [E1|E1]; cbn [negb orb]; [|apply Hne; congruence].
      destruct (String.eqb_spec (lr_name r) (mg_name m)) as [E2|E2]; cbn [negb orb]; [|apply Hne; congruence].
      destruct (String.eqb_spec (lr_checksum r) (mg_checksum m)) as [E3|E3]; cbn [negb orb]; [|apply Hne; congruence].
      assert (Ek : ledger_key r = migration_key m) by (unfold ledger_key, migration_key; congruence).
      rewrite IH by lia. rewrite Ek. split; [by intros ->|]. intros E. exact (f_equal (@List.tl _) E).
    + apply lookup_ge_None in Em. rewrite drop_ge by done. done.
Qed.

Lemma reading_inv {A} code (g : dbfile -> result fault A) f o a f' o' : reading code g f o = (Ok a, f', o') -> f' = f /\ g f = Ok a.
Proof. unfold reading. intros Hr. apply stmt_inv in Hr. destruct (g f) as [x|]; [|done]. by injection Hr as <- <-. Qed.

Lemma reading_ok {A} code (g : dbfile -> result fault A) f a : g f = Ok a -> reading code g f [] = (Ok a, f, []).
Proof. unfold reading, stmt. cbn [tail]. by intros ->. Qed.
Lemma mbind_ok {S A B} (m : M S A) (k : A -> M S B) s o a s' o' : m s o = (Ok a, s', o') -> mbind m k s o = k a s' o'.
Proof. unfold mbind. by intros ->. Qed.

Lemma verify_set_inv s f o u f' o' : verify_set (fst s) (snd s) f o = (Ok u, f', o') -> f' = f /\ ledger_verified f s.
Proof.
  unfold verify_set, ledger_verified. destruct (snd s) as [expected|]; [|done]. intros Hr. inv_m Hr.
  apply reading_inv in Hm as [-> Hrows]. destruct (ledgers (df_catalog f) !! fst s) as [rows|]; [|done]. injection Hrows as <-.
  match goal with Hx : mlift _ _ _ = _ |- _ => apply mlift_inv in Hx as [Hv ->] end.
  destruct (Nat.eqb_spec a0 (length expected)) as [->|]; [|done]. inv_m Hr. split; [done|]. exists expected, rows.
  apply (verify_rows_spec _ _ 0) in Hv; [done|lia].
Qed.
Lemma verify_set_ok s f : ledger_verified f s -> verify_set (fst s) (snd s) f [] = (Ok tt, f, []).
Proof.
  intros (known & rows & -> & Er & Hk). unfold verify_set. erewrite mbind_ok by (apply reading_ok; by rewrite Er).
  apply (verify_rows_spec known _ 0) in Hk; [|lia]. rewrite Hk. unfold mbind, mlift, mret. by rewrite Nat.eqb_refl.
Qed.

Lemma verify_sets_inv l : forall f o u f' o', miter (fun s => verify_set (fst s) (snd s)) l f o = (Ok u, f', o') ->
  f' = f /\ Forall (ledger_verified f) l.
Proof.
  induction l as [|s l IH]; intros f o u f' o' Hr; cbn [miter] in Hr; inv_m Hr; [done|].
  apply verify_set_inv in Hm as [-> Hs]. apply IH in Hr as [-> Hl]. split; [done|]. by constructor.
Qed.
Lemma verify_sets_ok l f : Forall (ledger_verified f) l -> miter (fun s => verify_set (fst s) (snd s)) l f [] = (Ok tt, f, []).
Proof. induction 1 as [|s l Hs Hl IH]; [done|]. cbn [miter]. by erewrite mbind_ok by by apply verify_set_ok. Qed.

(** The schema of a file is read where its ledgers are. *)
Definition schema_info (f : dbfile) : option SchemaInfo :=
  match max_version core_ledger f, max_version media_ledger f, max_version m3_ledger f with
  | Ok c, Ok m, Ok m3 =>
    Some (MkSchemaInfo c m m3 (match max_version m4_ledger f with Ok m4 => m4 | Err _ => 0 end))
  | _, _, _ => None
  end.
Lemma read_version_inv name opt f o v f' o' : read_version name opt f o = (Ok v, f', o') -> f' = f.
Proof.
  unfold read_version. destruct opt; intros Hr; [|by apply reading_inv in Hr as [-> _]].
  inv_m Hr. apply reading_inv in Hm as [-> _]. destruct a; [by apply reading_inv in Hr as [-> _]|by inv_m Hr].
Qed.
Lemma readSchemaInfo_inv f o i f' o' : readSchemaInfo f o = (Ok i, f', o') -> f' = f.
Proof.
  unfold readSchemaInfo. intros Hr. inv_m Hr.
  repeat match goal with Hx : read_version _ _ _ _ = _ |- _ => apply read_version_inv in Hx; subst end. done.
Qed.
Lemma readSchemaInfo_ok f i : schema_info f = Some i -> readSchemaInfo f [] = (Ok i, f, []).
Proof.
  unfold schema_info. destruct (max_version core_ledger f) as [c|] eqn:E0; [|done].
  destruct (max_version media_ledger f) as [m|] eqn:E1; [|done]. destruct (max_version m3_ledger f) as [m3|] eqn:E2; [|done].
  intros [= <-]. unfold readSchemaInfo, read_version. erewrite mbind_ok by by apply reading_ok.
  erewrite mbind_ok by by apply reading_ok. erewrite mbind_ok by by apply reading_ok.
  unfold max_version, table_exists. destruct (ledgers (df_catalog f) !! m4_ledger) as [rows|] eqn:E4.
  - erewrite mbind_ok; [done|]. erewrite mbind_ok by by apply reading_ok. cbv beta. rewrite E4.
    apply reading_ok. rewrite E4. by destruct rows.
  - erewrite mbind_ok; [done|]. erewrite mbind_ok by by apply reading_ok. cbv beta. by rewrite E4.
Qed.

Lemma verified_schema f : verified f -> is_Some (schema_info f).
Proof.
  intros (_ & _ & Hl). rewrite Forall_forall in Hl.
  assert (Hx : forall l k, (l, k) ∈ sets -> exists v, max_version l f = Ok v).
  { intros l k Hin. destruct (Hl _ Hin) as (known & rows & _ & Hr & _). cbn in Hr. unfold max_version. rewrite Hr.
    destruct rows; by eexists. }
  unfold schema_info. destruct (Hx core_ledger repositoryMigrations) as [c ->]; [left|].
  destruct (Hx media_ledger repositoryMediaMigrations) as [m ->]; [right; left|].
  destruct (Hx m3_ledger repositoryM3Migrations) as [m3 ->]; [right; right; left|]. by eexists.
Qed.

Lemma verify_file_inv f o u f' o' : verify_file f o = (Ok u, f', o') -> f' = f /\ verified f.
Proof.
  unfold verify_file, verifyCurrentMigrationLedgers. intros Hr. inv_m Hr. apply reading_inv in Hm as [-> [= <-]].
  destruct (negb _) eqn:Ei; [by apply mfail_inv in Hr|]. inv_m Hr. apply readSchemaInfo_inv in Hm as ->.
  apply reading_inv in Hm0 as [-> [= <-]]. destruct (negb (_ =? _)) eqn:Eu; [by apply mfail_inv in Hr|].
  apply verify_sets_inv in Hr as [-> Hl]. to_prop. done.
Qed.
Lemma verify_file_ok f : verified f -> verify_file f [] = (Ok tt, f, []).
Proof.
  intros Hv. destruct (verified_schema _ Hv) as [i Hi]. destruct Hv as (Ei & Eu & Hl).
  unfold verify_file, verifyCurrentMigrationLedgers. erewrite mbind_ok by by apply reading_ok.
  rewrite Ei, String.eqb_refl. cbn [negb]. erewrite mbind_ok by by apply readSchemaInfo_ok.
  erewrite mbind_ok by by apply reading_ok. rewrite Eu, Z.eqb_refl. cbn [negb]. by apply verify_sets_ok.
Qed.

(** A verified file is up to date. *)
Lemma ledger_verified_complete f l known : ledger_verified f (l, Some known) -> numbered 0 known -> ledger_complete known l (df_catalog f).
Proof.
  intros (k & rows & [= <-] & Hr & Hk) Hn. cbn in Hr. unfold ledger_complete, ledger_keyed, ledger_exact, ledger_rows. rewrite Hr. unfold default, id.
  pose proof (stamps_of_keys _ _ Hk) as Hs. split.
  - rewrite <- (by_version_perm rows). apply (f_equal (map fst)) in Hs. rewrite !map_map in Hs. cbn in Hs.
    change (map (fun x => lr_version x) ?l) with (map lr_version l) in Hs. rewrite Hs. by eapply numbered_NoDup.
  - by rewrite <- (by_version_perm rows), Hs.
Qed.
Lemma sets_numbered l known : (l, Some known) ∈ sets -> numbered 0 known.
Proof.
  intros Hin. assert (Hx : forall files, Some known = loadMigrations files -> numbered 0 known)
    by (intros files E; by eapply load_files_numbered).
  repeat (apply elem_of_cons in Hin as [[= _ E]|Hin]; [by eapply Hx|]). by apply elem_of_nil in Hin.
Qed.
Lemma verified_up_to_date f : verified f -> embedded /\ up_to_date (df_catalog f).
Proof.
  intros (_ & Hu & Hl). rewrite Forall_forall in Hl. split.
  - intros s Hs. destruct (Hl s Hs) as (known & _ & -> & _). done.
  - split; [done|]. intros l known Hin. apply ledger_verified_complete; [by apply Hl|by eapply sets_numbered].
Qed.
End Verified.

(** ** Verification and backup of files *)
Section Operations.
Context `{Paths} `{FilePaths} `{Volumes} {laws : PathLaws} `{Scripts database} `{Ranges} `{Engine}.

Lemma preserves_reading {A} (P : dbfile -> Prop) code (g : dbfile -> result fault A) : preserves P (reading code g).
Proof. apply preserves_stmt. intros f a f' Hf Hg. destruct (g f); [|done]. by injection Hg as _ <-. Qed.
#[local] Hint Resolve preserves_reading : monitor.

(** Verification reads only. *)
Lemma verify_file_keeps f0 : preserves (eq f0) verify_file.
Proof.
  unfold verify_file, verifyCurrentMigrationLedgers, readSchemaInfo, read_version, verify_set.
  repeat first
    [ apply preserves_mbind; [|intros ?] | apply preserves_miter; intros ? _
    | progress eauto with monitor | case_goal ].
Qed.
Lemma connected_keeps {A} file (m : M dbfile A) w o r w' o' : (forall f0, preserves (eq f0) m) ->
  connected file m w o = (r, w', o') -> w' = w.
Proof.
  intros Hm. unfold connected. destruct (w !! file) as [f|] eqn:Ef.
  - specialize (Hm f f o eq_refl). unfold state_after in Hm. destruct (m f o) as [[r1 f'] o1]. cbn in Hm. subst f'.
    intros [= <- <- <-]. by apply insert_id.
  - unfold stmt. destruct o as [|[e|] o]; by intros [= <- <- <-].
Qed.
Lemma syscall_inv {A} code (g : volume -> result error (A * volume)) w o r w' o' : syscall code g w o = (r, w', o') ->
  (exists e, r = Err e /\ w' = w) \/ (exists a, r = Ok a /\ g w = Ok (a, w')).
Proof.
  unfold syscall. destruct o as [|[e|] o]; try (intros [= <- <- <-]; left; by eexists);
    destruct (g w) as [[a w1]|e1]; intros [= <- <- <-]; eauto.
Qed.

Lemma VerifyDatabase_keeps path w o r w' o' : VerifyDatabase path w o = (r, w', o') -> w' = w.
Proof.
  unfold VerifyDatabase. destruct (negb (is_abs path)); [by intros [= <- <- <-]|]. unfold mbind, sql_open.
  destruct (syscall _ _ w o) as [[[[]|e] w1] o1] eqn:Es; apply syscall_inv in Es as [(e1 & E1 & ->)|(a & E1 & E2)]; try done.
  - injection E2 as _ <-. intros Hc. eapply connected_keeps; [apply verify_file_keeps|exact Hc].
  - by intros [= _ <- _].
Qed.
Lemma inspection_file path : unix_path path -> inspection path = clean path.
Proof. intros Hu. unfold inspection. by rewrite inspectionDSN_file. Qed.

Lemma VerifyDatabase_inv path w o u w' o' : unix_path path -> VerifyDatabase path w o = (Ok u, w', o') ->
  exists f, w !! clean path = Some f /\ verified f.
Proof.
  intros Hu. unfold VerifyDatabase. destruct (negb (is_abs path)); [done|]. intros Hr. inv_m Hr.
  apply syscall_inv in Hm as [(? & ? & _)|(? & _ & [= _ <-])]; [done|].
  rewrite (inspection_file _ Hu) in Hr. unfold connected in Hr. destruct (w !! clean path) as [f|].
  - destruct (verify_file f o0) as [[r f'] o1] eqn:E. injection Hr as -> _ _. apply verify_file_inv in E as [_ Hv]. by exists f.
  - by apply stmt_inv in Hr.
Qed.
Lemma VerifyDatabase_ok path w f : unix_path path -> is_abs path = true -> w !! clean path = Some f -> verified f ->
  VerifyDatabase path w [] = (Ok tt, w, []).
Proof.
  intros Hu Ha Hf Hv. unfold VerifyDatabase. rewrite Ha. cbn [negb]. unfold sql_open, mbind, syscall. cbn [tail].
  rewrite (inspection_file _ Hu). unfold connected. rewrite Hf, (verify_file_ok _ Hv). by rewrite insert_id.
Qed.

(** C37: verification changes nothing, whatever it answers, and passes, where no
    call fails, exactly for a file in which SQLite finds no damage and whose
    version and ledgers are those of the program, row by row; and such a file a
    store opens without migrating anything. *)
Theorem VerifyDatabase_exact path w (Habs : is_abs path = true) (Hunix : unix_path path) :
  (forall o r w' o', VerifyDatabase path w o = (r, w', o') -> w' = w) /\
  (forall o w' o', VerifyDatabase path w o = (Ok tt, w', o') -> exists f, w !! clean path = Some f /\ verified f) /\
  (forall f, w !! clean path = Some f -> verified f ->
     VerifyDatabase path w [] = (Ok tt, w, []) /\ migrate (df_catalog f) [] = (Ok tt, df_catalog f, [])).
Proof.
  split; [intros; by eapply VerifyDatabase_keeps|]. split; [intros; by eapply VerifyDatabase_inv|].
  intros f Hf Hv. split; [by eapply VerifyDatabase_ok|]. apply verified_up_to_date in Hv as [He Hup]. by apply migrate_idle.
Qed.

Lemma vacuum_into_inv file target w o r w' o' :
  vacuum_into file (vacuum_prefix +:+ double_quotes (clean target) +:+ "'") w o = (r, w', o') ->
  (forall p, p <> clean target -> w' !! p = w !! p) /\
  (forall g, w !! clean target = Some g -> w' = w /\ is_ok r = false) /\
  (is_ok r = true -> exists f, w !! file = Some f /\ w' !! clean target = Some (DbFile (df_catalog f) (snapshot_integrity f))).
Proof.
  assert (Hf : forall q, stmt CodeWriteFailed (fun _ : volume => Err q) w o = (r, w', o') -> w' = w /\ is_ok r = false).
  { intros q. unfold stmt. destruct o as [|[e|] o]; intros E; injection E as <- <- _; done. }
  assert (Hsame : w' = w /\ is_ok r = false -> (forall p, p <> clean target -> w' !! p = w !! p) /\
    (forall g, w !! clean target = Some g -> w' = w /\ is_ok r = false) /\
    (is_ok r = true -> exists f, w !! file = Some f /\ w' !! clean target = Some (DbFile (df_catalog f) (snapshot_integrity f)))).
  { intros [-> Hr]. split; [done|]. split; [done|]. by rewrite Hr. }
  unfold vacuum_into. rewrite vacuum_target_quoted, clean_idem.
  destruct (w !! file) as [f|]; [|intros E; by apply Hsame, (Hf _ E)].
  destruct (w !! clean target) as [x|] eqn:Et; [intros E; by apply Hsame, (Hf _ E)|]. clear Hf Hsame.
  destruct o as [|[e|] o]; intros E; injection E as <- <- _.
  1, 3: split; [by intros p Hp; rewrite lookup_insert_ne|]; split; [done|]; intros _; exists f; by rewrite lookup_insert_eq.
  split; [|done]. intros p Hp. destruct (leftover (clean target)); [by rewrite lookup_insert_ne|done].
Qed.

Lemma or_remove_inv target w o r w' o' : or_remove target (VerifyDatabase target) w o = (r, w', o') ->
  (forall p, p <> clean target -> w' !! p = w !! p) /\ (is_ok r = true -> w' = w /\ exists o1, VerifyDatabase target w o = (Ok tt, w, o1)).
Proof.
  unfold or_remove. destruct (VerifyDatabase target w o) as [[[[]|e] w1] o1] eqn:E; apply VerifyDatabase_keeps in E as Hk; subst w1.
  - intros [= <- <- <-]. split; [done|]. split; [done|]. by exists o1.
  - unfold mbind, remove_quietly, mfail. destruct o1 as [|[e1|] o1]; intros [= <- <- _]; (split; [|done]);
      intros p Hp; by rewrite ?lookup_delete_ne.
Qed.

Lemma BackupTo_inv file target w o r w' o' : BackupTo file target w o = (r, w', o') ->
  (w' = w /\ is_ok r = false) \/
  exists w1 o1 o2, vacuum_into file (vacuum_prefix +:+ double_quotes (clean target) +:+ "'") w o1 = (Ok tt, w1, o2) /\
    w !! clean target = None /\ or_remove target (VerifyDatabase target) w1 o2 = (r, w', o') \/
  exists w1 o1 o2, vacuum_into file (vacuum_prefix +:+ double_quotes (clean target) +:+ "'") w o1 = (r, w1, o2) /\
    is_ok r = false /\ w' = w1 /\ w !! clean target = None.
Proof.
  unfold BackupTo. destruct (negb (is_abs target)); [intros [= <- <- _]; by left|]. unfold mbind.
  destruct (syscall _ _ w o) as [[[[]|e1] w1] o1] eqn:E1; apply syscall_inv in E1 as [(e & Ee & ->)|(a & Ea & E1)]; try done.
  2: { intros [= <- <- _]. by left. }
  destruct (w !! clean target) eqn:Et; [done|]. injection E1 as _ <-.
  destruct (syscall _ _ w o1) as [[[[]|e2] w2] o2] eqn:E2; apply syscall_inv in E2 as [(e & Ee & ->)|(a' & Ea' & E2)]; try done.
  2: { intros [= <- <- _]. by left. }
  injection E2 as _ <-.
  destruct (vacuum_into _ _ w o2) as [[[[]|e3] w3] o3] eqn:E3.
  - intros Hr. right. by exists w3, o2, o3; left.
  - intros [= <- <- _]. right. exists w3, o2, o3. right. by exists w3, o2, o3.
Qed.

Lemma BackupTo_spec file target w o r w' o' : unix_path target -> BackupTo file target w o = (r, w', o') ->
  (forall p, p <> clean target -> w' !! p = w !! p) /\
  (forall g, w !! clean target = Some g -> w' = w /\ is_ok r = false) /\
  (is_ok r = true -> exists f g, w !! file = Some f /\ w' !! clean target = Some g /\
     df_catalog g = df_catalog f /\ verified g).
Proof.
  intros Hunix Hrun. apply BackupTo_inv in Hrun as [[-> Hr]|(w1 & o1 & o2 & [(Hv & Hnone & Hver)|(w2 & o3 & o4 & Hv & Hr & -> & Hnone)])].
  - split; [done|]. split; [done|]. by rewrite Hr.
  - apply vacuum_into_inv in Hv as (Ho & _ & Hs). apply or_remove_inv in Hver as (Ho' & Hver).
    split; [intros p Hp; by rewrite Ho', Ho|]. split; [by rewrite Hnone|].
    intros Hr. destruct (Hver Hr) as (-> & ? & Hrun). destruct (Hs eq_refl) as (f & Hf & Hg).
    eexists f, _. split; [done|]. split; [exact Hg|]. split; [done|].
    destruct (VerifyDatabase_inv _ _ _ _ _ _ Hunix Hrun) as (g & Hg' & Hver'). by simplify_eq.
  - apply vacuum_into_inv in Hv as (Ho & _ & _). split; [done|]. split; [by rewrite Hnone|]. by rewrite Hr.
Qed.

(** C17: a backup never touches a file that is there, nor any file but its target;
    when it succeeds the target is a new file with the database of the store, as
    it was, and the file is verified. *)
Theorem BackupTo_verified file target w o r w' o' (Hunix : unix_path target)
    (Hrun : BackupTo file target w o = (r, w', o')) :
  (forall p, p <> clean target -> w' !! p = w !! p) /\
  (forall g, w !! clean target = Some g -> w' = w /\ is_ok r = false) /\
  (is_ok r = true -> exists f g, w !! file = Some f /\ w' !! clean target = Some g /\
     df_catalog g = df_catalog f /\ verified g).
Proof. by eapply BackupTo_spec. Qed.
End Operations.

(** ** A backup whose name holds a quote *)
#[export] Instance unix_volumes : Volumes := {| VolumeName _ := "" |}.
Lemma any_unix_path path : unix_path path.
Proof. done. Qed.
#[export] Instance sound_engine : Engine := {|
  leftover _ := None; snapshot_integrity _ := "ok"; journal_mode _ := "wal"; foreign_keys _ := 1; busy_timeout _ := 5000 |}.
#[export] Instance database_scripts : Scripts database := {| ReadFile name := Some ("-- " +:+ name); run_script _ d := Ok d |}.

Definition migrated_catalog : catalog database := snd (fst (migrate (Catalog 0 ∅ empty_database) [])).
Definition store_volume : volume := {["/srv/a.db" := DbFile migrated_catalog "ok"]}.
Definition quoted_target : string := "/backup/it's.db".
Definition quoted_backup := BackupTo "/srv/a.db" quoted_target store_volume [].

Example dsn_example : sqliteDSN "/srv/a b.db" (5 * second) =
  "file:///srv/a%20b.db?_pragma=foreign_keys%281%29&_pragma=journal_mode%28WAL%29&_pragma=synchronous%28FULL%29&_pragma=busy_timeout%285000%29&_pragma=wal_autocheckpoint%281000%29".
Proof. vm_compute. reflexivity. Qed.
Example backup_example :
  (is_ok (fst (fst quoted_backup)), map fst (map_to_list (snd (fst quoted_backup)))) = (true, ["/srv/a.db"; "/backup/it's.db"]).
Proof. vm_compute. reflexivity. Qed.

Lemma store_volume_verified : verified (DbFile migrated_catalog "ok").
Proof.
  assert (Hs : is_ok (fst (fst (verify_file (DbFile migrated_catalog "ok") []))) = true) by (vm_compute; reflexivity).
  destruct (verify_file _ []) as [[r f'] o'] eqn:E. cbn in Hs. destruct r; [|discriminate Hs].
  exact (proj2 (verify_file_inv _ _ _ _ _ E)).
Qed.
Lemma VerifyDatabase_exact_witness : VerifyDatabase "/srv/a.db" store_volume [] = (Ok tt, store_volume, []).
Proof.
  destruct (VerifyDatabase_exact (H := slash_paths) (H0 := slash_file_paths) (H1 := unix_volumes) "/srv/a.db" store_volume eq_refl (any_unix_path _)) as (_ & _ & Hok).
  exact (proj1 (Hok (DbFile migrated_catalog "ok") eq_refl store_volume_verified)).
Defined.
Lemma BackupTo_verified_witness : exists w' o', quoted_backup = (Ok tt, w', o') /\
  exists g, w' !! "/backup/it's.db" = Some g /\ verified g.
Proof.
  assert (Hs : is_ok (fst (fst quoted_backup)) = true) by (vm_compute; reflexivity).
  destruct quoted_backup as [[[[]|e] w'] o'] eqn:E; [|discriminate Hs]. exists w', o'. split; [reflexivity|].
  unfold quoted_backup in E.
  destruct (BackupTo_verified (laws := slash_path_laws) _ _ _ _ _ _ _ (any_unix_path _) E) as (_ & _ & Hok).
  destruct (Hok eq_refl) as (f & g & _ & Hg & _ & Hv). exists g. split; [exact Hg|exact Hv].
Defined.
