(* ===== verification/Certification.v ===== *)
(** * Certification snapshots ([eventstore/certification.go])

    The aggregate view of a verified database file: the sizes of its tables, the
    rows per group, the coverage projections and the scan for duplicates; and that
    every group list is a partition of its table. *)

From Stdlib Require Import ZArith Lia String Ascii.
From S2P Require Import Prelude GoStrings GoTime GoJson Order Sql Schema Platform OpsStore MediaFiles PathFacts Migration DatabaseFiles.
Open Scope string_scope.
Open Scope list_scope.
Open Scope result_scope.
Open Scope Z_scope.
Open Scope db_scope.

Record CertificationCounts := MkCertificationCounts {
  cc_RawEvents : Z; cc_CollectorHeartbeats : Z; cc_MediaSegments : Z; cc_MediaIngestEvents : Z;
  cc_MediaStateEvents : Z; cc_FaultEvents : Z; cc_ModuleStateEvents : Z; cc_ModeTransitionEvents : Z;
  cc_RetentionEvents : Z; cc_TimelineEntries : Z; cc_CoverageIntervals : Z; cc_ActivityWatchCheckpoints : Z }.
Record CertificationGroupCount := MkCertificationGroupCount {
  cg_Key1 : string; cg_Key2 : string; cg_Key3 : string; cg_Count : Z }.
Record CertificationProjection := MkCertificationProjection {
  cj_CollectorID : string; cj_Status : string; cj_Generation : Z; cj_FactWatermark : Z; cj_BuiltAtUTC : string;
  cj_ErrorCode : string }.
Record CertificationDuplicateScan := MkCertificationDuplicateScan {
  cd_RawEventIdentityGroups : Z; cd_HeartbeatIdentityGroups : Z; cd_MediaSHA256Groups : Z }.
Record CertificationDatabaseSnapshot := MkCertificationDatabaseSnapshot {
  cn_SchemaVersion : Z; cn_Integrity : string; cn_DatabaseSchema : SchemaInfo; cn_Counts : CertificationCounts;
  cn_RawEventsByCollector : list CertificationGroupCount;
  cn_HeartbeatsByCollectorState : list CertificationGroupCount;
  cn_MediaByCollector : list CertificationGroupCount;
  cn_MediaIngestByStatus : list CertificationGroupCount;
  cn_MediaCurrentByStatus : list CertificationGroupCount;
  cn_FaultsBySeverityStatus : list CertificationGroupCount;
  cn_ModulesByState : list CertificationGroupCount;
  cn_ModesByState : list CertificationGroupCount;
  cn_RetentionByStatus : list CertificationGroupCount;
  cn_CoverageProjections : list CertificationProjection;
  cn_PotentialDuplicates : CertificationDuplicateScan;
  cn_MaximumMediaDurationMS : Z }.

(** ** [GROUP BY] *)
Section Groups.
Context {A K : Type} `{EqDecision K} (key : A -> K).

Definition group_size (l : list A) (k : K) : Z := Z.of_nat (length (List.filter (fun x => bool_decide (key x = k)) l)).
Definition group_keys (l : list A) : list K := remove_dups (map key l).
(** [SELECT COUNT of (... GROUP BY key HAVING COUNT > 1)] *)
Definition duplicate_groups (l : list A) : Z := Z.of_nat (length (List.filter (fun k => 1 <? group_size l k) (group_keys l))).

Lemma group_size_cons x l k : group_size (x :: l) k = group_size l k + (if bool_decide (key x = k) then 1 else 0).
Proof. unfold group_size. cbn [List.filter]. destruct (bool_decide (key x = k)); cbn [length]; lia. Qed.
Lemma group_size_pos l k : k ∈ map key l -> 0 < group_size l k.
Proof.
  intros (x & -> & Hx)%list_elem_of_fmap. unfold group_size. apply list_elem_of_In in Hx.
  assert (Hf : In x (List.filter (fun y => bool_decide (key y = key x)) l)) by (apply filter_In; by rewrite bool_decide_eq_true).
  destruct (List.filter _ l); [destruct Hf|]. cbn [length]. lia.
Qed.

Lemma sum_indicator (ks : list K) k : NoDup ks -> k ∈ ks ->
  foldr (fun k' n => (if bool_decide (k = k') then 1 else 0) + n) 0 ks = 1.
Proof.
  induction 1 as [|k' ks Hk' Hd IH]; [by intros ?%elem_of_nil|]. intros [->|Hin]%elem_of_cons; cbn [foldr].
  - rewrite bool_decide_true by done. assert (E : foldr (fun k0 n => (if bool_decide (k' = k0) then 1 else 0) + n) 0 ks = 0); [|lia].
    clear IH Hd. induction ks as [|k0 ks IH]; [done|]. apply not_elem_of_cons in Hk' as [Hne Hk']. cbn [foldr].
    rewrite bool_decide_false by done. by rewrite IH.
  - rewrite bool_decide_false by congruence. by rewrite IH.
Qed.
(** The groups of distinct keys that name every row make up the table. *)
Lemma group_sizes_sum ks l : NoDup ks -> (forall x, x ∈ l -> key x ∈ ks) ->
  foldr (fun k n => group_size l k + n) 0 ks = Z.of_nat (length l).
Proof.
  intros Hd. induction l as [|x l IH]; intros Hall.
  - clear Hd Hall. induction ks as [|k ks IH]; [done|]. cbn [foldr]. rewrite IH. done.
  - assert (E : foldr (fun k n => group_size (x :: l) k + n) 0 ks =
      foldr (fun k n => group_size l k + n) 0 ks + foldr (fun k n => (if bool_decide (key x = k) then 1 else 0) + n) 0 ks).
    { clear. induction ks as [|k ks IH]; [done|]. cbn [foldr]. rewrite IH, group_size_cons. lia. }
    rewrite E, IH, sum_indicator; [cbn [length]; lia|done|apply Hall; left|]. intros y Hy. apply Hall. by right.
Qed.

Lemma no_duplicate_groups l : duplicate_groups l = 0 <-> NoDup (map key l).
Proof.
  assert (Hsize : (forall k, k ∈ map key l -> group_size l k <= 1) <-> NoDup (map key l)).
  { induction l as [|x l IH]; [split; [constructor|intros _ k ?%elem_of_nil; done]|]. cbn [map]. rewrite NoDup_cons, <- IH. split.
    - intros Hall. split.
      + intros Hx. specialize (Hall (key x) ltac:(left)). pose proof (group_size_pos _ _ Hx). rewrite group_size_cons, bool_decide_true in Hall by done. lia.
      + intros k Hk. specialize (Hall k ltac:(by right)). rewrite group_size_cons in Hall. destruct (bool_decide _); lia.
    - intros [Hx Hall] k Hk. rewrite group_size_cons. apply elem_of_cons in Hk as [->|Hk].
      + rewrite bool_decide_true by done. destruct (decide (0 < group_size l (key x))) as [Hp|Hp]; [|unfold group_size in *; lia].
        exfalso. apply Hx. unfold group_size in Hp. destruct (List.filter _ l) as [|y r] eqn:Ef; [cbn in Hp; lia|].
        assert (Hy : In y (List.filter (fun z => bool_decide (key z = key x)) l)) by (rewrite Ef; by left).
        apply filter_In in Hy as [Hy Ey]. apply bool_decide_eq_true in Ey. rewrite <- Ey. apply list_elem_of_fmap. exists y.
        split; [done|]. by apply list_elem_of_In.
      + rewrite bool_decide_false; [rewrite Z.add_0_r; by apply Hall|]. intros <-. by apply Hx. }
  rewrite <- Hsize. unfold duplicate_groups, group_keys. split.
  - intros E k Hk. destruct (List.filter _ _) as [|y r] eqn:Ef; [|cbn in E; lia].
    destruct (Z.ltb_spec 1 (group_size l k)) as [Hlt|]; [|done].
    assert (Hin : In k (List.filter (fun k => 1 <? group_size l k) (remove_dups (map key l)))).
    { apply filter_In. split; [by apply list_elem_of_In, elem_of_remove_dups|]. by apply Z.ltb_lt. }
    rewrite Ef in Hin. destruct Hin.
  - intros Hall. destruct (List.filter _ _) as [|y r] eqn:Ef; [done|].
    assert (Hy : In y (List.filter (fun k => 1 <? group_size l k) (remove_dups (map key l)))) by (rewrite Ef; by left).
    apply filter_In in Hy as [Hy Ey]. rewrite <- list_elem_of_In, elem_of_remove_dups in Hy. apply Z.ltb_lt in Ey.
    specialize (Hall _ Hy). lia.
Qed.
End Groups.

(** Three keys, compared in order. *)
Abbreviation key3 := (string * string * string)%type.
Definition key3_compare : key3 -> key3 -> comparison := lex_compare (lex_compare String.compare String.compare) String.compare.
Definition group_count {A} (key : A -> key3) (l : list A) : list CertificationGroupCount :=
  map (fun k => MkCertificationGroupCount (fst (fst k)) (snd (fst k)) (snd k) (group_size key l k))
    (sort_by (before key3_compare) (group_keys key l)).

(** ** The snapshot *)

(** One query on the tables. *)
Definition ask_tables {A} (f : database -> A) : M dbfile A := reading CodeQueryFailed (fun x => Ok (f (tables (df_catalog x)))).

Definition count_table {A} (table : database -> list A) : M dbfile Z := ask_tables (fun d => Z.of_nat (length (table d))).
Definition readCertificationCounts : M dbfile CertificationCounts :=
  let* events := count_table raw_events in
  let* heartbeats := count_table collector_heartbeats in
  let* segments := count_table media_segments in
  let* ingests := count_table media_ingest_events in
  let* states := count_table media_segment_state_events in
  let* faults := count_table fault_events in
  let* modules := count_table module_state_events in
  let* modes := count_table mode_transition_events in
  let* retentions := count_table retention_events in
  let* entries := count_table timeline_entries in
  let* intervals := count_table coverage_intervals in
  let* checkpoints := count_table activitywatch_checkpoints in
  mret (MkCertificationCounts events heartbeats segments ingests states faults modules modes retentions entries intervals checkpoints).

(** The key of each group query. *)
Definition events_key (r : row preparedEvent) : key3 := (pe_CollectorID (rval r), "", "").
Definition heartbeats_key (r : row preparedHeartbeat) : key3 := (ph_CollectorID (rval r), ph_State (rval r), "").
Definition segments_key (r : row MediaMetadata) : key3 := (mm_CollectorID (rval r), "", "").
Definition ingests_key (r : row MediaIngestEvent) : key3 := (mi_Status (rval r), mi_ErrorCode (rval r), "").
Definition current_key (s : MediaSegmentStatus) : key3 := (ss_Status s, "", "").
Definition faults_key (r : row (string * FaultEvent)) : key3 :=
  let e := snd (rval r) in (fe_Severity e, fe_Status e, fe_ErrorCode e).
Definition modules_key (r : row (string * ModuleStateEvent)) : key3 :=
  let e := snd (rval r) in (mo_Module e, mo_Status e, mo_ReasonCode e).
Definition modes_key (r : row (string * ModeTransitionEvent)) : key3 :=
  let e := snd (rval r) in (mt_OldMode e, mt_NewMode e, mt_ReasonCode e).
Definition retentions_key (r : row (string * RetentionEvent)) : key3 :=
  let e := snd (rval r) in (rt_Status e, rt_ReasonCode e, "").
Definition queryCertificationGroups {A} (table : database -> list A) (key : A -> key3) : M dbfile (list CertificationGroupCount) :=
  ask_tables (fun d => group_count key (table d)).

Definition certification_projection (s : CoverageStateRow) : CertificationProjection :=
  MkCertificationProjection (cs_CollectorID s) (cs_Status s) (cs_Generation s) (cs_FactWatermark s) (cs_BuiltAtUTC s)
    (default "" (cs_ErrorCode s)).
Definition queryCertificationProjections : M dbfile (list CertificationProjection) :=
  ask_tables (fun d => map certification_projection
    (sort_by (fun a b => String.ltb (cs_CollectorID a) (cs_CollectorID b)) (coverage_projection_state d))).

Definition event_identity (r : row preparedEvent) : string * string * string * Z * Z * string :=
  let e := rval r in
  (pe_CollectorID e, pe_EventType e, pe_DeviceTimestampRaw e, pe_ClockOffsetMS e, pe_ClockErrorMS e, pe_PayloadHash e).
Definition heartbeat_identity (r : row preparedHeartbeat) : string * string * string * string * Z * Z * string :=
  let h := rval r in
  (ph_CollectorID h, ph_State h, ph_DeviceStartRaw h, ph_DeviceEndRaw h, ph_ClockOffsetMS h, ph_ClockErrorMS h,
   ph_QualityFlagsJSON h).
Definition readPotentialDuplicates : M dbfile CertificationDuplicateScan :=
  let* events := ask_tables (fun d => duplicate_groups event_identity (raw_events d)) in
  let* heartbeats := ask_tables (fun d => duplicate_groups heartbeat_identity (collector_heartbeats d)) in
  let* media := ask_tables (fun d => duplicate_groups (fun r => mm_SHA256 (rval r)) (media_segments d)) in
  mret (MkCertificationDuplicateScan events heartbeats media).

(** [SELECT COALESCE(MAX(duration_ms), 0) FROM media_segments] *)
Definition maximum_duration (d : database) : Z :=
  match media_segments d with
  | [] => 0
  | r :: rest => foldr (fun x m => Z.max (mm_DurationMS (rval x)) m) (mm_DurationMS (rval r)) rest
  end.

Definition certification_snapshot : M dbfile CertificationDatabaseSnapshot :=
  let* schema := readSchemaInfo in
  let* counts := readCertificationCounts in
  let* events := queryCertificationGroups raw_events events_key in
  let* heartbeats := queryCertificationGroups collector_heartbeats heartbeats_key in
  let* segments := queryCertificationGroups media_segments segments_key in
  let* ingests := queryCertificationGroups media_ingest_events ingests_key in
  let* current := queryCertificationGroups media_segment_status current_key in
  let* faults := queryCertificationGroups fault_events faults_key in
  let* modules := queryCertificationGroups module_state_events modules_key in
  let* modes := queryCertificationGroups mode_transition_events modes_key in
  let* retentions := queryCertificationGroups retention_events retentions_key in
  let* projections := queryCertificationProjections in
  let* duplicates := readPotentialDuplicates in
  let* longest := ask_tables maximum_duration in
  mret (MkCertificationDatabaseSnapshot 1 "ok" schema counts events heartbeats segments ingests current faults modules
          modes retentions projections duplicates longest).

Section Snapshot.
Context `{Paths} `{FilePaths} `{Volumes} `{Scripts database}.

Definition ReadCertificationDatabaseSnapshot (path : string) : M volume CertificationDatabaseSnapshot :=
  if negb (is_abs path) then mfail (StoreError CodePathInvalid)
  else
    let* _ := VerifyDatabase path in
    let* _ := sql_open in
    connected (inspection path) certification_snapshot.
End Snapshot.

(** ** What a snapshot says *)
Definition group_key (g : CertificationGroupCount) : key3 := (cg_Key1 g, cg_Key2 g, cg_Key3 g).
(** The groups of a table: in strict order of their keys, each with the number of
    its rows, none empty, [n] rows in all. *)
Record groups_of {A} (key : A -> key3) (table : list A) (groups : list CertificationGroupCount) (n : Z) : Prop := {
  go_sorted : StronglySorted (fun a b => before key3_compare (group_key a) (group_key b) = true) groups;
  go_sizes : Forall (fun g => cg_Count g = group_size key table (group_key g) /\ 0 < cg_Count g) groups;
  go_all : forall x, x ∈ table -> key x ∈ map group_key groups;
  go_total : foldr (fun g m => cg_Count g + m) 0 groups = n;
  go_rows : n = Z.of_nat (length table) }.

Lemma key3_before_sorted (l : list key3) : NoDup l -> StronglySorted (fun a b => before key3_compare a b = true) (sort_by (before key3_compare) l).
Proof. intros Hd. apply (by_key_strict key3_compare id l). by rewrite map_id. Qed.

Lemma group_count_exact {A} (key : A -> key3) (table : list A) : groups_of key table (group_count key table) (Z.of_nat (length table)).
Proof.
  assert (Hd : NoDup (group_keys key table)) by apply NoDup_remove_dups.
  assert (Hk : forall k, group_key (MkCertificationGroupCount (fst (fst k)) (snd (fst k)) (snd k) (group_size key table k)) = k) by (by intros [[? ?] ?]).
  assert (Hkeys : map group_key (group_count key table) = sort_by (before key3_compare) (group_keys key table)).
  { unfold group_count. rewrite map_map. etransitivity; [apply map_ext, Hk|apply map_id]. }
  split; [| | | |done].
  - pose proof (key3_before_sorted _ Hd) as Hs. rewrite <- Hkeys in Hs. clear -Hs.
    induction (group_count key table) as [|g l IH]; [constructor|]. cbn [map] in Hs. apply StronglySorted_inv in Hs as [Hs Hg].
    constructor; [by apply IH|]. by rewrite Forall_fmap in Hg.
  - unfold group_count. rewrite Forall_fmap, Forall_forall. intros k Hin. cbn. rewrite Hk. split; [done|].
    apply group_size_pos. rewrite elem_of_sort_by in Hin. by apply elem_of_remove_dups.
  - intros x Hx. rewrite Hkeys, elem_of_sort_by. apply elem_of_remove_dups, list_elem_of_fmap. by exists x.
  - transitivity (foldr (fun k m => group_size key table k + m) 0 (sort_by (before key3_compare) (group_keys key table))).
    + clear Hkeys. unfold group_count. induction (sort_by _ _) as [|k l IH]; [done|]. cbn. by rewrite IH.
    + apply group_sizes_sum; [by rewrite sort_by_perm|]. intros x Hx. rewrite elem_of_sort_by.
      apply elem_of_remove_dups, list_elem_of_fmap. by exists x.
Qed.

Lemma ask_tables_inv {A} (g : database -> A) f o a f' o' : ask_tables g f o = (Ok a, f', o') -> f' = f /\ a = g (tables (df_catalog f)).
Proof. unfold ask_tables. intros Hr. apply reading_inv in Hr as [-> [= <-]]. done. Qed.

Section Exact.
Context `{Paths} `{FilePaths} `{Volumes} `{Scripts database} `{Ranges}.

(** The counts and the groups agree, and a scan that finds no duplicate is a
    proof that there is none. *)
Record snapshot_exact (d : database) (s : CertificationDatabaseSnapshot) : Prop := {
  se_events : groups_of events_key (raw_events d) (cn_RawEventsByCollector s) (cc_RawEvents (cn_Counts s));
  se_heartbeats : groups_of heartbeats_key (collector_heartbeats d) (cn_HeartbeatsByCollectorState s) (cc_CollectorHeartbeats (cn_Counts s));
  se_media : groups_of segments_key (media_segments d) (cn_MediaByCollector s) (cc_MediaSegments (cn_Counts s));
  se_ingests : groups_of ingests_key (media_ingest_events d) (cn_MediaIngestByStatus s) (cc_MediaIngestEvents (cn_Counts s));
  se_faults : groups_of faults_key (fault_events d) (cn_FaultsBySeverityStatus s) (cc_FaultEvents (cn_Counts s));
  se_modules : groups_of modules_key (module_state_events d) (cn_ModulesByState s) (cc_ModuleStateEvents (cn_Counts s));
  se_modes : groups_of modes_key (mode_transition_events d) (cn_ModesByState s) (cc_ModeTransitionEvents (cn_Counts s));
  se_retentions : groups_of retentions_key (retention_events d) (cn_RetentionByStatus s) (cc_RetentionEvents (cn_Counts s));
  se_event_duplicates : cd_RawEventIdentityGroups (cn_PotentialDuplicates s) = 0 <-> NoDup (map event_identity (raw_events d));
  se_heartbeat_duplicates :
    cd_HeartbeatIdentityGroups (cn_PotentialDuplicates s) = 0 <-> NoDup (map heartbeat_identity (collector_heartbeats d));
  se_media_duplicates :
    cd_MediaSHA256Groups (cn_PotentialDuplicates s) = 0 <-> NoDup (map (fun r => mm_SHA256 (rval r)) (media_segments d)) }.

Lemma certification_snapshot_inv f o s f' o' : certification_snapshot f o = (Ok s, f', o') ->
  f' = f /\ snapshot_exact (tables (df_catalog f)) s.
Proof.
  unfold certification_snapshot, readCertificationCounts, readPotentialDuplicates, queryCertificationProjections. intros Hr.
  inv_m Hr. apply readSchemaInfo_inv in Hm as ->.
  repeat match goal with Hx : mbind _ _ _ _ = (Ok _, _, _) |- _ => inv_m Hx end.
  repeat match goal with Hx : _ _ _ _ = (Ok _, _, _) |- _ => apply ask_tables_inv in Hx as [-> ->] end.
  split; [done|]. split; cbn; first [apply group_count_exact | apply no_duplicate_groups].
Qed.

(** A certification snapshot is made only of a verified file, which it leaves
    as it is; its groups partition the tables, in agreement with the row counts,
    and its duplicate counts are zero exactly where no two rows are alike. *)
Theorem ReadCertificationDatabaseSnapshot_exact path w o s w' o' (Hunix : unix_path path)
    (Hrun : ReadCertificationDatabaseSnapshot path w o = (Ok s, w', o')) :
  w' = w /\ exists f, w !! clean path = Some f /\ verified f /\ snapshot_exact (tables (df_catalog f)) s.
Proof.
  unfold ReadCertificationDatabaseSnapshot in Hrun. destruct (negb (is_abs path)); [done|]. inv_m Hrun.
  pose proof (VerifyDatabase_keeps _ _ _ _ _ _ Hm) as ->. destruct (VerifyDatabase_inv _ _ _ _ _ _ Hunix Hm) as (f & Hf & Hv).
  apply syscall_inv in Hm0 as [(? & ? & _)|(? & _ & [= _ <-])]; [done|].
  rewrite (inspection_file _ Hunix) in Hrun. unfold connected in Hrun. rewrite Hf in Hrun.
  destruct (certification_snapshot f o1) as [[r f'] o2] eqn:E. injection Hrun as -> <- _.
  apply certification_snapshot_inv in E as [-> Hs]. split; [by apply insert_id|]. by exists f.
Qed.
End Exact.

(** ** The snapshot of a small database *)
Definition fault_row (id : Z) (module severity : string) : row (string * FaultEvent) :=
  Row id ("", MkFaultEvent module severity "active" "STORAGE_DISK_WARNING" "detail" "").
Definition small_volume : volume :=
  let c := migrated_catalog in
  {["/srv/a.db" := DbFile (Catalog (user_version c) (ledgers c)
      (with_fault_events empty_database [fault_row 1 "storage" "P2"; fault_row 2 "media" "P1"; fault_row 3 "media" "P2"])) "ok"]}.
Definition small_snapshot := ReadCertificationDatabaseSnapshot "/srv/a.db" small_volume [].

Example small_example : rmap cn_FaultsBySeverityStatus (fst (fst small_snapshot)) =
  Ok [MkCertificationGroupCount "P1" "active" "STORAGE_DISK_WARNING" 1;
      MkCertificationGroupCount "P2" "active" "STORAGE_DISK_WARNING" 2].
Proof. vm_compute. reflexivity. Qed.
Lemma ReadCertificationDatabaseSnapshot_exact_witness : exists s o', small_snapshot = (Ok s, small_volume, o') /\
  cc_FaultEvents (cn_Counts s) = 3.
Proof.
  assert (Hs : rmap (fun s => cc_FaultEvents (cn_Counts s)) (fst (fst small_snapshot)) = Ok 3) by (vm_compute; reflexivity).
  destruct small_snapshot as [[[s|e] w'] o'] eqn:E; [|discriminate Hs]. unfold small_snapshot in E.
  destruct (ReadCertificationDatabaseSnapshot_exact _ _ _ _ _ _ (any_unix_path _) E) as [-> _].
  exists s, o'. split; [reflexivity|]. by injection Hs.
Defined.
