(* ===== verification/Commands.v ===== *)
(** * The command line ([cmd/exam-monitor/main.go])

    Flags and their checks, and the actions of the program: what each reads,
    writes and answers.  Serving is left to an interface; the server itself is the
    file Server. *)

From Stdlib Require Import ZArith Lia String Ascii.
From S2P Require Import Prelude GoStrings GoTime GoJson Sql Schema Events Platform Config OpsStore MediaFiles PathFacts Server Migration DatabaseFiles Certification.
Open Scope string_scope.
Open Scope list_scope.
Open Scope result_scope.
Open Scope Z_scope.
Open Scope db_scope.

Definition exitOK : Z := 0.
Definition exitRuntime : Z := 1.
Definition exitUsage : Z := 2.
Definition codeCLIInvalid : string := "CLI_ARGUMENT_INVALID".
Definition codeCLIConflict : string := "CLI_ACTION_CONFLICT".
Definition codeCLIRunFor : string := "CLI_RUN_FOR_INVALID".

(** ** Flags *)
Record options := MkCLI {
  cl_configPath : string; cl_check : bool; cl_show : bool; cl_help : bool; cl_runFor : duration;
  cl_backupDatabase : string; cl_verifyDatabase : string; cl_mediaManifestDatabase : string;
  cl_certificationDatabase : string; cl_schemaInfo : bool }.
Definition no_options : options := MkCLI "" false false false 0 "" "" "" "" false.

Section Flags.
Context `{Floats}.

(** A flag: whether it is boolean, and what its value sets; [None] where the
    value is refused. *)
Definition flag_setter := string -> options -> option options.
Definition string_flag (put : options -> string -> options) : bool * flag_setter := (false, fun v o => Some (put o v)).
Definition bool_flag (put : options -> bool -> options) : bool * flag_setter :=
  (true, fun v o => let! b := ParseBool v in Some (put o b)).
Definition duration_flag (put : options -> duration -> options) : bool * flag_setter :=
  (false, fun v o => let! d := ParseDuration v in Some (put o d)).

Definition set_config o v := MkCLI v (cl_check o) (cl_show o) (cl_help o) (cl_runFor o) (cl_backupDatabase o)
  (cl_verifyDatabase o) (cl_mediaManifestDatabase o) (cl_certificationDatabase o) (cl_schemaInfo o).
Definition set_check o v := MkCLI (cl_configPath o) v (cl_show o) (cl_help o) (cl_runFor o) (cl_backupDatabase o)
  (cl_verifyDatabase o) (cl_mediaManifestDatabase o) (cl_certificationDatabase o) (cl_schemaInfo o).
Definition set_show o v := MkCLI (cl_configPath o) (cl_check o) v (cl_help o) (cl_runFor o) (cl_backupDatabase o)
  (cl_verifyDatabase o) (cl_mediaManifestDatabase o) (cl_certificationDatabase o) (cl_schemaInfo o).
Definition set_help o v := MkCLI (cl_configPath o) (cl_check o) (cl_show o) v (cl_runFor o) (cl_backupDatabase o)
  (cl_verifyDatabase o) (cl_mediaManifestDatabase o) (cl_certificationDatabase o) (cl_schemaInfo o).
Definition set_runFor o v := MkCLI (cl_configPath o) (cl_check o) (cl_show o) (cl_help o) v (cl_backupDatabase o)
  (cl_verifyDatabase o) (cl_mediaManifestDatabase o) (cl_certificationDatabase o) (cl_schemaInfo o).
Definition set_backup o v := MkCLI (cl_configPath o) (cl_check o) (cl_show o) (cl_help o) (cl_runFor o) v
  (cl_verifyDatabase o) (cl_mediaManifestDatabase o) (cl_certificationDatabase o) (cl_schemaInfo o).
Definition set_verify o v := MkCLI (cl_configPath o) (cl_check o) (cl_show o) (cl_help o) (cl_runFor o) (cl_backupDatabase o)
  v (cl_mediaManifestDatabase o) (cl_certificationDatabase o) (cl_schemaInfo o).
Definition set_manifest o v := MkCLI (cl_configPath o) (cl_check o) (cl_show o) (cl_help o) (cl_runFor o) (cl_backupDatabase o)
  (cl_verifyDatabase o) v (cl_certificationDatabase o) (cl_schemaInfo o).
Definition set_certification o v := MkCLI (cl_configPath o) (cl_check o) (cl_show o) (cl_help o) (cl_runFor o) (cl_backupDatabase o)
  (cl_verifyDatabase o) (cl_mediaManifestDatabase o) v (cl_schemaInfo o).
Definition set_schemaInfo o v := MkCLI (cl_configPath o) (cl_check o) (cl_show o) (cl_help o) (cl_runFor o) (cl_backupDatabase o)
  (cl_verifyDatabase o) (cl_mediaManifestDatabase o) (cl_certificationDatabase o) v.

Definition flag_table : list (string * (bool * flag_setter)) :=
  [("config", string_flag set_config); ("check-config", bool_flag set_check); ("version", bool_flag set_show);
   ("help", bool_flag set_help); ("run-for", duration_flag set_runFor); ("backup-database", string_flag set_backup);
   ("verify-database", string_flag set_verify); ("media-manifest-database", string_flag set_manifest);
   ("certification-snapshot-database", string_flag set_certification); ("schema-info", bool_flag set_schemaInfo)].

(** What an argument is to [flag.Parse]. *)
Inductive argument := Positional | Terminator | BadFlag | NamedFlag (name : string) (value : option string).
Fixpoint split_equals (s : string) : string * option string :=
  match s with
  | EmptyString => (EmptyString, None)
  | String "=" r => (EmptyString, Some r)
  | String c r => let '(n, v) := split_equals r in (String c n, v)
  end.
Definition named (s : string) : argument :=
  match s with
  | EmptyString | String "-" _ | String "=" _ => BadFlag
  | String c r => let '(n, v) := split_equals r in NamedFlag (String c n) v
  end.
Definition classify_argument (s : string) : argument :=
  match s with
  | String "-" EmptyString => Positional
  | String "-" (String "-" EmptyString) => Terminator
  | String "-" (String "-" r) => named r
  | String "-" r => named r
  | _ => Positional
  end.

(** [flags.Parse]: the options and the arguments that are left, [None] for an
    error. *)
Fixpoint parse_flags (o : options) (args : list string) : option (options * list string) :=
  match args with
  | [] => Some (o, [])
  | s :: rest =>
    match classify_argument s with
    | Positional => Some (o, args)
    | Terminator => Some (o, rest)
    | BadFlag => None
    | NamedFlag name value =>
      match member name flag_table with
      | None => None
      | Some (true, put) => let! o' := put (default "true" value) o in parse_flags o' rest
      | Some (false, put) =>
        match value, rest with
        | Some v, _ => let! o' := put v o in parse_flags o' rest
        | None, v :: rest' => let! o' := put v o in parse_flags o' rest'
        | None, [] => None
        end
      end
    end
  end.

Definition countTrue (values : list bool) : Z := Z.of_nat (length (List.filter (fun b => b) values)).
Definition given (s : string) : bool := negb (String.eqb s "").
Definition actions (o : options) : Z :=
  countTrue [cl_check o; cl_show o; cl_help o; cl_schemaInfo o]
  + (if given (cl_backupDatabase o) then 1 else 0) + (if given (cl_verifyDatabase o) then 1 else 0)
  + (if given (cl_mediaManifestDatabase o) then 1 else 0) + (if given (cl_certificationDatabase o) then 1 else 0).

Definition parseOptions (args : list string) : result string options :=
  match parse_flags no_options args with
  | None => Err codeCLIInvalid
  | Some (o, rest) =>
    guard? match rest with [] => true | _ => false end else codeCLIInvalid in
    guard? actions o <=? 1 else codeCLIConflict in
    guard? negb ((cl_runFor o <? 0) || (5 * minute <? cl_runFor o)) else codeCLIRunFor in
    guard? negb ((0 <? cl_runFor o) && (0 <? actions o)) else codeCLIConflict in
    Ok o
  end.
End Flags.

(** ** The actions *)

(** What is written on the standard output. *)
Record check_result := MkCheckResult {
  ck_SchemaVersion : Z; ck_ListenAddress : string; ck_DataDirectory : string; ck_DatabasePath : string;
  ck_LogLevel : string; ck_MediaEnabled : bool; ck_MediaInbox : string; ck_MediaStorage : string;
  ck_FFprobePath : string; ck_Mode : string; ck_EnabledCollectors : Z; ck_ActivityWatchCollectors : Z;
  ck_DashboardEnabled : bool }.
Inductive output :=
  | Usage | Build
  | StatusOK
  | Manifest (media : list MediaManifestEntry)
  | Snapshot (s : CertificationDatabaseSnapshot)
  | Schema (i : SchemaInfo)
  | BackupDone (path : string)
  | Checked (c : check_result).

(** The configuration file a path names, and what [app.Run] ends with. *)
Class Program := {
  config_file : string -> option string;
  app_run : Config -> option duration -> result string unit }.

Definition ran := (Z * option output)%type.

(** [writeJSON]: an output that cannot be written is a failure. *)
Definition written_out (x : output) : M volume ran := fun w o =>
  match o with Some _ :: o' => (Ok (exitRuntime, None), w, o') | _ => (Ok (exitOK, Some x), w, tail o) end.
(** An action that fails is logged. *)
Definition report {A} (m : M volume A) (out : A -> output) : M volume ran := fun w o =>
  let '(r, w', o') := m w o in
  match r with Ok a => written_out (out a) w' o' | Err _ => (Ok (exitRuntime, None), w', o') end.

Section Run.
Context `{Paths} `{Zones} `{Network} `{Floats} `{FilePaths} `{Volumes} `{Scripts database} `{Ranges} `{Engine} `{Program}.

Definition store_options (cfg : Config) : Options :=
  MkOptions (BusyTimeout cfg) (so_MaxOpenConnections (Storage cfg)) (ap_MaxBatchEvents (API cfg))
    (ap_MaxEventBytes (API cfg)) (ap_MaxPayloadDepth (API cfg)) (ap_MaxPageSize (API cfg)) (collector_policies cfg).
Definition openMaintenanceStore (cfg : Config) : M volume Store := Open (DatabasePath cfg) (store_options cfg).
(** The file the store of a configuration is. *)
Definition store_file (cfg : Config) : string := clean (uri_file (sqliteDSN (DatabasePath cfg) (BusyTimeout cfg))).

Definition backup (cfg : Config) (target : string) : M volume unit :=
  let* _ := openMaintenanceStore cfg in
  BackupTo (store_file cfg) target.

Definition enabled_collectors (cfg : Config) : list CollectorConfig := List.filter co_Enabled (Collectors cfg).
Definition check_config (cfg : Config) : check_result :=
  MkCheckResult (Config.SchemaVersion cfg) (sv_ListenAddress (Server cfg)) (pt_DataDirectory (PathsOf cfg)) (DatabasePath cfg)
    (lg_Level (Logging cfg)) (me_Enabled (MediaIngest cfg)) (me_InboxDirectory (MediaIngest cfg)) (MediaStorageDirectory cfg)
    (me_FFprobePath (MediaIngest cfg)) (ru_Mode (Runtime cfg)) (Z.of_nat (length (enabled_collectors cfg)))
    (Z.of_nat (length (List.filter (fun c => String.eqb (co_Kind c) CollectorActivityWatch) (enabled_collectors cfg))))
    (DashboardIsEnabled cfg).

(** The log file of a server ([logging.NewRotatingFile]): a call that may fail. *)
Definition open_log (cfg : Config) : M volume unit :=
  if lg_FileEnabled (Logging cfg) then syscall CodeOpenFailed (fun w => Ok (tt, w)) else mret tt.

Definition serve_command (o : options) (cfg : Config) : M volume ran := fun w orc =>
  let '(r, w', orc') := open_log cfg w orc in
  match r with
  | Err _ => (Ok (exitRuntime, None), w', orc')
  | Ok _ =>
    match app_run cfg (if 0 <? cl_runFor o then Some (cl_runFor o) else None) with
    | Ok _ => (Ok (exitOK, None), w', orc')
    | Err _ => (Ok (exitRuntime, None), w', orc')
    end
  end.

Definition run (args : list string) (lookup : LookupEnv) : M volume ran :=
  match parseOptions args with
  | Err _ => mret (exitUsage, None)
  | Ok opts =>
    if cl_help opts then mret (exitOK, Some Usage)
    else if cl_show opts then written_out Build
    else
      match Load (cl_configPath opts) (config_file (cl_configPath opts)) lookup with
      | Err _ => mret (exitUsage, None)
      | Ok cfg =>
        if given (cl_verifyDatabase opts) then report (VerifyDatabase (cl_verifyDatabase opts)) (fun _ => StatusOK)
        else if given (cl_mediaManifestDatabase opts) then
          report (ReadMediaManifest (cl_mediaManifestDatabase opts)) Manifest
        else if given (cl_certificationDatabase opts) then
          report (ReadCertificationDatabaseSnapshot (cl_certificationDatabase opts)) Snapshot
        else if cl_schemaInfo opts then report (ReadSchemaInfo (DatabasePath cfg)) Schema
        else if given (cl_backupDatabase opts) then
          report (backup cfg (cl_backupDatabase opts)) (fun _ => BackupDone (cl_backupDatabase opts))
        else if cl_check opts then written_out (Checked (check_config cfg))
        else serve_command opts cfg
      end
  end.
End Run.

(** ** Opening the store of a configuration *)
Section Opening.
Context `{Paths} `{Zones} `{Network} `{Floats} `{FilePaths} `{Volumes} {laws : PathLaws} `{Scripts database} `{Ranges} `{Engine} `{Program}.

Lemma Validate_options cfg : Validate cfg = Ok tt -> options_valid (store_options cfg) = true.
Proof.
  unfold Validate. intros E. inv_oks E. unfold validateStorage, validateAPI in *.
  repeat match goal with
  | H : rbind _ _ = Ok _ |- _ => inv_ok H; cbv beta in H
  | H : (if _ then _ else Err _) = Ok _ |- _ => inv_ok H
  end.
  repeat match goal with H : bounded_duration _ _ _ _ = Ok _ |- _ => apply bounded_duration_of in H as [? ?] end.
  to_prop. unfold in_range in *. to_prop. unfold options_valid, store_options, BusyTimeout. cbn. apply negb_true_iff.
  repeat rewrite orb_false_iff. repeat split; apply Z.ltb_ge; lia.
Qed.

Lemma connected_frame {A} file (m : M dbfile A) w o r w' o' : connected file m w o = (r, w', o') ->
  (forall p, p <> file -> w' !! p = w !! p) /\
  (forall f, w !! file = Some f -> exists f' o1, m f o = (r, f', o1) /\ w' !! file = Some f').
Proof.
  unfold connected. destruct (w !! file) as [f|] eqn:Ef.
  - destruct (m f o) as [[r1 f'] o1] eqn:Em. intros [= -> <- <-]. split; [by intros p Hp; rewrite lookup_insert_ne|].
    intros f0 [= <-]. exists f', o1. by rewrite lookup_insert_eq.
  - unfold stmt. destruct o as [|[e|] o]; intros [= <- <- <-]; done.
Qed.
Lemma verifyPragmas_keeps dsn t f0 : preserves (eq f0) (verifyPragmas dsn t).
Proof.
  unfold verifyPragmas. repeat first
    [ apply preserves_mbind; [|intros ?] | apply preserves_reading | progress eauto with monitor | case_goal ].
Qed.

(** The part of [Open] after the checks. *)
Definition opened (file dsn : string) (t : duration) : M volume unit :=
  let* _ := syscall CodeOpenFailed (fun w => Ok (tt, w)) in
  let* _ := sql_open in
  let* _ := ping file in
  let* _ := connected file (verifyPragmas dsn t) in
  connected file (on_catalog migrate).
Lemma Open_opened path options w o r w' o' : Open path options w o = (r, w', o') ->
  (w' = w /\ is_ok r = false) \/
  exists q, opened (clean (uri_file (sqliteDSN path (op_BusyTimeout options)))) (sqliteDSN path (op_BusyTimeout options))
      (op_BusyTimeout options) w o = (q, w', o') /\
    forall st, r = Ok st -> q = Ok tt /\
      st = MkStore (op_MaxBatchEvents options) (op_MaxEventBytes options) (op_MaxPayloadDepth options)
             (op_MaxPageSize options) (Z.shiftl 32 20) (op_CollectorPolicies options).
Proof.
  unfold Open. destruct (negb _); [intros [= <- <- _]; by left|]. destruct (negb _); [intros [= <- <- _]; by left|].
  unfold opened, mbind, mret. destruct (syscall _ _ w o) as [[[?|e] w1] o1]; [|intros [= <- <- <-]; right; by eexists].
  destruct (sql_open w1 o1) as [[[?|e] w2] o2]; [|intros [= <- <- <-]; right; by eexists].
  destruct (ping _ w2 o2) as [[[?|e] w3] o3]; [|intros [= <- <- <-]; right; by eexists].
  destruct (connected _ (verifyPragmas _ _) w3 o3) as [[[?|e] w4] o4]; [|intros [= <- <- <-]; right; by eexists].
  destruct (connected _ (on_catalog migrate) w4 o4) as [[[[]|e] w5] o5]; intros [= <- <- <-]; right; eexists; (split; [done|]); [|done].
  by intros st [= <-].
Qed.

Lemma ping_inv file w o r w' o' : ping file w o = (r, w', o') ->
  (w' = w /\ is_ok r = false) \/
  (r = Ok tt /\ (forall p, p <> file -> w' !! p = w !! p) /\
   exists f, w' !! file = Some f /\ (w !! file = Some f \/ df_catalog f = Catalog 0 ∅ empty_database)).
Proof.
  unfold ping, stmt. intros Hp.
  assert (Hok : forall q, (Ok tt, match w !! file with Some _ => w | None => <[file := DbFile (Catalog 0 ∅ empty_database) "ok"]> w end, q) = (r, w', o') ->
    r = Ok tt /\ (forall p, p <> file -> w' !! p = w !! p) /\
    exists f, w' !! file = Some f /\ (w !! file = Some f \/ df_catalog f = Catalog 0 ∅ empty_database)).
  { intros q [= <- <- <-]. split; [done|]. destruct (w !! file) as [f|] eqn:Ef; [split; [done|]; exists f; auto|].
    split; [by intros p Hne; rewrite lookup_insert_ne|]. eexists. rewrite lookup_insert_eq. auto. }
  destruct o as [|[e|] o]; [right; by eapply Hok| |right; by eapply Hok]. injection Hp as <- <- _. by left.
Qed.

(** Every file that is there has primary keys in its ledgers. *)
Definition keyed_files (w : volume) : Prop := forall p f, w !! p = Some f -> primary_keys (df_catalog f).

Lemma opened_spec file dsn t w o q w' o' : keyed_files w -> opened file dsn t w o = (q, w', o') ->
  (forall p, p <> file -> w' !! p = w !! p) /\ keyed_files w' /\
  (is_ok q = true -> exists f, w' !! file = Some f /\ up_to_date (df_catalog f)).
Proof.
  intros Hk. unfold opened, mbind.
  assert (Hno : is_ok (E := error) (A := unit) (Err (StoreError CodeOpenFailed)) = true -> False) by done.
  destruct (syscall _ _ w o) as [[[?|e] w1] o1] eqn:E1; apply syscall_inv in E1 as [(? & ? & ->)|(? & ? & [= _ <-])]; try done.
  2: { by intros [= <- <- <-]. }
  destruct (sql_open w o1) as [[[?|e] w2] o2] eqn:E2; apply syscall_inv in E2 as [(? & ? & ->)|(? & ? & [= _ <-])]; try done.
  2: { by intros [= <- <- <-]. }
  destruct (ping file w o2) as [[r3 w3] o3] eqn:E3. apply ping_inv in E3 as [[-> Hr3]|(-> & Hf3 & f & Hf & Hnew)].
  { destruct r3; [done|]. by intros [= <- <- <-]. }
  assert (Hk3 : keyed_files w3).
  { intros p g. destruct (decide (p = file)) as [->|Hne]; [|rewrite Hf3 by done; apply Hk].
    rewrite Hf. intros [= <-]. destruct Hnew as [Hold|E]; [by eapply Hk|]. rewrite E. intros l. constructor. }
  destruct (connected file (verifyPragmas dsn t) w3 o3) as [[r4 w4] o4] eqn:E4.
  apply connected_keeps in E4; [|apply verifyPragmas_keeps]. subst w4. destruct r4; [|by intros [= <- <- <-]].
  destruct (connected file (on_catalog migrate) w3 o4) as [[r5 w5] o5] eqn:E5. apply connected_frame in E5 as [Hf5 Hin5].
  destruct (Hin5 f Hf) as (f' & o6 & Em & Hf'). unfold on_catalog in Em.
  destruct (migrate (df_catalog f) o4) as [[r6 c6] o7] eqn:E6. injection Em as -> <- _. intros [= <- <- _].
  destruct (migrate_run _ _ _ _ _ (Hk3 _ _ Hf) E6) as (done & rest & Es & Hm & Hok).
  split; [intros p Hp; by rewrite Hf5, Hf3|]. split.
  - intros p g. destruct (decide (p = file)) as [->|Hne]; [|rewrite Hf5 by done; apply Hk3].
    rewrite Hf'. intros [= <-]. cbn. eapply migrated_keyed; [exact Hm|by eapply Hk3].
  - intros Hq. specialize (Hok Hq). subst rest. rewrite app_nil_r in Es. subst done.
    exists (DbFile c6 (df_integrity f)). split; [done|]. cbn. destruct (migrated_spec _ _ _ Hm sets_NoDup) as (Hall & _ & Hv & _).
    split; [apply Hv; left|done].
Qed.

(** The store of a configuration that loads is opened with valid limits, and
    opening it changes no other file; when it opens, the store has the limits and
    the policies the server works with, over a database that is up to date. *)
Theorem Open_configured path file lookup cfg w o r w' o' (Hload : Load path file lookup = Ok cfg) (Hk : keyed_files w)
    (Hrun : openMaintenanceStore cfg w o = (r, w', o')) :
  options_valid (store_options cfg) = true /\ (forall p, p <> store_file cfg -> w' !! p = w !! p) /\
  (forall st, r = Ok st -> st = store_of cfg /\ exists f, w' !! store_file cfg = Some f /\ up_to_date (df_catalog f)).
Proof.
  split; [by eapply Validate_options, Load_Validate|].
  apply Open_opened in Hrun as [[-> Hr]|(q & Hq & Hst)]; [split; [done|]; intros st ->; done|].
  apply (opened_spec _ _ _ _ _ _ _ _ Hk) in Hq as (Hf & _ & Hup). split; [done|].
  intros st Er. destruct (Hst st Er) as [-> ->]. split; [done|]. by apply Hup.
Qed.
End Opening.

(** ** What a run of the program does to the databases *)
Section Runs.
Context `{Paths} `{Zones} `{Network} `{Floats} `{FilePaths} `{Volumes} {laws : PathLaws} `{Scripts database} `{Ranges} `{Engine} `{Program}.

Definition reads_only {A} (m : M volume A) : Prop := forall w o r w' o', m w o = (r, w', o') -> w' = w.

Lemma reads_mret {A} (a : A) : reads_only (mret a).
Proof. by intros w o r w' o' [= _ <- _]. Qed.
Lemma reads_mfail {A} e : reads_only (@mfail volume A e).
Proof. by intros w o r w' o' [= _ <- _]. Qed.
Lemma reads_bind {A B} (m : M volume A) (k : A -> M volume B) : reads_only m -> (forall a, reads_only (k a)) -> reads_only (mbind m k).
Proof.
  intros Hm Hk w o r w' o'. unfold mbind. destruct (m w o) as [[[a|e] w1] o1] eqn:E; apply Hm in E as ->; [apply Hk|by intros [= _ <- _]].
Qed.
Lemma reads_syscall code : reads_only (syscall code (fun w => Ok (tt, w))).
Proof. intros w o r w' o' Hs. by apply syscall_inv in Hs as [(_ & _ & ->)|(_ & _ & [= _ <-])]. Qed.
Lemma reads_connected {A} file (m : M dbfile A) : (forall f0, preserves (eq f0) m) -> reads_only (connected file m).
Proof. intros Hm w o r w' o'. by apply connected_keeps. Qed.
Lemma reads_verify path : reads_only (VerifyDatabase path).
Proof. intros w o r w' o'. apply VerifyDatabase_keeps. Qed.
Lemma reads_written x : reads_only (written_out x).
Proof. intros w o r w' o'. unfold written_out. destruct o as [|[e|] o]; by intros [= _ <- _]. Qed.
Lemma reads_report {A} (m : M volume A) out : reads_only m -> reads_only (report m out).
Proof.
  intros Hm w o r w' o'. unfold report. destruct (m w o) as [[[a|e] w1] o1] eqn:E; apply Hm in E as ->;
    [apply reads_written|by intros [= _ <- _]].
Qed.
#[local] Hint Resolve reads_mret reads_mfail reads_syscall reads_verify reads_written : monitor.

Lemma preserves_schema f0 : preserves (eq f0) readSchemaInfo.
Proof.
  unfold readSchemaInfo, read_version. repeat first
    [ apply preserves_mbind; [|intros ?] | apply preserves_reading | progress eauto with monitor | case_goal ].
Qed.
Lemma preserves_certification f0 : preserves (eq f0) certification_snapshot.
Proof.
  unfold certification_snapshot, readCertificationCounts, readPotentialDuplicates, queryCertificationProjections,
    queryCertificationGroups, count_table, ask_tables.
  repeat first [ apply preserves_schema | apply preserves_mbind; [|intros ?] | apply preserves_reading | apply preserves_mret ].
Qed.
Lemma reads_manifest path : reads_only (ReadMediaManifest path).
Proof.
  unfold ReadMediaManifest, sql_open. repeat (apply reads_bind; [auto with monitor|intros _]).
  apply reads_connected. intros f0. apply preserves_reading.
Qed.
Lemma reads_schema path : reads_only (ReadSchemaInfo path).
Proof.
  unfold ReadSchemaInfo, sql_open. destruct (negb _); [auto with monitor|]. apply reads_bind; [auto with monitor|intros _].
  apply reads_connected, preserves_schema.
Qed.
Lemma reads_certification path : reads_only (ReadCertificationDatabaseSnapshot path).
Proof.
  unfold ReadCertificationDatabaseSnapshot, sql_open. destruct (negb _); [auto with monitor|].
  repeat (apply reads_bind; [auto with monitor|intros _]). apply reads_connected, preserves_certification.
Qed.
Lemma reads_serve opts cfg : reads_only (serve_command opts cfg).
Proof.
  intros w o r w' o'. unfold serve_command.
  assert (Hl : reads_only (open_log cfg)) by (unfold open_log; destruct (lg_FileEnabled _); [apply reads_syscall|apply reads_mret]).
  destruct (open_log cfg w o) as [[q w1] o1] eqn:E. apply Hl in E as ->.
  destruct q; [|by intros [= _ <- _]]. by destruct (app_run _ _); intros [= _ <- _].
Qed.

(** Everything but a backup reads only. *)
Lemma run_reads args lookup opts : parseOptions args = Ok opts -> cl_backupDatabase opts = "" -> reads_only (run args lookup).
Proof.
  intros Ho Hb. unfold run. rewrite Ho, Hb. change (given "") with false. cbv iota.
  destruct (cl_help opts); [auto with monitor|]. destruct (cl_show opts); [auto with monitor|].
  destruct (Load _ _ lookup); [|auto with monitor].
  repeat lazymatch goal with |- context [if ?b then _ else _] => destruct b end;
    auto using reads_report, reads_verify, reads_manifest, reads_schema, reads_certification, reads_written, reads_serve.
Qed.

Lemma backup_spec cfg target w o r w' o' : keyed_files w -> unix_path target -> backup cfg target w o = (r, w', o') ->
  (forall p, p <> store_file cfg -> p <> clean target -> w' !! p = w !! p) /\
  (is_ok r = true -> exists f g, w' !! clean target = Some g /\ df_catalog g = df_catalog f /\ verified g /\
     w' !! store_file cfg = Some f /\ up_to_date (df_catalog f) /\ (clean target <> store_file cfg -> w !! clean target = None)).
Proof.
  intros Hk Hu. unfold backup, mbind. destruct (openMaintenanceStore cfg w o) as [[[st|e] w1] o1] eqn:Eo.
  - apply Open_opened in Eo as [[_ ?]|(q & Hq & Hst)]; [done|]. destruct (Hst _ eq_refl) as [-> _].
    apply (opened_spec _ _ _ _ _ _ _ _ Hk) in Hq as (Hf & _ & Hup). destruct (Hup eq_refl) as (f & Hin & Hup').
    change (clean (uri_file (sqliteDSN (DatabasePath cfg) (op_BusyTimeout (store_options cfg))))) with (store_file cfg) in *.
    intros Hb. apply (BackupTo_spec _ _ _ _ _ _ _ Hu) in Hb as (Hf' & Hex & Hok).
    split; [intros p H1' H2'; by rewrite Hf', Hf|]. intros Er. destruct (Hok Er) as (f1 & g & Hf1 & Hg & Ec & Hv). simplify_eq.
    destruct (w1 !! clean target) as [x|] eqn:Ex; [destruct (Hex _ eq_refl) as [_ Hno]; by rewrite Er in Hno|].
    assert (Hne : store_file cfg <> clean target) by (intros E; rewrite E in Hin; congruence).
    exists f, g. split; [done|]. split; [done|]. split; [done|]. split; [by rewrite Hf'|]. split; [done|].
    intros Hne'. by rewrite <- Hf.
  - apply Open_opened in Eo as [[-> _]|(q & Hq & _)].
    + intros [= <- <- _]. split; [done|]. done.
    + apply (opened_spec _ _ _ _ _ _ _ _ Hk) in Hq as (Hf & _ & _). intros [= <- <- _]. split; [intros; by apply Hf|done].
Qed.

(** A run always ends with an exit code; only a backup announces one. *)
Definition ends (m : M volume ran) (announces : bool) : Prop := forall w o, exists code out w' o',
  m w o = (Ok (code, out), w', o') /\ 0 <= code <= 2 /\
  (announces = false -> forall target, out <> Some (BackupDone target)).
Lemma ends_weaken m : ends m false -> ends m true.
Proof. intros Hm w o. destruct (Hm w o) as (c & x & w' & o' & Hr & Hc & _). by exists c, x, w', o'. Qed.
Lemma ends_ret code out : 0 <= code <= 2 -> (forall target, out <> Some (BackupDone target)) -> ends (mret (code, out)) false.
Proof. intros Hc Ho w o. by exists code, out, w, o. Qed.
Lemma ends_written x : (forall target, x <> BackupDone target) -> ends (written_out x) false.
Proof.
  intros Hx w o. unfold written_out. destruct o as [|[e|] o]; eexists _, _, _, _; (split; [reflexivity|]); (split; [by vm_compute|]);
    intros _ t; try done; intros [= E]; by apply (Hx t).
Qed.
Lemma ends_report {A} (m : M volume A) out b : (b = false -> forall a target, out a <> BackupDone target) -> ends (report m out) b.
Proof.
  intros Hx w o. unfold report. destruct (m w o) as [[[a|e] w1] o1].
  - unfold written_out. destruct o1 as [|[e|] o1]; eexists _, _, _, _; (split; [reflexivity|]); (split; [by vm_compute|]);
      intros Hb t; try done; intros [= E]; by apply (Hx Hb a t).
  - eexists _, _, _, _. split; [reflexivity|]. split; [by vm_compute|]. done.
Qed.
Lemma ends_serve opts cfg : ends (serve_command opts cfg) false.
Proof.
  intros w o. unfold serve_command.
  destruct (open_log cfg w o) as [[q w1] o1].
  destruct q; [destruct (app_run _ _)|]; (eexists _, _, _, _; split; [reflexivity|]; split; [by vm_compute|done]).
Qed.

Lemma written_announced x w o code target w' o' :
  written_out x w o = (Ok (code, Some (BackupDone target)), w', o') -> x = BackupDone target /\ w' = w.
Proof. unfold written_out. destruct o as [|[e|] o]; intros Hw; by simplify_eq. Qed.
Lemma report_announced {A} (m : M volume A) out w o code target w' o' :
  report m out w o = (Ok (code, Some (BackupDone target)), w', o') ->
  exists a o1, out a = BackupDone target /\ m w o = (Ok a, w', o1).
Proof.
  unfold report. destruct (m w o) as [[[a|e] w1] o1]; [|done]. intros [Hx ->]%written_announced. by exists a, o1.
Qed.

End Runs.

(** ** The command line at work *)
#[export] Instance idle_program : Program := {| config_file _ := None; app_run _ _ := Ok tt |}.
Definition backup_args : list string := ["--backup-database"; quoted_target].
Definition recorder_file : string := "/srv/recorder/exam-monitor.db".
Definition recorder_volume : volume := {[recorder_file := DbFile migrated_catalog "ok"]}.
Definition backup_run (w : volume) := run backup_args sample_lookup w [].

Example parse_example :
  (rmap cl_runFor (parseOptions ["-run-for=90s"]), rmap cl_check (parseOptions ["-check-config"; "-check-config=F"]),
   map (fun a => is_ok (parseOptions a)) [["--help"]; ["-h"]; ["--run-for"]; ["--run-for"; "6m"]; ["x"]; ["--"]],
   match parseOptions ["--version"; "--schema-info"] with Err c => c | Ok _ => "" end,
   match parseOptions ["--version"; "--run-for=1s"] with Err c => c | Ok _ => "" end) =
  (Ok (90 * second), Ok false, [true; false; false; false; false; true], codeCLIConflict, codeCLIConflict).
Proof. vm_compute. reflexivity. Qed.
(** The first backup creates the store; a second one to the same name is refused. *)
Example backup_run_example :
  let r := backup_run ∅ in
  (fst (fst r), fst (fst (backup_run (snd (fst r))))) = (Ok (0, Some (BackupDone quoted_target)), Ok (1, None)).
Proof. vm_compute. reflexivity. Qed.
Example usage_example : map (fun a => fst (fst (run a sample_lookup recorder_volume []))) [["--help"]; ["--nope"]; ["--schema-info"]] =
  [Ok (0, Some Usage); Ok (2, None); Ok (0, Some (Schema (MkSchemaInfo 1 2 1 1)))].
Proof. vm_compute. reflexivity. Qed.

Lemma recorder_keyed : keyed_files recorder_volume.
Proof.
  intros p f Hf. unfold recorder_volume in Hf. apply lookup_singleton_Some in Hf as [_ <-]. cbn.
  assert (Hk : primary_keys (Catalog 0 ∅ empty_database)) by (intros l; constructor).
  unfold migrated_catalog. destruct (migrate (Catalog 0 ∅ empty_database) []) as [[r c] o] eqn:E. cbn.
  destruct (migrate_run _ _ _ _ _ Hk E) as (done & rest & _ & Hm & _). by eapply migrated_keyed.
Qed.
Lemma Open_configured_witness : exists cfg st w' o', Load "" None sample_lookup = Ok cfg /\
  openMaintenanceStore cfg recorder_volume [] = (Ok st, w', o') /\ st = store_of cfg.
Proof.
  assert (Hs : is_ok (let? cfg := Load "" None sample_lookup in rmap (fun _ => tt)
    (match openMaintenanceStore cfg recorder_volume [] with (Ok _, _, _) => Ok tt | _ => Err "" end)) = true) by (vm_compute; reflexivity).
  destruct (Load "" None sample_lookup) as [cfg|e] eqn:El; [|discriminate Hs]. cbn [rbind] in Hs.
  destruct (openMaintenanceStore cfg recorder_volume []) as [[[st|e] w'] o'] eqn:Eo; [|discriminate Hs].
  exists cfg, st, w', o'. split; [reflexivity|]. split; [exact Eo|].
  destruct (Open_configured _ _ _ _ _ _ _ _ _ El recorder_keyed Eo) as (_ & _ & Hst).
  exact (proj1 (Hst st eq_refl)).
Defined.
