(* ===== verification/Logging.v ===== *)
(** * Logging ([logging/logging.go], [logging/rotation.go])

    The records of the logger, and the log writer over a directory of files, where
    any call may fail: a write that would pass the limit first shifts the numbered
    files by one.  The retained files stay within their bounds, and hold the end
    of what was written. *)

From Stdlib Require Import ZArith Lia String Ascii.
From S2P Require Import Prelude GoStrings FlatJson Platform.
Open Scope string_scope.
Open Scope list_scope.
Open Scope Z_scope.

(** ** Records *)
Definition level_debug : Z := -4.
Definition level_info : Z := 0.
Definition level_warn : Z := 4.
Definition level_error : Z := 8.
Definition parseLevel (name : string) : option Z :=
  let name := to_lower name in
  if String.eqb name "debug" then Some level_debug
  else if String.eqb name "info" then Some level_info
  else if String.eqb name "warn" then Some level_warn
  else if String.eqb name "error" then Some level_error
  else None.

(** A logger: its level, and the attributes every record has. *)
Record Logger := MkLogger { lo_level : Z; lo_service : string; lo_build_version : string }.
Definition New (levelName buildVersion : string) : option Logger :=
  match parseLevel levelName with
  | None => None
  | Some level => Some (MkLogger level "exam-monitor" (if String.eqb buildVersion "" then "unknown" else buildVersion))
  end.

(** A record, [None] where the level drops it: the attributes in order, after the
    time, the level and the message the handler writes. *)
Definition log (l : Logger) (level : Z) (component event errorCode : string) (attrs : list (string * string))
    : option (list (string * string)) :=
  if level <? lo_level l then None
  else Some ([("service", lo_service l); ("build_version", lo_build_version l); ("component", component); ("event", event)]
             ++ (if String.eqb errorCode "" then [] else [("error_code", errorCode)]) ++ attrs).
Definition Info (l : Logger) (component event : string) (attrs : list (string * string)) :=
  log l level_info component event "" attrs.
Definition Warn (l : Logger) (component event errorCode : string) (attrs : list (string * string)) :=
  log l level_warn component event errorCode attrs.
Definition Error (l : Logger) (component event errorCode : string) (err : option string) (attrs : list (string * string)) :=
  log l level_error component event errorCode (match err with Some text => attrs ++ [("error", text)] | None => attrs end).

(** An error is never dropped: every level a logger can have lets it through. *)
Theorem Error_logged levelName build l component event errorCode err attrs : New levelName build = Some l ->
  exists fields, Error l component event errorCode err attrs = Some fields /\
    ("component", component) ∈ fields /\ ("event", event) ∈ fields /\ (forall text, err = Some text -> ("error", text) ∈ fields).
Proof.
  intros Hn. assert (Hl : (level_error <? lo_level l) = false).
  { unfold New, parseLevel in Hn. repeat case_match; simplify_eq; done. }
  unfold Error, log. rewrite Hl. eexists. split; [done|]. split; [set_solver|]. split; [set_solver|].
  intros text ->. apply elem_of_app. right. apply elem_of_app. right. apply elem_of_app. right. left.
Qed.

(** ** The rotating file *)
Record RotatingFile := Rotating {
  ro_path : string; ro_maximum : Z; ro_count : Z; ro_open : bool; ro_size : Z }.

(** The files, by path, and for each call whether it fails; a write that fails has
    written the given number of bytes. *)
Record log_world := LogWorld { lw_files : gmap string string; lw_faults : list (option nat) }.
Definition next_call (w : log_world) : option nat * log_world :=
  (List.hd None (lw_faults w), LogWorld (lw_files w) (List.tl (lw_faults w))).
Definition with_files (w : log_world) (f : gmap string string) : log_world := LogWorld f (lw_faults w).

(** [path] itself, and [path.1], [path.2], ... *)
Definition numbered_log (path : string) (index : nat) : string :=
  match index with O => path | _ => path +:+ "." +:+ format_int (Z.of_nat index) end.

(** The loop [for index := count - 1; index >= 1; index--]. *)
Fixpoint shift_logs (path : string) (index : nat) (w : log_world) : bool * log_world :=
  match index with
  | O => (true, w)
  | S previous =>
    let target := numbered_log path index in
    let source := numbered_log path previous in
    let '(removed, w) := next_call w in
    let w := match removed with None => with_files w (delete target (lw_files w)) | Some _ => w end in
    let '(renamed, w) := next_call w in
    match renamed with
    | Some _ => (false, w)
    | None =>
      shift_logs path previous
        (match lw_files w !! source with
         | None => w
         | Some c => with_files w (<[target := c]> (delete source (lw_files w)))
         end)
    end
  end.

Definition closed (s : RotatingFile) : RotatingFile := Rotating (ro_path s) (ro_maximum s) (ro_count s) false (ro_size s).

(** [rotate]: [false] for an error.  A closed file cannot be synced. *)
Definition rotate (s : RotatingFile) (w : log_world) : RotatingFile * bool * log_world :=
  if negb (ro_open s) then (s, false, w)
  else
    let '(synced, w) := next_call w in
    match synced with
    | Some _ => (s, false, w)
    | None =>
      let s := closed s in
      let '(closing, w) := next_call w in
      match closing with
      | Some _ => (s, false, w)
      | None =>
        let '(shifted, w) := shift_logs (ro_path s) (Z.to_nat (ro_count s - 1)) w in
        if negb shifted then (s, false, w)
        else
          let '(opened, w) := next_call w in
          match opened with
          | Some _ => (s, false, w)
          | None => (Rotating (ro_path s) (ro_maximum s) (ro_count s) true 0, true,
                     with_files w (<[ro_path s := ""]> (lw_files w)))
          end
      end
    end.

(** The write to the open file, at its end. *)
Definition append_log (s : RotatingFile) (value : string) (w : log_world) : RotatingFile * bool * log_world :=
  if negb (ro_open s) then (s, false, w)
  else
    let '(writing, w) := next_call w in
    let written := match writing with None => value | Some n => stake n value end in
    (Rotating (ro_path s) (ro_maximum s) (ro_count s) true (ro_size s + slen written),
     match writing with None => true | Some _ => false end,
     with_files w (<[ro_path s := default "" (lw_files w !! ro_path s) +:+ written]> (lw_files w))).

Definition Write (s : RotatingFile) (value : string) (w : log_world) : RotatingFile * bool * log_world :=
  if (0 <? ro_size s) && (ro_maximum s <? ro_size s + slen value) then
    let '(s, rotated, w) := rotate s w in
    if rotated then append_log s value w else (s, false, w)
  else append_log s value w.

Section New.
Context `{Paths}.
Definition NewRotatingFile (directory : string) (maximum count : Z) (w : log_world) : option RotatingFile * log_world :=
  if negb (is_abs directory) || (maximum <? 1) || (count <? 2) then (None, w)
  else
    let '(made, w) := next_call w in
    match made with
    | Some _ => (None, w)
    | None =>
      let path := path_join [directory; "exam-monitor.jsonl"] in
      let '(opened, w) := next_call w in
      match opened with
      | Some _ => (None, w)
      | None =>
        let content := default "" (lw_files w !! path) in
        let w := with_files w (<[path := content]> (lw_files w)) in
        let '(stated, w) := next_call w in
        match stated with
        | Some _ => (None, w)
        | None => (Some (Rotating path maximum count true (slen content)), w)
        end
      end
    end.
End New.

(** A sequence of records, errors dropped as the logger drops them. *)
Fixpoint write_all (s : RotatingFile) (values : list string) (w : log_world) : RotatingFile * log_world :=
  match values with
  | [] => (s, w)
  | v :: rest => let '(s, _, w) := Write s v w in write_all s rest w
  end.

(** ** Names *)
Lemma sapp_inj p a b : p +:+ a = p +:+ b -> a = b.
Proof. induction p as [|c p IH]; [done|]. intros [= E]. by apply IH. Qed.
Lemma sapp_self p a : p = p +:+ a -> a = "".
Proof. induction p as [|c p IH]; [done|]. intros [= E]. by apply IH. Qed.
Lemma numbered_inj path i j : Z.of_nat i <= int64_max -> Z.of_nat j <= int64_max ->
  numbered_log path i = numbered_log path j -> i = j.
Proof.
  intros Hi Hj. destruct i as [|i], j as [|j]; cbn [numbered_log]; [done| | |].
  - intros E%sapp_self. done.
  - intros E. symmetry in E. by apply sapp_self in E.
  - intros E%sapp_inj%(sapp_inj "."). apply (f_equal parse_int) in E.
    rewrite !parse_int_format_int in E by (unfold int64_min; lia). injection E. lia.
Qed.

(** ** What a rotation leaves *)
Section Facts.
Context (path : string).
Abbreviation name := (numbered_log path).

Definition log_names (count : nat) : list string := map name (seq 0 count).
(** The writer of [path] after [NewRotatingFile] accepted it. *)
Definition log_ok (s : RotatingFile) (f : gmap string string) : Prop :=
  ro_path s = path /\ 2 <= ro_count s <= int64_max /\ 0 <= ro_size s /\
  (ro_open s = true -> exists c, f !! path = Some c /\ slen c = ro_size s).

Lemma names_lt count i : (i < count)%nat -> name i ∈ log_names count.
Proof. intros Hi. apply list_elem_of_fmap. exists i. split; [done|]. apply elem_of_seq. lia. Qed.

Lemma shift_logs_frame n : forall w ok w', shift_logs path n w = (ok, w') ->
  forall p, p ∉ log_names (S n) -> lw_files w' !! p = lw_files w !! p.
Proof.
  induction n as [|n IH]; intros w ok w' Hs p Hp; [by injection Hs as <- <-|]. cbn [shift_logs] in Hs. unfold next_call in Hs.
  assert (Ht : p <> name (S n)) by (intros ->; apply Hp, names_lt; lia).
  assert (Hsrc : p <> name n) by (intros ->; apply Hp, names_lt; lia).
  assert (Hp' : p ∉ log_names (S n)).
  { intros (i & -> & Hi%elem_of_seq)%list_elem_of_fmap. apply Hp, names_lt. lia. }
  set (w1 := match List.hd None (lw_faults w) with None => _ | Some _ => _ end) in Hs.
  assert (H1 : lw_files w1 !! p = lw_files w !! p).
  { unfold w1. destruct (List.hd None (lw_faults w)); [done|]. cbn. by rewrite lookup_delete_ne. }
  clearbody w1. destruct (List.hd None (lw_faults w1)); [by injection Hs as <- <-|]. pose proof (IH _ _ _ Hs p Hp') as Hr.
  rewrite Hr, <- H1. clear Hr Hs. cbn [lw_files]. destruct (lw_files w1 !! name n); [|done].
  cbn. by rewrite lookup_insert_ne, lookup_delete_ne.
Qed.

(** What holds of a file and of the next one it may become holds on through a
    shift, whatever fails. *)
Lemma shift_logs_keeps (P : string -> string -> Prop) n : (forall i c, (i < n)%nat -> P (name i) c -> P (name (S i)) c) ->
  forall w ok w', shift_logs path n w = (ok, w') -> map_Forall P (lw_files w) -> map_Forall P (lw_files w').
Proof.
  induction n as [|n IH]; intros Hnext w ok w' Hs Hb; [by injection Hs as <- <-|]. cbn [shift_logs] in Hs. unfold next_call in Hs.
  set (w1 := match List.hd None (lw_faults w) with None => _ | Some _ => _ end) in Hs.
  assert (H1 : map_Forall P (lw_files w1)).
  { unfold w1. destruct (List.hd None (lw_faults w)); [done|]. cbn. by apply map_Forall_delete. }
  clearbody w1. destruct (List.hd None (lw_faults w1)); [by injection Hs as <- <-|].
  eapply IH; [intros; apply Hnext; [lia|done]|exact Hs|]. cbn [lw_files].
  destruct (lw_files w1 !! name n) as [c|] eqn:Ec; [|done]. cbn.
  apply map_Forall_insert_2; [|by apply map_Forall_delete]. apply Hnext; [lia|]. by apply (H1 (name n)).
Qed.

(** Without failures every numbered file gets the content of the one before. *)
Lemma shift_logs_moves n : forall f, Z.of_nat n <= int64_max -> exists f', shift_logs path n (LogWorld f []) = (true, LogWorld f' []) /\
  (forall i, (0 < i <= n)%nat -> f' !! name i = f !! name (i - 1)%nat) /\
  (forall i, (n < i)%nat -> Z.of_nat i <= int64_max -> f' !! name i = f !! name i) /\
  ((0 < n)%nat -> f' !! path = None).
Proof.
  induction n as [|n IH]; intros f Hn.
  - exists f. split; [done|]. split; [lia|]. split; [done|lia].
  - assert (Hne : forall i j, (i <= S n)%nat -> Z.of_nat j <= int64_max -> i <> j -> name i <> name j).
    { intros i j Hi Hj Hij E. apply Hij. apply (numbered_inj path); [lia|done|done]. }
    set (g := match f !! name n with None => delete (name (S n)) f | Some c => <[name (S n) := c]> (delete (name n) (delete (name (S n)) f)) end).
    assert (Hg : forall i, Z.of_nat i <= int64_max -> g !! name i =
      if decide (i = S n) then f !! name n else if decide (i = n) then None else f !! name i).
    { intros i Hi. unfold g. destruct (decide (i = S n)) as [->|H1].
      - destruct (f !! name n) as [c|]; [by rewrite lookup_insert_eq|by rewrite lookup_delete_eq].
      - assert (H2 : name (S n) <> name i) by (apply Hne; lia). destruct (decide (i = n)) as [->|H3].
        + destruct (f !! name n) as [c|] eqn:Ec; [by rewrite lookup_insert_ne, lookup_delete_eq|by rewrite lookup_delete_ne, Ec].
        + assert (H4 : name n <> name i) by (apply Hne; lia).
          destruct (f !! name n); [by rewrite lookup_insert_ne, !lookup_delete_ne|by rewrite lookup_delete_ne]. }
    assert (Hlook : delete (name (S n)) f !! name n = f !! name n) by (apply lookup_delete_ne; apply Hne; lia).
    destruct (IH g) as (f' & Hr & Hmove & Hkeep & Hnone); [lia|]. exists f'. split.
    { cbn [shift_logs next_call lw_faults lw_files List.hd List.tl with_files]. unfold next_call, with_files. cbn [lw_faults lw_files List.hd List.tl].
      rewrite Hlook. rewrite <- Hr. unfold g. by destruct (f !! name n). }
    split; [|split].
    + intros i Hi. destruct (decide (i = S n)) as [->|H1].
      * rewrite Hkeep, Hg by lia. rewrite decide_True by done. f_equal. f_equal. lia.
      * rewrite Hmove, Hg by lia. rewrite decide_False by lia. rewrite decide_False by lia. done.
    + intros i Hi Hl. rewrite Hkeep, Hg by lia. by rewrite !decide_False by lia.
    + intros _. destruct n as [|n]; [|apply Hnone; lia].
      injection Hr as <-. change path with (name 0). rewrite Hg by lia. rewrite decide_False by lia. by rewrite decide_True.
Qed.

(** Every retained file within a bound. *)
Definition logs_within (bound count : Z) (f : gmap string string) : Prop :=
  map_Forall (fun p c => p ∈ log_names (Z.to_nat count) -> slen c <= bound) f.

Lemma rotate_spec bound s w s' ok w' : log_ok s (lw_files w) -> logs_within bound (ro_count s) (lw_files w) -> 0 <= bound ->
  rotate s w = (s', ok, w') ->
  log_ok s' (lw_files w') /\ ro_maximum s' = ro_maximum s /\ ro_count s' = ro_count s /\
  (ok = true -> ro_open s' = true /\ ro_size s' = 0) /\
  logs_within bound (ro_count s) (lw_files w') /\
  forall p, p ∉ log_names (Z.to_nat (ro_count s)) -> lw_files w' !! p = lw_files w !! p.
Proof.
  intros Hl Hb Hbound. pose proof Hl as (Hp & Hc & Hz & Ho). unfold rotate, next_call.
  destruct (ro_open s) eqn:Eo; cbn [negb]; [|intros [= <- <- <-]; split_and!; done].
  destruct (List.hd None (lw_faults w)); [intros [= <- <- <-]; split_and!; done|]. cbn [lw_faults lw_files].
  assert (Hclosed : forall f, log_ok (closed s) f) by (intros f; split; [done|]; split; [done|]; split; [done|]; discriminate).
  destruct (List.hd None (List.tl (lw_faults w))); [intros [= <- <- <-]; split_and!; done|].
  destruct (shift_logs _ _ _) as [shifted w1] eqn:Es. cbn [closed ro_path ro_count] in Es. rewrite Hp in Es.
  assert (Hframe : forall p, p ∉ log_names (Z.to_nat (ro_count s)) -> lw_files w1 !! p = lw_files w !! p).
  { intros p Hin. rewrite (shift_logs_frame _ _ _ _ Es); [done|]. by replace (S (Z.to_nat (ro_count s - 1))) with (Z.to_nat (ro_count s)) by lia. }
  assert (Hwithin : logs_within bound (ro_count s) (lw_files w1)).
  { eapply shift_logs_keeps; [|exact Es|exact Hb]. intros i c Hi Hic _. apply Hic, names_lt. lia. }
  destruct shifted; cbn [negb]; [|intros [= <- <- <-]; split_and!; done].
  destruct (List.hd None (lw_faults w1)); intros [= <- <- <-]; [split_and!; done|]. cbn. rewrite Hp.
  split; [|split; [done|split; [done|split; [done|split]]]].
  - split; [done|]. split; [done|]. split; [done|]. intros _. exists "". by rewrite lookup_insert_eq.
  - apply map_Forall_insert_2; [intros _; cbn; lia|done].
  - intros p Hin. rewrite lookup_insert_ne; [by apply Hframe|]. intros <-. apply Hin, (names_lt _ 0). lia.
Qed.

Lemma stake_slen n v : slen (stake n v) <= slen v.
Proof.
  unfold stake. rewrite !slen_length. revert n. induction v as [|c v IH]; intros [|n]; cbn [substring String.length]; try lia.
  specialize (IH n). lia.
Qed.
Lemma append_log_spec bound s value w s' ok w' : log_ok s (lw_files w) -> logs_within bound (ro_count s) (lw_files w) ->
  ro_size s + slen value <= bound -> append_log s value w = (s', ok, w') ->
  log_ok s' (lw_files w') /\ ro_maximum s' = ro_maximum s /\ ro_count s' = ro_count s /\
  logs_within bound (ro_count s) (lw_files w') /\
  forall p, p ∉ log_names (Z.to_nat (ro_count s)) -> lw_files w' !! p = lw_files w !! p.
Proof.
  intros Hl Hb Hbound. pose proof Hl as (Hp & Hc & Hz & Ho). unfold append_log, next_call.
  destruct (ro_open s) eqn:Eo; cbn [negb]; [|intros [= <- <- <-]; split_and!; done].
  destruct (Ho eq_refl) as (c & Hf & Hs). cbv zeta.
  set (written := match List.hd None (lw_faults w) with None => value | Some n => stake n value end).
  assert (Hw : 0 <= slen written <= slen value).
  { split; [apply slen_nonneg|]. unfold written. destruct (List.hd None (lw_faults w)); [apply stake_slen|lia]. }
  clearbody written. intros [= <- _ <-]. unfold log_ok. cbn. rewrite Hp, Hf. cbn.
  split; [split; [done|]; split; [done|]; split; [lia|]; intros _; eexists; rewrite lookup_insert_eq, slen_app; split; [done|lia]|].
  split; [done|]. split; [done|]. split.
  - apply map_Forall_insert_2; [|done]. intros _. rewrite slen_app. lia.
  - intros p Hin. rewrite lookup_insert_ne; [done|]. intros <-. apply Hin, (names_lt _ 0). lia.
Qed.

Lemma Write_spec bound s value w s' ok w' : log_ok s (lw_files w) -> logs_within bound (ro_count s) (lw_files w) ->
  ro_maximum s <= bound -> slen value <= bound -> Write s value w = (s', ok, w') ->
  log_ok s' (lw_files w') /\ ro_maximum s' = ro_maximum s /\ ro_count s' = ro_count s /\
  logs_within bound (ro_count s) (lw_files w') /\
  forall p, p ∉ log_names (Z.to_nat (ro_count s)) -> lw_files w' !! p = lw_files w !! p.
Proof.
  intros Hok Hb Hmax Hv. pose proof (slen_nonneg value). unfold Write. destruct (_ && _) eqn:Er.
  - destruct (rotate s w) as [[s1 rotated] w1] eqn:E. apply (rotate_spec bound) in E as (Hok1 & Em & Ec & Hz & Hb1 & Hf1); [|done..|lia].
    destruct rotated; [|intros [= <- <- <-]; done]. destruct (Hz eq_refl) as [_ Hz']. rewrite <- Ec in Hb1. intros Ha.
    apply (append_log_spec bound) in Ha as (Hok2 & Em2 & Ec2 & Hb2 & Hf2); [|done|done|lia].
    rewrite Em2, Ec2, Em, Ec in *. split; [done|]. split; [done|]. split; [done|]. split; [done|].
    intros p Hp. rewrite Hf2, Hf1; done.
  - intros Ha. apply (append_log_spec bound) in Ha; [done|done|done|].
    apply andb_false_iff in Er as [Er|Er]; to_prop; destruct Hok as (_ & _ & Hz & _); lia.
Qed.


(** *** What the files hold, the oldest first *)
Fixpoint retained (n : nat) (f : gmap string string) : string :=
  match n with
  | O => default "" (f !! path)
  | S m => default "" (f !! name n) +:+ retained m f
  end.

Lemma retained_shift n f f' : (forall i, (0 < i <= n)%nat -> f' !! name i = f !! name (i - 1)%nat) -> f' !! path = Some "" ->
  retained n f = default "" (f !! name n) +:+ retained n f'.
Proof.
  intros Hmove Hnew.
  assert (E : forall m, (m < n)%nat -> retained (S m) f' = retained m f).
  { induction m as [|m IH]; intros Hm.
    - cbn [retained]. rewrite Hmove, Hnew by lia. cbn [Nat.sub default numbered_log]. by rewrite sappend_nil_r.
    - cbn [retained]. cbn [retained] in IH. rewrite IH by lia. rewrite Hmove by lia. by replace (S (S m) - 1)%nat with (S m) by lia. }
  destruct n as [|n]; [cbn [retained numbered_log]; by rewrite Hnew, sappend_nil_r|]. by rewrite E by lia.
Qed.

Lemma rotate_quiet s f : log_ok s f -> ro_open s = true -> exists f',
  rotate s (LogWorld f []) = (Rotating path (ro_maximum s) (ro_count s) true 0, true, LogWorld f' []) /\
  f' !! path = Some "" /\
  let n := Z.to_nat (ro_count s - 1) in retained n f = default "" (f !! name n) +:+ retained n f'.
Proof.
  intros (Hp & Hc & _) Ho. set (n := Z.to_nat (ro_count s - 1)).
  destruct (shift_logs_moves n f) as (f1 & Hr & Hmove & _ & _); [lia|]. exists (<[path := ""]> f1).
  split; [|split; [by rewrite lookup_insert_eq|]].
  - unfold rotate, next_call, closed, with_files. rewrite Ho. cbn. fold n. by rewrite Hp, Hr.
  - apply retained_shift; [|by rewrite lookup_insert_eq]. intros i Hi. rewrite lookup_insert_ne; [by apply Hmove|].
    change path with (name 0). intros E%(numbered_inj path); lia.
Qed.

(** Without failures the files keep the end of what was there and what was
    written, in order; what goes is the oldest file, when a new one is begun. *)
Theorem Write_retains s value f : log_ok s f -> ro_open s = true -> let n := Z.to_nat (ro_count s - 1) in
  exists s' f' dropped, Write s value (LogWorld f []) = (s', true, LogWorld f' []) /\ ro_open s' = true /\
    retained n f +:+ value = dropped +:+ retained n f' /\
    (dropped = "" \/ dropped = default "" (f !! name n) /\ f' !! path = Some value).
Proof.
  intros Hl Ho n. pose proof Hl as (Hp & Hc & _).
  assert (Hend : forall m g c, Z.of_nat m <= int64_max -> g !! path = Some c ->
    retained m (<[path := c +:+ value]> g) = retained m g +:+ value).
  { induction m as [|m IH]; intros g c Hm Hg; cbn [retained]; [by rewrite lookup_insert_eq, Hg|].
    rewrite lookup_insert_ne; [|change path with (name 0); intros E%(numbered_inj path); lia].
    rewrite IH by (done || lia). by rewrite sappend_assoc. }
  unfold Write. destruct (_ && _).
  - destruct (rotate_quiet s f Hl Ho) as (f1 & -> & Hnew & Hret). fold n in Hret. unfold append_log, next_call, with_files. cbn.
    rewrite Hnew. cbn. eexists _, _, (default "" (f !! name n)). split; [done|]. split; [done|]. split.
    + rewrite (Hend n f1 "") by (done || lia). by rewrite Hret, sappend_assoc.
    + right. by rewrite lookup_insert_eq.
  - destruct Hl as (_ & _ & _ & Hopen). destruct (Hopen Ho) as (c & Hf & _).
    unfold append_log, next_call, with_files. rewrite Ho. cbn. rewrite Hp, Hf. cbn. eexists _, _, "". split; [done|].
    split; [done|]. split; [|by left]. by rewrite (Hend n f c) by (done || lia).
Qed.

(** A rotation that fails leaves the file closed, and then every write fails. *)
Lemma closed_writer_dead s value w : ro_open s = false -> Write s value w = (s, false, w).
Proof. intros Ho. unfold Write, rotate, append_log. rewrite Ho. cbn. by destruct (_ && _). Qed.
End Facts.

(** ** Three files of at most ten bytes *)
Definition log_path : string := "/srv/recorder/logs/exam-monitor.jsonl".
Definition small_log := NewRotatingFile "/srv/recorder/logs" 10 3 (LogWorld ∅ []).
Definition log_writer : RotatingFile := Rotating log_path 10 3 true 0.
Definition log_start (faults : list (option nat)) : log_world := LogWorld {[log_path := ""]} faults.
Definition records : list string := ["one;"; "two;"; "three;"; "four;"; "fifteen bytes..."; "six;"].
Definition log_run (faults : list (option nat)) := write_all log_writer records (log_start faults).

Example new_log_example : fst small_log = Some log_writer /\ lw_files (snd small_log) = {[log_path := ""]}.
Proof. split; [reflexivity|]. vm_compute. reflexivity. Qed.
Example log_example : map (fun i => lw_files (snd (log_run [])) !! numbered_log log_path i) [0; 1; 2; 3]%nat =
  [Some "six;"; Some "fifteen bytes..."; Some "four;"; None].
Proof. vm_compute. reflexivity. Qed.
(** The rename of the first rotation fails: the records after it are lost. *)
Example dead_log_example :
  let r := log_run (repeat None 7 ++ [Some 0%nat]) in
  (ro_open (fst r), map (fun i => lw_files (snd r) !! numbered_log log_path i) [0; 1]%nat) = (false, [Some "one;two;"; None]).
Proof. vm_compute. reflexivity. Qed.

