(* ===== verification/Probe.v ===== *)
(** * The ffprobe client ([mediaingest/probe.go])

    Running a command with a bound on its output, the version of ffprobe, and what
    its JSON says of a media file.  The command itself and floating point are
    interfaces. *)

From Stdlib Require Import ZArith Lia String Ascii.
From S2P Require Import Prelude GoStrings GoTime GoJson Base64 Platform Sql Sidecar.
Open Scope string_scope.
Open Scope list_scope.
Open Scope result_scope.
Open Scope Z_scope.

(** ** The bounded buffer *)
Record limitedBuffer := LimitedBuffer { lb_content : string; lb_remaining : Z; lb_exceeded : bool }.
Definition new_buffer (maximum : Z) : limitedBuffer := LimitedBuffer "" maximum false.
(** [Write]: it reports every byte as written. *)
Definition buffer_write (b : limitedBuffer) (value : string) : limitedBuffer :=
  let over := lb_remaining b <? slen value in
  let value := if over then stake (Z.to_nat (lb_remaining b)) value else value in
  LimitedBuffer (lb_content b +:+ value) (lb_remaining b - slen value) (lb_exceeded b || over).

(** ** Commands *)
Inductive command_error :=
  | ContextEnded      (* canceled or out of time *)
  | ExecError         (* the program cannot be started *)
  | PathError
  | ExitError         (* the program failed *)
  | TooMuchOutput.
(** A run of a program: what it wrote on both outputs, piece by piece, whether the
    context had ended, and how the program did. *)
Record command_run := CommandRun { cr_output : list string; cr_context_ended : bool; cr_error : option command_error }.
Class Commands := { command : string -> list string -> command_run }.

Section Probe.
Context `{Commands}.

Definition runBoundedCommand (maximum : Z) (name : string) (arguments : list string) : result command_error string :=
  let r := command name arguments in
  let output := fold_left buffer_write (cr_output r) (new_buffer maximum) in
  if cr_context_ended r then Err ContextEnded
  else match cr_error r with
       | Some e => Err e
       | None => if lb_exceeded output then Err TooMuchOutput else Ok (lb_content output)
       end.

(** ** The version *)

(** [strings.ReplaceAll] of a CR LF by a LF, and the text before the first LF. *)
Fixpoint first_line (s : string) : string :=
  match s with
  | EmptyString => EmptyString
  | String "010" _ => EmptyString
  | String "013" (String "010" _) => EmptyString
  | String c r => String c (first_line r)
  end.
(** The first of [strings.Fields]. *)
Fixpoint take_word (fuel : nat) (l : list Z) : list Z :=
  match fuel, l with
  | O, _ | _, [] => []
  | S f, _ => let '(r, n) := decode_rune l in if is_space r then [] else take n l ++ take_word f (drop n l)
  end.
Definition first_field (s : string) : string :=
  let t := bytes (trim_space s) in of_bytes (take_word (length t) t).

Definition version_prefix : string := "ffprobe version ".
Definition Version (path : string) : result media_error string :=
  match runBoundedCommand (Z.shiftl 64 10) path ["-version"] with
  | Err _ => Err (failure CodeProbeUnavailable "ffprobe version check failed")
  | Ok output =>
    let firstLine := first_line output in
    guard? has_prefix firstLine version_prefix else failure CodeProbeUnavailable "ffprobe version output is invalid" in
    let version := first_field (sdrop (String.length version_prefix) firstLine) in
    guard? negb (String.eqb version "") else failure CodeProbeUnavailable "ffprobe version output is empty" in
    Ok version
  end.

(** ** What ffprobe says of a file *)
Record probe_stream := ProbeStream { ps_CodecType : string; ps_CodecName : string }.
Record probe_response := ProbeResponse { pr_Streams : list probe_stream; pr_Duration : string; pr_FormatName : string }.

(** Members are decoded over what an earlier member of the name left there. *)
Definition decode_stream (old : probe_stream) (v : json) : option probe_stream :=
  match v with
  | JNull => Some old
  | JObj ms =>
    let! kind := decode_last string_of (ps_CodecType old) (field_values "codec_type" ms) in
    let! name := decode_last string_of (ps_CodecName old) (field_values "codec_name" ms) in
    Some (ProbeStream kind name)
  | _ => None
  end.
Fixpoint decode_streams (old : list probe_stream) (l : list json) : option (list probe_stream) :=
  match l with
  | [] => Some []
  | v :: rest =>
    let! x := decode_stream (List.hd (ProbeStream "" "") old) v in
    let! xs := decode_streams (List.tl old) rest in Some (x :: xs)
  end.
Fixpoint decode_streams_field (old : list probe_stream) (l : list json) : option (list probe_stream) :=
  match l with
  | [] => Some old
  | JNull :: rest => decode_streams_field [] rest
  | JArr vs :: rest => let! xs := decode_streams old vs in decode_streams_field xs rest
  | _ => None
  end.
Fixpoint decode_format (old : string * string) (l : list json) : option (string * string) :=
  match l with
  | [] => Some old
  | JNull :: rest => decode_format old rest
  | JObj ms :: rest =>
    let! duration := decode_last string_of (fst old) (field_values "duration" ms) in
    let! name := decode_last string_of (snd old) (field_values "format_name" ms) in
    decode_format (duration, name) rest
  | _ => None
  end.
Definition decode_response (raw : string) : option probe_response :=
  let! (v, _) := decode_first raw in
  let! ms := struct_members v in
  let! streams := decode_streams_field [] (field_values "streams" ms) in
  let! (duration, name) := decode_format ("", "") (field_values "format" ms) in
  Some (ProbeResponse streams duration name).

(** [strconv.ParseFloat] where it gives a finite number; whether it is positive;
    and [math.Ceil] of a thousand times it, [None] for an infinite product. *)
Class ProbeFloats := {
  seconds : Type;
  parse_seconds : string -> option seconds;
  seconds_positive : seconds -> bool;
  ceil_milliseconds : seconds -> option Z }.
Context `{ProbeFloats}.

Definition parseDurationMilliseconds (value : string) : result media_error Z :=
  match parse_seconds value with
  | None => Err (failure CodeDurationInvalid "ffprobe duration is invalid")
  | Some x =>
    guard? seconds_positive x else failure CodeDurationInvalid "ffprobe duration is invalid" in
    match ceil_milliseconds x with
    | Some ms => guard? ms <? 2 ^ 63 else failure CodeDurationInvalid "ffprobe duration exceeds supported range" in Ok ms
    | None => Err (failure CodeDurationInvalid "ffprobe duration exceeds supported range")
    end
  end.

Definition video_codec (l : list probe_stream) : string :=
  match find_first (fun x => String.eqb (ps_CodecType x) "video" && negb (String.eqb (ps_CodecName x) "")) l with
  | Some x => ps_CodecName x
  | None => ""
  end.

Definition probe_arguments (mediaPath : string) : list string :=
  ["-v"; "error"; "-show_entries"; "format=duration,format_name:stream=codec_type,codec_name"; "-of"; "json"; mediaPath].
Definition Probe (path mediaPath : string) : result media_error ProbeInfo :=
  match runBoundedCommand (Z.shiftl 1 20) path (probe_arguments mediaPath) with
  | Err (ContextEnded | ExecError | PathError) => Err (failure CodeProbeUnavailable "ffprobe cannot be executed reliably")
  | Err _ => Err (failure CodeProbeFailed "ffprobe media validation failed")
  | Ok output =>
    match decode_response output with
    | None => Err (failure CodeProbeFailed "ffprobe JSON output is invalid")
    | Some response =>
      let? durationMS := parseDurationMilliseconds (pr_Duration response) in
      let codec := video_codec (pr_Streams response) in
      guard? negb (String.eqb codec "") else failure CodeTypeInvalid "media does not contain a decodable video stream" in
      guard? negb (String.eqb (pr_FormatName response) "") else failure CodeProbeFailed "ffprobe format name is missing" in
      Ok (MkProbeInfo durationMS codec (pr_FormatName response) "video")
    end
  end.

(** ** The output is whole or refused *)
Lemma stake_all n v : slen v <= Z.of_nat n -> stake n v = v.
Proof.
  unfold stake. revert n. induction v as [|c v IH]; intros [|n] Hn; cbn [substring slen] in *; try done.
  - pose proof (slen_nonneg v). lia.
  - rewrite IH by lia. done.
Qed.
Lemma stake_length n v : Z.of_nat n <= slen v -> slen (stake n v) = Z.of_nat n.
Proof.
  unfold stake. revert n. induction v as [|c v IH]; intros [|n] Hn; cbn [substring slen] in *; try done. rewrite IH; lia.
Qed.

Lemma buffer_writes l : forall b, 0 <= lb_remaining b ->
  let b' := fold_left buffer_write l b in
  0 <= lb_remaining b' /\ slen (lb_content b') + lb_remaining b' = slen (lb_content b) + lb_remaining b /\
  (lb_exceeded b' = false -> lb_content b' = lb_content b +:+ fold_right String.append "" l).
Proof.
  induction l as [|v l IH]; intros b Hb; cbn [fold_left fold_right].
  - split; [done|]. split; [done|]. intros _. by rewrite sappend_nil_r.
  - set (b1 := buffer_write b v).
    assert (H1 : 0 <= lb_remaining b1 /\ slen (lb_content b1) + lb_remaining b1 = slen (lb_content b) + lb_remaining b /\
      (lb_exceeded b1 = false -> lb_content b1 = lb_content b +:+ v)).
    { unfold b1, buffer_write. cbn. rewrite slen_app. destruct (Z.ltb_spec (lb_remaining b) (slen v)) as [Hlt|Hge].
      - rewrite stake_length by lia. rewrite Z2Nat.id by lia. split; [lia|]. split; [lia|]. by rewrite orb_true_r.
      - split; [lia|]. split; [lia|]. done. }
    assert (Hex : lb_exceeded (fold_left buffer_write l b1) = false -> lb_exceeded b1 = false).
    { clear. generalize b1. induction l as [|x l IH]; intros c; [done|]. cbn [fold_left]. intros Hx%IH. cbn in Hx. by apply orb_false_iff in Hx as [? _]. }
    clearbody b1. destruct H1 as (Hr & Hs & Hc). destruct (IH b1 Hr) as (Hr' & Hs' & Hc').
    split; [done|]. split; [lia|]. intros Hfalse. rewrite Hc', Hc by auto. by rewrite sappend_assoc.
Qed.

(** What a command is taken to have said is all it wrote, within the bound. *)
Theorem runBoundedCommand_whole maximum name arguments output : 0 <= maximum ->
  runBoundedCommand maximum name arguments = Ok output ->
  output = fold_right String.append "" (cr_output (command name arguments)) /\ slen output <= maximum.
Proof.
  intros Hm. unfold runBoundedCommand. destruct (cr_context_ended _); [done|]. destruct (cr_error _); [done|].
  destruct (buffer_writes (cr_output (command name arguments)) (new_buffer maximum) Hm) as (Hr & Hs & Hc).
  destruct (lb_exceeded _); [done|]. intros [= <-]. split; [by apply Hc|]. cbn in Hs. lia.
Qed.

(** A file that passes has a video stream with a named codec, a format, and a
    duration that fits 63 bits. *)
Theorem Probe_video path mediaPath info : Probe path mediaPath = Ok info ->
  pi_MediaType info = "video" /\ pi_CodecName info <> "" /\ pi_FormatName info <> "" /\ pi_DurationMS info < 2 ^ 63.
Proof.
  unfold Probe. destruct (runBoundedCommand _ _ _) as [output|e]; [|by destruct e].
  destruct (decode_response output) as [response|]; [|done]. intros Hp. inv_oks Hp. injection Hp as <-. to_prop. cbn.
  split; [done|]. split; [done|]. split; [done|]. unfold parseDurationMilliseconds in Ha.
  destruct (parse_seconds _) as [x|]; [|done]. inv_ok Ha. destruct (ceil_milliseconds x) as [ms|]; [|done].
  inv_ok Ha. injection Ha as <-. to_prop. done.
Qed.
End Probe.

(** ** A short recording *)
#[export] Instance camera_commands : Commands := {|
  command _ args :=
    match args with
    | ["-version"] => CommandRun ["ffprobe ver"; "sion 6.1.1 Copyright" +:+ String "013" (String "010" "built with gcc")] false None
    | _ => CommandRun [quoted "{'streams':[{'codec_type':'audio','codec_name':'aac'},{'codec_type':'video','codec_name':'h264'}],";
                       quoted "'format':{'duration':'30','format_name':'mov,mp4'}}"] false None
    end |}.
#[export] Instance whole_seconds : ProbeFloats := {|
  seconds := Z; parse_seconds := parse_int; seconds_positive x := 0 <? x; ceil_milliseconds x := Some (x * 1000) |}.
Example version_example : Version "ffprobe" = Ok "6.1.1".
Proof. vm_compute. reflexivity. Qed.
Example probe_example : Probe "ffprobe" "clip.mp4" = Ok (MkProbeInfo 30000 "h264" "mov,mp4" "video").
Proof. vm_compute. reflexivity. Qed.
Example bounded_example : rmap slen (runBoundedCommand 10 "ffprobe" ["-version"]) = Err TooMuchOutput.
Proof. vm_compute. reflexivity. Qed.
