(* ===== verification/Dashboard.v ===== *)
(** * The dashboard assets ([dashboard/handler.go])

    The fixed table of embedded files and the handler that serves them. *)

From Stdlib Require Import ZArith Lia String Ascii.
From S2P Require Import Prelude GoStrings GoTime GoJson Platform.
Open Scope string_scope.
Open Scope list_scope.
Open Scope Z_scope.

Record asset := Asset { as_contentType : string; as_body : string }.

(** The request path, the file and its type. *)
Definition asset_definitions : list (string * (string * string)) :=
  [("/", ("index.html", "text/html; charset=utf-8")); ("/index.html", ("index.html", "text/html; charset=utf-8"));
   ("/assets/styles.css", ("assets/styles.css", "text/css; charset=utf-8"));
   ("/assets/state.js", ("assets/state.js", "text/javascript; charset=utf-8"));
   ("/assets/app.js", ("assets/app.js", "text/javascript; charset=utf-8"))].

(** [New]: every file must be there and not empty.  [dist] is the embedded
    directory. *)
Fixpoint load_assets (dist : string -> option string) (l : list (string * (string * string))) : option (gmap string asset) :=
  match l with
  | [] => Some ∅
  | (path, (file, kind)) :: rest =>
    let! body := dist file in
    if String.eqb body "" then None
    else let! m := load_assets dist rest in Some (<[path := Asset kind body]> m)
  end.
Definition New (dist : string -> option string) : option (gmap string asset) := load_assets dist asset_definitions.

Definition security_headers : list (string * string) :=
  [("Cache-Control", "no-store");
   ("Content-Security-Policy", "default-src 'self'; connect-src 'self'; img-src 'self'; style-src 'self'; script-src 'self'; base-uri 'none'; form-action 'none'; frame-ancestors 'none'");
   ("Referrer-Policy", "no-referrer"); ("X-Content-Type-Options", "nosniff"); ("X-Frame-Options", "DENY")].

(** A response: the status, the headers the handler sets, and the body of an
    asset, if one is written. *)
Record asset_response := AssetResponse { ar_status : Z; ar_headers : list (string * string); ar_body : option string }.

Definition ServeHTTP (assets : gmap string asset) (method path : string) : asset_response :=
  if negb (String.eqb method "GET") && negb (String.eqb method "HEAD") then
    AssetResponse 405 (security_headers ++ [("Allow", "GET, HEAD")]) None
  else if negb (String.eqb path (slash_clean path)) && negb (String.eqb path "/") then AssetResponse 404 security_headers None
  else
    match assets !! path with
    | None => AssetResponse 404 security_headers None
    | Some item =>
      AssetResponse 200 (security_headers ++ [("Content-Type", as_contentType item)])
        (if String.eqb method "HEAD" then None else Some (as_body item))
    end.

Lemma load_assets_lookup dist l : forall m, load_assets dist l = Some m -> forall path item, m !! path = Some item ->
  exists file, (path, (file, as_contentType item)) ∈ l /\ dist file = Some (as_body item) /\ as_body item <> "".
Proof.
  induction l as [|[p [file kind]] l IH]; intros m Hm path item Hi; cbn in Hm; [by injection Hm as <-|].
  destruct (dist file) as [body|] eqn:Ed; [|done]. cbn in Hm. destruct (String.eqb_spec body "") as [|Hne]; [done|].
  destruct (load_assets dist l) as [m'|]; [|done]. injection Hm as <-. destruct (decide (p = path)) as [<-|Hp].
  - rewrite lookup_insert_eq in Hi. injection Hi as <-. exists file. split; [left|done].
  - rewrite lookup_insert_ne in Hi by done. destruct (IH _ eq_refl _ _ Hi) as (f & Hf & ?). exists f. split; [by right|done].
Qed.

(** What is served with status 200 is a file of the table, whole, and every
    response has the security headers. *)
Theorem ServeHTTP_assets dist assets method path : New dist = Some assets ->
  let r := ServeHTTP assets method path in
  (exists extra, ar_headers r = security_headers ++ extra) /\
  (ar_status r = 200 -> exists file kind body, (path, (file, kind)) ∈ asset_definitions /\ dist file = Some body /\ body <> "" /\
     ar_headers r = security_headers ++ [("Content-Type", kind)] /\ (ar_body r = Some body \/ method = "HEAD" /\ ar_body r = None)).
Proof.
  intros Hn. unfold ServeHTTP. destruct (_ && _); [split; [by eexists|done]|].
  destruct (_ && _); [split; [exists []; by rewrite app_nil_r|done]|].
  destruct (assets !! path) as [item|] eqn:Ei; [|split; [exists []; by rewrite app_nil_r|done]].
  split; [by eexists|]. intros _. destruct (load_assets_lookup _ _ _ Hn _ _ Ei) as (file & Hf & Hd & Hne).
  exists file, (as_contentType item), (as_body item). split; [done|]. split; [done|]. split; [done|]. split; [done|]. cbn.
  destruct (String.eqb_spec method "HEAD"); auto.
Qed.

Example dashboard_example :
  let serve method path := match New (fun f => Some ("<" +:+ f +:+ ">")) with
                           | Some a => let r := ServeHTTP a method path in (ar_status r, ar_body r) | None => (0, None) end in
  (serve "GET" "/", serve "HEAD" "/index.html", serve "POST" "/", serve "GET" "/assets/../index.html", serve "GET" "/none") =
  ((200, Some "<index.html>"), (200, None), (405, None), (404, None), (404, None)).
Proof. vm_compute. reflexivity. Qed.
