(* ===== verification/History.v ===== *)
(** * What the store never forgets

    Nine tables of the schema refuse [UPDATE] and [DELETE] by a trigger: events,
    heartbeats, media segments, their ingest and state events, faults, module
    states, mode transitions and the retention log.  The model of a statement has
    no such trigger; this file shows that none is needed: every operation of the
    store, every step of the managers and the collectors and every handler of the
    API, whatever fails, only adds rows to these tables, with fresh ids, and keeps
    the keys of events and heartbeats unique. *)

From Stdlib Require Import ZArith Lia String Ascii.
From S2P Require Import Prelude GoStrings GoTime GoJson StrictJson Sql Schema Keyed Events Heartbeats Query Platform Config Coverage MediaStore OpsStore Timeline TimelineSync CoverageStore Sidecar ActivityWatch ActivityWatchPoll MediaFiles MediaIngest PathFacts MediaFrame MediaAccept Operations Retention HttpApi Server.
Open Scope string_scope.
Open Scope list_scope.
Open Scope result_scope.
Open Scope db_scope.
Open Scope Z_scope.

(** ** The append-only tables *)

(** Rows are only added, and ids stay in order. *)
Definition grown {A} (l l' : list (row A)) : Prop := l `prefix_of` l' /\ (ids_sorted l -> ids_sorted l').

Record grew (d0 d : database) : Prop := Grew {
  gr_events : grown (raw_events d0) (raw_events d);
  gr_heartbeats : grown (collector_heartbeats d0) (collector_heartbeats d);
  gr_segments : grown (media_segments d0) (media_segments d);
  gr_ingests : grown (media_ingest_events d0) (media_ingest_events d);
  gr_states : grown (media_segment_state_events d0) (media_segment_state_events d);
  gr_faults : grown (fault_events d0) (fault_events d);
  gr_modules : grown (module_state_events d0) (module_state_events d);
  gr_modes : grown (mode_transition_events d0) (mode_transition_events d);
  gr_retentions : grown (retention_events d0) (retention_events d) }.

Lemma grown_refl {A} (l : list (row A)) : grown l l.
Proof. by split. Qed.
Lemma grown_insert {A} (x : A) l : grown l (insert_row x l).
Proof. split; [by eexists|apply insert_row_sorted]. Qed.
#[export] Instance grown_preorder {A} : PreOrder (@grown A).
Proof. split; [intros l; apply grown_refl|]. intros a b c [? ?] [? ?]. split; [by etransitivity|tauto]. Qed.
#[export] Instance grew_preorder : PreOrder grew.
Proof.
  split; [intros d; split; apply grown_refl|]. intros a b c [] []. split; by etransitivity.
Qed.
#[export] Hint Resolve grown_refl grown_insert : monitor.

(** The database after some operations: the keys of events and heartbeats are
    unique, and nothing of [d0] is lost. *)
Section Tables.
Context `{SJ : SqliteJson}.

Definition history (d0 d : database) : Prop := tables_ok d /\ grew d0 d.

(** A statement that leaves events and heartbeats alone. *)
Lemma history_step d0 d d' : history d0 d -> raw_events d' = raw_events d ->
  collector_heartbeats d' = collector_heartbeats d -> grew d d' -> history d0 d'.
Proof.
  intros [[Ho Hh] Hg] Er Eh Hs. split; [|by etransitivity]. revert Ho Hh. unfold tables_ok, table_ok. cbn.
  rewrite Er, Eh. done.
Qed.
End Tables.

Lemma preserves_transaction_if {S A} (P : S -> Prop) bc cc (m : M S (A * bool)) :
  preserves P m -> preserves P (transaction_if bc cc m).
Proof.
  intros Hm s o Hs. unfold state_after. destruct (transaction_if bc cc m s o) as [[[a|e] s'] o'] eqn:E; cbn.
  - apply transaction_if_inv in E as (b & s1 & o1 & o2 & E & ->). destruct b; [|done].
    specialize (Hm s o1 Hs). unfold state_after in Hm. by rewrite E in Hm.
  - by apply transaction_if_err in E as ->.
Qed.

(** *** Properties that only the evidence decides

    The evidence is in four tables: events, heartbeats, segments and their ingest
    log.  A property of the database that survives new rows in the other logs and
    any change of the projections survives most operations. *)
Class OutsideEvidence (P : database -> Prop) := {
  oe_states d x : P d -> P (with_media_segment_state_events d (insert_row x (media_segment_state_events d)));
  oe_faults d x : P d -> P (with_fault_events d (insert_row x (fault_events d)));
  oe_modules d x : P d -> P (with_module_state_events d (insert_row x (module_state_events d)));
  oe_modes d x : P d -> P (with_mode_transition_events d (insert_row x (mode_transition_events d)));
  oe_retentions d x : P d -> P (with_retention_events d (insert_row x (retention_events d)));
  oe_ingest_status d t : P d -> P (with_media_ingest_status d t);
  oe_segment_status d t : P d -> P (with_media_segment_status d t);
  oe_file_checks d t : P d -> P (with_media_file_checks d t);
  oe_checkpoints d t : P d -> P (with_activitywatch_checkpoints d t);
  oe_timeline d t : P d -> P (with_timeline_entries d t);
  oe_intervals d t : P d -> P (with_coverage_intervals d t);
  oe_coverage_state d t : P d -> P (with_coverage_projection_state d t) }.

(** A new row, or another table outside the logs. *)
Ltac grows := eapply history_step; [eassumption|done|done|split; cbn; auto with monitor nocore].
#[export] Instance history_outside `{SqliteJson} d0 : OutsideEvidence (history d0).
Proof. split; intros; grows. Qed.

(** The evidence itself. *)
Definition evidence (d : database) := (raw_events d, collector_heartbeats d, media_segments d, media_ingest_events d).
#[export] Instance evidence_outside e : OutsideEvidence (fun d => evidence d = e).
Proof. split; intros; done. Qed.

Ltac outside :=
  first [apply oe_states|apply oe_faults|apply oe_modules|apply oe_modes|apply oe_retentions|apply oe_ingest_status
        |apply oe_segment_status|apply oe_file_checks|apply oe_checkpoints|apply oe_timeline|apply oe_intervals
        |apply oe_coverage_state]; assumption.
Create HintDb remembering.
Ltac remember_step :=
  lazymatch goal with
  | |- preserves _ (mbind _ _) => apply preserves_mbind; [|intros ?]
  | |- preserves _ (mret _) => apply preserves_mret
  | |- preserves _ (mfail _) => apply preserves_mfail
  | |- preserves _ (mlift _) => apply preserves_mlift
  | |- preserves _ (query _ _) => apply preserves_query
  | |- preserves _ (transaction _ _ _) => apply preserves_transaction
  | |- preserves _ (transaction_if _ _ _) => apply preserves_transaction_if
  | |- preserves _ (miter _ _) => apply preserves_miter; intros ? _
  | |- preserves _ (mmap _ _) => apply preserves_mmapi; intros ? ? _
  | |- preserves _ (match ?x with _ => _ end) => destruct x
  | |- preserves _ (stmt _ _) =>
    first [solve [eauto with remembering typeclass_instances]
          |let Hd := fresh "Hd" in let Hf := fresh "Hf" in apply preserves_stmt; intros ? ? ? Hd Hf]
  | |- preserves _ _ => solve [eauto with remembering typeclass_instances]
  end.
(** What a statement leaves. *)
Ltac remember_stmt :=
  match goal with Hf : _ = Ok (_, ?d) |- _ ?d =>
    cbv beta in Hf; revert Hf; repeat case_match; try done; intros [= _ <-];
    first [assumption|outside|grows] end.
Ltac remember_all := repeat (cbv beta zeta; remember_step); try remember_stmt.

(** ** The operations of the store *)
Section Store.
Context `{SJ : SqliteJson} {P : database -> Prop} `{!OutsideEvidence P}.

(** *** Media *)
Lemma remembers_applyMediaIngestProjection id : preserves P (applyMediaIngestProjection id).
Proof. unfold applyMediaIngestProjection. remember_all. Qed.
Lemma remembers_applyMediaSegmentProjection id : preserves P (applyMediaSegmentProjection id).
Proof. unfold applyMediaSegmentProjection. remember_all. Qed.
#[local] Hint Resolve remembers_applyMediaIngestProjection remembers_applyMediaSegmentProjection : remembering.
Lemma remembers_RebuildMediaProjections : preserves P RebuildMediaProjections.
Proof. unfold RebuildMediaProjections. remember_all. Qed.
Lemma remembers_resolveMediaClaim a b c e : preserves P (resolveMediaClaim a b c e).
Proof. unfold resolveMediaClaim. remember_all. Qed.
#[local] Hint Resolve remembers_resolveMediaClaim : remembering.
Lemma remembers_SaveMediaFileCheck a b c e : preserves P (SaveMediaFileCheck a b c e).
Proof. unfold SaveMediaFileCheck. remember_all. Qed.
Lemma remembers_MediaFileCheckMatches a b c : preserves P (MediaFileCheckMatches a b c).
Proof. unfold MediaFileCheckMatches. remember_all. Qed.
Lemma remembers_MediaIngestSummary : preserves P MediaIngestSummary.
Proof. unfold MediaIngestSummary. remember_all. Qed.

(** *** The logs of operations *)
Lemma remembers_log_stmt {A} get put ok key (x : A) :
  (forall d y, P d -> P (put d (insert_row y (get d)))) -> (forall d, put d (get d) = d) ->
  preserves P (log_stmt get put ok key x).
Proof.
  intros Hput Hget. unfold log_stmt, log_keyed. apply preserves_stmt. intros d a d' Hd.
  destruct (negb _); [done|]. destruct (existsb _ _); intros [= _ <-]; [by rewrite Hget|by apply Hput].
Qed.
(** The log as it is, or with a new row. *)
Ltac remember_log :=
  apply remembers_log_stmt; [intros; outside|by intros []].
Lemma remembers_AppendFaultEvent e : preserves P (AppendFaultEvent e).
Proof. remember_log. Qed.
Lemma remembers_AppendModuleStateEvent e : preserves P (AppendModuleStateEvent e).
Proof. remember_log. Qed.
Lemma remembers_mode_log key e :
  preserves P (log_stmt mode_transition_events with_mode_transition_events (fun _ => check_mode_transition key e) key e).
Proof. remember_log. Qed.
Lemma remembers_retention_log ok key e : preserves P (log_stmt retention_events with_retention_events ok key e).
Proof. remember_log. Qed.
Lemma remembers_AppendRetentionEvent e : preserves P (AppendRetentionEvent e).
Proof. apply remembers_retention_log. Qed.
#[local] Hint Resolve remembers_mode_log remembers_retention_log : remembering.
Lemma remembers_AppendModeTransition a b c e f : preserves P (AppendModeTransition a b c e f).
Proof. unfold AppendModeTransition. remember_all. Qed.
Lemma remembers_RetentionDeletionPlanned id p : preserves P (RetentionDeletionPlanned id p).
Proof. unfold RetentionDeletionPlanned. remember_all. Qed.
Lemma remembers_QueryDashboardHistory n : preserves P (QueryDashboardHistory n).
Proof. unfold QueryDashboardHistory. remember_all. Qed.
Lemma remembers_insert_state_keyed c e : preserves P (stmt c (insert_state_keyed e)).
Proof. remember_all. unfold insert_state_keyed in Hf. remember_stmt. Qed.
Lemma remembers_state_id c key : preserves P (stmt c (state_id key)).
Proof. remember_all. unfold state_id in Hf. remember_stmt. Qed.
#[local] Hint Resolve remembers_insert_state_keyed remembers_state_id remembers_applyMediaSegmentProjection : remembering.
Lemma remembers_CommitRetentionDeletion e : preserves P (CommitRetentionDeletion e).
Proof.
  unfold CommitRetentionDeletion. remember_all.
Qed.
Lemma remembers_RetentionCandidates cutoff n : preserves P (RetentionCandidates cutoff n).
Proof. apply preserves_query. Qed.
Lemma remembers_TemporaryPathReferenced p : preserves P (TemporaryPathReferenced p).
Proof. apply preserves_query. Qed.
Lemma remembers_Checkpoint b : preserves P (Checkpoint b).
Proof. unfold Checkpoint. remember_all. Qed.
Lemma remembers_LoadActivityWatchCheckpoint id b : preserves P (LoadActivityWatchCheckpoint id b).
Proof. unfold LoadActivityWatchCheckpoint. remember_all. Qed.
Lemma remembers_SaveActivityWatchCheckpoint t id c : preserves P (SaveActivityWatchCheckpoint t id c).
Proof. unfold SaveActivityWatchCheckpoint. remember_all. apply remembers_LoadActivityWatchCheckpoint. Qed.

(** *** Events and the timeline *)
Lemma remembers_QueryEventFamily id k : preserves P (QueryEventFamily id k).
Proof. unfold QueryEventFamily. remember_all. Qed.
Lemma remembers_QueryPage st c n : preserves P (QueryPage st c n).
Proof. unfold QueryPage, page_cursor. remember_all. Qed.

Context `{Zones} `{Floats} `{Float64} `{SqliteReal}.

Lemma remembers_collect_queries {A} (table : database -> list (row A)) project keep maxFacts maxBytes l target :
  preserves P (collect_queries table project keep maxFacts maxBytes l target).
Proof. revert target. induction l as [|q l IH]; intros target; cbn; remember_all. Qed.
#[local] Hint Resolve remembers_collect_queries : remembering.
Lemma remembers_upsert p : preserves P (stmt CodeWriteFailed (upsert_projection p)).
Proof. remember_all. unfold upsert_projection in Hf. remember_stmt. Qed.
#[local] Hint Resolve remembers_upsert : remembering.
Lemma remembers_sync maxBytes wait a b c n id o : preserves P (syncTimelineProjection maxBytes wait a b c n id o).
Proof.
  unfold syncTimelineProjection, upsertTimelineProjectionChunk.
  unfold collectRawEventProjections, collectHeartbeatProjections, collectMediaProjections. remember_all.
Qed.
#[local] Hint Resolve remembers_sync : remembering.
Lemma remembers_QueryTimeline st wait a b c n u m : preserves P (QueryTimeline st wait a b c n u m).
Proof. unfold QueryTimeline. remember_all. Qed.

(** *** Coverage *)
Lemma remembers_ignoring {A} (a : A) m : preserves P m -> preserves P (ignoring a m).
Proof.
  intros Hm d o Hd. specialize (Hm d o Hd). unfold ignoring, state_after in *. by destruct (m d o) as [[? ?] ?].
Qed.
Lemma remembers_attempt {A B} (m : M database A) (k : result error A -> M database B) :
  preserves P m -> (forall r, preserves P (k r)) -> preserves P (CoverageStore.attempt m k).
Proof.
  intros Hm Hk d o Hd. specialize (Hm d o Hd). unfold CoverageStore.attempt, state_after in *.
  destruct (m d o) as [[r d'] o']. by apply Hk.
Qed.
Lemma remembers_save_state code s f : preserves P (stmt code (save_state s f)).
Proof. remember_all. unfold save_state in Hf. remember_stmt. Qed.
Lemma remembers_insert_interval code i : preserves P (stmt code (insert_interval i)).
Proof. remember_all. unfold insert_interval in Hf. remember_stmt. Qed.
#[local] Hint Resolve remembers_ignoring remembers_save_state remembers_insert_interval : remembering.
Lemma remembers_markCoverageStale a b c e f : preserves P (markCoverageStale a b c e f).
Proof.
  unfold markCoverageStale. remember_all. apply remembers_ignoring. remember_all.
Qed.
#[local] Hint Resolve remembers_markCoverageStale : remembering.
Lemma remembers_rebuildCollectorCoverage a c s e n m : preserves P (rebuildCollectorCoverage a c s e n m).
Proof.
  unfold rebuildCollectorCoverage, replace_coverage, insert_one. remember_all.
Qed.
Lemma remembers_RebuildCoverage st env l a b n u m : preserves P (RebuildCoverage st env l a b n u m).
Proof.
  unfold RebuildCoverage, rebuild_collector. remember_all.
  apply remembers_attempt; [apply remembers_sync|]. intros [?|e]; [|remember_all].
  apply remembers_attempt; [apply remembers_rebuildCollectorCoverage|]. intros [?|e]; remember_all.
Qed.
End Store.
#[export] Hint Resolve remembers_RebuildMediaProjections remembers_applyMediaIngestProjection
  remembers_applyMediaSegmentProjection
  remembers_resolveMediaClaim remembers_SaveMediaFileCheck
  remembers_MediaFileCheckMatches remembers_MediaIngestSummary remembers_AppendFaultEvent
  remembers_AppendModuleStateEvent remembers_AppendModeTransition remembers_AppendRetentionEvent
  remembers_RetentionDeletionPlanned remembers_QueryDashboardHistory remembers_CommitRetentionDeletion
  remembers_RetentionCandidates remembers_TemporaryPathReferenced remembers_Checkpoint
  remembers_LoadActivityWatchCheckpoint remembers_SaveActivityWatchCheckpoint
  remembers_QueryEventFamily remembers_QueryPage remembers_QueryTimeline remembers_RebuildCoverage : remembering.

(** *** The operations that add evidence *)
Section Evidence.
Context `{SJ : SqliteJson} (d0 : database).
Abbreviation Hist := (history d0).

Lemma remembers_AppendBatch st t cs : preserves Hist (AppendBatch st t cs).
Proof.
  intros d o [Hok Hg]. unfold state_after. destruct (AppendBatch st t cs d o) as [[[rs|e] d'] o'] eqn:E; cbn.
  - destruct Hok as [Ho Hh]. destruct (append_batch_correct events_table _ _ _ _ _ _ _ _ _ _ Ho E) as (Ho' & [rows ->] & _).
    split; [by split|]. etransitivity; [exact Hg|]. split; cbn; auto with monitor nocore. split; [by exists rows|].
    intros _. apply Ho'.
  - by apply append_batch_atomic in E as ->.
Qed.
Lemma remembers_AppendHeartbeatBatch st t cs : preserves Hist (AppendHeartbeatBatch st t cs).
Proof.
  intros d o [Hok Hg]. unfold state_after. destruct (AppendHeartbeatBatch st t cs d o) as [[[rs|e] d'] o'] eqn:E; cbn.
  - destruct Hok as [Ho Hh]. destruct (append_batch_correct heartbeats_table _ _ _ _ _ _ _ _ _ _ Hh E) as (Hh' & [rows ->] & _).
    split; [by split|]. etransitivity; [exact Hg|]. split; cbn; auto with monitor nocore. split; [by exists rows|].
    intros _. apply Hh'.
  - by apply append_batch_atomic in E as ->.
Qed.

Lemma remembers_insertMediaIngestEvent e : preserves Hist (insertMediaIngestEvent e).
Proof.
  unfold insertMediaIngestEvent, append_transition. remember_all. unfold insert_ingest in Hf. remember_stmt.
Qed.
#[local] Hint Resolve remembers_insertMediaIngestEvent : remembering.
Lemma remembers_AppendMediaIngestEvent e : preserves Hist (AppendMediaIngestEvent e).
Proof. unfold AppendMediaIngestEvent. remember_all. Qed.
Lemma remembers_AcceptMedia m e key : preserves Hist (AcceptMedia m e key).
Proof.
  unfold AcceptMedia, accept_body. remember_all.
  - unfold insert_segment in Hf. remember_stmt.
  - unfold insert_state in Hf. remember_stmt.
Qed.
End Evidence.

(** *** Properties that the operations that add evidence keep too

    What holds of a database outside the segments survives every operation but
    the acceptance of media; [RemembersMedia] adds that one. *)
Class Remembers `{SqliteJson} (P : database -> Prop) := {
  rm_outside :: OutsideEvidence P;
  rm_events st t cs : preserves P (AppendBatch st t cs);
  rm_heartbeats st t cs : preserves P (AppendHeartbeatBatch st t cs);
  rm_ingests e : preserves P (AppendMediaIngestEvent e) }.
Class RemembersMedia `{SqliteJson} (P : database -> Prop) := {
  rm_remembers :: Remembers P;
  rm_media m e key : preserves P (AcceptMedia m e key) }.
#[export] Hint Resolve rm_events rm_heartbeats rm_ingests rm_media : remembering.

#[export] Instance history_remembers `{SqliteJson} d0 : RemembersMedia (history d0).
Proof.
  split; [split; [apply _|..]|]; intros; [apply remembers_AppendBatch|apply remembers_AppendHeartbeatBatch
    |apply remembers_AppendMediaIngestEvent|apply remembers_AcceptMedia].
Qed.

(** The segments are one such property. *)
Definition same_segments (l : list (row MediaMetadata)) (d : database) : Prop := media_segments d = l.
#[export] Instance segments_outside l : OutsideEvidence (same_segments l).
Proof. split; intros; done. Qed.
Lemma segments_insertMediaIngestEvent l e : preserves (same_segments l) (insertMediaIngestEvent e).
Proof.
  unfold insertMediaIngestEvent, append_transition. remember_all. unfold insert_ingest in Hf.
  revert Hf. repeat case_match; try done; by intros [= _ <-].
Qed.
Section Keyed.
Context {A} (T : keyed_table A) (P : database -> Prop) (Hw : forall d t, P d -> P (k_with T d t)).
Lemma keyed_append i slot : preserves P (append_slot T i slot).
Proof.
  destruct slot as [code|item]; cbn [append_slot]; [apply preserves_mret|]. unfold append_keyed, insert_keyed. remember_all;
    revert Hf; repeat case_match; try done; intros [= _ <-]; auto.
Qed.
Lemma keyed_outside mx c1 c2 prep cs : preserves P (append_batch T mx c1 c2 prep cs).
Proof.
  unfold append_batch. remember_all; apply preserves_mmapi; intros; apply keyed_append.
Qed.
End Keyed.
#[export] Instance segments_remembers `{SqliteJson} l : Remembers (same_segments l).
Proof.
  split; [apply _|..]; intros; [by apply (keyed_outside events_table)|by apply (keyed_outside heartbeats_table)|].
  unfold AppendMediaIngestEvent. remember_all. apply segments_insertMediaIngestEvent.
Qed.
