(* ===== verification/HistoryRun.v ===== *)
(** * What the managers, the collectors and the handlers never forget

    Whole computations of media ingest, of storage protection and retention and of
    a request keep what the operations of the store keep (class [Remembers]), the
    rows of the append-only tables first, whatever fails in them. *)

From Stdlib Require Import ZArith Lia String Ascii.
From S2P Require Import Prelude GoStrings GoTime GoJson StrictJson Sql Schema Keyed Events Heartbeats Query Platform Config Coverage MediaStore OpsStore Timeline TimelineSync CoverageStore Sidecar MediaScan MediaFiles MediaIngest PathFacts MediaFrame MediaAccept Operations Retention HttpApi Server History.
Open Scope string_scope.
Open Scope list_scope.
Open Scope result_scope.
Open Scope Z_scope.
Open Scope io_scope.

(** ** Computations that keep a property of the database *)
Lemma db_keeps_or_fail {A} P (m : F A) code text : db_keeps P m -> db_keeps P (or_fail m code text).
Proof. intros Hm. apply db_keeps_bind; [by apply db_keeps_attempt|]. intros [a|e]; apply db_keeps_same; by intros ?. Qed.
Lemma db_keeps_flift {A} P (r : result media_error A) : db_keeps P (flift r).
Proof. apply db_keeps_same. by destruct r; intros ?. Qed.
Lemma db_keeps_run_store {A} (P : database -> Prop) (m : M database A) : preserves P m -> db_keeps P (run_store m).
Proof.
  intros Hm w Hw. specialize (Hm (w_db w) (w_oracle w) Hw). unfold run_store, state_after in *.
  by destruct (m (w_db w) (w_oracle w)) as [[? ?] ?].
Qed.

Create HintDb recalling.
Ltac recall_step :=
  lazymatch goal with
  | |- db_keeps _ (fbind _ _) => apply db_keeps_bind; [|intros ?]
  | |- db_keeps _ (fret _) => apply db_keeps_same; by intros ?
  | |- db_keeps _ (ffail _) => apply db_keeps_same; by intros ?
  | |- db_keeps _ (flift _) => apply db_keeps_flift
  | |- db_keeps _ (ask _) => apply db_keeps_same; by intros ?
  | |- db_keeps _ (attempt _) => apply db_keeps_attempt
  | |- db_keeps _ (ignore _) => apply db_keeps_ignore
  | |- db_keeps _ (or_fail _ _ _) => apply db_keeps_or_fail
  | |- db_keeps _ (store _) => apply db_keeps_store
  | |- db_keeps _ (run_store _) => apply db_keeps_run_store
  | |- db_keeps _ (call _) => apply db_keeps_same, keeps_db_call
  | |- db_keeps _ (call_with _ _) => apply db_keeps_same, keeps_db_call_with
  | |- db_keeps _ (match ?x with _ => _ end) => destruct x
  | |- db_keeps _ ?m => first [solve [auto with recalling nocore] | recall_head m]
  | |- preserves _ _ => solve [eauto with remembering typeclass_instances nocore]
  end.
Ltac recall := repeat (cbv beta zeta; recall_step).

(** ** The managers *)
Section Managers.
Context `{SJ : SqliteJson} `{Paths} `{Zones} `{Network} `{Floats} `{FilePaths} {env : Environment} `{Disk} (cfg : Config).
Context {P : database -> Prop} `{!Remembers P}.

(** *** Files *)
Lemma recalls_check_components l : forall cursor, db_keeps P (check_components cursor l).
Proof. induction l as [|x l IH]; intros cursor; cbn [check_components]; recall. Qed.
Lemma recalls_missing_directories fuel : forall cursor l, db_keeps P (missing_directories fuel cursor l).
Proof. induction fuel as [|n IH]; intros cursor l; cbn [missing_directories]; recall. Qed.
Lemma recalls_make_directories l : db_keeps P (make_directories l).
Proof. induction l as [|x l IH]; cbn [make_directories]; recall. Qed.
#[local] Hint Resolve recalls_check_components recalls_missing_directories recalls_make_directories : recalling.
Lemma recalls_secureMkdirAll p : db_keeps P (secureMkdirAll p).
Proof. recall. Qed.
#[local] Hint Resolve recalls_secureMkdirAll : recalling.
Lemma recalls_make_all l : db_keeps P (make_all l).
Proof. induction l as [|x l IH]; cbn [make_all]; recall. Qed.
Lemma recalls_copy_chunks fuel : forall source target copied, db_keeps P (copy_chunks cfg fuel source target copied).
Proof. induction fuel as [|n IH]; intros; cbn [copy_chunks]; recall. Qed.
Lemma recalls_copy_limited fuel : forall source target copied, db_keeps P (copy_limited cfg fuel source target copied).
Proof. induction fuel as [|n IH]; intros; cbn [copy_limited]; recall. Qed.
Lemma recalls_stampFiles l : db_keeps P (stampFiles l).
Proof. induction l as [|x l IH]; cbn [stampFiles]; recall. Qed.
Lemma recalls_ensureSafePath root p b : db_keeps P (ensureSafePath root p b).
Proof. recall. Qed.
Lemma recalls_ensureManagedPath root p b : db_keeps P (ensureManagedPath root p b).
Proof. recall. Qed.
Lemma recalls_verifyManagedFile p n h : db_keeps P (verifyManagedFile cfg p n h).
Proof. recall. Qed.
Lemma recalls_writeAtomicFile p c : db_keeps P (writeAtomicFile p c).
Proof. recall. Qed.
#[local] Hint Resolve recalls_make_all recalls_copy_chunks recalls_copy_limited recalls_stampFiles recalls_ensureSafePath
  recalls_ensureManagedPath recalls_verifyManagedFile recalls_writeAtomicFile : recalling.

(** *** Media ingest *)
Lemma recalls_record i status code temporary id : db_keeps P (record i status code temporary id).
Proof. recall. Qed.
#[local] Hint Resolve recalls_record : recalling.
Lemma recalls_abandon {A} i code temporary e : db_keeps P (abandon (A := A) i code temporary e).
Proof. recall. Qed.
#[local] Hint Resolve @recalls_abandon : recalling.
Lemma recalls_quarantine i p raw staging code : db_keeps P (quarantine cfg i p raw staging code).
Proof. recall. Qed.
#[local] Hint Resolve recalls_quarantine : recalling.
Lemma recalls_confirmationValid p : db_keeps P (confirmationValid cfg p).
Proof. recall. Qed.
Lemma recalls_confirmationCached p : db_keeps P (confirmationCached cfg p).
Proof. recall. Qed.
#[local] Hint Resolve recalls_confirmationValid recalls_confirmationCached : recalling.
Lemma recalls_list_candidates l : db_keeps P (list_candidates cfg l).
Proof. induction l as [|x l IH]; cbn [list_candidates]; recall. Qed.
#[local] Hint Resolve recalls_list_candidates : recalling.
Lemma recalls_Initialize m : db_keeps P (MediaIngest.Initialize cfg m).
Proof. recall. Qed.

(** With the acceptance of media. *)
Section Accepting.
Context `{!RemembersMedia P}.
Lemma recalls_process_staged i a b c e s : db_keeps P (process_staged cfg i a b c e s).
Proof. recall. Qed.
#[local] Hint Resolve recalls_process_staged : recalling.
Lemma recalls_ProcessReady p : db_keeps P (ProcessReady cfg p).
Proof. recall. Qed.
#[local] Hint Resolve recalls_ProcessReady : recalling.
Lemma recalls_process_selected l : forall s, db_keeps P (process_selected cfg l s).
Proof. induction l as [|x l IH]; intros s; cbn [process_selected]; recall. Qed.
#[local] Hint Resolve recalls_process_selected : recalling.
Lemma recalls_scanAndLog m : db_keeps P (scanAndLog cfg m).
Proof. recall. Qed.
End Accepting.
#[local] Hint Resolve recalls_Initialize : recalling.

(** *** Storage protection and retention *)
Lemma recalls_RecordFault a b c e f : db_keeps P (RecordFault a b c e f).
Proof. recall. Qed.
Lemma recalls_RecordModuleState a b c : db_keeps P (RecordModuleState a b c).
Proof. recall. Qed.
Lemma recalls_recordError a b c e : db_keeps P (recordError a b c e).
Proof. recall. Qed.
#[local] Hint Resolve recalls_RecordFault recalls_RecordModuleState recalls_recordError : recalling.
Lemma recalls_clean_entries root cutoff l : forall n, db_keeps P (clean_entries cfg root cutoff n l).
Proof. induction l as [|x l IH]; intros n; cbn [clean_entries]; recall. Qed.
Lemma recalls_loadBackupCoverage : db_keeps P (loadBackupCoverage cfg).
Proof. recall. Qed.
Lemma recalls_retain_candidate cov c : db_keeps P (retain_candidate cfg cov c).
Proof. recall. Qed.
#[local] Hint Resolve recalls_clean_entries recalls_loadBackupCoverage recalls_retain_candidate : recalling.
Lemma recalls_retain_candidates cov l : db_keeps P (retain_candidates cfg cov l).
Proof. induction l as [|x l IH]; cbn [retain_candidates]; recall. Qed.
#[local] Hint Resolve recalls_retain_candidates : recalling.
Lemma recalls_on_tick s k : db_keeps P (on_tick cfg s k).
Proof. recall. Qed.
Lemma recalls_record_modules l : db_keeps P (record_modules l).
Proof. induction l as [|[m [s r]] l IH]; cbn [record_modules]; recall. Qed.
#[local] Hint Resolve recalls_record_modules : recalling.
Lemma recalls_startup b : db_keeps P (startup cfg b).
Proof. recall. Qed.
Lemma recalls_start_media m : db_keeps P (start_media cfg m).
Proof. recall. Qed.

(** *** Requests *)
Context `{Requests} `{Float64} `{SqliteReal} (h : Handler).
Lemma recalls_call_store {A} v (m : Store -> M database A) :
  (forall st, preserves P (m st)) -> db_keeps P (call_store v m).
Proof. intros Hm. unfold call_store. destruct v; recall. Qed.
#[local] Hint Resolve recalls_call_store : recalling.
Lemma recalls_complete r s req : db_keeps P (complete cfg h r s req).
Proof. unfold complete. destruct r; cbn [finish]; recall. Qed.
End Managers.
(** The lemmas above as hints, for whichever property. *)
Ltac recall_known :=
  first [simple apply recalls_check_components|simple apply recalls_missing_directories
        |simple apply recalls_make_directories|simple apply recalls_secureMkdirAll
        |simple apply recalls_make_all|simple apply recalls_copy_chunks|simple apply recalls_copy_limited
        |simple apply recalls_stampFiles|simple apply recalls_record|simple apply recalls_abandon
        |simple apply recalls_quarantine|simple apply recalls_confirmationValid
        |simple apply recalls_confirmationCached|simple apply recalls_list_candidates
        |simple apply recalls_Initialize|simple apply recalls_process_staged
        |simple apply recalls_ProcessReady|simple apply recalls_process_selected
        |simple apply recalls_scanAndLog|simple apply recalls_RecordFault
        |simple apply recalls_RecordModuleState|simple apply recalls_clean_entries
        |simple apply recalls_loadBackupCoverage|simple apply recalls_retain_candidate
        |simple apply recalls_retain_candidates|simple apply recalls_on_tick
        |simple apply recalls_record_modules|simple apply recalls_startup|simple apply recalls_start_media
        |simple apply recalls_complete]; first [assumption|exact _].
#[export] Hint Extern 1 (db_keeps _ _) => recall_known : recalling.
