(* ===== verification/HistoryPoll.v ===== *)
(** * What a poll never forgets

    A poll of a collector keeps what the operations of the store keep, the rows of
    the append-only tables first. *)

From Stdlib Require Import ZArith Lia String Ascii.
From S2P Require Import Prelude GoStrings GoTime GoJson StrictJson Sql Schema Keyed Events Heartbeats Query Platform Config MediaStore OpsStore ActivityWatch ActivityWatchPoll History.
Open Scope string_scope.
Open Scope list_scope.
Open Scope result_scope.
Open Scope Z_scope.
Open Scope poll_scope.

(** ** Computations that keep a property of the database *)
Definition p_keeps (Q : database -> Prop) {A} (m : P A) : Prop := forall w, Q (p_db w) -> Q (p_db (snd (m w))).

Section Keeps.
Context (Q : database -> Prop).
Lemma p_keeps_bind {A B} (m : P A) (k : A -> P B) : p_keeps Q m -> (forall a, p_keeps Q (k a)) -> p_keeps Q (pbind m k).
Proof.
  intros Hm Hk w Hw. specialize (Hm w Hw). unfold pbind. destruct (m w) as [[a|e] w1]; [by apply Hk|done].
Qed.
Lemma p_keeps_same {A} (m : P A) : (forall w, p_db (snd (m w)) = p_db w) -> p_keeps Q m.
Proof. intros Hm w Hw. by rewrite Hm. Qed.
Lemma p_keeps_attempt {A} (m : P A) : p_keeps Q m -> p_keeps Q (attempt m).
Proof. intros Hm w Hw. specialize (Hm w Hw). unfold attempt. by destruct (m w). Qed.
Lemma p_keeps_store {A} (m : M database A) : preserves Q m -> p_keeps Q (store m).
Proof.
  intros Hm w Hw. specialize (Hm (p_db w) (p_oracle w) Hw). unfold store, state_after in *.
  by destruct (m (p_db w) (p_oracle w)) as [[? ?] ?].
Qed.
End Keeps.

Create HintDb polling.
Ltac poll_head m := lazymatch m with ?f _ => poll_head f | ?f => unfold f end.
Ltac poll_step :=
  lazymatch goal with
  | |- p_keeps _ (pbind _ _) => apply p_keeps_bind; [|intros ?]
  | |- p_keeps _ (pret _) => by apply p_keeps_same
  | |- p_keeps _ (pfail _ _) => by apply p_keeps_same
  | |- p_keeps _ (plift _) => by apply p_keeps_same
  | |- p_keeps _ (ask _) => by apply p_keeps_same
  | |- p_keeps _ (attempt _) => apply p_keeps_attempt
  | |- p_keeps _ (store _) => apply p_keeps_store
  | |- p_keeps _ (match ?x with _ => _ end) => destruct x
  | |- p_keeps _ ?m => first [solve [auto with polling nocore] | poll_head m]
  | |- preserves _ _ => solve [eauto with remembering typeclass_instances nocore]
  end.
Ltac polls := repeat (cbv beta zeta; poll_step).

Section Poll.
Context `{SJ : SqliteJson} `{FL : Floats} `{FT : FloatText} {sur : Surroundings} `{UR : Urls} (st : Store).
Context {Q : database -> Prop} `{!Remembers Q}.

Lemma recordPollStatus_same c t r w : p_db (snd (recordPollStatus c t r w)) = p_db w.
Proof. unfold recordPollStatus. by destruct (status_fault _ _ _). Qed.
Lemma polls_recordPollStatus c t r : p_keeps Q (recordPollStatus c t r).
Proof. apply p_keeps_same. intros w. apply recordPollStatus_same. Qed.
Lemma polls_getJSON {A} endpoint limit (decode : string -> option A) : p_keeps Q (getJSON endpoint limit decode).
Proof. polls. Qed.
#[local] Hint Resolve polls_recordPollStatus @polls_getJSON : polling.
Lemma polls_fetch_pages n : forall aw qs s e a b c l f, p_keeps Q (fetch_pages n aw qs s e a b c l f).
Proof. induction n as [|n IH]; intros; cbn [fetch_pages]; polls. Qed.
Lemma polls_poll_results c aw bucket page rs : forall s, p_keeps Q (poll_results st c aw bucket page s rs).
Proof. induction rs as [|r rs IH]; intros s; cbn [poll_results]; polls. Qed.
#[local] Hint Resolve polls_fetch_pages polls_poll_results : polling.
Lemma polls_poll_batches c aw bucket l : forall s, p_keeps Q (poll_batches st c aw bucket l s).
Proof. induction l as [|page l IH]; intros s; cbn [poll_batches]; polls. Qed.
#[local] Hint Resolve polls_poll_batches : polling.
Lemma polls_pollAndRecord c aw : p_keeps Q (pollAndRecord st c aw).
Proof. polls. Qed.
End Poll.
