(* ===== verification/Protection.v ===== *)
(** * The reserve of the database

    From the moment the free space stays at the reserve, the gates stay closed: no
    step of media ingest, of a collector or of a request adds evidence, and batches
    are answered with status 507. *)

From Stdlib Require Import ZArith Lia String Ascii.
From S2P Require Import Prelude GoStrings GoTime GoJson StrictJson Sql Schema Keyed Events Heartbeats Query Platform Config Coverage MediaStore OpsStore Timeline TimelineSync CoverageStore Sidecar ActivityWatch ActivityWatchPoll MediaScan MediaFiles MediaIngest PathFacts MediaFrame MediaAccept Operations Retention HttpApi Server History HistoryRun.
Open Scope string_scope.
Open Scope list_scope.
Open Scope result_scope.
Open Scope Z_scope.
Open Scope io_scope.

(** ** Gates that follow the disk

    [Run] hands the operations manager to media ingest and to the collectors as
    their gate: what a gate answers at a step is what [MediaAllowed] and
    [CoreWritesAllowed] make of the free space there. *)
Definition media_reason `{Disk} (cfg : Config) (n : nat) : option string :=
  let r := report_of cfg (free_bytes n) in if String.eqb (dk_level r) DiskNormal then None else Some (dk_code r).
Definition core_reason `{Disk} (cfg : Config) (n : nat) : option string :=
  let r := report_of cfg (free_bytes n) in if String.eqb (dk_level r) DiskReserve then Some (dk_code r) else None.
Class Wired `{Environment} `{Disk} `{Surroundings} (cfg : Config) := {
  wired_media n : media_gate n = media_reason cfg n;
  wired_core n : core_gate n = core_reason cfg n;
  wired_import n : import_gate n = core_reason cfg n }.
(** The gates are the answers of the manager. *)
Lemma MediaAllowed_reason `{Environment} `{Disk} cfg o w :
  rmap snd (fst (MediaAllowed cfg o w)) = Ok (media_reason cfg (w_step w)).
Proof. done. Qed.
Lemma CoreWritesAllowed_reason `{Environment} `{Disk} cfg o w :
  rmap snd (fst (CoreWritesAllowed cfg o w)) = Ok (core_reason cfg (w_step w)).
Proof. done. Qed.

(** The disk stays at the reserve from a step on. *)
Definition at_reserve `{Disk} (cfg : Config) (n0 : nat) : Prop :=
  forall n, (n0 <= n)%nat -> dk_level (report_of cfg (free_bytes n)) = DiskReserve.

Create HintDb shutting.
Create HintDb barring.

Section Closed.
Context `{Paths} `{Zones} `{Network} `{Floats} `{FilePaths} {env : Environment} `{Disk} {sur : Surroundings} (cfg : Config) `{!Wired cfg}.
Context (n0 : nat) (Hdisk : at_reserve cfg n0) (e : list (row preparedEvent) * list (row preparedHeartbeat) * list (row MediaMetadata) * list (row MediaIngestEvent)).

Lemma core_closed n : (n0 <= n)%nat -> exists code, core_reason cfg n = Some code.
Proof. intros Hn. unfold core_reason. rewrite Hdisk by done. by eexists. Qed.
Lemma media_closed n : (n0 <= n)%nat -> exists code, media_reason cfg n = Some code.
Proof. intros Hn. unfold media_reason. rewrite Hdisk by done. by eexists. Qed.

(** ** Computations that add no evidence *)
Definition late (w : world) : Prop := (n0 <= w_step w)%nat /\ evidence (w_db w) = e.
Definition bars {A} (m : F A) : Prop := forall w, late w -> late (snd (m w)).
(** A computation that fails besides. *)
Definition shut {A} (m : F A) : Prop := forall w, late w -> late (snd (m w)) /\ exists x, fst (m w) = Err x.

Lemma bars_bind {A B} (m : F A) (k : A -> F B) : bars m -> (forall a, bars (k a)) -> bars (fbind m k).
Proof. intros Hm Hk w Hw. specialize (Hm w Hw). unfold fbind. destruct (m w) as [[a|x] w']; [by apply Hk|done]. Qed.
Lemma shut_bars {A} (m : F A) : shut m -> bars m.
Proof. intros Hm w Hw. by apply Hm. Qed.
Lemma shut_bind {A B} (m : F A) (k : A -> F B) : shut m -> shut (fbind m k).
Proof.
  intros Hm w Hw. destruct (Hm w Hw) as [Hl [x Ex]]. unfold fbind. destruct (m w) as [r w']. cbn in *. subst r. split; [done|by exists x].
Qed.
Lemma bars_attempt_shut {A B} (m : F A) (k : result media_error A -> F B) :
  shut m -> (forall x, bars (k (Err x))) -> bars (fbind (attempt m) k).
Proof.
  intros Hm Hk w Hw. destruct (Hm w Hw) as [Hl [x Ex]]. unfold fbind, attempt. destruct (m w) as [r w']. cbn in *.
  subst r. by apply Hk.
Qed.
Lemma bars_attempt {A} (m : F A) : bars m -> bars (attempt m).
Proof. intros Hm w Hw. specialize (Hm w Hw). unfold attempt. by destruct (m w). Qed.
Lemma bars_ignore {A} (m : F A) : bars m -> bars (ignore m).
Proof. intros Hm w Hw. specialize (Hm w Hw). unfold ignore. by destruct (m w). Qed.
Lemma bars_ret {A} (a : A) : bars (fret a).
Proof. by intros w Hw. Qed.
Lemma bars_fail {A} x : bars (@ffail A x).
Proof. by intros w Hw. Qed.
Lemma bars_lift {A} (r : result media_error A) : bars (flift r).
Proof. by destruct r; intros w Hw. Qed.
Lemma bars_or_fail {A} (m : F A) code text : bars m -> bars (or_fail m code text).
Proof. intros Hm. apply bars_bind; [by apply bars_attempt|]. intros [a|x]; [apply bars_ret|apply bars_fail]. Qed.
Lemma bars_ask {A} (f : nat -> A) : bars (ask f).
Proof. intros w [Hn He]. split; cbn; [lia|done]. Qed.
Lemma bars_call_with {A} broken (f : nat -> files -> result media_error A * files) : bars (call_with broken f).
Proof. intros w [Hn He]. unfold call_with. destruct (if io_fault _ then _ else _) as [r fs]. split; cbn; [lia|done]. Qed.
Lemma bars_store {A} (m : M database A) : preserves (fun d => evidence d = e) m -> bars (store m).
Proof.
  intros Hm w [Hn He]. specialize (Hm (w_db w) (w_oracle w) He). unfold store, state_after in *.
  by destruct (m (w_db w) (w_oracle w)) as [[? ?] ?].
Qed.
Lemma bars_run_store {A} (m : M database A) : preserves (fun d => evidence d = e) m -> bars (run_store m).
Proof.
  intros Hm w [Hn He]. specialize (Hm (w_db w) (w_oracle w) He). unfold run_store, state_after in *.
  by destruct (m (w_db w) (w_oracle w)) as [[? ?] ?].
Qed.

(** *** The gates *)
Lemma shut_ask_gate {A} (f : nat -> option string) (k : string -> F A) (d : F A) :
  (forall n, (n0 <= n)%nat -> exists code, f n = Some code) -> (forall code, shut (k code)) ->
  shut (fbind (ask f) (fun r => match r with None => d | Some c => k c end)).
Proof.
  intros Hf Hk w [Hn He]. unfold fbind, ask. destruct (Hf _ Hn) as [code ->]. apply Hk. split; cbn; [lia|done].
Qed.
Lemma shut_fail {A} x : shut (@ffail A x).
Proof. intros w Hw. split; [done|by eexists]. Qed.
Lemma shut_media : shut ensureMediaAllowed.
Proof.
  apply shut_ask_gate; [|intros code; apply shut_fail]. intros n Hn. rewrite wired_media. by apply media_closed.
Qed.
Lemma shut_core : shut ensureCoreWritesAllowed.
Proof.
  apply shut_ask_gate; [|intros code; apply shut_fail]. intros n Hn. rewrite wired_core. by apply core_closed.
Qed.
Lemma shut_record i status code temporary id : shut (record i status code temporary id).
Proof. apply shut_bind, shut_core. Qed.
#[local] Hint Resolve shut_media shut_core shut_record : shutting.

(** Through a computation, as far as the first closed gate. *)
Ltac shuts := solve [repeat first [solve [auto with shutting nocore] | apply shut_bind]].
Ltac bar_step :=
  lazymatch goal with
  | |- bars (fbind (attempt _) _) =>
    first [apply bars_attempt_shut; [shuts|intros ?] | apply bars_bind; [apply bars_attempt|intros ?]]
  | |- bars (fbind _ _) => first [apply shut_bars, shut_bind; shuts | apply bars_bind; [|intros ?]]
  | |- bars (fret _) => apply bars_ret
  | |- bars (ffail _) => apply bars_fail
  | |- bars (flift _) => apply bars_lift
  | |- bars (ask _) => apply bars_ask
  | |- bars (attempt _) => apply bars_attempt
  | |- bars (ignore _) => apply bars_ignore
  | |- bars (or_fail _ _ _) => apply bars_or_fail
  | |- bars (store _) => apply bars_store
  | |- bars (run_store _) => apply bars_run_store
  | |- bars (call _) => apply bars_call_with
  | |- bars (call_with _ _) => apply bars_call_with
  | |- bars (match ?x with _ => _ end) => destruct x
  | |- bars ?m => first [solve [auto with barring nocore] | apply shut_bars; shuts | recall_head m]
  | |- preserves _ _ => solve [eauto with remembering typeclass_instances nocore]
  end.
Ltac bar := repeat (cbv beta zeta; bar_step).

(** ** Media ingest *)
Lemma bars_check_components l : forall cursor, bars (check_components cursor l).
Proof. induction l as [|x l IH]; intros cursor; cbn [check_components]; bar. Qed.
Lemma bars_missing_directories fuel : forall cursor l, bars (missing_directories fuel cursor l).
Proof. induction fuel as [|n IH]; intros cursor l; cbn [missing_directories]; bar. Qed.
Lemma bars_make_directories l : bars (make_directories l).
Proof. induction l as [|x l IH]; cbn [make_directories]; bar. Qed.
#[local] Hint Resolve bars_check_components bars_missing_directories bars_make_directories : barring.
Lemma bars_secureMkdirAll p : bars (secureMkdirAll p).
Proof. bar. Qed.
#[local] Hint Resolve bars_secureMkdirAll : barring.
Lemma bars_make_all l : bars (make_all l).
Proof. induction l as [|x l IH]; cbn [make_all]; bar. Qed.
Lemma bars_stampFiles l : bars (stampFiles l).
Proof. induction l as [|x l IH]; cbn [stampFiles]; bar. Qed.
Lemma bars_ensureSafePath root p b : bars (ensureSafePath root p b).
Proof. bar. Qed.
Lemma bars_ensureManagedPath root p b : bars (ensureManagedPath root p b).
Proof. bar. Qed.
#[local] Hint Resolve bars_make_all bars_stampFiles bars_ensureSafePath bars_ensureManagedPath : barring.
Lemma bars_confirmationValid p : bars (confirmationValid cfg p).
Proof. bar. Qed.
Lemma bars_confirmationCached p : bars (confirmationCached cfg p).
Proof. bar. Qed.
#[local] Hint Resolve bars_confirmationValid bars_confirmationCached : barring.
Lemma bars_ProcessReady p : bars (ProcessReady cfg p).
Proof. bar. Qed.
#[local] Hint Resolve bars_ProcessReady : barring.
Lemma bars_list_candidates l : bars (list_candidates cfg l).
Proof. induction l as [|x l IH]; cbn [list_candidates]; bar. Qed.
Lemma bars_process_selected l : forall s, bars (process_selected cfg l s).
Proof. induction l as [|x l IH]; intros s; cbn [process_selected]; bar. Qed.
#[local] Hint Resolve bars_list_candidates bars_process_selected : barring.
Lemma bars_scanAndLog m : bars (scanAndLog cfg m).
Proof. bar. Qed.
Lemma bars_Initialize m : bars (MediaIngest.Initialize cfg m).
Proof. bar. Qed.
#[local] Hint Resolve bars_scanAndLog bars_Initialize : barring.

(** ** Storage protection and retention go on *)
Lemma bars_RecordFault a b c d f : bars (RecordFault a b c d f).
Proof. bar. Qed.
Lemma bars_RecordModuleState a b c : bars (RecordModuleState a b c).
Proof. bar. Qed.
Lemma bars_recordError a b c x : bars (recordError a b c x).
Proof. bar. Qed.
#[local] Hint Resolve bars_RecordFault bars_RecordModuleState bars_recordError : barring.
Lemma bars_clean_entries root cutoff l : forall n, bars (clean_entries cfg root cutoff n l).
Proof. induction l as [|x l IH]; intros n; cbn [clean_entries]; bar. Qed.
Lemma bars_loadBackupCoverage : bars (loadBackupCoverage cfg).
Proof. bar. Qed.
Lemma bars_retain_candidate cov c : bars (retain_candidate cfg cov c).
Proof. bar. Qed.
#[local] Hint Resolve bars_clean_entries bars_loadBackupCoverage bars_retain_candidate : barring.
Lemma bars_retain_candidates cov l : bars (retain_candidates cfg cov l).
Proof. induction l as [|x l IH]; cbn [retain_candidates]; bar. Qed.
#[local] Hint Resolve bars_retain_candidates : barring.
Lemma bars_on_tick s k : bars (on_tick cfg s k).
Proof. bar. Qed.
Lemma bars_start_media m : bars (start_media cfg m).
Proof. bar. Qed.

(** ** Requests *)
Context `{Requests} `{SqliteJson} `{Float64} `{SqliteReal} (h : Handler) (Hmanager : hd_operations h = true).

(** The gate of the handlers answers with the code of the reserve. *)
Lemma gate_closed s w : late w -> exists s' code w', write_gate cfg h s w = (Ok (s', Some code), w') /\ late w'.
Proof.
  intros [Hn He]. unfold write_gate. rewrite Hmanager. unfold CoreWritesAllowed, refreshDiskStatus, now_text, now, ask, fbind, fret.
  cbn. rewrite Hdisk by done. do 3 eexists. split; [reflexivity|]. split; cbn; [lia|done].
Qed.
Lemma bars_gate s : bars (write_gate cfg h s).
Proof. intros w Hw. by destruct (gate_closed s w Hw) as (s' & code & w' & -> & Hw'). Qed.

(** A batch is refused before it is read. *)
Lemma batch_refused k append s req w st : hd_store h = OpenStore st -> late w ->
  exists s' code w', finish_batch cfg h k append s req w
    = (Ok (s', Answer (writeError req 507 code (bk_unconfirmed k))), w') /\ late w'.
Proof.
  intros Hst Hw. unfold finish_batch. rewrite Hst. cbn [is_nil].
  destruct (gate_closed s w Hw) as (s' & code & w' & E & Hw'). unfold fbind at 1. rewrite E. by exists s', code, w'.
Qed.
Lemma bars_call_store {A} v (m : Store -> M database A) :
  (forall st, preserves (fun d => evidence d = e) (m st)) -> bars (call_store v m).
Proof. intros Hm. unfold call_store. destruct v; bar. Qed.
#[local] Hint Resolve bars_gate bars_call_store : barring.
Lemma bars_finish r s req st : hd_store h = OpenStore st -> bars (finish cfg h r s req).
Proof.
  intros Hst. destruct r; cbn [finish]; try solve [bar];
    intros w Hw; unfold handleEventBatch, handleHeartbeatBatch;
    match goal with |- context [finish_batch cfg h ?k ?f s req w] =>
      destruct (batch_refused k f s req w st Hst Hw) as (s' & code & w' & -> & Hw') end; done.
Qed.
Lemma bars_complete r s req st : hd_store h = OpenStore st -> bars (complete cfg h r s req).
Proof. intros Hst. apply bars_bind; [by eapply bars_finish|]. intros [s' o]. apply bars_ret. Qed.
End Closed.
