(* ===== verification/ProtectionPoll.v ===== *)
(** * Polls at the reserve of the database

    While the gate of the imports stays closed a poll adds no evidence. *)

From Stdlib Require Import ZArith Lia String Ascii.
From S2P Require Import Prelude GoStrings GoTime GoJson StrictJson Sql Schema Keyed Events Heartbeats Query Platform Config MediaStore OpsStore ActivityWatch ActivityWatchPoll History HistoryPoll.
Open Scope string_scope.
Open Scope list_scope.
Open Scope result_scope.
Open Scope Z_scope.
Open Scope poll_scope.

Create HintDb poll_shutting.
Create HintDb poll_barring.

Section Closed.
Context `{SJ : SqliteJson} `{FL : Floats} `{FT : FloatText} {sur : Surroundings} `{UR : Urls} (st : Store).
Context (n0 : nat) (Hclosed : forall n, (n0 <= n)%nat -> exists code, import_gate n = Some code).
Context (e : list (row preparedEvent) * list (row preparedHeartbeat) * list (row MediaMetadata) * list (row MediaIngestEvent)).

Definition p_late (w : pworld) : Prop := (n0 <= p_step w)%nat /\ evidence (p_db w) = e.
Definition p_bars {A} (m : P A) : Prop := forall w, p_late w -> p_late (snd (m w)).
Definition p_shut {A} (m : P A) : Prop := forall w, p_late w -> p_late (snd (m w)) /\ exists x, fst (m w) = Err x.

Lemma p_bars_bind {A B} (m : P A) (k : A -> P B) : p_bars m -> (forall a, p_bars (k a)) -> p_bars (pbind m k).
Proof. intros Hm Hk w Hw. specialize (Hm w Hw). unfold pbind. destruct (m w) as [[a|x] w']; [by apply Hk|done]. Qed.
Lemma p_shut_bars {A} (m : P A) : p_shut m -> p_bars m.
Proof. intros Hm w Hw. by apply Hm. Qed.
Lemma p_shut_bind {A B} (m : P A) (k : A -> P B) : p_shut m -> p_shut (pbind m k).
Proof.
  intros Hm w Hw. destruct (Hm w Hw) as [Hl [x Ex]]. unfold pbind. destruct (m w) as [r w']. cbn in *. subst r. split; [done|by exists x].
Qed.
Lemma p_bars_attempt_shut {A B} (m : P A) (k : result adapterError A -> P B) :
  p_shut m -> (forall x, p_bars (k (Err x))) -> p_bars (pbind (attempt m) k).
Proof.
  intros Hm Hk w Hw. destruct (Hm w Hw) as [Hl [x Ex]]. unfold pbind, attempt. destruct (m w) as [r w']. cbn in *.
  subst r. by apply Hk.
Qed.
Lemma p_bars_attempt {A} (m : P A) : p_bars m -> p_bars (attempt m).
Proof. intros Hm w Hw. specialize (Hm w Hw). unfold attempt. by destruct (m w). Qed.
Lemma p_bars_ret {A} (a : A) : p_bars (pret a).
Proof. by intros w Hw. Qed.
Lemma p_bars_fail {A} c t : p_bars (@pfail A c t).
Proof. by intros w Hw. Qed.
Lemma p_bars_lift {A} (r : result adapterError A) : p_bars (plift r).
Proof. by intros w Hw. Qed.
Lemma p_bars_ask {A} (f : nat -> A) : p_bars (ask f).
Proof. intros w [Hn He]. split; cbn; [lia|done]. Qed.
Lemma p_bars_store {A} (m : M database A) : preserves (fun d => evidence d = e) m -> p_bars (store m).
Proof.
  intros Hm w [Hn He]. specialize (Hm (p_db w) (p_oracle w) He). unfold store, state_after in *.
  by destruct (m (p_db w) (p_oracle w)) as [[? ?] ?].
Qed.

Lemma p_shut_gate : p_shut ensureCoreWritesAllowed.
Proof.
  intros w [Hn He]. unfold ensureCoreWritesAllowed, pbind, ask. destruct (Hclosed _ Hn) as [code ->].
  split; [split; cbn; [lia|done]|by eexists].
Qed.
#[local] Hint Resolve p_shut_gate : poll_shutting.

Ltac p_shuts := solve [repeat first [solve [auto with poll_shutting nocore] | apply p_shut_bind]].
Ltac p_bar_step :=
  lazymatch goal with
  | |- p_bars (pbind (attempt _) _) =>
    first [apply p_bars_attempt_shut; [p_shuts|intros ?] | apply p_bars_bind; [apply p_bars_attempt|intros ?]]
  | |- p_bars (pbind _ _) => first [apply p_shut_bars, p_shut_bind; p_shuts | apply p_bars_bind; [|intros ?]]
  | |- p_bars (pret _) => apply p_bars_ret
  | |- p_bars (pfail _ _) => apply p_bars_fail
  | |- p_bars (plift _) => apply p_bars_lift
  | |- p_bars (ask _) => apply p_bars_ask
  | |- p_bars (attempt _) => apply p_bars_attempt
  | |- p_bars (store _) => apply p_bars_store
  | |- p_bars (match ?x with _ => _ end) => destruct x
  | |- p_bars ?m => first [solve [auto with poll_barring nocore] | poll_head m]
  | |- preserves _ _ => solve [eauto with remembering typeclass_instances nocore]
  end.
Ltac p_bar := repeat (cbv beta zeta; p_bar_step).

Lemma p_bars_recordPollStatus c t r : p_bars (recordPollStatus c t r).
Proof. intros w [Hn He]. unfold recordPollStatus. by destruct (status_fault _ _ _). Qed.
#[local] Hint Resolve p_bars_recordPollStatus : poll_barring.
(** The poll stops at its first gate. *)
Lemma p_bars_pollAndRecord c aw : p_bars (pollAndRecord st c aw).
Proof. p_bar. Qed.
End Closed.
