(* ===== verification/Custody.v ===== *)
(** * The custody of media files

    At every moment each segment of the store has its file in place, with its size
    and SHA-256, unless the retention log announced the deletion.  This file shows
    that media ingest, retention, the temporary cleanup and the handlers keep it,
    whatever fails in them. *)

From Stdlib Require Import ZArith Lia String Ascii.
From S2P Require Import Prelude GoStrings GoTime GoJson Sha256 StrictJson Sql Schema Keyed Events Heartbeats Query Platform Config Coverage MediaStore OpsStore Timeline Sidecar ActivityWatch ActivityWatchPoll MediaScan MediaFiles MediaIngest PathFacts MediaFrame MediaAccept Operations Retention HttpApi Server History HistoryRun.
Open Scope string_scope.
Open Scope list_scope.
Open Scope result_scope.
Open Scope db_scope.
Open Scope Z_scope.
Open Scope io_scope.

(** ** What acceptance does to the segments, whatever its result *)
Lemma accepted_segments `{SqliteJson} m event key d o :
  let d' := state_after (AcceptMedia m event key) d o in
  media_segments d' = media_segments d \/ media_segments d' = insert_row m (media_segments d).
Proof.
  cbv zeta. unfold state_after. destruct (AcceptMedia m event key d o) as [[r d'] o'] eqn:Ea. cbn. revert Ea.
  unfold AcceptMedia. unfold mbind at 1.
  destruct (transaction_if _ _ _ d o) as [[[[claim ids]|e] d1] o1] eqn:E;
    [|intros [= _ <- _]; left; by apply transaction_if_err in E as ->].
  assert (Hd1 : media_segments d1 = media_segments d \/ media_segments d1 = insert_row m (media_segments d)).
  { apply transaction_if_inv in E as (b & s1 & q1 & q2 & E & ->). apply accept_body_ok in E
      as [(_ & -> & _)|(sid & iid & d2 & _ & -> & Ha & _ & _ & Hl & _)]; [by left|].
    apply logged_segments in Hl as [-> _]. destruct Ha as [(_ & -> & _)|(_ & _ & -> & _)]; [by left|by right]. }
  destruct ids as [[sid iid]|]; [|by intros [= _ <- _]]. intros Ea.
  enough (Hp : preserves (same_segments (media_segments d1))
    (let* _ := applyMediaIngestProjection iid in let* _ := applyMediaSegmentProjection sid in mret claim)).
  { specialize (Hp d1 o1 eq_refl). unfold same_segments, state_after in Hp. rewrite Ea in Hp. cbn in Hp. by rewrite Hp. }
  remember_all.
Qed.

(** ** Custody *)
Section Custody.
Context `{SJ : SqliteJson} `{Paths} `{Zones} `{Network} `{Floats} `{FilePaths} {laws : PathLaws} {env : Environment} `{Disk} (cfg : Config) {own : OwnDirectories cfg}.

Definition place (digest : string) : string := clean (accepted_path cfg digest).
Definition in_place (m : MediaMetadata) (fs : files) : Prop := holds (mm_SizeBytes m) (mm_SHA256 m) (fs !! place (mm_SHA256 m)).
(** The retention log has the plan to delete the file at a path. *)
Definition announced (q : string) (d : database) : Prop := exists r t, r ∈ media_segments d /\
  media_path cfg (mm_ManagedRelativePath (rval r)) = q /\ has_key (planned_key (candidate r) t) d.
Record custody (w : world) : Prop := {
  cu_tables : tables_ok (w_db w);
  cu_tidy : tidy cfg (w_db w);
  cu_files : forall r, r ∈ media_segments (w_db w) ->
    in_place (rval r) (w_files w) \/ announced (place (mm_SHA256 (rval r))) (w_db w) }.

Lemma prefix_mem {A} (l l' : list A) x : l `prefix_of` l' -> x ∈ l -> x ∈ l'.
Proof. intros [k ->] Hx. apply elem_of_app. by left. Qed.
Lemma announced_grew q d d' : grew d d' -> announced q d -> announced q d'.
Proof.
  intros Hg (r & t & Hr & Hp & e & He & Hk). exists r, t. split; [by eapply prefix_mem; [apply Hg|]|]. split; [done|].
  exists e. split; [by eapply prefix_mem; [apply Hg|]|done].
Qed.

(** Files that were in place stay, and the segments too. *)
Definition files_stay (w w' : world) : Prop := forall size digest, is_digest digest ->
  holds size digest (w_files w !! place digest) -> holds size digest (w_files w' !! place digest).
Lemma custody_stays w w' : custody w -> history (w_db w) (w_db w') -> media_segments (w_db w') = media_segments (w_db w) ->
  files_stay w w' -> custody w'.
Proof.
  intros [Hk Ht Hf] [Hk' Hg] Es Hs. split; [done|by eapply tidy_same|]. rewrite Es. intros r Hr.
  destruct (Hf r Hr) as [Hp|Ha]; [left|right; by eapply announced_grew]. apply Hs; [|done]. by apply Ht.
Qed.
(** A new segment comes with its file. *)
Lemma custody_accepts w w' m : custody w -> history (w_db w) (w_db w') -> files_stay w w' ->
  media_segments (w_db w') = media_segments (w_db w) \/ media_segments (w_db w') = insert_row m (media_segments (w_db w)) ->
  is_digest (mm_SHA256 m) -> managed_path cfg (mm_ManagedRelativePath m) = accepted_path cfg (mm_SHA256 m) ->
  in_place m (w_files w') -> custody w'.
Proof.
  intros Hc Hg Hs [Es|Es] Hd Hp Hm; [by eapply custody_stays|]. destruct Hc as [Hk Ht Hf], Hg as [Hk' Hg].
  assert (Hnew : forall r, r ∈ media_segments (w_db w') -> r ∈ media_segments (w_db w) \/ rval r = m).
  { intros r Hr. rewrite Es in Hr. unfold insert_row in Hr. apply elem_of_app in Hr as [Hr|Hr]; [by left|].
    apply list_elem_of_singleton in Hr as ->. by right. }
  split; [done| |].
  - intros r Hr. destruct (Hnew r Hr) as [Ho| ->]; [by apply Ht|done].
  - intros r Hr. destruct (Hnew r Hr) as [Ho| ->]; [|by left].
    destruct (Hf r Ho) as [Hx|Ha]; [left|right; by eapply announced_grew]. apply Hs; [|done]. by apply Ht.
Qed.

(** ** Computations that keep it *)
Definition guards {A} (m : F A) : Prop := triple custody m (fun _ => custody).
Lemma guards_bind {A B} (m : F A) (k : A -> F B) : guards m -> (forall a, guards (k a)) -> guards (fbind m k).
Proof. intros Hm Hk. eapply triple_bind; [exact Hm|exact Hk|done]. Qed.
Lemma guards_attempt {A} (m : F A) : guards m -> guards (attempt m).
Proof. intros Hm w Hw. specialize (Hm w Hw). unfold attempt. by destruct (m w). Qed.
Lemma guards_rejected {A} (m : F A) : guards m -> guards (rejected m).
Proof. intros Hm. apply guards_bind; [done|]. by intros ? w Hw. Qed.

(** What leaves every accepted file and every segment alone. *)
Definition stays {A} (m : F A) : Prop := forall size digest, is_digest digest -> keeps (place digest) (holds size digest) m.
Definition remembers {A} (m : F A) : Prop := forall P, Remembers P -> db_keeps P m.
Lemma guards_of {A} (m : F A) : stays m -> remembers m -> guards m.
Proof.
  intros Hs Hr w Hw. apply (custody_stays w); [done|..].
  - apply (Hr (history (w_db w))); [apply _|]. split; [apply Hw|reflexivity].
  - apply (Hr (same_segments (media_segments (w_db w)))); [apply _|done].
  - intros size digest Hd Hh. by apply Hs.
Qed.

Lemma quiet_place digest : quiet (place digest).
Proof. apply (own_accepted cfg). Qed.
#[local] Hint Resolve quiet_place holds_there keeps_record keeps_terminalUnchanged keeps_readInboxFile keeps_stampFile
  keeps_stampFiles keeps_makeEvent keeps_rejected : keeping.
(** Through the definitions of a computation. *)
Ltac stay := intros ? ? ?; repeat (cbv beta zeta; first
  [keep_step|lazymatch goal with
    | |- keeps _ _ (call _) => apply keeps_look; [auto with keeping|intros; by repeat case_match]
    | |- keeps _ _ ?m => recall_head m end]).
Ltac guarded := apply guards_of; [stay|intros ? ?; recall].

(** *** Acceptance *)
Lemma stored_after {A} (m : M database A) w :
  w_db (snd (stored m w)) = state_after m (w_db w) (w_oracle w) /\ w_files (snd (stored m w)) = w_files w.
Proof.
  unfold stored, fbind, attempt, store, state_after. by destruct (m (w_db w) (w_oracle w)) as [[[a|e] d] o].
Qed.

Section Ready.
Context (readyPath : string).
Abbreviation conf := (confirmation_path cfg readyPath).
Abbreviation key := (key_of cfg readyPath).
Abbreviation staging := (staging_of cfg key).

(** Custody, and the file of a digest in place. *)
Definition with_file (size : Z) (digest : string) (w : world) : Prop :=
  custody w /\ holds size digest (w_files w !! place digest).
Lemma with_file_of {A} size digest (m : F A) : is_digest digest -> stays m -> remembers m ->
  triple (with_file size digest) m (fun _ => with_file size digest).
Proof. intros Hd Hs Hr w [Hc Hf]. split; [by apply guards_of|by apply Hs]. Qed.

Lemma stays_quarantine i media raw st reason : mine key i -> st = "" \/ st = staging ->
  stays (quarantine cfg i media raw st reason).
Proof.
  intros Hi Hs size digest Hd. apply (keeps_quarantine cfg _ _ (own_accepted cfg _) (holds_there _ _) key); [|done..].
  by apply accepted_apart.
Qed.
Lemma guards_quarantine i media raw st reason : mine key i -> st = "" \/ st = staging ->
  guards (quarantine cfg i media raw st reason).
Proof. intros Hi Hs. apply guards_of; [by apply stays_quarantine|intros P HP; apply recalls_quarantine; apply _]. Qed.

Ltac with_file :=
  eapply triple_bind; [apply with_file_of; [done|stay|intros ? ?; recall]|intros ?|by intros ? ? []].

Lemma guards_accept_installed i media raw sidecar probe relative id :
  let s := ps_Sidecar sidecar in is_digest (sc_SHA256 s) -> managed_path cfg relative = accepted_path cfg (sc_SHA256 s) ->
  mine key i ->
  triple (with_file (sc_SizeBytes s) (sc_SHA256 s)) (accept_installed cfg i media raw conf sidecar probe relative id)
    (fun _ => custody).
Proof.
  intros s Hd Hp Hi. unfold accept_installed. fold s. do 3 with_file.
  eapply (triple_bind _ _ (fun _ => custody)); [|intros claim|done].
  - intros w [Hc Hf]. destruct (stored_after (AcceptMedia (segment_metadata sidecar probe relative a) a0
      (state_event_key s (metadataHash sidecar probe))) w) as [Ed Ef].
    eapply custody_accepts; [exact Hc| | |rewrite Ed; apply accepted_segments|exact Hd|exact Hp|by rewrite Ef].
    + rewrite Ed. apply remembers_AcceptMedia. split; [apply Hc|reflexivity].
    + intros size digest _ Hh. by rewrite Ef.
  - destruct (String.eqb _ _).
    + apply guards_rejected, guards_quarantine; auto.
    + apply guards_bind; [guarded|intros ?]. apply guards_bind; [|by intros ? w Hw].
      apply guards_of; [|intros P HP; recall]. intros size digest Hd'. unfold writeConfirmation. apply keeps_or_fail.
      apply keeps_writeAtomicFile; [auto with keeping..|]. by apply accepted_apart.
Qed.

(** Custody, and the copy in staging. *)
Definition with_copy (size : Z) (digest : string) (w : world) : Prop :=
  custody w /\ holds size digest (w_files w !! clean staging).
Lemma with_copy_of {A} size digest (m : F A) : (forall q P, quiet q -> ~ P None -> keeps q P m) -> remembers m ->
  triple (with_copy size digest) m (fun _ => with_copy size digest).
Proof.
  intros Hk Hr w [Hc Hf]. split; [|apply Hk; [apply (own_staging cfg)|apply holds_there|done]].
  apply guards_of; [|done|done]. intros n d Hd. apply Hk; auto with keeping.
Qed.
Ltac with_copy :=
  eapply triple_bind; [apply with_copy_of; [intros ? ? ? ?; keep|intros ? ?; recall]|intros ?|by intros ? ? []].

Lemma restore_guards i claim sidecar :
  let s := ps_Sidecar sidecar in mine key i -> is_digest (sc_SHA256 s) ->
  triple (fun w => with_copy (sc_SizeBytes s) (sc_SHA256 s) w /\
      (exists r, r ∈ media_segments (w_db w) /\ mm_ManagedRelativePath (rval r) = mc_ManagedRelativePath claim /\
        mm_SHA256 (rval r) = sc_SHA256 s))
    (restore_duplicate cfg i staging claim sidecar)
    (fun r w => custody w /\ (r = Ok true -> with_file (sc_SizeBytes s) (sc_SHA256 s) w /\
       managed_path cfg (mc_ManagedRelativePath claim) = accepted_path cfg (sc_SHA256 s))).
Proof.
  intros s Hi Hd w [[Hc Hs] (r & Hr & Hrel & Hsha)].
  assert (Hc' : custody (snd (restore_duplicate cfg i staging claim sidecar w))).
  { apply guards_of; [|intros P HP; recall|done]. intros n d Hd'.
    apply (keeps_restore_duplicate cfg _ _ (quiet_place _) (holds_there _ _) key); [|done]. by apply accepted_apart. }
  split; [exact Hc'|]. intros E. destruct (cu_tidy w Hc r Hr) as [_ Hm]. rewrite Hrel, Hsha in Hm. split; [|done]. split; [done|].
  destruct (restore_duplicate cfg i staging claim sidecar w) as [b w'] eqn:Er. cbn in *. subst b.
  apply restored_file in Er as [Hf _]; [by rewrite Hm in Hf|apply (own_staging cfg)|rewrite Hm; apply (own_accepted cfg)| |done].
  rewrite Hm. by apply staging_not_accepted.
Qed.

Lemma install_guards sidecar :
  let s := ps_Sidecar sidecar in is_digest (sc_SHA256 s) ->
  triple (with_copy (sc_SizeBytes s) (sc_SHA256 s))
    (attempt (installAccepted cfg staging (accepted_path cfg (sc_SHA256 s)) (sc_SizeBytes s) (sc_SHA256 s)))
    (fun r w => custody w /\ (r = Ok (Ok tt) -> with_file (sc_SizeBytes s) (sc_SHA256 s) w)).
Proof.
  intros s Hd w [Hc Hs]. set (m := installAccepted _ _ _ _ _).
  assert (Hg : guards (attempt m)).
  { apply guards_of; [|intros P HP; recall]. intros n d Hd'. apply keeps_attempt.
    apply keeps_installAccepted; [auto with keeping..|]. by apply staging_not_accepted. }
  specialize (Hg w Hc). split; [exact Hg|]. intros E. split; [exact Hg|].
  unfold attempt in *. destruct (m w) as [r w'] eqn:Er. cbn in *. injection E as ->.
  apply installed_file in Er; [done|apply (own_staging cfg)|apply (own_accepted cfg)|by apply staging_not_accepted|done].
Qed.

Lemma guards_process_staged i media raw sidecar :
  let s := ps_Sidecar sidecar in is_digest (sc_SHA256 s) -> mine key i ->
  triple (with_copy (sc_SizeBytes s) (sc_SHA256 s)) (process_staged cfg i media raw conf staging sidecar) (fun _ => custody).
Proof.
  intros s Hd Hi. unfold process_staged. fold s. with_copy.
  assert (Hq : forall reason, triple (with_copy (sc_SizeBytes s) (sc_SHA256 s))
    (rejected (quarantine cfg i media raw staging reason)) (fun _ => custody)).
  { intros reason. eapply triple_weaken; [apply guards_rejected, guards_quarantine; auto|by intros w []|done]. }
  assert (Hg : forall A (m : F A), guards m -> triple (with_copy (sc_SizeBytes s) (sc_SHA256 s)) m (fun _ => custody)).
  { intros A m Hm. eapply triple_weaken; [exact Hm|by intros w []|done]. }
  destruct a as [probe|e].
  2: { with_copy. destruct a; [apply Hg; guarded|]. destruct (_ || _); [apply Hg; guarded|apply Hq]. }
  destruct (negb _); [apply Hq|]. destruct (_ <? _); [apply Hq|]. with_copy.
  eapply (triple_bind _ _ (fun r w => with_copy (sc_SizeBytes s) (sc_SHA256 s) w /\
    forall claim, r = Ok (Ok claim) -> claim = claim_in (sc_CollectorID s) (sc_SourceIdempotencyKey s) (sc_SHA256 s)
      (metadataHash sidecar probe) (w_db w))); [| |by intros ? ? [[]]].
  { intros w Hw. split; [revert w Hw; apply with_copy_of; [intros ? ? ? ?; keep|intros ? ?; recall]|].
    intros claim E. unfold attempt in *. destruct (store _ w) as [r w'] eqn:Er. cbn in *. injection E as ->.
    apply store_inv in Er as [Er _]. by apply resolve_claim_in in Er as [-> ->]. }
  intros [claim|e]; [|eapply triple_weaken; [apply (Hg _ (rejected _)); guarded|by intros w []|done]].
  destruct (String.eqb_spec (mc_Status claim) MediaWriteConflict); [eapply triple_weaken; [apply Hq|by intros w []|done]|].
  destruct (String.eqb_spec (mc_Status claim) MediaWriteDuplicate) as [Hdup|].
  - eapply triple_bind; [eapply triple_weaken; [apply (restore_guards i claim sidecar Hi Hd)| |by intros r w Hw; exact Hw]| |by intros ? ? []].
    + intros w [Hw Hc]. split; [exact Hw|]. specialize (Hc claim eq_refl). rewrite Hc in Hdup.
      destruct (claim_row _ _ _ _ _ Hdup) as (r & Hr & _ & Hpath & Hsha & _). rewrite Hc. by exists r.
    + intros [] w [Hc Hf]; [|exact Hc]. destruct (Hf eq_refl) as [Hw Hm]. cbn [negb].
      by apply (guards_accept_installed i media raw sidecar probe (mc_ManagedRelativePath claim) (mc_SegmentID claim) Hd Hm Hi).
  - eapply triple_bind; [eapply triple_weaken; [apply (install_guards sidecar Hd)|by intros w []|by intros r w Hw; exact Hw]| |by intros ? ? []].
    intros [[]|e] w [Hc Hf].
    + apply (guards_accept_installed i media raw sidecar probe _ (mc_SegmentID claim) Hd); [by apply accepted_relative|done|].
      by apply Hf.
    + apply guards_rejected; [guarded|done].
Qed.

(** *** From the ready marker *)
Lemma guards_copied sidecar source :
  let s := ps_Sidecar sidecar in
  triple custody (attempt (copyToStaging cfg source staging))
    (fun r w => custody w /\ forall c, r = Ok (Ok c) -> cf_size c = sc_SizeBytes s -> cf_sha256 c = sc_SHA256 s ->
       with_copy (sc_SizeBytes s) (sc_SHA256 s) w).
Proof.
  intros s w Hc. assert (Hg : guards (attempt (copyToStaging cfg source staging))).
  { apply guards_of; [|intros P HP; recall]. intros n d Hd'. apply keeps_attempt.
    apply keeps_copyToStaging; [auto with keeping..| |apply (own_staging cfg)]. by apply staging_not_accepted. }
  specialize (Hg w Hc). split; [exact Hg|]. intros c E Es Eh. split; [exact Hg|].
  unfold attempt in *. destruct (copyToStaging cfg source staging w) as [r w'] eqn:Er. cbn in *. injection E as ->.
  apply staged_file in Er; [|apply (own_staging cfg)]. by rewrite <- Es, <- Eh.
Qed.

Lemma guards_process_settled i media raw sidecar : is_digest (sc_SHA256 (ps_Sidecar sidecar)) -> mine key i ->
  guards (process_settled cfg i media raw conf sidecar).
Proof.
  intros Hd Hi. unfold process_settled. rewrite (proj1 Hi). fold staging.
  eapply triple_bind; [apply (guards_copied sidecar)| |by intros ? ? []].
  assert (Hq : forall reason, guards (rejected (quarantine cfg i media raw staging reason)))
    by (intros reason; apply guards_rejected, guards_quarantine; auto).
  intros [c|e] w [Hc Hf].
  - destruct (Z.eqb_spec (cf_size c) (sc_SizeBytes (ps_Sidecar sidecar))) as [Es|]; [|by apply Hq]. cbn [negb].
    destruct (String.eqb_spec (cf_sha256 c) (sc_SHA256 (ps_Sidecar sidecar))) as [Eh|]; [|by apply Hq]. cbn [negb].
    apply (guards_process_staged i media raw sidecar Hd Hi). by apply (Hf c).
  - destruct (String.eqb _ _); [done|]. apply guards_rejected; [guarded|done].
Qed.

Lemma guards_process_described i media raw sidecar : is_digest (sc_SHA256 (ps_Sidecar sidecar)) -> mine key i ->
  guards (process_described cfg i media raw conf sidecar).
Proof.
  intros Hd Hi. unfold process_described. apply guards_bind; [guarded|]. intros [x|e]; [|apply guards_rejected; destruct (is_not_exist e); guarded].
  destruct (_ || _); [apply guards_rejected; guarded|]. apply guards_bind; [guarded|]. intros done_.
  destruct (negb done_); [|guarded]. apply guards_bind; [guarded|]. intros [y|e]; [|apply guards_rejected; guarded].
  destruct (negb _); [apply guards_rejected; guarded|].
  destruct (negb _); [apply guards_rejected, guards_quarantine; auto|]. by apply guards_process_settled.
Qed.

Lemma guards_ProcessReady : guards (ProcessReady cfg readyPath).
Proof.
  unfold ProcessReady. fold (source_name readyPath). fold conf. fold key.
  apply guards_bind; [guarded|]. intros _. apply guards_bind; [guarded|]. intros _.
  destruct (has_suffix _ _); [|guarded]. destruct (negb _); [|guarded].
  apply guards_bind; [guarded|]. intros _. apply guards_bind; [guarded|].
  intros [raw|e]; [|apply guards_rejected; destruct (is_not_exist e); guarded].
  apply guards_bind; [guarded|]. intros [|]; [guarded|].
  destruct (parseSidecar raw _) as [sidecar|e] eqn:Ep.
  - apply guards_bind; [guarded|]. intros [|]; [guarded|]. apply guards_process_described; [by eapply sidecar_digest|].
    split; [done|]. cbn. apply parse_sidecar_inv in Ep as (? & ? & ? & _ & _ & _ & _ & _ & _ & _ & _ & _ & _ & ->).
    apply sha256_digest.
  - apply guards_rejected. destruct (String.eqb _ _); [guarded|]. apply guards_quarantine; [|by left].
    split; [done|]. apply sha256_digest.
Qed.
End Ready.

(** ** The scan and the start of media ingest *)
Lemma guards_process_selected l : forall s, guards (process_selected cfg l s).
Proof.
  induction l as [|c l IH]; intros s; cbn [process_selected]; [guarded|]. apply guards_bind; [guarded|].
  intros [?|e]; [|guarded]. apply guards_bind; [|intros ?; apply IH]. unfold process_candidate.
  assert (Hp : guards (let^ processed := attempt (ProcessReady cfg (rc_path c)) in
      fret (match processed with Ok b => (b, None) | Err e => (false, Some e) end))).
  { apply guards_bind; [apply guards_attempt, guards_ProcessReady|intros ?; guarded]. }
  apply guards_bind; [guarded|]. intros [[|]|e]; [guarded|exact Hp|]. destruct (String.eqb _ _); [guarded|exact Hp].
Qed.
(** A directory is made where nothing is. *)
Lemma keeps_Mkdir q P p : quiet q -> ~ P None -> keeps q P (Mkdir p).
Proof.
  intros Hq Hn. apply keeps_call; [done|]. intros n fs Hw. unfold node_at, put. destruct (fs !! clean p) eqn:E; [done|].
  cbn. rewrite lookup_insert_ne; [done|]. intros <-. by rewrite E in Hw.
Qed.
#[local] Hint Resolve keeps_Mkdir keeps_list_candidates keeps_read_inbox keeps_confirmationValid keeps_ScanOnce : keeping.
Lemma keeps_make_directories q P l : quiet q -> ~ P None -> keeps q P (make_directories l).
Proof. intros Hq Hn. induction l as [|p l IH]; cbn [make_directories]; keep. Qed.
Lemma keeps_missing_directories q P fuel : quiet q -> forall cursor l, keeps q P (missing_directories fuel cursor l).
Proof.
  intros Hq. induction fuel as [|n IH]; intros cursor l; cbn [missing_directories]; keep. unfold evaluated. by apply keeps_look.
Qed.
#[local] Hint Resolve keeps_make_directories keeps_missing_directories : keeping.
Lemma keeps_make_all q P l : quiet q -> ~ P None -> keeps q P (make_all l).
Proof. intros Hq Hn. induction l as [|p l IH]; cbn [make_all]; [keep|]. unfold secureMkdirAll. keep. Qed.
#[local] Hint Resolve keeps_make_all : keeping.

Lemma guards_ScanOnce m : guards (ScanOnce cfg m).
Proof.
  unfold ScanOnce. destruct (negb _); [guarded|]. apply guards_bind; [guarded|]. intros [l|e]; [|guarded].
  apply guards_bind; [apply guards_process_selected|intros ?; guarded].
Qed.
Lemma guards_scanAndLog m : guards (scanAndLog cfg m).
Proof. unfold scanAndLog. apply guards_bind; [apply guards_ScanOnce|]. intros [m' e]. guarded. Qed.
Lemma guards_start_media m : guards (start_media cfg m).
Proof. guarded. Qed.

(** ** Storage protection *)
Lemma keeps_record_modules q P l : quiet q -> keeps q P (record_modules l).
Proof. intros Hq. induction l as [|[m [s r]] l IH]; cbn [record_modules]; [keep|]. unfold RecordModuleState, appendModule, now_text. keep. Qed.
#[local] Hint Resolve keeps_record_modules : keeping.
Lemma guards_startup dashboard : guards (startup cfg dashboard).
Proof. guarded. Qed.
Lemma guards_RecordFault a b c d e : guards (RecordFault a b c d e).
Proof. guarded. Qed.

(** The cleanup removes staging copies only. *)
Lemma stake_sdrop n s : stake n s +:+ sdrop n s = s.
Proof. revert s. induction n as [|n IH]; intros [|a s]; try done. change (String a (stake n s +:+ sdrop n s) = String a s). by rewrite IH. Qed.
Lemma hex_plain_name s : forallb hex_char (list_ascii_of_string s) = true -> plain_name s = true.
Proof.
  induction s as [|a s IH]; [done|]. cbn [list_ascii_of_string forallb plain_name]. intros [Ha Hs]%andb_true_iff.
  rewrite IH, andb_true_r by done. by destruct a as [[] [] [] [] [] [] [] []].
Qed.
Lemma last_of_place digest : is_digest digest -> last_char (place digest) = Some "a"%char.
Proof. intros Hd. apply (last_of_join _ _ ".media"); [apply Hd|done|cbn; lia]. Qed.
Lemma partial_elsewhere root name digest : partialName name = true -> is_digest digest ->
  clean (path_join [root; name]) <> place digest.
Proof.
  unfold partialName, trim_suffix. intros Hp Hd E. apply andb_true_iff in Hp as [Hs Hp]. rewrite Hs in Hp.
  apply andb_true_iff in Hp as [_ Hp]. apply hex_plain_name in Hp.
  unfold has_suffix in Hs. apply andb_true_iff in Hs as [_ Hs]. apply String.eqb_eq in Hs.
  set (n := (String.length name - String.length ".partial")%nat) in *.
  pose proof (last_of_join root _ ".partial" Hp eq_refl ltac:(cbn; lia)) as Hl.
  assert (En : stake n name +:+ ".partial" = name) by (rewrite <- (stake_sdrop n name) at 2; by rewrite Hs).
  by rewrite En, E, (last_of_place _ Hd) in Hl.
Qed.
Lemma stays_clean_entries root cutoff l : forall n, stays (clean_entries cfg root cutoff n l).
Proof.
  induction l as [|[name x] l IH]; intros n; cbn [clean_entries]; [stay|].
  intros size digest Hd. destruct (_ <=? _); [by apply IH|]. apply keeps_bind; [|intros ?; by apply IH].
  unfold clean_entry. destruct (_ || negb (partialName name)) eqn:Ep; [keep|].
  apply orb_false_iff in Ep as [_ Ep]. apply negb_false_iff in Ep. keep.
  apply keeps_Remove; [auto with keeping|]. by apply partial_elsewhere.
Qed.
Lemma guards_on_tick o k : guards (on_tick cfg o k).
Proof.
  destruct k; cbn [on_tick]; [guarded|guarded| |].
  - apply guards_bind; [|intros ?; guarded]. unfold CleanupTempOnce. apply guards_bind; [guarded|].
    intros [l|e]; [|guarded]. apply guards_bind; [guarded|]. intros t.
    apply guards_of; [apply stays_clean_entries|intros P HP; recall].
  - intros w Hc. set (w' := snd (RetentionOnce cfg o w)).
    assert (Hg : history (w_db w) (w_db w')).
    { apply (recalls_on_tick cfg o RetentionTick (P := history (w_db w))). split; [apply Hc|reflexivity]. }
    assert (Es : media_segments (w_db w') = media_segments (w_db w))
      by (by apply (recalls_on_tick cfg o RetentionTick (P := same_segments (media_segments (w_db w))))).
    destruct Hc as [Hk Ht Hf]. split; [apply Hg|by eapply tidy_same|]. rewrite Es. intros r Hr.
    destruct (Hf r Hr) as [(c & m & Hx & Hh)|Ha]; [|right; by eapply announced_grew; [apply Hg|]].
    destruct (RetentionOnce_kept cfg o _ _ w (quiet_place _) Hx) as [Hx'|(_ & _ & cov & n & r' & _ & _ & Hr' & Hp & Hrem)].
    + left. exists c, m. by rewrite <- Hx'.
    + right. destruct Hrem as (_ & _ & _ & t & Hkey). exists r', t. split; [|done]. fold w'. rewrite Es.
      by apply elem_of_candidate_rows in Hr' as [Hr' _].
Qed.

(** ** Requests touch no file *)
Context `{Requests} `{Float64} `{SqliteReal} (h : Handler).
Lemma keeps_run_store {A} q P (m : M database A) : keeps q P (run_store m).
Proof. intros w Hw. unfold run_store. by destruct (m _ _) as [[? ?] ?]. Qed.
Lemma keeps_call_store {A} q P v (m : Store -> M database A) : keeps q P (call_store v m).
Proof. unfold call_store. pose proof @keeps_run_store. destruct v; keep. Qed.
#[local] Hint Resolve keeps_run_store keeps_call_store : keeping.
Lemma stays_complete r s req : stays (complete cfg h r s req).
Proof. unfold complete. destruct r; cbn [finish]; stay. Qed.
Lemma guards_complete r s req : guards (complete cfg h r s req).
Proof. apply guards_of; [apply stays_complete|intros P HP; recall]. Qed.
End Custody.
