(* ===== verification/Lifecycle.v ===== *)
(** * The life of the server ([app/server.go], [Run])

    The server as one transition system: the requests of [Server], the loops of
    the operations manager and of media ingest, one loop per ActivityWatch
    collector, and the way the context, the listener and the shutdown end them.
    The steps are whole operations: a tick, a scan, a poll, a request.  Over every
    interleaving the append-only tables keep their rows, no loop outlives [Run],
    and once the context is done [Run] can come to its end. *)

From Stdlib Require Import ZArith Lia String Ascii.
From S2P Require Import Prelude GoStrings GoTime GoJson StrictJson Sql Schema Keyed Events Heartbeats Query Platform Config Coverage MediaStore OpsStore Timeline TimelineSync CoverageStore Sidecar ActivityWatch ActivityWatchFetch ActivityWatchPoll MediaScan MediaFiles MediaIngest PathFacts MediaFrame MediaAccept Operations Retention HttpApi Server ApiBatch History HistoryRun HistoryPoll Protection ProtectionPoll.
Open Scope string_scope.
Open Scope list_scope.
Open Scope result_scope.
Open Scope Z_scope.
Open Scope io_scope.

(** ** The handler and its providers ([httpapi.New]) *)
Inductive provider := FixedMediaStatus | MediaManager | OperationsManager | CollectorManager | DashboardProvider.
(** The type assertions on one provider. *)
Definition with_provider (h : Handler) (p : provider) : Handler :=
  let '(MkHandler store failure operations media dashboard build) := h in
  match p with
  | FixedMediaStatus => MkHandler store failure operations false dashboard build
  | MediaManager => MkHandler store failure operations true dashboard build
  | OperationsManager => MkHandler store failure true media dashboard build
  | CollectorManager => h
  | DashboardProvider => MkHandler store failure operations media true build
  end.
Definition New (build : string) (store : store_value) (failure : StorageFailure) (providers : list provider) : Handler :=
  foldl with_provider (MkHandler store failure false false false build) providers.

(** The providers of [Run], in its order. *)
Definition run_providers (cfg : Config) (dashboard : bool) (opened : result error unit) : list provider :=
  [if is_ok opened && me_Enabled (MediaIngest cfg) then MediaManager else FixedMediaStatus]
  ++ (if is_ok opened then [OperationsManager; CollectorManager] else [])
  ++ (if dashboard then [DashboardProvider] else []).
Lemma run_handler_New `{Floats} cfg build dashboard opened :
  run_handler cfg build dashboard opened =
  New build (hd_store (run_handler cfg build dashboard opened))
    (hd_storageFailure (run_handler cfg build dashboard opened)) (run_providers cfg dashboard opened).
Proof. unfold run_handler, run_providers. destruct opened, dashboard; cbn; by destruct (me_Enabled (MediaIngest cfg)). Qed.

(** ** The loops *)

(** [First]: before the pass that precedes the ticker; [Ticking]: between ticks. *)
Inductive loop := First | Ticking | Over.
Inductive media_task := MediaStarting (m : module_state) | MediaLoop (m : module_state) (l : loop) | MediaOver.
Definition media_ended (t : media_task) : Prop :=
  match t with MediaOver | MediaLoop _ Over => True | _ => False end.

(** What [Run] itself is doing: serving, in [Shutdown], waiting for the loops, or
    back with the result of [Serve]. *)
Inductive run_state := Serving | Stopping | Joining (r : result string unit) | Returned (r : result string unit).
Definition taking_requests (s : run_state) : Prop := s = Serving \/ s = Stopping.
Definition not_returned (s : run_state) : Prop := forall r, s <> Returned r.

Record system := System {
  sy_server : server; sy_statuses : gmap string Status; sy_operations : loop; sy_media : media_task;
  sy_workers : list (CollectorConfig * loop); sy_canceled : bool; sy_run : run_state }.

Inductive task := OperationsTask | MediaTask | CollectorTask (id : string).
Inductive event := Api (e : api_event) | Pass (t : task) | Ends (t : task) | ContextDone | RunMoves (s : run_state).

Definition with_server (s : system) (sv : server) : system :=
  System sv (sy_statuses s) (sy_operations s) (sy_media s) (sy_workers s) (sy_canceled s) (sy_run s).
Definition with_tasks (s : system) (o : loop) (m : media_task) (l : list (CollectorConfig * loop)) : system :=
  System (sy_server s) (sy_statuses s) o m l (sy_canceled s) (sy_run s).
Definition with_run (s : system) (r : run_state) : system :=
  System (sy_server s) (sy_statuses s) (sy_operations s) (sy_media s) (sy_workers s) (sy_canceled s) r.
Definition with_statuses (s : system) (t : gmap string Status) : system :=
  System (sy_server s) t (sy_operations s) (sy_media s) (sy_workers s) (sy_canceled s) (sy_run s).
(** The server after background work: another world, another disk status. *)
Definition after_work (sv : server) (o : ops_state) (w : world) : server :=
  MkServer (with_operations (sv_state sv) o) w (sv_waiting sv) (sv_stuck sv).

(** [cancel] has been called, or the context of the caller is done. *)
Definition context_done (s : system) : bool :=
  sy_canceled s || match sy_run s with Joining _ | Returned _ => true | _ => false end.

Section Life.
Context `{Paths} `{Zones} `{Network} `{Floats} `{FilePaths} {env : Environment} `{Disk} `{Requests} `{SqliteJson} `{Float64} `{SqliteReal} `{!FloatText} {sur : Surroundings} `{Urls}.
Context (cfg : Config) (h : Handler).

(** A pass of media ingest: the scan, then the fault it reports. *)
Definition media_pass (m : module_state) : F module_state :=
  let^ (m, fault) := scanAndLog cfg m in
  match fault with
  | Some (severity, status, code, e) =>
    let^ _ := RecordFault "media_ingest" severity status code
                (match e with Some e => error_text e | None => "media ingest recovered" end) in
    fret m
  | None => fret m
  end.

(** A poll in the world of the server: its faults, which it reports last, go to
    the operations manager. *)
Fixpoint record_reports (l : list fault_report) : F unit :=
  match l with
  | [] => fret tt
  | f :: rest =>
    let^ _ := RecordFault (fr_component f) (fr_severity f) (fr_status f) (fr_code f) (fr_text f) in record_reports rest
  end.
Definition collector_pass (c : CollectorConfig) (statuses : gmap string Status) : F (gmap string Status) := fun w =>
  match co_ActivityWatch c with
  | None => (Ok statuses, w)
  | Some aw =>
    let '(_, p) := pollAndRecord (store_of cfg) c aw (PollWorld (w_db w) (w_oracle w) (w_step w) statuses []) in
    (let^ _ := record_reports (p_faults p) in fret (p_statuses p))
      (World (w_files w) (p_db p) (p_oracle p) (p_step p))
  end.

(** The gates a pass asks refresh the disk status. *)
Definition refreshed (o o' : ops_state) : Prop :=
  rtc (fun o o' => exists w r w', refreshDiskStatus cfg o w = (Ok (o', r), w')) o o'.

(** ** Startup *)
Definition boot (build : string) (listens assets : bool) (opened : result error unit) (w : world)
    : result string (Handler * system) :=
  if negb listens then Err CodeListenFailed
  else
    let dashboard := DashboardIsEnabled cfg && assets in
    let h := run_handler cfg build dashboard opened in
    match opened with
    | Err _ => Ok (h, System (fresh initial_ops w) ∅ Over MediaOver [] false Serving)
    | Ok _ =>
      match startup cfg dashboard w with
      | (Ok o, w) =>
        Ok (h, System (fresh o w) (initial_statuses cfg) Ticking
                 (if me_Enabled (MediaIngest cfg) then MediaStarting (new_module cfg) else MediaOver)
                 (map (fun c => (c, First)) (activitywatch_collectors cfg)) false Serving)
      | (Err _, _) => Err CodeServeFailed   (* never: [startup_runs] *)
      end
    end.

(** ** The steps *)
Inductive step : system -> event -> system -> Prop :=
  (* requests *)
  | step_request s e sv : taking_requests (sy_run s) -> e <> Background -> serve cfg h (sy_server s) e sv ->
      step s (Api e) (with_server s sv)
  | step_finish s r req x sv : not_returned (sy_run s) -> serve cfg h (sy_server s) (Finished r req x) sv ->
      step s (Api (Finished r req x)) (with_server s sv)
  (* the loops *)
  | step_operations s k o w : sy_operations s = Ticking ->
      on_tick cfg (hs_operations (sv_state (sy_server s))) k (sv_world (sy_server s)) = (Ok o, w) ->
      step s (Pass OperationsTask) (with_server s (after_work (sy_server s) o w))
  | step_media_start s m m' o w : sy_media s = MediaStarting m -> refreshed (hs_operations (sv_state (sy_server s))) o ->
      start_media cfg m (sv_world (sy_server s)) = (Ok m', w) ->
      step s (Pass MediaTask)
        (with_tasks (with_server s (after_work (sy_server s) o w)) (sy_operations s)
           (if String.eqb (mg_Status m') ModuleHealthy then MediaLoop m' First else MediaOver) (sy_workers s))
  | step_media s m l m' o w : sy_media s = MediaLoop m l -> l <> Over -> refreshed (hs_operations (sv_state (sy_server s))) o ->
      media_pass m (sv_world (sy_server s)) = (Ok m', w) ->
      step s (Pass MediaTask)
        (with_tasks (with_server s (after_work (sy_server s) o w)) (sy_operations s) (MediaLoop m' Ticking) (sy_workers s))
  | step_poll s before c l behind t o w : sy_workers s = before ++ (c, l) :: behind -> l <> Over ->
      refreshed (hs_operations (sv_state (sy_server s))) o ->
      collector_pass c (sy_statuses s) (sv_world (sy_server s)) = (Ok t, w) ->
      step s (Pass (CollectorTask (co_ID c)))
        (with_tasks (with_statuses (with_server s (after_work (sy_server s) o w)) t) (sy_operations s) (sy_media s)
           (before ++ (c, Ticking) :: behind))
  (* their ends *)
  | step_operations_ends s : sy_operations s = Ticking -> context_done s = true ->
      step s (Ends OperationsTask) (with_tasks s Over (sy_media s) (sy_workers s))
  | step_media_ends s m : sy_media s = MediaLoop m Ticking -> context_done s = true ->
      step s (Ends MediaTask) (with_tasks s (sy_operations s) (MediaLoop m Over) (sy_workers s))
  | step_poll_ends s before c behind : sy_workers s = before ++ (c, Ticking) :: behind -> context_done s = true ->
      step s (Ends (CollectorTask (co_ID c))) (with_tasks s (sy_operations s) (sy_media s) (before ++ (c, Over) :: behind))
  (* [Run] and [Serve]; before a shutdown the listener only ends with another error *)
  | step_cancel s : not_returned (sy_run s) ->
      step s ContextDone (System (sy_server s) (sy_statuses s) (sy_operations s) (sy_media s) (sy_workers s) true (sy_run s))
  | step_listener s : sy_run s = Serving ->
      step s (RunMoves (Joining (Serve (ListenerEnds (Some OtherServeError)))))
        (with_run s (Joining (Serve (ListenerEnds (Some OtherServeError)))))
  | step_stopping s : sy_run s = Serving -> sy_canceled s = true -> step s (RunMoves Stopping) (with_run s Stopping)
  | step_shutdown s failed e : sy_run s = Stopping -> (failed = false -> in_flight (sy_server s) = []) ->
      step s (RunMoves (Joining (Serve (ContextEnds failed e)))) (with_run s (Joining (Serve (ContextEnds failed e))))
  | step_return s r : sy_run s = Joining r -> sy_operations s = Over -> media_ended (sy_media s) ->
      Forall (fun x => snd x = Over) (sy_workers s) ->
      step s (RunMoves (Returned r)) (with_run s (Returned r)).

Inductive steps : system -> list event -> system -> Prop :=
  | steps_nil s : steps s [] s
  | steps_snoc s l s1 e s2 : steps s l s1 -> step s1 e s2 -> steps s (l ++ [e]) s2.

(** ** Nothing is forgotten *)
Section Remembering.
Context {P : database -> Prop} `{!Remembers P}.

Lemma recalled {A} (m : F A) w r w' : db_keeps P m -> m w = (r, w') -> P (w_db w) -> P (w_db w').
Proof. intros Hm E Hw. specialize (Hm w Hw). by rewrite E in Hm. Qed.

Lemma recalls_record_reports l : db_keeps P (record_reports l).
Proof. induction l as [|f l IH]; cbn [record_reports]; recall. Qed.
Lemma recalls_collector_pass c t : db_keeps P (collector_pass c t).
Proof.
  intros w Hw. unfold collector_pass. destruct (co_ActivityWatch c) as [aw|]; [|done].
  set (p0 := PollWorld _ _ _ _ _). pose proof (polls_pollAndRecord (Q := P) (store_of cfg) c aw p0 Hw) as Hp.
  destruct (pollAndRecord (store_of cfg) c aw p0) as [r p]. cbn in Hp.
  apply (db_keeps_bind P (record_reports (p_faults p)) (fun _ => fret (p_statuses p)));
    [apply recalls_record_reports|intros ?; recall|exact Hp].
Qed.

Definition db_of (s : system) : database := w_db (sv_world (sy_server s)).

Lemma serve_remembers sv e sv' : e <> Background -> serve cfg h sv e sv' ->
  P (w_db (sv_world sv)) -> P (w_db (sv_world sv')).
Proof.
  intros He Hs Hw. destruct Hs; try done; cbn in *.
  all: eapply recalled; [|eassumption|done]; apply recalls_complete; apply _.
Qed.

(** *** With the acceptance of media *)
Section Accepting.
Context `{!RemembersMedia P}.
Lemma recalls_media_pass m : db_keeps P (media_pass m).
Proof.
  apply db_keeps_bind; [apply recalls_scanAndLog; apply _|]. intros [m' [[[[a b] c] e]|]]; recall.
Qed.
Lemma step_remembers s e s' : step s e s' -> P (db_of s) -> P (db_of s').
Proof.
  intros Hs Hd. destruct Hs; try exact Hd; unfold db_of in *; cbn.
  - by eapply serve_remembers.
  - by eapply serve_remembers; [|eassumption|].
  - eapply recalled; [|eassumption|done]; apply recalls_on_tick; apply _.
  - eapply recalled; [|eassumption|done]; apply recalls_start_media; apply _.
  - eapply recalled; [|eassumption|done]; apply recalls_media_pass; apply _.
  - eapply recalled; [|eassumption|done]; apply recalls_collector_pass; apply _.
Qed.
Lemma steps_remember s l s' : steps s l s' -> P (db_of s) -> P (db_of s').
Proof. intros Hl Hd. induction Hl as [|s l s1 e s2 Hl IH Hs]; [done|]. eapply step_remembers; [exact Hs|by apply IH]. Qed.
End Accepting.
End Remembering.

(** ** At the reserve nothing is added *)
Section Protecting.
Context `{!Wired cfg} (n0 : nat) (Hdisk : at_reserve cfg n0) (d0 : database).
Abbreviation Late := (late n0 (evidence d0)).

Lemma import_closed n : (n0 <= n)%nat -> exists code, import_gate n = Some code.
Proof. intros Hn. rewrite wired_import. by eapply core_closed. Qed.
Lemma bars_media_pass m : bars n0 (evidence d0) (media_pass m).
Proof.
  apply bars_bind; [by apply bars_scanAndLog|]. intros [m' [[[[a b] c] x]|]]; [|apply bars_ret].
  apply bars_bind; [apply bars_RecordFault|]. intros ?. apply bars_ret.
Qed.
Lemma bars_record_reports l : bars n0 (evidence d0) (record_reports l).
Proof.
  induction l as [|f l IH]; cbn [record_reports]; [apply bars_ret|]. by apply bars_bind; [apply bars_RecordFault|intros ?].
Qed.
Lemma bars_collector_pass c t : bars n0 (evidence d0) (collector_pass c t).
Proof.
  intros w Hw. unfold collector_pass. destruct (co_ActivityWatch c) as [aw|]; [|done].
  set (p0 := PollWorld _ _ _ _ _).
  pose proof (p_bars_pollAndRecord (store_of cfg) n0 import_closed (evidence d0) c aw p0 Hw) as Hp.
  destruct (pollAndRecord (store_of cfg) c aw p0) as [r p]. cbn in Hp.
  apply (bars_bind n0 (evidence d0) (record_reports (p_faults p)) (fun _ => fret (p_statuses p)));
    [apply bars_record_reports|intros ?; apply bars_ret|exact Hp].
Qed.

(** What a late step does to the world, and to a batch that is answered there. *)
Definition world_of (s : system) : world := sv_world (sy_server s).
Definition is_batch (r : route) : Prop := r = EventBatch \/ r = HeartbeatBatch.
Definition refuses (e : event) : Prop :=
  forall r req resp, e = Api (Finished r req (Answer resp)) -> is_batch r -> rs_Status resp = 507.

Lemma barred {A} (m : F A) w r w' : bars n0 (evidence d0) m -> m w = (r, w') -> Late w -> Late w'.
Proof. intros Hm E Hw. specialize (Hm w Hw). by rewrite E in Hm. Qed.

Context (st : Store) (Hst : hd_store h = OpenStore st) (Hmanager : hd_operations h = true).
Lemma late_serve sv e sv' : e <> Background -> serve cfg h sv e sv' -> Late (sv_world sv) ->
  Late (sv_world sv') /\ refuses (Api e).
Proof.
  intros He Hs Hw. destruct Hs as [| |r req s s' w w' p1 p2 q o E Ho| |]; try done; cbn in *.
  - split; [eapply barred; [by eapply bars_complete|exact E|exact Hw]|].
    intros r0 req0 resp [= -> -> ->] Hr. unfold complete, fbind in E.
    assert (Hfin : exists s1 code k w1, finish cfg h r0 s req0 w =
      (Ok (s1, Answer (writeError req0 507 code (bk_unconfirmed k))), w1)).
    { destruct Hr as [-> | ->]; cbn [finish]; unfold handleEventBatch, handleHeartbeatBatch;
        match goal with |- context [finish_batch cfg h ?k ?f s req0 w] =>
          destruct (batch_refused cfg n0 Hdisk (evidence d0) h Hmanager k f s req0 w st Hst Hw) as (s1 & code & w1 & E1 & _) end;
        eexists s1, code, _, w1; exact E1. }
    destruct Hfin as (s1 & code & k & w1 & E1). rewrite E1 in E. by injection E as <- <-.
  - split; [|by intros ? ? ? [=]]. eapply barred; [by eapply bars_complete|eassumption|exact Hw].
Qed.
Lemma late_step s e s' : step s e s' -> Late (world_of s) -> Late (world_of s') /\ refuses e.
Proof.
  intros Hs Hw. destruct Hs; unfold world_of in *; cbn.
  1: by eapply late_serve.
  1: by eapply late_serve; [|eassumption|].
  all: split; [|by intros ? ? ? [=]]; try exact Hw.
  - eapply barred; [by apply bars_on_tick|eassumption|exact Hw].
  - eapply barred; [by apply bars_start_media|eassumption|exact Hw].
  - eapply barred; [apply bars_media_pass|eassumption|exact Hw].
  - eapply barred; [apply bars_collector_pass|eassumption|exact Hw].
Qed.
Lemma late_steps s l s' : steps s l s' -> Late (world_of s) -> Late (world_of s') /\ Forall refuses l.
Proof.
  intros Hl Hw. induction Hl as [|s l s1 e s2 Hl IH Hs]; [by split|]. destruct (IH Hw) as [H1' Hr].
  destruct (late_step _ _ _ Hs H1') as [H2' He]. split; [done|]. apply Forall_app. split; [done|]. by constructor.
Qed.
End Protecting.

(** ** The requests of a run are those of a server *)
Definition foreground (e : api_event) : bool := match e with Background => false | _ => true end.
Definition api_events (l : list event) : list api_event :=
  omap (fun e => match e with Api x => Some x | _ => None end) l.

(** A step is one of the server, or background work, or none of its business. *)
Lemma step_serves s e s' : step s e s' ->
  exists l, serves cfg h (sy_server s) l (sy_server s') /\ List.filter foreground l = api_events [e].
Proof.
  intros Hs. assert (Hone : forall x sv, serve cfg h (sy_server s) x sv -> serves cfg h (sy_server s) [x] sv).
  { intros x sv Hx. eapply (serves_snoc _ _ _ [] _ _ _ (serves_nil _ _ _) Hx). }
  assert (Hwork : forall o w, serves cfg h (sy_server s) [Background] (after_work (sy_server s) o w)).
  { intros o w. apply Hone. destruct (sy_server s) as [st w0 p q]. apply serve_background. }
  destruct Hs as [s e sv _ He Hx|s r req x sv _ Hx| | | | | | | | | | | |].
  1: exists [e]; split; [by apply Hone|by destruct e].
  1: exists [Finished r req x]; split; [by apply Hone|done].
  1-4: exists [Background]; split; [apply Hwork|done].
  all: exists []; split; [apply serves_nil|done].
Qed.
Lemma serves_app sv l1 sv1 l2 sv2 : serves cfg h sv l1 sv1 -> serves cfg h sv1 l2 sv2 -> serves cfg h sv (l1 ++ l2) sv2.
Proof.
  intros Ha Hb. induction Hb as [|sv1 l2 sv2 e sv3 Hb IH Hs]; [by rewrite app_nil_r|].
  rewrite app_assoc. eapply serves_snoc; [by apply IH|exact Hs].
Qed.
Lemma steps_serves s l s' : steps s l s' ->
  exists l', serves cfg h (sy_server s) l' (sy_server s') /\ List.filter foreground l' = api_events l.
Proof.
  intros Hl. induction Hl as [s|s l s1 e s2 Hl (l1 & Ha & E1) Hs]; [exists []; split; [apply serves_nil|done]|].
  apply step_serves in Hs as (l2 & Hb & E2). exists (l1 ++ l2). split; [by eapply serves_app|].
  rewrite List.filter_app, E1, E2. unfold api_events. by rewrite omap_app.
Qed.

(** ** How a run ends *)
Definition polled (l : list event) (x : CollectorConfig * loop) : Prop :=
  snd x <> First -> Pass (CollectorTask (co_ID (fst x))) ∈ l.
(** Nothing is in flight once [Serve] has come back without an error. *)
Definition drained (s : system) : Prop :=
  forall r, sy_run s = Joining r \/ sy_run s = Returned r -> r = Ok tt -> in_flight (sy_server s) = [].
Definition joined (s : system) : Prop :=
  forall r, sy_run s = Returned r ->
    sy_operations s = Over /\ media_ended (sy_media s) /\ Forall (fun x => snd x = Over) (sy_workers s).

Lemma returned_stays s r e s' : sy_run s = Returned r -> sy_operations s = Over -> media_ended (sy_media s) ->
  Forall (fun x => snd x = Over) (sy_workers s) -> ~ step s e s'.
Proof.
  intros Er Eo Em Ew Hs.
  assert (Hw : forall before c l behind, sy_workers s = before ++ (c, l) :: behind -> l = Over).
  { intros before c l behind E. rewrite E in Ew. apply Forall_app in Ew as [_ Ew]. by apply Forall_cons in Ew as [? _]. }
  destruct Hs; try congruence.
  all: try match goal with
    | Ht : taking_requests _ |- _ => destruct Ht; congruence
    | Hn : not_returned _ |- _ => by apply (Hn r)
    | E : sy_media _ = MediaStarting _ |- _ => by rewrite E in Em
    | E : sy_media _ = MediaLoop _ ?l |- _ => rewrite E in Em; first [done|by destruct l]
    | E : sy_workers _ = _ |- _ => by apply Hw in E
    end.
Qed.

Lemma polled_more l e x : polled l x -> polled (l ++ [e]) x.
Proof. intros Hx Hf. apply elem_of_app. left. by apply Hx. Qed.
(** A loop that has moved on from a pass. *)
Lemma polled_split (l : list event) before c k k' behind : Forall (polled l) (before ++ (c, k) :: behind) ->
  polled l (c, k') -> Forall (polled l) (before ++ (c, k') :: behind).
Proof.
  intros Hw Hc. apply Forall_app in Hw as [Hb Hw]. apply Forall_cons in Hw as [_ Hw]. apply Forall_app. split; [done|].
  by constructor.
Qed.

Lemma idle_serves sv e sv' : serve cfg h sv e sv' -> in_flight sv = [] -> in_flight sv' = [] \/ exists r req, e = Begun r req.
Proof.
  intros Hs Hf. unfold in_flight in *.
  destruct Hs; cbn in *; try (by left); try (by right; eexists _, _);
    by destruct p1.
Qed.

Lemma step_polled s l e s' : Forall (polled l) (sy_workers s) -> step s e s' -> Forall (polled (l ++ [e])) (sy_workers s').
Proof.
  intros Hp Hs.
  assert (Hp' : Forall (polled (l ++ [e])) (sy_workers s)) by (eapply Forall_impl; [exact Hp|]; intros x; apply polled_more).
  destruct Hs; cbn; try exact Hp'.
  - match goal with Ew : sy_workers _ = _ |- _ => rewrite Ew in Hp' end. eapply polled_split; [exact Hp'|].
    intros _. apply elem_of_app. right. by left.
  - match goal with Ew : sy_workers _ = _ |- _ => rewrite Ew in Hp' end. eapply polled_split; [exact Hp'|].
    intros _. apply Forall_app in Hp' as [_ Hp']. apply Forall_cons in Hp' as [Hc _]. by apply Hc.
Qed.
Lemma step_drained s e s' : drained s -> step s e s' -> drained s'.
Proof.
  intros Hd Hs r Hr Hok. unfold drained in Hd.
  destruct Hs as [s e sv Ht He Hx|s q req x sv Hn Hx| | | | | | | | | |s Er|s failed e Er Hf|s r' Er]; cbn in *;
    try (by eapply Hd); try (by destruct Hr).
  - by destruct Ht as [Et|Et]; rewrite Et in Hr; destruct Hr.
  - destruct (idle_serves _ _ _ Hx (Hd _ Hr Hok)) as [|(? & ? & ?)]; done.
  - destruct Hr as [[= <-]|[=]]. done.
  - destruct Hr as [[= <-]|[=]]. destruct failed; [done|by apply Hf].
  - destruct Hr as [[=]|[= <-]]. eapply Hd; [by left|done].
Qed.
Lemma step_joined s e s' : joined s -> step s e s' -> joined s'.
Proof.
  intros Hj Hs r Hr.
  assert (Hstay : forall r, sy_run s = Returned r -> False).
  { intros r0 Er. destruct (Hj r0 Er) as (? & ? & ?). by eapply returned_stays in Hs. }
  destruct Hs; cbn in *; try (exfalso; exact (Hstay _ Hr)); try done.
Qed.

(** ** The loops come to their end *)
Lemma steps_app s l1 s1 l2 s2 : steps s l1 s1 -> steps s1 l2 s2 -> steps s (l1 ++ l2) s2.
Proof.
  intros Ha Hb. induction Hb as [|s1 l2 s2 e s3 Hb IH Hs]; [by rewrite app_nil_r|].
  rewrite app_assoc. eapply steps_snoc; [by apply IH|exact Hs].
Qed.
Lemma steps_one s e s' : step s e s' -> steps s [e] s'.
Proof. intros Hs. apply (steps_snoc _ [] _ _ _ (steps_nil _) Hs). Qed.

#[local] Hint Resolve runs_now_text runs_RecordFault runs_RecordModuleState : running.
Lemma runs_refresh o : runs (refreshDiskStatus cfg o) any.
Proof. unfold refreshDiskStatus, now. run. Qed.
Lemma runs_process_selected l : forall s, runs (process_selected cfg l s) any.
Proof.
  induction l as [|c l IH]; intros s; cbn [process_selected]; [by apply runs_ret|].
  eapply (runs_bind _ _ any); [by apply runs_attempt|]. intros [?|e] _; [|by apply runs_ret].
  eapply (runs_bind _ _ any); [unfold process_candidate; run|]. intros x _. apply IH.
Qed.
#[local] Hint Resolve runs_process_selected : running.
Lemma runs_media_pass m : runs (media_pass m) any.
Proof. unfold media_pass, scanAndLog, ScanOnce. run. Qed.
Lemma runs_start_media m : runs (start_media cfg m) any.
Proof. unfold start_media, MediaIngest.Initialize. run. Qed.
Lemma runs_record_reports l : runs (record_reports l) any.
Proof. induction l as [|f l IH]; cbn [record_reports]; [by apply runs_ret|]. eapply (runs_bind _ _ any); [apply runs_RecordFault|]. by intros ? _. Qed.
Lemma runs_collector_pass c t : runs (collector_pass c t) any.
Proof.
  intros w. unfold collector_pass. destruct (co_ActivityWatch c); [|by eexists _, _].
  destruct (pollAndRecord _ _ _ _) as [r p].
  apply (runs_bind (record_reports (p_faults p)) (fun _ => fret (p_statuses p)) any any); [apply runs_record_reports|].
  intros ? _. by apply runs_ret.
Qed.

Definition keeps_tasks (s s' : system) : Prop := sy_operations s' = sy_operations s /\ sy_media s' = sy_media s.

(** The workers behind those that have ended are polled once more, where they
    have not been, and end. *)
Lemma workers_end r behind : forall s before, sy_run s = Joining r -> sy_workers s = before ++ behind ->
  Forall (fun x => snd x = Over) before ->
  exists l s', steps s l s' /\ sy_run s' = Joining r /\ Forall (fun x => snd x = Over) (sy_workers s') /\ keeps_tasks s s'.
Proof.
  induction behind as [|[c k] behind IH]; intros s before Er Ew Hb.
  { exists [], s. split; [apply steps_nil|]. split; [done|]. rewrite Ew, app_nil_r. by split. }
  assert (Hnext : forall s1, sy_run s1 = Joining r -> sy_workers s1 = before ++ (c, Over) :: behind -> keeps_tasks s s1 ->
    forall l1, steps s l1 s1 -> exists l s', steps s l s' /\ sy_run s' = Joining r /\
      Forall (fun x => snd x = Over) (sy_workers s') /\ keeps_tasks s s').
  { intros s1 E1 W1 [K1 K2] l1 Hl1. destruct (IH s1 (before ++ [(c, Over)])) as (l & s' & Hl & E & W & K3 & K4);
      [done|by rewrite W1, <- app_assoc|apply Forall_app; split; [done|by repeat constructor]|].
    exists (l1 ++ l), s'. split; [by eapply steps_app|]. split; [done|]. split; [done|]. split; congruence. }
  assert (Hend : forall s1, sy_run s1 = Joining r -> sy_workers s1 = before ++ (c, Ticking) :: behind -> keeps_tasks s s1 ->
    forall l1, steps s l1 s1 -> exists l s', steps s l s' /\ sy_run s' = Joining r /\
      Forall (fun x => snd x = Over) (sy_workers s') /\ keeps_tasks s s').
  { intros s1 E1 W1 K1 l1 Hl1. refine (Hnext _ _ _ _ _ (steps_snoc _ _ _ _ _ Hl1 (step_poll_ends s1 before c behind W1 _))); try done.
    unfold context_done. rewrite E1. apply orb_true_r. }
  destruct k.
  - destruct (runs_collector_pass c (sy_statuses s) (sv_world (sy_server s))) as (t & w & Ep & _).
    refine (Hend _ _ _ _ _ (steps_one _ _ _ (step_poll s before c First behind t _ w Ew _ (rtc_refl _ _) Ep))); done.
  - by apply (Hend s Er Ew (conj eq_refl eq_refl) [] (steps_nil s)).
  - by apply (Hnext s Er Ew (conj eq_refl eq_refl) [] (steps_nil s)).
Qed.

(** The first poll of the only collector. *)
Lemma polls_first c s : sy_workers s = [(c, First)] -> exists s', steps s [Pass (CollectorTask (co_ID c))] s'.
Proof.
  intros Ew. destruct (runs_collector_pass c (sy_statuses s) (sv_world (sy_server s))) as (t & w & Ep & _).
  eexists. apply steps_one, (step_poll s [] c First [] t _ w Ew ltac:(done) (rtc_refl _ _) Ep).
Qed.

(** Media ingest comes to its end, after the passes it still owes. *)
Lemma media_loop_ends r m k s : sy_run s = Joining r -> sy_media s = MediaLoop m k ->
  exists l s', steps s l s' /\ sy_run s' = Joining r /\ media_ended (sy_media s') /\
    sy_operations s' = sy_operations s /\ sy_workers s' = sy_workers s.
Proof.
  intros Er Em. assert (Hend : forall s1 m1 l1, steps s l1 s1 -> sy_run s1 = Joining r -> sy_media s1 = MediaLoop m1 Ticking ->
    sy_operations s1 = sy_operations s -> sy_workers s1 = sy_workers s ->
    exists l s', steps s l s' /\ sy_run s' = Joining r /\ media_ended (sy_media s') /\
      sy_operations s' = sy_operations s /\ sy_workers s' = sy_workers s).
  { intros s1 m1 l1 Hl1 E1 M1 O1 W1. eexists _, _. split; [eapply steps_snoc; [exact Hl1|apply (step_media_ends s1 m1 M1)]|done].
    unfold context_done. rewrite E1. apply orb_true_r. }
  destruct k.
  - destruct (runs_media_pass m (sv_world (sy_server s))) as (m' & w & Ep & _).
    eapply (Hend _ m'); [apply steps_one, (step_media s m First m' _ w Em ltac:(done) (rtc_refl _ _) Ep)|done..].
  - by apply (Hend s m [] (steps_nil s)).
  - exists [], s. split; [apply steps_nil|]. rewrite Em. done.
Qed.
Lemma media_ends r s : sy_run s = Joining r ->
  exists l s', steps s l s' /\ sy_run s' = Joining r /\ media_ended (sy_media s') /\
    sy_operations s' = sy_operations s /\ sy_workers s' = sy_workers s.
Proof.
  intros Er. destruct (sy_media s) as [m|m k|] eqn:Em.
  - destruct (runs_start_media m (sv_world (sy_server s))) as (m' & w & Ep & _).
    pose proof (steps_one _ _ _ (step_media_start s m m' _ w Em (rtc_refl _ _) Ep)) as Hs.
    destruct (String.eqb (mg_Status m') ModuleHealthy); [|by eexists _, _].
    match type of Hs with steps _ _ ?s1 => destruct (media_loop_ends r m' First s1) as (l & s' & Hl & ?); [done|done|] end.
    eexists _, s'. split; [eapply steps_app; [exact Hs|exact Hl]|done].
  - by eapply media_loop_ends.
  - exists [], s. split; [apply steps_nil|]. by rewrite Em.
Qed.
Lemma operations_end r s : sy_run s = Joining r -> sy_operations s <> First ->
  exists l s', steps s l s' /\ sy_run s' = Joining r /\ sy_operations s' = Over /\
    sy_media s' = sy_media s /\ sy_workers s' = sy_workers s.
Proof.
  intros Er Ho. destruct (sy_operations s) eqn:Eo; [done| |by exists [], s; split; [apply steps_nil|]].
  eexists _, _. split; [apply steps_one, (step_operations_ends s Eo)|done].
  unfold context_done. rewrite Er. apply orb_true_r.
Qed.

(** Once [Serve] has come back, [Run] can. *)
Lemma joining_returns r s : sy_run s = Joining r -> sy_operations s <> First ->
  exists l s', steps s l s' /\ sy_run s' = Returned r.
Proof.
  intros Er Ho. destruct (operations_end r s Er Ho) as (l1 & s1 & H1' & E1 & O1 & M1 & W1).
  destruct (media_ends r s1 E1) as (l2 & s2 & H2' & E2 & M2 & O2 & W2).
  destruct (workers_end r (sy_workers s2) s2 [] E2 eq_refl ltac:(constructor)) as (l3 & s3 & H3' & E3 & W3 & O3 & M3).
  eexists _, _. split; [eapply steps_snoc; [eapply steps_app; [exact H1'|eapply steps_app; [exact H2'|exact H3']]|]|].
  - apply (step_return s3 r E3); [congruence|by rewrite M3|done].
  - done.
Qed.
Lemma step_operations_kept s e s' : sy_operations s <> First -> step s e s' -> sy_operations s' <> First.
Proof. intros Ho Hs. destruct Hs; done. Qed.
Lemma steps_operations_kept s l s' : sy_operations s <> First -> steps s l s' -> sy_operations s' <> First.
Proof. intros Ho Hl. induction Hl as [|s l s1 e s2 Hl IH Hs]; [done|]. eapply step_operations_kept; [by apply IH|exact Hs]. Qed.
End Life.

(** ** From the start *)
Section Boot.
Context `{Paths} `{Zones} `{Network} `{Floats} `{FilePaths} {env : Environment} `{Disk} `{Requests} `{SqliteJson} `{Float64} `{SqliteReal} `{!FloatText} {sur : Surroundings} `{Urls}.
Context (cfg : Config) (build : string) (listens assets : bool) (opened : result error unit) (w : world).

Lemma runs_record_modules l : runs (record_modules l) any.
Proof.
  induction l as [|[m [s r]] l IH]; cbn [record_modules]; [by apply runs_ret|].
  eapply (runs_bind _ _ any); [apply runs_RecordModuleState|]. by intros ? _.
Qed.
Lemma startup_runs dashboard : runs (startup cfg dashboard) any.
Proof.
  unfold startup, Operations.Initialize, ScanDiskOnce, RecordRuntimeMode, appendModule, recordError, appendFault.
  pose proof runs_now_text. pose proof runs_record_modules. pose proof runs_refresh. run.
Qed.
(** Only the listener keeps [Run] from serving. *)
Lemma boot_serves : listens = true -> exists x, boot cfg build listens assets opened w = Ok x.
Proof.
  intros ->. unfold boot. cbn [negb]. destruct opened; [|by eexists].
  destruct (startup_runs (DashboardIsEnabled cfg && assets) w) as (o & w' & -> & _). by eexists.
Qed.

Lemma boot_start h s : boot cfg build listens assets opened w = Ok (h, s) ->
  sy_run s = Serving /\ sy_operations s <> First /\ in_flight (sy_server s) = [] /\
  (forall d0, history d0 (w_db w) -> history d0 (db_of s)) /\
  Forall (fun x => snd x = First) (sy_workers s) /\
  map fst (sy_workers s) = if is_ok opened then activitywatch_collectors cfg else [].
Proof.
  unfold boot. destruct listens; [|done]. cbn [negb]. destruct opened; cbn [is_ok].
  - destruct (startup cfg _ w) as [[o|e] w1] eqn:E; [|done]. intros [= <- <-]. cbn. do 3 (split; [done|]). split; [|split].
    + intros d0 Hd. refine (recalled _ _ _ _ (recalls_startup _ _) E Hd).
    + by apply Forall_map, Forall_true.
    + rewrite map_map. apply map_id.
  - by intros [= <- <-].
Qed.

(** C3: from the start of the server on, over every interleaving of requests, ticks
    of the operations manager, scans of media ingest and polls of the collectors,
    and whatever the driver or the file system fails, the tables that the schema
    makes append-only keep every row they had, in place, and only get new ones at
    their end with larger ids; and the keys of events and heartbeats stay unique. *)
Theorem run_append_only h s0 l s (Hok : tables_ok (w_db w))
    (Hboot : boot cfg build listens assets opened w = Ok (h, s0)) (Hl : steps cfg h s0 l s) :
  tables_ok (db_of s) /\ grew (w_db w) (db_of s).
Proof.
  apply boot_start in Hboot as (_ & _ & _ & Hd & _). apply (steps_remember (P := history (w_db w)) cfg h s0 l s Hl), Hd. by split.
Qed.


(** C40: from whatever state the server serves in, once the context is done [Run]
    can return: every loop ends after the pass it is in or still owes; and where no
    request is in flight, it can return without an error. *)
Theorem run_can_return h s0 l s (Hboot : boot cfg build listens assets opened w = Ok (h, s0))
    (Hl : steps cfg h s0 l s) (Hserving : sy_run s = Serving) :
  exists l' s' r, steps cfg h s (ContextDone :: l') s' /\ sy_run s' = Returned r /\
    (in_flight (sy_server s) = [] -> r = Ok tt).
Proof.
  apply boot_start in Hboot as (_ & Ho & _). apply (steps_operations_kept cfg h _ _ _ Ho) in Hl.
  set (s1 := System (sy_server s) (sy_statuses s) (sy_operations s) (sy_media s) (sy_workers s) true (sy_run s)).
  assert (Hs1 : step cfg h s ContextDone s1) by (apply step_cancel; intros r E; congruence).
  pose proof (step_stopping cfg h s1 Hserving eq_refl) as Hs2. set (s2 := with_run s1 Stopping) in *.
  set (failed := if decide (in_flight (sy_server s) = []) then false else true).
  assert (Hf : failed = false -> in_flight (sy_server s) = []) by (unfold failed; by case_decide).
  pose proof (step_shutdown cfg h s2 failed (Some ServerClosed) eq_refl Hf) as Hs3.
  destruct (joining_returns cfg h _ (with_run s2 (Joining (Serve (ContextEnds failed (Some ServerClosed))))) eq_refl Hl)
    as (l' & s' & Hl' & Er).
  eexists (_ :: _ :: l'), s', _. split; [|split; [exact Er|]].
  - change (ContextDone :: ?a :: ?b :: l') with ([ContextDone] ++ [a] ++ [b] ++ l').
    repeat (eapply steps_app; [apply steps_one; eassumption|]). exact Hl'.
  - intros E. unfold failed. by rewrite decide_True.
Qed.

(** C4: once the free space of the disk stays at the reserve, no step of the server
    (request, tick, scan or poll, in any order and whatever fails) adds to the
    events, the heartbeats or the media, and every batch of events or heartbeats
    that is answered is refused with status 507. *)
Theorem reserve_protects `{!Wired cfg} h s0 l s l' s' n0 (Hboot : boot cfg build listens assets (Ok tt) w = Ok (h, s0))
    (Hl : steps cfg h s0 l s) (Hdisk : at_reserve cfg n0) (Hlate : (n0 <= w_step (world_of s))%nat) (Hl' : steps cfg h s l' s') :
  evidence (db_of s') = evidence (db_of s) /\
  (forall r req resp, Api (Finished r req (Answer resp)) ∈ l' -> is_batch r -> rs_Status resp = 507).
Proof.
  assert (Hh : hd_store h = OpenStore (store_of cfg) /\ hd_operations h = true).
  { unfold boot in Hboot. destruct listens; [|done]. cbn [negb] in Hboot.
    destruct (startup cfg _ w) as [[o|x] w1]; [|done]. by injection Hboot as <- <-. }
  destruct Hh as [Hst Hmanager].
  destruct (late_steps cfg h n0 Hdisk (db_of s) _ Hst Hmanager s l' s' Hl' (conj Hlate eq_refl)) as [[_ He] Hr].
  split; [exact He|]. intros r req resp Hin. rewrite Forall_forall in Hr. apply (Hr _ Hin _ _ _ eq_refl).
Qed.
End Boot.

(** ** A server with one collector *)
Definition aw_collector : CollectorConfig :=
  MkCollector "aw" CollectorActivityWatch true "60s" "5s" "2m" (MkSchedule "UTC" []) (Some (window_bucket 5)).
Definition life_config : Config :=
  let c := sample_config in
  MkConfig (Config.SchemaVersion c) (Config.Runtime c) (Config.Server c) (PathsOf c) (Storage c) (API c) (MediaIngest c) [aw_collector]
    (Config.Timeline c) (Config.Operations c) (Config.Retention c) (Config.Logging c) (DashboardEnabled c).
#[export] Instance window_surroundings : Surroundings := answering window_server.
#[local] Existing Instance roomy | 0.

Abbreviation life_boot := (boot life_config "1.0" true false (Ok tt) empty_world).
(** The first poll of the collector, right after the start. *)
Definition first_poll (s : system) : result media_error (gmap string Status) * world :=
  collector_pass life_config aw_collector (sy_statuses s) (sv_world (sy_server s)).

(** The tables after it: the events of the bucket and the module states. *)
Example first_poll_example :
  rmap (fun x => let d := w_db (snd (first_poll (snd x))) in
    (length (raw_events d), length (collector_heartbeats d), map (fun r => mo_Module (snd (rval r))) (module_state_events d))) life_boot
  = Ok (3%nat, 1%nat, ["retention"; "dashboard"; "coverage"; "generic_json"; "collector:aw"; "media_ingest"]).
Proof. vm_compute. reflexivity. Qed.

(** A poll and then the end of the context. *)
Lemma life_starts : exists h s0, life_boot = Ok (h, s0) /\ sy_workers s0 = [(aw_collector, First)] /\ sy_run s0 = Serving.
Proof.
  assert (Hs : rmap (fun x => (sy_workers (snd x), sy_run (snd x))) life_boot = Ok ([(aw_collector, First)], Serving))
    by (vm_compute; reflexivity).
  destruct life_boot as [[h s0]|code]; [|discriminate Hs]. injection Hs as Ew Er.
  exists h, s0. exact (conj eq_refl (conj Ew Er)).
Qed.
Lemma run_append_only_witness : exists h s0 s, life_boot = Ok (h, s0) /\ steps life_config h s0 [Pass (CollectorTask "aw")] s /\
  tables_ok (db_of s) /\ grew empty_database (db_of s).
Proof.
  destruct life_starts as (h & s0 & E & Ew & _).
  destruct (polls_first life_config h _ s0 Ew) as (s & Hs).
  exists h, s0, s. split; [exact E|]. split; [exact Hs|].
  apply (run_append_only life_config "1.0" true false (Ok tt) empty_world h s0 [Pass (CollectorTask "aw")] s);
    [split; by apply empty_table_ok|exact E|exact Hs].
Defined.

Lemma run_can_return_witness : exists h s0 l s r, life_boot = Ok (h, s0) /\
  steps life_config h s0 (ContextDone :: l) s /\ sy_run s = Returned r /\ (in_flight (sy_server s0) = [] -> r = Ok tt).
Proof.
  destruct life_starts as (h & s0 & E & _ & Er).
  destruct (run_can_return life_config "1.0" true false (Ok tt) empty_world h s0 [] s0 E (steps_nil _ _ _) Er) as (l & s & r & H1 & H2 & H3).
  exists h, s0, l, s, r. exact (conj E (conj H1 (conj H2 H3))).
Defined.


(** ** A disk that fills up *)
Module Filling.
(** Nothing is left from a step on, and the gates say so. *)
Definition full_from : nat := 9.
#[local] Instance disk : Disk | 0 :=
  {| free_bytes n := if Nat.ltb n full_from then Some (Z.shiftl 1 40) else Some 0; error_text _ := "failed" |}.
#[local] Instance environment : Environment | 0 :=
  {| others _ fs := fs; io_fault _ := false; short_write _ := 0%nat; short_read n := 1 + Z.of_nat n;
     media_gate := media_reason life_config; core_gate := core_reason life_config;
     clock n := 63844848000 * second + Z.of_nat n; canceled _ := false; ffprobe_version _ := Ok SupportedFFprobeVersion;
     ffprobe _ _ := Ok (MkProbeInfo 30500 "h264" "mov,mp4" "video");
     temporary n := digits_pad 10 (Z.of_nat n); file_identity _ _ := Ok ("id", 0) |}.
#[local] Instance surroundings : Surroundings | 0 :=
  {| ActivityWatch.response _ url := Some (HttpResponse 200 (window_server url) false); poll_clock n := minute_end + Z.of_nat n;
     import_gate := core_reason life_config; slot _ := SlotAcquired; http_error_text _ := "connection refused";
     store_error_text := Sql.ErrorCode |}.
#[local] Instance wired : Wired life_config.
Proof. by split. Qed.
Lemma reserve : at_reserve life_config full_from.
Proof. intros n Hn. cbn [free_bytes disk]. by rewrite (proj2 (Nat.ltb_ge _ _) Hn). Qed.
Abbreviation start := (boot life_config "1.0" true false (Ok tt) empty_world).

(** A batch that is posted once the disk is full, and a poll. *)
Lemma starts : exists h s0 s', start = Ok (h, s0) /\ (full_from <= w_step (world_of s0))%nat /\
  sy_workers s0 = [(aw_collector, First)] /\ sy_run s0 = Serving /\ sv_waiting (sy_server s0) = [] /\
  hd_store h = OpenStore (store_of life_config) /\ hd_operations h = true /\
  begin life_config h EventBatch (sv_state (sy_server s0)) batch_request = Ok s'.
Proof.
  assert (Hs : rmap (fun x : Handler * system => (sy_workers (snd x), sy_run (snd x), sv_waiting (sy_server (snd x)), Nat.leb full_from (w_step (world_of (snd x))),
      hd_store (fst x), hd_operations (fst x),
      is_ok (begin life_config (fst x) EventBatch (sv_state (sy_server (snd x))) batch_request))) start
    = Ok ([(aw_collector, First)], Serving, [], true, OpenStore (store_of life_config), true, true)) by (vm_compute; reflexivity).
  destruct start as [[h s0]|code]; [|discriminate Hs]. injection Hs as Ew Er Ep Eb Est Em Eok.
  change (is_ok (begin life_config h EventBatch (sv_state (sy_server s0)) batch_request) = true) in Eok.
  destruct (begin life_config h EventBatch (sv_state (sy_server s0)) batch_request) as [s'|] eqn:E; [|discriminate Eok].
  change (Nat.leb full_from (w_step (world_of s0)) = true) in Eb. apply Nat.leb_le in Eb. exists h, s0, s'. exact (conj eq_refl (conj Eb (conj Ew (conj Er (conj Ep (conj Est (conj Em E))))))).
Qed.

Lemma posts h s0 s' : (full_from <= w_step (world_of s0))%nat -> sy_run s0 = Serving -> sv_waiting (sy_server s0) = [] ->
  hd_store h = OpenStore (store_of life_config) -> hd_operations h = true ->
  begin life_config h EventBatch (sv_state (sy_server s0)) batch_request = Ok s' ->
  exists resp s, steps life_config h s0 [Api (Begun EventBatch batch_request); Api (Finished EventBatch batch_request (Answer resp))] s /\
    sy_workers s = sy_workers s0.
Proof.
  intros Hn Er Ep Hst Hm Eb. destruct s0 as [sv statuses o m workers c r]. destruct sv as [st w p q]. cbn in Hn, Er, Ep, Eb |- *. subst.
  destruct (batch_refused life_config full_from reserve (evidence (w_db w)) h Hm event_batch AppendBatch s' batch_request w _ Hst
    (conj Hn eq_refl)) as (s1 & code & w' & E & _).
  do 2 eexists. split.
  - eapply (steps_snoc _ _ _ [_]); [apply steps_one, step_request; [by left|done|by apply serve_begin]|].
    eapply step_finish; [done|]. eapply (serve_finish _ _ _ _ _ _ _ _ [] []); [|done].
    unfold complete. cbn [finish]. unfold handleEventBatch, fbind at 1. rewrite E. reflexivity.
  - done.
Qed.

Lemma reserve_protects_witness : exists h s0 l s resp, start = Ok (h, s0) /\ steps life_config h s0 l s /\
  Pass (CollectorTask "aw") ∈ l /\ Api (Finished EventBatch batch_request (Answer resp)) ∈ l /\
  evidence (db_of s) = evidence (db_of s0) /\ rs_Status resp = 507.
Proof.
  destruct starts as (h & s0 & s' & E & Hn & Ew & Er & Ep & Hst & Hm & Eb).
  destruct (posts h s0 s' Hn Er Ep Hst Hm Eb) as (resp & s1 & H1 & Ew1). rewrite Ew in Ew1.
  destruct (polls_first life_config h _ s1 Ew1) as (s2 & H2).
  pose proof (steps_app _ _ _ _ _ _ _ H1 H2) as Hs.
  destruct (reserve_protects life_config "1.0" true false empty_world h s0 [] s0 _ s2 full_from E (steps_nil _ _ _) reserve Hn Hs)
    as [He Hr].
  eexists h, s0, _, s2, resp. split; [exact E|]. split; [exact Hs|]. split; [|split; [|split; [exact He|]]].
  - do 2 right. left.
  - right. left.
  - apply (Hr EventBatch batch_request resp); [right; left|left; reflexivity].
Defined.
End Filling.
