(* ===== verification/Durability.v ===== *)
(** * What a run of the server keeps

    Two promises over every interleaving of a run: what the answer to a batch says
    of its items stays true, and no media file of the store is lost without an
    announcement in the retention log. *)

From Stdlib Require Import ZArith Lia String Ascii.
From S2P Require Import Prelude GoStrings GoTime GoJson Sha256 StrictJson Sql Schema Keyed Events Heartbeats Query Platform Config Coverage MediaStore OpsStore Timeline TimelineSync CoverageStore Sidecar ActivityWatch ActivityWatchFetch ActivityWatchPoll MediaScan MediaFiles MediaIngest PathFacts MediaFrame MediaAccept Operations Retention HttpApi Server ApiBatch History HistoryRun HistoryPoll Custody Lifecycle.
Open Scope string_scope.
Open Scope list_scope.
Open Scope result_scope.
Open Scope Z_scope.
Open Scope io_scope.

(** ** Results of a batch *)
Section Results.
Context {A : Type} (T : keyed_table A).

(** What a result says holds in a table with more rows. *)
Lemma slot_result_more d0 i slot res d d' : slot_result T d0 i slot res d -> k_rows T d `prefix_of` k_rows T d' ->
  slot_result T d0 i slot res d'.
Proof.
  intros [Hi Hs] Hp. split; [done|]. destruct slot as [code|item]; [done|].
  destruct Hs as (r & Hr & Hs). exists r. split; [by eapply prefix_mem|done].
Qed.

(** The answer to a batch, with a result for every item the client sent, which says
    what a database holds for it; [d0] is the database the batch met. *)
Definition upheld `{Requests} (cfg : Config) (k : batch_kind) (prepare : time -> string -> result error A) (req : request)
    (o : outcome_of_handler) (d : database) : Prop :=
  exists d0 items t slots rs, read_batch cfg k req = Ok items /\ o = Answer (writeJSON req 200 (ResultsBody rs)) /\
    prepare_all (prepare t) items = Ok slots /\
    Forall2 (fun ix res => slot_result T d0 (fst ix) (snd ix) res d) (indexed slots) rs.
Lemma upheld_more `{Requests} cfg k prepare req o d d' : upheld cfg k prepare req o d -> k_rows T d `prefix_of` k_rows T d' ->
  upheld cfg k prepare req o d'.
Proof.
  intros (d0 & items & t & slots & rs & H1 & H2 & H3 & H4) Hp. exists d0, items, t, slots, rs. do 3 (split; [done|]).
  eapply Forall2_impl; [exact H4|]. intros ix res Hs. exact (slot_result_more _ _ _ _ _ _ Hs Hp).
Qed.
End Results.

Section Durable.
Context `{Paths} `{Zones} `{Network} `{Floats} `{FilePaths} {env : Environment} `{Disk} `{Requests} `{SqliteJson} `{Float64} `{SqliteReal} `{!FloatText} {sur : Surroundings} `{Urls}.
Context (cfg : Config) (h : Handler).

(** ** Confirmed batches *)
Definition event_answer (req : request) (o : outcome_of_handler) : database -> Prop :=
  upheld events_table cfg event_batch (fun t raw => prepare (store_of cfg) raw (format_rfc3339nano t)) req o.
Definition heartbeat_answer (req : request) (o : outcome_of_handler) : database -> Prop :=
  upheld heartbeats_table cfg heartbeat_batch (fun t raw => prepareHeartbeat (store_of cfg) raw t) req o.
Definition answer_holds (r : route) (req : request) (o : outcome_of_handler) (d : database) : Prop :=
  match r with
  | EventBatch => event_answer req o d
  | HeartbeatBatch => heartbeat_answer req o d
  | _ => True
  end.
Lemma answer_grew r req o d d' : answer_holds r req o d -> grew d d' -> answer_holds r req o d'.
Proof. intros Ha Hg. destruct r; try done; (eapply upheld_more; [exact Ha|]); apply Hg. Qed.

Context (Hst : hd_store h = OpenStore (store_of cfg)).
Lemma complete_answer r s req w s' o w' : tables_ok (w_db w) -> complete cfg h r s req w = (Ok (s', o), w') ->
  confirmed o -> answer_holds r req o (w_db w').
Proof.
  intros [He Hh] Hr Hc. unfold complete in Hr. apply fbind_inv in Hr as ([s1 o1] & w1 & Hf & Hret). injection Hret as _ <- <-.
  destruct r; try done; cbn [finish answer_holds] in *; unfold handleEventBatch, handleHeartbeatBatch in Hf;
    destruct (finish_batch_cases _ _ _ _ _ _ _ _ _ _ _ Hst Hf) as [(items & t & rs & o' & E1 & E2 & -> & _)|[Hn _]]; try done.
  - destruct (append_batch_correct events_table _ _ _ _ _ _ _ _ _ _ He E2) as (_ & _ & slots & E3 & E4).
    by exists (w_db w), items, t, slots, rs.
  - destruct (append_batch_correct heartbeats_table _ _ _ _ _ _ _ _ _ _ Hh E2) as (_ & _ & slots & E3 & E4).
    by exists (w_db w), items, t, slots, rs.
Qed.

Definition answered (d : database) (e : event) : Prop :=
  forall r req o, e = Api (Finished r req o) -> confirmed o -> answer_holds r req o d.
Lemma answered_grew d d' e : answered d e -> grew d d' -> answered d' e.
Proof. intros Ha Hg r req o E Hc. eapply answer_grew; [by apply Ha|done]. Qed.
Lemma serve_answers sv r req o sv' : tables_ok (w_db (sv_world sv)) -> serve cfg h sv (Finished r req o) sv' ->
  confirmed o -> answer_holds r req o (w_db (sv_world sv')).
Proof.
  intros Hok Hs Hc. inversion Hs; subst; cbn in *; [by eapply complete_answer|]. by destruct Hc as (? & ? & _).
Qed.
Lemma step_answered s e s' : tables_ok (db_of s) -> step cfg h s e s' -> answered (db_of s') e.
Proof.
  intros Hok Hs. destruct Hs; intros r0 req0 o0 E Hc; try discriminate; unfold db_of in *; cbn.
  - injection E as ->. by eapply serve_answers.
  - injection E as -> -> ->. by eapply serve_answers.
Qed.
Lemma steps_answered s l s' : tables_ok (db_of s) -> steps cfg h s l s' -> Forall (answered (db_of s')) l.
Proof.
  intros Hok Hl. induction Hl as [|s l s1 e s2 Hl IH Hs]; [constructor|].
  assert (H1' : history (db_of s1) (db_of s1)).
  { split; [|reflexivity]. apply (steps_remember (P := history (db_of s)) cfg h _ _ _ Hl). by split. }
  apply Forall_app. split.
  - eapply Forall_impl; [by apply IH|]. intros e' He. eapply answered_grew; [exact He|].
    apply (step_remembers (P := history (db_of s1)) cfg h _ _ _ Hs H1').
  - constructor; [|constructor]. eapply step_answered; [apply H1'|exact Hs].
Qed.
End Durable.

(** ** The custody of media over a run *)
Section Kept.
Context `{Paths} `{Zones} `{Network} `{Floats} `{FilePaths} {laws : PathLaws} {env : Environment} `{Disk} `{Requests} `{SqliteJson} `{Float64} `{SqliteReal} `{!FloatText} {sur : Surroundings} `{Urls}.
Context (cfg : Config) {own : OwnDirectories cfg}.

Lemma guarded_run {A} (m : F A) w r w' : guards cfg m -> m w = (r, w') -> custody cfg w -> custody cfg w'.
Proof. intros Hm E Hw. specialize (Hm w Hw). by rewrite E in Hm. Qed.
Lemma guards_media_pass m : guards cfg (media_pass cfg m).
Proof.
  unfold media_pass. apply guards_bind; [by apply guards_scanAndLog|]. intros [m' [[[[a b] c] x]|]]; [|by intros w Hw].
  apply guards_bind; [by apply guards_RecordFault|]. by intros ? w Hw.
Qed.
Lemma guards_record_reports l : guards cfg (record_reports l).
Proof.
  induction l as [|f l IH]; cbn [record_reports]; [by intros w Hw|]. apply guards_bind; [by apply guards_RecordFault|by intros ?].
Qed.
Lemma guards_collector_pass c t : guards cfg (collector_pass cfg c t).
Proof.
  intros w Hw. unfold collector_pass. destruct (co_ActivityWatch c) as [aw|]; [|done].
  set (p0 := PollWorld _ _ _ _ _).
  pose proof (fun Q (HQ : Remembers Q) => polls_pollAndRecord (Q := Q) (store_of cfg) c aw p0) as Hp.
  destruct (pollAndRecord (store_of cfg) c aw p0) as [r p]. cbn in Hp.
  apply (guards_bind cfg (record_reports (p_faults p)) (fun _ => fret (p_statuses p)));
    [by apply guards_record_reports|by intros ? ? ?|].
  apply (custody_stays cfg w); [exact Hw| | |by intros size digest _ Hx]; cbn.
  - apply (Hp (history (w_db w))); [apply _|]. split; [apply Hw|reflexivity].
  - apply (Hp (same_segments (media_segments (w_db w)))); [apply _|reflexivity].
Qed.

Lemma custody_serve h sv e sv' : e <> Background -> serve cfg h sv e sv' ->
  custody cfg (sv_world sv) -> custody cfg (sv_world sv').
Proof.
  intros He Hs Hw. destruct Hs; try done; cbn in *; (eapply guarded_run; [|eassumption|exact Hw]); by apply guards_complete.
Qed.
Lemma custody_step h s e s' : step cfg h s e s' -> custody cfg (world_of s) -> custody cfg (world_of s').
Proof.
  intros Hs Hw. destruct Hs; try exact Hw; unfold world_of in *; cbn.
  - by eapply custody_serve.
  - by eapply custody_serve; [|eassumption|].
  - eapply guarded_run; [|eassumption|exact Hw]. by apply guards_on_tick.
  - eapply guarded_run; [|eassumption|exact Hw]. by apply guards_start_media.
  - eapply guarded_run; [|eassumption|exact Hw]. by apply guards_media_pass.
  - eapply guarded_run; [|eassumption|exact Hw]. by apply guards_collector_pass.
Qed.
Lemma custody_steps h s l s' : steps cfg h s l s' -> custody cfg (world_of s) -> custody cfg (world_of s').
Proof. intros Hl Hw. induction Hl as [|s l s1 e s2 Hl IH Hs]; [done|]. eapply custody_step; [exact Hs|by apply IH]. Qed.

Context (build : string) (listens assets : bool) (opened : result error unit) (w : world).
Lemma custody_boot h s : boot cfg build listens assets opened w = Ok (h, s) -> custody cfg w -> custody cfg (world_of s).
Proof.
  unfold boot. destruct listens; [|done]. cbn [negb]. destruct opened; [|by intros [= <- <-]].
  destruct (startup cfg _ w) as [[o|e] w1] eqn:E; [|done]. intros [= <- <-] Hw.
  eapply guarded_run; [|exact E|exact Hw]. by apply guards_startup.
Qed.

(** C1: no media file is lost in silence.  From the start of the server on, over every
    interleaving of requests, ticks, scans and polls, and whatever calls fail, each
    segment of the database has a regular file with its size and SHA-256 at its
    accepted path, unless a plan to delete the file at that path is in the retention
    log; new segments only appear with their file. *)
Theorem run_keeps_media h s0 l s (Hcustody : custody cfg w)
    (Hboot : boot cfg build listens assets opened w = Ok (h, s0)) (Hl : steps cfg h s0 l s) :
  custody cfg (world_of s) /\ forall r, r ∈ media_segments (db_of s) ->
    in_place cfg (rval r) (w_files (world_of s)) \/ announced cfg (place cfg (mm_SHA256 (rval r))) (db_of s).
Proof.
  pose proof (custody_steps h s0 l s Hl (custody_boot h s0 Hboot Hcustody)) as Hc. split; [exact Hc|].
  intros r Hr. by apply (cu_files cfg _ Hc).
Qed.
End Kept.

Section Answers.
Context `{Paths} `{Zones} `{Network} `{Floats} `{FilePaths} {env : Environment} `{Disk} `{Requests} `{SqliteJson} `{Float64} `{SqliteReal} `{!FloatText} {sur : Surroundings} `{Urls}.
Context (cfg : Config) (build : string) (listens assets : bool) (w : world).

End Answers.

(** ** A run with one media file and one batch *)
Definition stored_config : Config := with_Paths life_config (MkPaths "/data").
#[export] Instance stored_own : OwnDirectories stored_config.
Proof. split; by intros n k fs. Qed.
#[local] Existing Instance roomy | 0.
Abbreviation inbox_world := (World (<["/" := Directory 0 0]> sample_inbox) empty_database [] 0).
Abbreviation inbox_boot := (boot stored_config "1.0" true false (Ok tt) inbox_world).
(** The start of media ingest and its first scan. *)
Definition media_run (s : system) : result media_error (module_state * module_state * world * world) :=
  match start_media stored_config (new_module stored_config) (world_of s) with
  | (Ok m, w1) => match media_pass stored_config m w1 with (Ok m', w2) => Ok (m, m', w1, w2) | (Err e, _) => Err e end
  | (Err e, _) => Err e
  end.
Lemma inbox_tables : tables_ok (w_db inbox_world).
Proof. split; by apply empty_table_ok. Qed.
Lemma inbox_custody : custody stored_config inbox_world.
Proof. split; [apply inbox_tables|intros r Hr; by apply elem_of_nil in Hr..]. Qed.
Lemma media_starts : exists h s0 m m' w1 w2, inbox_boot = Ok (h, s0) /\ sy_media s0 = MediaStarting (new_module stored_config) /\
  media_run s0 = Ok (m, m', w1, w2) /\ mg_Status m = ModuleHealthy /\ length (media_segments (w_db w2)) = 1%nat.
Proof.
  assert (Hs : rmap (fun x => match sy_media (snd x), media_run (snd x) with
      | MediaStarting m0, Ok (m, m', _, w) => Some (m0, mg_Status m, length (media_segments (w_db w)))
      | _, _ => None end) inbox_boot = Ok (Some (new_module stored_config, ModuleHealthy, 1%nat))) by (vm_compute; reflexivity).
  destruct inbox_boot as [[h s0]|code]; [|discriminate Hs]. cbn [rmap snd] in Hs.
  destruct (sy_media s0) as [m0| |] eqn:Em; [|discriminate Hs..].
  destruct (media_run s0) as [[[[m m'] w1] w2]|e] eqn:Er; [|discriminate Hs].
  injection Hs as E0 Eh El. subst m0. exists h, s0, m, m', w1, w2.
  exact (conj eq_refl (conj Em (conj Er (conj Eh El)))).
Qed.
Lemma media_run_steps h s0 m m' w1 w2 : sy_media s0 = MediaStarting (new_module stored_config) ->
  media_run s0 = Ok (m, m', w1, w2) -> mg_Status m = ModuleHealthy ->
  exists s, steps stored_config h s0 [Pass MediaTask; Pass MediaTask] s /\ world_of s = w2.
Proof.
  intros Em Er Eh. unfold media_run in Er. destruct (start_media _ _ _) as [[m1|e] v1] eqn:E1; [|discriminate Er].
  destruct (media_pass _ _ _) as [[m2|e] v2] eqn:E2; [|discriminate Er]. injection Er as -> -> -> ->.
  pose proof (step_media_start stored_config h s0 _ _ _ _ Em (rtc_refl _ _) E1) as H1. rewrite Eh in H1.
  change (String.eqb ModuleHealthy ModuleHealthy) with true in H1.
  match type of H1 with step _ _ _ _ ?x => set (s1 := x) in H1 end.
  pose proof (step_media stored_config h s1 _ First _ _ _ eq_refl ltac:(discriminate) (rtc_refl _ _) E2) as H2.
  eexists. split; [exact (steps_snoc _ _ _ [_] _ _ _ (steps_one _ _ _ _ _ H1) H2)|reflexivity].
Qed.

Lemma run_keeps_media_witness : exists h s0 s, inbox_boot = Ok (h, s0) /\
  steps stored_config h s0 [Pass MediaTask; Pass MediaTask] s /\ length (media_segments (db_of s)) = 1%nat /\
  forall r, r ∈ media_segments (db_of s) -> in_place stored_config (rval r) (w_files (world_of s)) \/
    announced stored_config (place stored_config (mm_SHA256 (rval r))) (db_of s).
Proof.
  destruct media_starts as (h & s0 & m & m' & w1 & w2 & E & Em & Er & Eh & El).
  destruct (media_run_steps h s0 m m' w1 w2 Em Er Eh) as (s & Hs & Ew).
  destruct (run_keeps_media stored_config "1.0" true false (Ok tt) inbox_world h s0 _ s inbox_custody E Hs) as [_ Hk].
  exists h, s0, s. split; [exact E|]. split; [exact Hs|]. split; [|exact Hk]. unfold db_of. fold (world_of s). rewrite Ew. exact El.
Defined.

(** A batch, and then a poll of the collector. *)
Lemma batch_starts : exists h s0 s1 s2 o w', inbox_boot = Ok (h, s0) /\ sy_run s0 = Serving /\
  sv_waiting (sy_server s0) = [] /\ sy_workers s0 = [(aw_collector, First)] /\
  begin stored_config h EventBatch (sv_state (sy_server s0)) batch_request = Ok s1 /\
  complete stored_config h EventBatch s1 batch_request (world_of s0) = (Ok (s2, o), w') /\ seen o = Some (200, "", 2%nat).
Proof.
  assert (Hs : rmap (fun x => match begin stored_config (fst x) EventBatch (sv_state (sy_server (snd x))) batch_request with
      | Ok s1 => match complete stored_config (fst x) EventBatch s1 batch_request (world_of (snd x)) with
                 | (Ok (_, o), _) => Some (sy_run (snd x), sv_waiting (sy_server (snd x)), sy_workers (snd x), seen o)
                 | _ => None end
      | _ => None end) inbox_boot = Ok (Some (Serving, [], [(aw_collector, First)], Some (200, "", 2%nat)))) by (vm_compute; reflexivity).
  destruct inbox_boot as [[h s0]|code]; [|discriminate Hs]. cbn [rmap fst snd] in Hs.
  destruct (begin stored_config h EventBatch _ batch_request) as [s1|] eqn:E1; [|discriminate Hs].
  destruct (complete stored_config h EventBatch s1 batch_request _) as [[[s2 o]|e] w'] eqn:E2; [|discriminate Hs].
  injection Hs as Er Ep Ew Eo. exists h, s0, s1, s2, o, w'.
  exact (conj eq_refl (conj Er (conj Ep (conj Ew (conj E1 (conj E2 Eo)))))).
Qed.
Lemma batch_steps h s0 s1 s2 o w' : sy_run s0 = Serving -> sv_waiting (sy_server s0) = [] ->
  begin stored_config h EventBatch (sv_state (sy_server s0)) batch_request = Ok s1 ->
  complete stored_config h EventBatch s1 batch_request (world_of s0) = (Ok (s2, o), w') -> o <> Hang ->
  exists s, steps stored_config h s0 [Api (Begun EventBatch batch_request); Api (Finished EventBatch batch_request o)] s /\
    sy_workers s = sy_workers s0.
Proof.
  intros Er Ep E1 E2 Ho. destruct s0 as [sv statuses ops m workers c r]. destruct sv as [st w p q]. cbn in Er, Ep, E1, E2 |- *. subst.
  eexists. split.
  - eapply (steps_snoc _ _ _ [_]); [apply steps_one, step_request; [by left|done|by apply serve_begin]|].
    eapply step_finish; [done|]. eapply (serve_finish _ _ _ _ _ _ _ _ [] []); [exact E2|exact Ho].
  - done.
Qed.

